(* ===== verification/_CoqProject ===== *)
-Q . S2P
Prelude.v
RustStr.v
Lock.v
Secret.v
Endpoint.v
Net.v
AddrText.v
Stream.v
Pipe.v
Process.v
Signaling.v
Socks5.v
Http.v
RoutedSet.v
DnsForward.v
Dial.v
Blocklist.v
Registry.v
Server.v
ServerProofs.v
ServerStream.v
ServerStreamProofs.v
Startup.v
Client.v
ClientProofs.v
EndToEnd.v
Bridge.v
Accept.v
ClientRun.v
ServerRun.v
LocalConn.v
Forward.v
ForwardProofs.v
PortForwards.v
Config.v
Ipc.v
IpcProofs.v
Session.v
SessionProofs.v
Panel.v
Nc.v
Cli.v
Command.v
DesktopStore.v
DesktopStoreProofs.v
DesktopServer.v
DesktopExport.v
Supervisor.v
SupervisorProofs.v
Controller.v
Paths.v
Ffi.v
FfiProofs.v
DesktopForms.v
DesktopFormsProofs.v
DesktopDataProofs.v
DesktopShell.v
DesktopShellProofs.v
DesktopState.v
DesktopApp.v
DesktopAppProofs.v
DesktopView.v
DesktopViewProofs.v
