(* ===== verification/Prelude.v ===== *)
(** * A verification of flextunnel

    flextunnel tunnels the connections of local applications over an
    authenticated QUIC connection (iroh) to a server that dials the targets, for
    the part of the address space the server routes. This library models the core
    crate ([crates/flextunnel-core/src]), and of the command-line and desktop
    programs and the C interface ([crates/flextunnel-cli/src],
    [crates/flextunnel-desktop/src], [crates/flextunnel-ffi/src]) the parts that keep
    state, as executable functions over explicit state, and proves what makes them
    correct. Paths below are relative to the crate's source directory.

    ** The program and its model

    - Foundations. [Prelude] (bytes, the [result] monad, big-endian numbers, stable
      sorting, tactics), [RustStr] (the string functions of the Rust library the
      program uses), [Net] (IP and socket addresses and their parsers), [AddrText]
      (how addresses print), [Stream]
      (I/O errors, [error.rs], byte streams, the state-and-error monad [M]: the
      state survives an error, so what was written before an early return shows).
    - Wire protocol, [Signaling] ([proxy/signaling.rs]): handshake messages, length
      prefixed framing, the binary request header and reply. [serde_json] is the
      class [Json]; its round trip is [JsonLaws].
    - Front ends, [Socks5] ([proxy/socks5.rs], both ends) and [Http]
      ([proxy/http.rs]: request heads, authorities, rewriting to origin form).
    - Routing, [RoutedSet] ([proxy/routed_set.rs], [proxy/reserved.rs]) and
      [DnsForward] ([proxy/dns_forward.rs]); the [ipnetwork] crate and the resolver
      are the classes [IpNetworkApi] and [ResolverApi].
    - Dialing, [Dial] ([proxy/dial.rs]): the network is the class [NetEnv]; a
      handler runs on a [Conn], a stream and the log of its outward actions, which
      is what the safety theorems speak of.
    - Server. [Blocklist] ([blocklist.rs], files as a map with injected faults),
      [Registry] (the client and bridge registries of [proxy/server.rs], their
      guards, the server heartbeat, and the step relation of all interleavings of
      registrations, reads, heartbeats, timeouts and teardowns), [Server] (the connection
      handler: authentication, duplicates, self-block, session, and the allowlist
      hook of [transport/endpoint.rs]; keys and ids are the class [Identity]),
      [ServerStream] (aliases, bridges, reserved names, the status page's framing,
      the stream handler), [Startup] ([server.rs]: [prepare]), [ServerRun] (the accept
      loop [ProxyServer::run] and [serve] around it: permits, shutdown, bridge tasks).
    - Client ([proxy/client.rs]). [Client] (backoff, duplicate-server tracker,
      handshake, the reconnect loop, heartbeats), [LocalConn] (one local connection
      from its request to its answer), [Accept] (the accept loops, TCP and Unix, as a state
      machine), [ClientRun] (a session's task: the manager and the loops of its front
      ends, the first that ends ends it), [Endpoint] ([transport/endpoint.rs]: the
      endpoint handle several callers share, with its rebuilds as steps between awaits,
      each of which may be dropped). The reconnect loop's environment (clock, jitter, network, wake-ups, server
      bytes) is an input per iteration, and every write to the state the accept
      loops read is logged in order, so that a moment of a run is a prefix.
    - Bridges, [Bridge] ([proxy/bridge.rs]).
    - Identity and exclusion. [Secret] ([secret.rs]: loading, generating and writing key
      files, a file being its mode and text over the states it takes; keys and base64 are
      the class [SecretApi], used by the desktop models too), [Lock] ([lock.rs] and the
      server lock of [server.rs]: lock files and the advisory locks the system gives).
    - Port forwards. [Forward] ([proxy/forward.rs]: the two listeners of a forward,
      its accept loop and relays as a state machine of events, and the manager that
      reconciles the running forwards with a wanted list), [PortForwards]
      ([forwards.rs]: the user's forwards, their validation, switching failed ones off).
    - Configuration, [Config] ([config.rs]): TOML files as parsed records, defaults,
      the checks of [resolve_server] and [resolve_client]; the machine's directories
      are the class [ConfigEnv].
    - Command line (crate cli). [Ipc] ([ipc.rs]: the control socket, its lines and
      answers, netcat tunnels and their frames, how the Unix socket is set up),
      [Pipe] ([pipe_security.rs] and the pipe of [ipc.rs]: the same channel on Windows,
      beside other users; the system is the class [Pipes]), [Session]
      ([client_session.rs], [instance.rs], [prompt.rs], [tui/mod.rs]: a
      running client's state machine, its status rows, and the panel's keys), [Panel]
      ([tui/mod.rs], [tui/view.rs]: the panel's loop and screen, lines of styled spans in
      the rectangles of the class [PanelLayout]), [Nc] ([nc.rs]: the relay of the standard
      streams), [Cli] ([main.rs]: flags to configuration, starting a server, its life and
      end), [Command] ([main.rs]: the commands, what clap refuses of them, the dispatch;
      the starts of a client session).
    - Process set-up, [Process] ([app.rs] of the core: the open-file limit, the signals).
    - Desktop (crate desktop). [DesktopStore] ([config.rs]: the store file, the sealed
      secrets, the master key in the keychain, what loading drops), [DesktopExport]
      (profiles to JSON and back), [Supervisor] ([tunnel.rs], [server_session.rs]: the
      supervisor's loop and one thread per session, every interleaving of their steps),
      [Controller] (the window's side of the command channel), [DesktopServer]
      ([server_session.rs]: the options of the core server).
    - Connection paths, [Paths] ([transport/paths.rs]): kinds and texts of paths, the
      probe of custom relays, the snapshot of a connection, the watcher.
    - C interface (crate ffi), [Ffi] ([lib.rs]): the calls over a memory of bytes, a
      handle as the state of one instance, and the process with its guard, where a start
      and a stop are two steps each so that calls of several threads interleave.
      [serde_json] is the class [JsonText], keys are [ClientKeyApi] and [SecretKeys].
    - Desktop application ([app.rs], [view.rs]). [DesktopForms] (the
      seven forms and their validation, port ownership, name numbering, the merge of
      imported profiles), [DesktopState] (the messages, the state in three records: what
      is persisted, the forms and guards, the rest; and the [Desk], the application with
      the machine it saves to and the commands it has sent), [DesktopApp] (the launch and
      [update], one function per handler; what a message meets outside, random ids,
      snapshots, dialogs, clipboard, is its [Answers]), [DesktopView] (the window as a tree
      of widgets: texts, values, controls with their messages, overlays; a panic is [None]).
    - Desktop shell, [DesktopShell] ([tray.rs], [logging.rs], [autostart.rs]): tray lines
      and the incremental sync of native items, the log ring and its rotated files, the
      login item on both systems.

    The theorems on a component are in its file or in the file of the same name with
    [Proofs] added ([DesktopDataProofs] has those on the application's lists);
    [EndToEnd] composes the client's and the server's models through
    the bytes they exchange.

    ** What is proved

    - Safety of the server: whatever a stream asks for, the handler only dials,
      resolves or bridges what the routed set allows (or the loopback name), and a
      bridged stream is never bridged on ([ServerStreamProofs]); authentication
      binds key, signature and TLS identity, and only an authenticated, unblocked
      client can change the blocklist or stop the server; every exit of a handler
      restores the registries ([ServerProofs]); in every interleaving a second process
      is registered under an id only beside connections that were unheard for a whole
      liveness window ([Registry]).
    - Safety of the client: a routed or reserved target only ever goes over the
      tunnel, and nothing is done before a policy is known ([LocalConn]); a visible
      connection implies a visible policy at every moment ([ClientProofs]); a forwarded
      request is the application's own, rewritten, and nothing it sends adds a line to
      it for a strict or a lenient recipient ([Http]).
    - Agreement of the ends: handshake, split of the traffic, heartbeats, requests,
      replies, bridges ([EndToEnd], [ClientProofs], [Signaling], [Socks5], [Bridge]).
    - Duplicate identities, from the reappearing nonce to the refused restart
      ([ClientProofs], [EndToEnd], [ServerProofs], [Startup]).
    - Functional correctness of the matchers and tables: the routed set implements
      its rule language, the configuration checks are exact, aliases and DNS zones
      resolve by longest match ([RoutedSet], [ServerStreamProofs], [DnsForward]).
    - Bounds and progress: one reply per request, retry cap, rebuild schedule, beat
      cadence, connection caps, the bridge loop ([Dial], [LocalConn],
      [ClientProofs], [Accept], [Bridge]).
    - Loops and handles: a self-block is never lost and ends the accept loop at the first
      pass in which no connection waits or the [select!] takes the shutdown, even when
      every permit was taken, and at most 1024 connections are handled ([ServerRun]); a session ends with
      its manager or with a front end that cannot be bound again, never because one was
      closed ([ClientRun]); rebuilds of the endpoint coalesce, one per generation, and no
      endpoint is lost unless a call is dropped halfway ([Endpoint]).
    - Identities: a key file is closed to others in every state it takes and loads as
      what was generated ([Secret]); one server process per identity ([Lock]).
    - Port forwards: a reconciled manager runs exactly what is wanted, no accepted
      connection is lost, slots come back, and a status says what is bound
      ([ForwardProofs], [PortForwards]).
    - Configuration: an accepted configuration is well-formed, and does not depend on
      the order of its tables ([Config]).
    - Command line: every control request is answered in order, a netcat tunnel carries
      bytes exactly, nothing but loopback is bound, a session's rows follow its forwards
      ([IpcProofs], [SessionProofs]), a quick server admits one client ([Cli]), quick mode
      uses nothing saved but the blocklist and two copied ids pair its ends ([Command]),
      [client nc] carries its input to the target and the target's bytes back, on both sides
      of the control socket, and ends with the far side ([Nc]), the panel changes nothing and every
      line can be scrolled to where there is room ([Panel]), the pipe on Windows stays its
      user's ([Pipe]).
    - Desktop: what is saved is loaded, the file shows no secret, a loaded store is
      well-formed whatever the file holds ([DesktopStoreProofs], [DesktopExport]); one
      server session at a time, one open client session per server, snapshots that tell
      the truth, stops that reach their session, and restarts that complete
      ([SupervisorProofs]); commands arrive once and in
      order ([Controller]); the server it starts
      admits exactly the clients of its list ([DesktopServer]).
    - Desktop application, over every sequence of messages: the data stay storable; a
      restart shows what was shown; a store that could not be read stays on disk until
      its user gives it up; nothing is deleted in one click; a revoked client is off the
      list on disk and cut off down to the supervisor's session, but for one race there
      ([DesktopAppProofs], on the lemmas of
      [DesktopFormsProofs] and [DesktopDataProofs]). The tray shows what it was given,
      the log stays within its bounds, the login item reads back ([DesktopShellProofs]).
      Every control the window offers sends a message that makes sense and an offered save
      stores what its form says; no secret reaches the screen ([DesktopViewProofs]).
    - C interface: one instance per process in every interleaving, no write outside a
      caller's buffer, forwards taken whole or refused with a reason, documents that read
      back ([FfiProofs]).
    - Where the code does not do what its comments say, a theorem on a concrete run
      shows it (named in the text beside it).

    ** Bounds and fuel

    Loops over input recurse on the input itself (a stream's bytes, a list of
    reads, of iterations, of addresses). The few loops with fuel are given the
    length of what they consume and remove at least one byte a round
    ([Http.header_lines_enough] and [Http.from_utf8_lossy_valid] show it for the
    header loop and the lossy decoder; the trimming loops of [RustStr] strip a
    nonempty pattern or stop; the control socket's line loop and frame loop consume
    what they are given; a prompt takes one line a round). The numbering of imported
    names tries one number more than there are names ([DesktopFormsProofs.unique_name_spec]
    shows a free one is found); the search for a free port stops at 65535 as the code does.
    Integers are [Z]; widths are written out where the program can reach them (the
    wrapping heartbeat sequence, saturating bridge attempts, 16-bit ports, 32-bit
    frame lengths). The client's 32-bit attempt counter is not wrapped: with
    backoffs of up to a minute it does not reach its bound.

    ** What is not modelled

    Concurrency inside one handler is resolved by the environment (which branch of
    a [select!] wins, whether a timeout fires); bytes piped after a success reply
    are one event. A stream's flush adds nothing to what was written and is left out
    (the output's flush in [Nc] is not). What is logged and metrics are left out. Endpoint construction and
    relays are iroh's. Of the programs: how clap reads the argument text, the printed help
    and start-up texts, the Windows branch of the key files (no modes), the logger and the
    runtime of [app.rs], and of what is drawn the pixels: the desktop's icons and styles
    (windows are their identities; sizes, fonts and spacing of the desktop's widgets and the
    macOS activation policy are left out), the borders of the panel. The login item is a model of its own: to the
    application it is the answer it gets. *)

From Stdlib Require Export ZArith Lia.
From Stdlib Require Export Strings.Byte.
From stdpp Require Export base tactics list gmap strings sorting.

#[export] Set Warnings "-clear-no-such-hyp".
#[global] Open Scope Z_scope.

(** ** Bytes

    A Rust [u8] is [Byte.byte]; [Vec<u8>], [&[u8]], [String] and [&str] are
    lists of bytes (a [String] additionally satisfies [RustStr.utf8_valid]). *)

Abbreviation bytes := (list byte).

#[export] Instance byte_eq_decision : EqDecision byte := Byte.byte_eq_dec.

#[export] Program Instance byte_countable : Countable byte :=
  inj_countable' Byte.to_N (fun n => default x00 (Byte.of_N n)) _.
Next Obligation. intros b. simpl. by rewrite Byte.of_to_N. Qed.

(** The unsigned value of a byte, and the byte of a value (wrapping, as the
    Rust cast [as u8] does). *)
Definition u8 (b : byte) : Z := Z.of_N (Byte.to_N b).

Definition b8 (z : Z) : byte := default x00 (Byte.of_N (Z.to_N (z mod 256))).

(** A string literal of the source as its UTF-8 bytes. *)
Definition str (s : string) : bytes := String.list_byte_of_string s.

Definition CRLF : bytes := [x0d; x0a].

(** ** Results

    [Result<T, E>]: fallible code returns a value of this sum. *)

Inductive result (E A : Type) : Type :=
| Ok (a : A)
| Err (e : E).
Arguments Ok {E A} a.
Arguments Err {E A} e.

#[export] Instance result_ret {E} : MRet (result E) := fun A a => Ok a.
#[export] Instance result_bind {E} : MBind (result E) := fun A B f r =>
  match r with Ok a => f a | Err e => Err e end.
#[export] Instance result_fmap {E} : FMap (result E) := fun A B f r =>
  match r with Ok a => Ok (f a) | Err e => Err e end.

Definition map_err {E F A} (f : E -> F) (r : result E A) : result F A :=
  match r with Ok a => Ok a | Err e => Err (f e) end.

Definition ok_or {E A} (o : option A) (e : E) : result E A :=
  match o with Some a => Ok a | None => Err e end.

Definition is_ok {E A} (r : result E A) : bool :=
  match r with Ok _ => true | Err _ => false end.

(** ** Tactics and hint databases *)

Create HintDb ft discriminated.
Create Rewrite HintDb ft.

(** [destruct_match] splits the scrutinee of a [match] in the goal or a
    hypothesis, keeping the equation. *)
Ltac destruct_match :=
  match goal with
  | |- context [match ?x with _ => _ end] => destruct x eqn:?
  | H : context [match ?x with _ => _ end] |- _ => destruct x eqn:?
  end.

(** [simp_bool] turns boolean tests of the model into propositions. *)
Ltac simp_bool :=
  repeat first
    [ progress simplify_eq/=
    | rewrite andb_true_iff in * | rewrite orb_true_iff in *
    | rewrite andb_false_iff in * | rewrite orb_false_iff in *
    | rewrite negb_true_iff in * | rewrite negb_false_iff in *
    | rewrite bool_decide_eq_true in * | rewrite bool_decide_eq_false in *
    | rewrite Z.eqb_eq in * | rewrite Z.eqb_neq in *
    | rewrite Z.ltb_lt in * | rewrite Z.ltb_ge in *
    | rewrite Z.leb_le in * | rewrite Z.leb_gt in *
    | rewrite existsb_exists in * | rewrite forallb_forall in * ].

(** ** Lemmas on bytes *)

Lemma u8_range b : 0 <= u8 b < 256.
Proof.
  unfold u8. pose proof (Byte.to_N_bounded b) as H. lia.
Qed.
#[export] Hint Resolve u8_range : ft.

Lemma b8_u8 b : b8 (u8 b) = b.
Proof.
  unfold b8. rewrite Z.mod_small by apply u8_range.
  unfold u8. by rewrite N2Z.id, Byte.of_to_N.
Qed.

Lemma u8_b8 z : u8 (b8 z) = z mod 256.
Proof.
  unfold b8, u8. pose proof (Z.mod_pos_bound z 256 eq_refl) as Hz.
  destruct (Byte.of_N (Z.to_N (z mod 256))) as [b|] eqn:Hb; simpl.
  - apply Byte.to_of_N in Hb. rewrite Hb. lia.
  - apply Byte.of_N_None_iff in Hb. lia.
Qed.

Lemma u8_b8_small z : 0 <= z < 256 -> u8 (b8 z) = z.
Proof. intros Hz. rewrite u8_b8. by apply Z.mod_small. Qed.

Lemma u8_inj a b : u8 a = u8 b -> a = b.
Proof. intros H. by rewrite <- (b8_u8 a), <- (b8_u8 b), H. Qed.

#[export] Hint Rewrite b8_u8 : ft.
#[export] Hint Rewrite u8_b8_small using (first [assumption | lia]) : ft.

(** ** Big-endian integers

    [to_be_bytes]/[from_be_bytes] of the [n]-byte unsigned integers. *)

Fixpoint to_be (n : nat) (z : Z) : bytes :=
  match n with
  | O => []
  | S n' => b8 (z / 256 ^ Z.of_nat n') :: to_be n' z
  end.

Fixpoint from_be_acc (acc : Z) (bs : bytes) : Z :=
  match bs with
  | [] => acc
  | b :: bs' => from_be_acc (acc * 256 + u8 b) bs'
  end.

Definition from_be (bs : bytes) : Z := from_be_acc 0 bs.

Lemma length_to_be n z : length (to_be n z) = n.
Proof. induction n; simpl; congruence. Qed.
#[export] Hint Rewrite length_to_be : ft.

Lemma from_be_acc_linear bs acc :
  from_be_acc acc bs = acc * 256 ^ Z.of_nat (length bs) + from_be bs.
Proof.
  unfold from_be. revert acc. induction bs as [|b bs IH]; intros acc; simpl.
  - lia.
  - rewrite (IH (acc * 256 + u8 b)), (IH (0 * 256 + u8 b)).
    rewrite Nat2Z.inj_succ, Z.pow_succ_r by lia. ring.
Qed.

Lemma from_be_range bs : 0 <= from_be bs < 256 ^ Z.of_nat (length bs).
Proof.
  induction bs as [|b bs IH]; simpl.
  - unfold from_be; simpl; lia.
  - unfold from_be; simpl. rewrite from_be_acc_linear.
    rewrite Nat2Z.inj_succ, Z.pow_succ_r by lia.
    pose proof (u8_range b). nia.
Qed.
#[export] Hint Resolve from_be_range : ft.

Lemma from_be_to_be n z : from_be (to_be n z) = z mod 256 ^ Z.of_nat n.
Proof.
  induction n as [|n IH]; simpl.
  - unfold from_be; simpl. by rewrite Z.mod_1_r.
  - unfold from_be; simpl. rewrite from_be_acc_linear, IH, length_to_be, u8_b8.
    rewrite Nat2Z.inj_succ, Z.pow_succ_r by lia.
    rewrite (Z.mul_comm 256), Z.rem_mul_r by lia. lia.
Qed.

Lemma from_be_to_be_small n z :
  0 <= z < 256 ^ Z.of_nat n -> from_be (to_be n z) = z.
Proof. intros Hz. rewrite from_be_to_be. by apply Z.mod_small. Qed.


Lemma to_be_mod n z k :
  (n <= k)%nat -> to_be n (z mod 256 ^ Z.of_nat k) = to_be n z.
Proof.
  induction n as [|n IH]; intros Hk; simpl; [done|].
  rewrite IH by lia. f_equal.
  apply u8_inj. rewrite !u8_b8.
  replace (Z.of_nat k) with (Z.of_nat n + (1 + Z.of_nat (k - n - 1))) by lia.
  rewrite !Z.pow_add_r by lia. rewrite Z.pow_1_r.
  rewrite Z.rem_mul_r by (first [lia | apply Z.mul_pos_pos; lia]).
  rewrite (Z.mul_comm (256 ^ Z.of_nat n)), Z.div_add by lia.
  rewrite (Z.div_small (z mod _)) by (apply Z.mod_pos_bound; lia).
  rewrite Z.add_0_l, Z.rem_mul_r by lia.
  rewrite (Z.mul_comm 256), Z.mod_add by lia.
  apply Z.mod_mod. lia.
Qed.

Lemma to_be_from_be bs : to_be (length bs) (from_be bs) = bs.
Proof.
  induction bs as [|b bs IH]; simpl; [done|].
  pose proof (from_be_range bs) as Hr.
  unfold from_be; simpl. rewrite from_be_acc_linear, Z.mul_0_l, Z.add_0_l.
  f_equal.
  - rewrite Z.div_add_l, Z.div_small, Z.add_0_r by lia. apply b8_u8.
  - rewrite <- (to_be_mod _ _ (length bs)) by lia.
    rewrite Z.add_comm, Z.mod_add, Z.mod_small by lia. exact IH.
Qed.

Lemma to_be_from_be_len n bs : length bs = n -> to_be n (from_be bs) = bs.
Proof. intros <-. apply to_be_from_be. Qed.

#[global] Opaque to_be from_be str.

(** [bdec] decides the closed equality tests of the goal. *)
Ltac bdec :=
  repeat first [ rewrite bool_decide_true by done | rewrite bool_decide_false by done ];
  cbn [negb].

(** ** Orders and stable sorting

    [slice::sort_by] is a stable sort; [isort] is its reference definition. *)

(** [Ord] of [String] and [&str]: bytewise lexicographic. *)
Fixpoint bytes_le (a b : bytes) : bool :=
  match a, b with
  | [], _ => true
  | _ :: _, [] => false
  | x :: a', y :: b' => if u8 x <? u8 y then true
                        else if u8 y <? u8 x then false else bytes_le a' b'
  end.

Lemma bytes_le_total a b : bytes_le a b = true \/ bytes_le b a = true.
Proof.
  revert b. induction a as [|x a IH]; intros [|y b]; simpl; auto.
  destruct (Z.ltb_spec (u8 x) (u8 y)), (Z.ltb_spec (u8 y) (u8 x)); auto.
Qed.

Lemma bytes_le_antisym a b : bytes_le a b = true -> bytes_le b a = true -> a = b.
Proof.
  revert b. induction a as [|x a IH]; intros [|y b]; simpl; try done.
  destruct (Z.ltb_spec (u8 x) (u8 y)), (Z.ltb_spec (u8 y) (u8 x)); try done; try lia.
  intros H1 H2. f_equal; [apply u8_inj; lia | auto].
Qed.

Lemma bytes_le_trans a b c : bytes_le a b = true -> bytes_le b c = true -> bytes_le a c = true.
Proof.
  revert b c. induction a as [|x a IH]; intros [|y b] [|z c]; simpl; try done.
  destruct (Z.ltb_spec (u8 x) (u8 y)), (Z.ltb_spec (u8 y) (u8 x)),
    (Z.ltb_spec (u8 y) (u8 z)), (Z.ltb_spec (u8 z) (u8 y)),
    (Z.ltb_spec (u8 x) (u8 z)), (Z.ltb_spec (u8 z) (u8 x)); try done; try lia.
  eauto.
Qed.

Section isort.
Context {A : Type} (le : A -> A -> bool).

Fixpoint insert_sorted (x : A) (l : list A) : list A :=
  match l with
  | [] => [x]
  | y :: l' => if le x y then x :: y :: l' else y :: insert_sorted x l'
  end.

Definition isort (l : list A) : list A := foldr insert_sorted [] l.

Definition le_rel (x y : A) : Prop := le x y = true.

Lemma insert_sorted_perm x l : insert_sorted x l ≡ₚ x :: l.
Proof.
  induction l as [|y l IH]; simpl; [done|]. destruct (le x y); [done|].
  rewrite IH. apply Permutation_swap.
Qed.

Lemma isort_perm l : isort l ≡ₚ l.
Proof. induction l as [|x l IH]; simpl; [done|]. by rewrite insert_sorted_perm, IH. Qed.

Context (le_total : forall x y, le x y = true \/ le y x = true).
Context (le_trans : forall x y z, le x y = true -> le y z = true -> le x z = true).

Lemma insert_sorted_sorted x l :
  StronglySorted le_rel l -> StronglySorted le_rel (insert_sorted x l).
Proof.
  induction 1 as [|y l Hl IH Hy]; simpl; [by repeat constructor|].
  destruct (le x y) eqn:Hxy.
  - constructor; [by constructor|]. constructor; [done|].
    eapply Forall_impl; [exact Hy|]. intros z. by apply le_trans.
  - constructor; [done|]. rewrite insert_sorted_perm. constructor; [|done].
    destruct (le_total x y) as [|]; [congruence|done].
Qed.

Lemma isort_sorted l : StronglySorted le_rel (isort l).
Proof. induction l as [|x l IH]; simpl; [constructor|by apply insert_sorted_sorted]. Qed.
End isort.

(** A sorted permutation is unique when the order is antisymmetric on it. *)
Lemma sorted_perm_unique {A} (R : A -> A -> Prop) l k :
  (forall x y, x ∈ l -> y ∈ l -> R x y -> R y x -> x = y) ->
  StronglySorted R l -> StronglySorted R k -> l ≡ₚ k -> l = k.
Proof.
  intros Hanti Hl. revert k Hanti.
  induction Hl as [|x l Hl IH Hx]; intros k Hanti Hk Hp.
  - by apply Permutation_nil_l in Hp as ->.
  - destruct Hk as [|y k Hk Hy]; [by apply Permutation_nil_r in Hp|].
    rewrite Forall_forall in Hx, Hy.
    assert (x = y) as ->.
    { assert (y ∈ x :: l) as Hyl by (rewrite Hp; left).
      assert (x ∈ y :: k) as Hxk by (rewrite <- Hp; left).
      apply elem_of_cons in Hyl as [->|Hyl]; [done|].
      apply elem_of_cons in Hxk as [->|Hxk]; [done|].
      apply Hanti; [by left|by right|by apply Hx|by apply Hy]. }
    f_equal. apply IH; [|done|by apply Permutation_cons_inv in Hp].
    intros a b Ha Hb. apply Hanti; by right.
Qed.
