(* ===== verification/RustStr.v ===== *)
(** * The parts of Rust's [str], [\[u8\]] and integer parsing the program uses

    [String]/[&str] and byte slices are lists of bytes. A value of type
    [String] satisfies [utf8_valid]; the functions below are the standard
    library's, read off their documentation, on those bytes. Since every
    pattern the program searches for is ASCII or a whole code point, working
    on the bytes gives the same result as working on [char]s. *)

From S2P Require Import Prelude.

(** ** ASCII case *)

Definition is_ascii_uppercase (b : byte) : bool := (65 <=? u8 b) && (u8 b <=? 90).

Definition to_lower (b : byte) : byte :=
  if is_ascii_uppercase b then b8 (u8 b + 32) else b.

Definition to_ascii_lowercase (s : bytes) : bytes := map to_lower s.

Definition eq_ignore_ascii_case (a b : bytes) : bool :=
  bool_decide (to_ascii_lowercase a = to_ascii_lowercase b).

Definition is_ascii_control (b : byte) : bool := (u8 b <? 32) || (u8 b =? 127).

Definition is_ascii_digit (b : byte) : bool := (48 <=? u8 b) && (u8 b <=? 57).

Definition is_ascii_alphanumeric (b : byte) : bool :=
  is_ascii_digit b || is_ascii_uppercase b || ((97 <=? u8 b) && (u8 b <=? 122)).

(** [u8::is_ascii_whitespace]: SPACE, TAB, LF, FF, CR. *)
Definition is_ascii_whitespace (b : byte) : bool :=
  bool_decide (b ∈ [x20; x09; x0a; x0c; x0d]).

(** ** Prefixes and suffixes *)

Fixpoint strip_prefix (p s : bytes) : option bytes :=
  match p, s with
  | [], _ => Some s
  | a :: p', b :: s' => if decide (a = b) then strip_prefix p' s' else None
  | _ :: _, [] => None
  end.

Definition strip_suffix (p s : bytes) : option bytes :=
  reverse <$> strip_prefix (reverse p) (reverse s).

Definition starts_with (s p : bytes) : bool := bool_decide (is_Some (strip_prefix p s)).
Definition ends_with (s p : bytes) : bool := bool_decide (is_Some (strip_suffix p s)).

Definition contains (c : byte) (s : bytes) : bool := bool_decide (c ∈ s).

(** ** Splitting *)

(** [s.split(c)] for a one-byte separator: the pieces between separators. *)
Fixpoint split (c : byte) (s : bytes) : list bytes :=
  match s with
  | [] => [[]]
  | b :: s' =>
      if decide (b = c) then [] :: split c s'
      else match split c s' with
           | [] => [[b]]
           | w :: ws => (b :: w) :: ws
           end
  end.

(** [s.split_once(c)]: around the first separator. *)
Fixpoint split_once (c : byte) (s : bytes) : option (bytes * bytes) :=
  match s with
  | [] => None
  | b :: s' =>
      if decide (b = c) then Some ([], s')
      else match split_once c s' with
           | Some (l, r) => Some (b :: l, r)
           | None => None
           end
  end.

(** [s.rsplit_once(c)]: around the last separator. *)
Definition rsplit_once (c : byte) (s : bytes) : option (bytes * bytes) :=
  match split_once c (reverse s) with
  | Some (l, r) => Some (reverse r, reverse l)
  | None => None
  end.

(** [s.find(pred)], as the pair of the text before the first byte that
    satisfies [p] and the text from it on. *)
Fixpoint find_split (p : byte -> bool) (s : bytes) : option (bytes * bytes) :=
  match s with
  | [] => None
  | b :: s' =>
      if p b then Some ([], b :: s')
      else match find_split p s' with
           | Some (l, r) => Some (b :: l, r)
           | None => None
           end
  end.

(** The first CRLF of [s] ([windows(2).position(|w| w == b"\r\n")]): the text
    before it and the text after it. *)
Fixpoint split_crlf (s : bytes) : option (bytes * bytes) :=
  match s with
  | [] => None
  | b :: s' =>
      match strip_prefix CRLF s with
      | Some r => Some ([], r)
      | None => match split_crlf s' with
                | Some (l, r) => Some (b :: l, r)
                | None => None
                end
      end
  end.

(** ** Trimming *)

(** The UTF-8 encodings of the code points with the Unicode property
    [White_Space], which [str::trim] removes. *)
Definition white_space : list bytes :=
  [[x09]; [x0a]; [x0b]; [x0c]; [x0d]; [x20]; [xc2; x85]; [xc2; xa0]; [xe1; x9a; x80];
   [xe2; x80; x80]; [xe2; x80; x81]; [xe2; x80; x82]; [xe2; x80; x83]; [xe2; x80; x84];
   [xe2; x80; x85]; [xe2; x80; x86]; [xe2; x80; x87]; [xe2; x80; x88]; [xe2; x80; x89];
   [xe2; x80; x8a]; [xe2; x80; xa8]; [xe2; x80; xa9]; [xe2; x80; xaf]; [xe2; x81; x9f];
   [xe3; x80; x80]].

(** Strip one leading pattern of [ps], if there is one. *)
Fixpoint strip_any (ps : list bytes) (s : bytes) : option bytes :=
  match ps with
  | [] => None
  | p :: ps' => match strip_prefix p s with
                | Some r => Some r
                | None => strip_any ps' s
                end
  end.

(** Strip leading patterns until none matches; every pattern is nonempty, so
    [length s] rounds are enough. *)
Fixpoint strip_while (fuel : nat) (ps : list bytes) (s : bytes) : bytes :=
  match fuel with
  | O => s
  | S fuel' => match strip_any ps s with
               | Some r => strip_while fuel' ps r
               | None => s
               end
  end.

Definition trim_start (s : bytes) : bytes := strip_while (length s) white_space s.
Definition trim_end (s : bytes) : bytes :=
  reverse (strip_while (length s) (map reverse white_space) (reverse s)).
Definition trim (s : bytes) : bytes := trim_end (trim_start s).

(** [s.trim_matches(c)] for a one-byte [c]. *)
Fixpoint trim_start_matches (c : byte) (s : bytes) : bytes :=
  match s with
  | b :: s' => if decide (b = c) then trim_start_matches c s' else s
  | [] => []
  end.
Definition trim_matches (c : byte) (s : bytes) : bytes :=
  reverse (trim_start_matches c (reverse (trim_start_matches c s))).

(** [\[u8\]::trim_ascii_end]. *)
Fixpoint drop_while (p : byte -> bool) (s : bytes) : bytes :=
  match s with
  | b :: s' => if p b then drop_while p s' else s
  | [] => []
  end.
Definition trim_ascii_end (s : bytes) : bytes :=
  reverse (drop_while is_ascii_whitespace (reverse s)).

(** ** UTF-8 ([std::str::from_utf8]) *)

Definition utf8_cont (b : byte) : bool := (128 <=? u8 b) && (u8 b <=? 191).

(** The range of the second byte of a three- or four-byte sequence with
    leading byte [x]: no overlong forms, no surrogates, nothing past U+10FFFF. *)
Definition utf8_second (x : Z) (b : byte) : bool :=
  let lo := if x =? 224 then 160 else if x =? 240 then 144 else 128 in
  let hi := if x =? 237 then 159 else if x =? 244 then 143 else 191 in
  (lo <=? u8 b) && (u8 b <=? hi).

Fixpoint utf8_valid (s : bytes) : bool :=
  match s with
  | [] => true
  | b0 :: s1 =>
      let x := u8 b0 in
      if x <? 128 then utf8_valid s1
      else if (194 <=? x) && (x <=? 223) then
        match s1 with
        | b1 :: s2 => utf8_cont b1 && utf8_valid s2
        | _ => false
        end
      else if (224 <=? x) && (x <=? 239) then
        match s1 with
        | b1 :: b2 :: s3 => utf8_second x b1 && utf8_cont b2 && utf8_valid s3
        | _ => false
        end
      else if (240 <=? x) && (x <=? 244) then
        match s1 with
        | b1 :: b2 :: b3 :: s4 =>
            utf8_second x b1 && utf8_cont b2 && utf8_cont b3 && utf8_valid s4
        | _ => false
        end
      else false
  end.

(** ** Decimal integers *)

Definition digit (b : byte) : option Z :=
  if is_ascii_digit b then Some (u8 b - 48) else None.

(** The accumulation loop of [from_str_radix(10)] with its overflow check. *)
Fixpoint parse_digits (max acc : Z) (s : bytes) : option Z :=
  match s with
  | [] => Some acc
  | b :: s' =>
      match digit b with
      | Some d => if acc * 10 + d <=? max then parse_digits max (acc * 10 + d) s' else None
      | None => None
      end
  end.

(** [str::parse] for the unsigned integer type whose largest value is [max]:
    one optional leading plus sign, then at least one digit. *)
Definition parse_uint (max : Z) (s : bytes) : option Z :=
  match s with
  | [] => None
  | b :: s' =>
      if decide (b = x2b) then
        match s' with [] => None | _ => parse_digits max 0 s' end
      else parse_digits max 0 s
  end.

Definition U16_MAX : Z := 65535.
Definition parse_u16 (s : bytes) : option Z := parse_uint U16_MAX s.

(** [{}] on an unsigned integer. A number below [10 ^ fuel] has at most [fuel]
    digits; 39 digits hold every [u128]. *)
Fixpoint dec_fuel (fuel : nat) (z : Z) : bytes :=
  match fuel with
  | O => []
  | S fuel' => if z <? 10 then [b8 (48 + z)]
               else dec_fuel fuel' (z / 10) ++ [b8 (48 + z mod 10)]
  end.
Definition dec (z : Z) : bytes := dec_fuel 39 z.

(** [<[String]>::join]. *)
Fixpoint join (sep : bytes) (l : list bytes) : bytes :=
  match l with
  | [] => []
  | [s] => s
  | s :: l' => s ++ sep ++ join sep l'
  end.

(** ** Lemmas: case *)

Lemma to_lower_idem b : to_lower (to_lower b) = to_lower b.
Proof. by destruct b. Qed.

Lemma to_ascii_lowercase_idem s :
  to_ascii_lowercase (to_ascii_lowercase s) = to_ascii_lowercase s.
Proof.
  unfold to_ascii_lowercase. rewrite map_map. apply map_ext. apply to_lower_idem.
Qed.

Lemma to_ascii_lowercase_app a b :
  to_ascii_lowercase (a ++ b) = to_ascii_lowercase a ++ to_ascii_lowercase b.
Proof. apply map_app. Qed.

Lemma length_to_ascii_lowercase s : length (to_ascii_lowercase s) = length s.
Proof. apply length_map. Qed.

Lemma eq_ignore_ascii_case_true a b :
  eq_ignore_ascii_case a b = true <-> to_ascii_lowercase a = to_ascii_lowercase b.
Proof. apply bool_decide_eq_true. Qed.

(** A lower-cased text without letters was that text already. *)
Lemma lower_caseless h s :
  Forall (fun c => negb ((97 <=? u8 c) && (u8 c <=? 122)) = true) s ->
  to_ascii_lowercase h = s -> h = s.
Proof.
  intros Hs. revert h. induction Hs as [|c s Hc Hs IH]; intros [|b h]; simpl; [done..|].
  intros [= Hb Hh]. rewrite (IH h Hh). f_equal.
  revert Hb. unfold to_lower, is_ascii_uppercase. pose proof (u8_range b).
  destruct ((65 <=? u8 b) && _) eqn:Hu; [|by intros <-]. intros <-. rewrite u8_b8_small in Hc by lia. lia.
Qed.

#[export] Hint Rewrite to_lower_idem to_ascii_lowercase_idem to_ascii_lowercase_app
  length_to_ascii_lowercase : ft.

(** ** Lemmas: prefixes and suffixes *)

Lemma strip_prefix_Some p s r : strip_prefix p s = Some r <-> s = p ++ r.
Proof.
  revert s. induction p as [|a p IH]; intros s; simpl.
  - split; congruence.
  - destruct s as [|b s]; [split; discriminate|].
    case_decide as Hab; subst.
    + rewrite IH. split; [by intros ->|by intros [= ->]].
    + split; [done|]. intros [= ]. congruence.
Qed.

Lemma strip_suffix_Some p s r : strip_suffix p s = Some r <-> s = r ++ p.
Proof.
  unfold strip_suffix. rewrite fmap_Some. split.
  - intros (x & Hx%strip_prefix_Some & ->).
    apply (f_equal reverse) in Hx.
    by rewrite reverse_involutive, reverse_app, reverse_involutive in Hx.
  - intros ->. exists (reverse r). rewrite reverse_involutive. split; [|done].
    apply strip_prefix_Some. apply reverse_app.
Qed.

Lemma starts_with_true s p : starts_with s p = true <-> exists r, s = p ++ r.
Proof.
  unfold starts_with. rewrite bool_decide_eq_true. unfold is_Some.
  by setoid_rewrite strip_prefix_Some.
Qed.

Lemma ends_with_true s p : ends_with s p = true <-> exists r, s = r ++ p.
Proof.
  unfold ends_with. rewrite bool_decide_eq_true. unfold is_Some.
  by setoid_rewrite strip_suffix_Some.
Qed.

Lemma contains_true c s : contains c s = true <-> c ∈ s.
Proof. apply bool_decide_eq_true. Qed.

Lemma contains_false c s : contains c s = false <-> c ∉ s.
Proof. apply bool_decide_eq_false. Qed.

(** Two suffixes of one string that are equally long are equal. *)
Lemma suffix_same_length {A} (a b p q : list A) :
  a ++ p = b ++ q -> length p = length q -> a = b /\ p = q.
Proof. intros H Hl. by apply app_inj_2 in H. Qed.

(** Of two suffixes of one string, the shorter is a suffix of the longer. *)
Lemma suffix_linear {A} (a b p q : list A) :
  a ++ p = b ++ q -> (length p <= length q)%nat -> exists r, q = r ++ p.
Proof.
  intros H Hl. exists (drop (length b) a).
  apply (f_equal length) in H as Hlen. rewrite !length_app in Hlen.
  apply (f_equal (drop (length b))) in H.
  rewrite drop_app_length in H. rewrite <- H.
  by rewrite drop_app_le by lia.
Qed.

(** ** Lemmas: splitting *)

Lemma split_nonempty c s : split c s <> [].
Proof. destruct s; simpl; [done|]. case_decide; [done|]. by destruct split. Qed.

Lemma split_no_sep c s : c ∉ s -> split c s = [s].
Proof.
  induction s as [|b s IH]; simpl; [done|].
  rewrite not_elem_of_cons. intros [Hb Hs].
  rewrite decide_False by congruence. by rewrite IH.
Qed.

Lemma split_app c a s : c ∉ a -> split c (a ++ c :: s) = a :: split c s.
Proof.
  induction a as [|b a IH]; simpl.
  - intros _. by rewrite decide_True.
  - rewrite not_elem_of_cons. intros [Hb Ha].
    rewrite decide_False by congruence. by rewrite IH.
Qed.

Lemma split_pieces c s w : w ∈ split c s -> c ∉ w.
Proof.
  revert w. induction s as [|b s IH]; intros w; simpl.
  - rewrite list_elem_of_singleton. intros ->. apply not_elem_of_nil.
  - case_decide as Hb.
    + rewrite elem_of_cons. intros [->|Hw]; [apply not_elem_of_nil|by apply IH].
    + destruct (split c s) as [|w0 ws] eqn:Hs.
      { by destruct (split_nonempty c s). }
      rewrite elem_of_cons. intros [->|Hw].
      * rewrite not_elem_of_cons. split; [congruence|]. apply IH. left.
      * apply IH. by right.
Qed.

Lemma split_elem_sub c s w b : w ∈ split c s -> b ∈ w -> b ∈ s.
Proof.
  revert w. induction s as [|a s IH]; intros w; simpl.
  - rewrite list_elem_of_singleton. by intros ->.
  - case_decide as Ha.
    + rewrite elem_of_cons. intros [->|Hw] Hb; [by apply elem_of_nil in Hb|].
      right. by apply (IH w).
    + destruct (split c s) as [|w0 ws] eqn:Hs.
      { by destruct (split_nonempty c s). }
      rewrite elem_of_cons. intros [->|Hw] Hb.
      * apply elem_of_cons in Hb as [->|Hb]; [left|right]. apply (IH w0); [left|done].
      * right. apply (IH w); [by right|done].
Qed.

Lemma split_once_app c l r : c ∉ l -> split_once c (l ++ c :: r) = Some (l, r).
Proof.
  induction l as [|b l IH]; simpl; [by rewrite decide_True|].
  rewrite not_elem_of_cons. intros [Hb Hl].
  rewrite decide_False by congruence. by rewrite IH.
Qed.

Lemma split_once_Some c s l r :
  split_once c s = Some (l, r) <-> s = l ++ c :: r /\ c ∉ l.
Proof.
  split; [|by intros [-> ?]; apply split_once_app].
  revert l r. induction s as [|b s IH]; intros l r; simpl; [done|].
  case_decide as Hb; subst.
  - intros [= <- <-]. split; [done|apply not_elem_of_nil].
  - destruct (split_once c s) as [[l' r']|]; [|done]. intros [= <- <-].
    destruct (IH l' r' eq_refl) as [-> Hl]. split; [done|].
    rewrite not_elem_of_cons. split; congruence.
Qed.

Lemma split_once_None c s : split_once c s = None <-> c ∉ s.
Proof.
  induction s as [|b s IH]; simpl.
  - split; [intros _; apply not_elem_of_nil|done].
  - case_decide as Hb; subst.
    + split; [done|]. rewrite not_elem_of_cons. by intros [? _].
    + rewrite not_elem_of_cons. destruct (split_once c s) as [[l r]|].
      * split; [done|]. intros [_ Hs]. apply IH in Hs. done.
      * split; [intros _; split; [congruence|by apply IH]|done].
Qed.

Lemma rsplit_once_Some c s l r :
  rsplit_once c s = Some (l, r) <-> s = l ++ c :: r /\ c ∉ r.
Proof.
  unfold rsplit_once. split.
  - destruct (split_once c (reverse s)) as [[x y]|] eqn:Hs; [|done].
    intros [= <- <-]. apply split_once_Some in Hs as [Hs Hx].
    apply (f_equal reverse) in Hs.
    rewrite reverse_involutive, reverse_app, reverse_cons, <- app_assoc in Hs.
    split; [done|]. by rewrite elem_of_reverse.
  - intros [-> Hr].
    assert (split_once c (reverse (l ++ c :: r)) = Some (reverse r, reverse l)) as ->.
    { apply split_once_Some. rewrite reverse_app, reverse_cons, <- app_assoc.
      split; [done|]. by rewrite elem_of_reverse. }
    by rewrite !reverse_involutive.
Qed.

Lemma rsplit_once_None c s : rsplit_once c s = None <-> c ∉ s.
Proof.
  unfold rsplit_once. rewrite <- elem_of_reverse, <- split_once_None.
  by destruct split_once as [[]|].
Qed.

Lemma find_split_Some p s l r :
  find_split p s = Some (l, r) ->
  s = l ++ r /\ Forall (fun b => p b = false) l /\
  exists b r', r = b :: r' /\ p b = true.
Proof.
  revert l r. induction s as [|b s IH]; intros l r; simpl; [done|].
  destruct (p b) eqn:Hb.
  - intros [= <- <-]. repeat split; [constructor|]. eauto.
  - destruct (find_split p s) as [[l' r']|] eqn:Hs; [|done].
    intros [= <- <-]. destruct (IH l' r' eq_refl) as (-> & Hl & Hr).
    repeat split; [by constructor|done].
Qed.

Lemma find_split_None p s :
  find_split p s = None <-> Forall (fun b => p b = false) s.
Proof.
  induction s as [|b s IH]; simpl; [split; [constructor|done]|].
  rewrite Forall_cons, <- IH. destruct (p b); [by split; [|intros [??]]|].
  destruct find_split as [[]|]; naive_solver.
Qed.

(** ** Lemmas: CRLF *)

(** [split_crlf] finds the first CRLF: no CRLF starts inside the text before it. *)
Lemma split_crlf_Some s l r :
  split_crlf s = Some (l, r) ->
  s = l ++ CRLF ++ r /\ (forall a b, l ++ [x0d] <> a ++ CRLF ++ b).
Proof.
  revert l r. induction s as [|b s IH]; intros l r; [done|].
  unfold split_crlf; fold split_crlf.
  destruct (strip_prefix CRLF (b :: s)) as [t|] eqn:Hp.
  - intros [= <- <-]. apply strip_prefix_Some in Hp. split; [done|].
    intros [|? a] b'; [done|]. by destruct a.
  - destruct (split_crlf s) as [[l' r']|] eqn:Hs; [|done]. intros [= <- <-].
    destruct (IH l' r' eq_refl) as [Heq Hfirst]. split; [by rewrite Heq|].
    intros [|x a] b' H.
    + injection H as -> H. rewrite Heq in Hp.
      destruct l' as [|y l']; simplify_eq/=.
    + injection H as -> H. by apply (Hfirst a b').
Qed.

Lemma split_crlf_None s : split_crlf s = None <-> forall a b, s <> a ++ CRLF ++ b.
Proof.
  induction s as [|x s IH].
  - split; [|done]. intros _ [|??] ?; discriminate.
  - unfold split_crlf; fold split_crlf.
    destruct (strip_prefix CRLF (x :: s)) as [t|] eqn:Hp.
    + apply strip_prefix_Some in Hp. split; [done|].
      intros H. by destruct (H [] t).
    + destruct (split_crlf s) as [[l r]|] eqn:Hs.
      * split; [done|]. intros H. apply split_crlf_Some in Hs as [-> _].
        by destruct (H (x :: l) r).
      * split; [intros _|done]. destruct IH as [IH _]. intros [|y a] b H.
        -- assert (strip_prefix CRLF (x :: s) = Some b) as Hc
             by (by apply strip_prefix_Some). congruence.
        -- injection H as -> H. by apply (IH eq_refl a b).
Qed.

(** ** Lemmas: decimal integers *)

Lemma digit_b8 d : 0 <= d < 10 -> digit (b8 (48 + d)) = Some d.
Proof.
  intros Hd. unfold digit, is_ascii_digit. rewrite u8_b8_small by lia.
  rewrite (proj2 (Z.leb_le _ _)), (proj2 (Z.leb_le _ _)) by lia. simpl. f_equal. lia.
Qed.

Lemma digit_range b d : digit b = Some d -> 0 <= d < 10.
Proof. unfold digit, is_ascii_digit. destruct_match; simp_bool; intros; simplify_eq; lia. Qed.

Lemma parse_digits_app max acc a b :
  parse_digits max acc (a ++ b) =
  match parse_digits max acc a with Some v => parse_digits max v b | None => None end.
Proof.
  revert acc. induction a as [|x a IH]; intros acc; simpl; [done|].
  destruct (digit x) as [d|]; [|done]. by destruct (acc * 10 + d <=? max).
Qed.

Lemma parse_digits_bound max acc s v :
  acc <= max -> 0 <= acc -> parse_digits max acc s = Some v -> acc <= v <= max.
Proof.
  revert acc. induction s as [|b s IH]; intros acc Hm H0; simpl.
  - intros [= <-]. lia.
  - destruct (digit b) as [d|] eqn:Hd; [|done]. apply digit_range in Hd.
    destruct (acc * 10 + d <=? max) eqn:Hle; [|done]. intros H. apply IH in H; simp_bool; lia.
Qed.

Lemma parse_uint_range max s v : 0 <= max -> parse_uint max s = Some v -> 0 <= v <= max.
Proof.
  intros Hm. unfold parse_uint. destruct s as [|b s]; [done|].
  case_decide; [destruct s; [done|]|]; intros Hp; by apply parse_digits_bound in Hp.
Qed.

Lemma parse_u16_range s v : parse_u16 s = Some v -> 0 <= v <= 65535.
Proof. by apply parse_uint_range. Qed.

Lemma parse_digits_dec_fuel fuel max z :
  0 <= z <= max -> z < 10 ^ Z.of_nat fuel -> (0 < fuel)%nat ->
  parse_digits max 0 (dec_fuel fuel z) = Some z.
Proof.
  revert z. induction fuel as [|fuel IH]; intros z Hz Hlt Hf; [lia|]. simpl.
  rewrite Nat2Z.inj_succ, Z.pow_succ_r in Hlt by lia.
  destruct (z <? 10) eqn:Hz10; simp_bool.
  - simpl. rewrite digit_b8 by lia. rewrite Z.mul_0_l, Z.add_0_l.
    by rewrite (proj2 (Z.leb_le _ _)) by lia.
  - assert (0 < fuel)%nat as Hfuel.
    { destruct fuel; [|lia]. change (10 ^ Z.of_nat 0) with 1 in Hlt. lia. }
    pose proof (Z.div_mod z 10 ltac:(lia)) as Hdm.
    pose proof (Z.mod_pos_bound z 10 ltac:(lia)) as Hmod.
    rewrite parse_digits_app, IH by (first [lia | apply Z.div_lt_upper_bound; lia]).
    simpl. rewrite digit_b8 by lia.
    replace (z / 10 * 10 + z mod 10) with z by lia.
    by rewrite (proj2 (Z.leb_le _ _)) by lia.
Qed.

Lemma dec_fuel_head fuel z :
  0 <= z -> (0 < fuel)%nat ->
  exists b s, dec_fuel fuel z = b :: s /\ b <> x2b.
Proof.
  revert z. induction fuel as [|fuel IH]; intros z Hz Hf; [lia|]. simpl.
  destruct (z <? 10) eqn:Hz10; simp_bool.
  - exists (b8 (48 + z)), []. split; [done|]. intros H%(f_equal u8).
    rewrite u8_b8_small in H by lia. change (u8 x2b) with 43 in H. lia.
  - destruct fuel as [|fuel].
    + exists (b8 (48 + z mod 10)), []. split; [done|]. intros H%(f_equal u8).
      pose proof (Z.mod_pos_bound z 10 ltac:(lia)).
      rewrite u8_b8_small in H by lia. change (u8 x2b) with 43 in H. lia.
    + destruct (IH (z / 10)) as (b & s & -> & Hb); [apply Z.div_pos; lia|lia|].
      eexists b, _. split; [reflexivity|done].
Qed.

(** Printing then parsing an integer that fits gives it back. *)
Lemma parse_uint_dec max z :
  0 <= z <= max -> z < 10 ^ 39 -> parse_uint max (dec z) = Some z.
Proof.
  intros Hz Hlt. unfold dec, parse_uint.
  destruct (dec_fuel_head 39 z) as (b & s & Heq & Hb); [lia|lia|].
  rewrite Heq, decide_False by done. rewrite <- Heq.
  apply parse_digits_dec_fuel; [done|done|lia].
Qed.

Lemma parse_u16_dec z : 0 <= z <= 65535 -> parse_u16 (dec z) = Some z.
Proof. intros Hz. apply parse_uint_dec; [done|]. lia. Qed.

(** ** Lemmas: UTF-8 *)

Lemma utf8_valid_ascii_cons b s : u8 b < 128 -> utf8_valid (b :: s) = utf8_valid s.
Proof. intros Hb. simpl. by rewrite (proj2 (Z.ltb_lt _ _)). Qed.

Lemma utf8_valid_ascii s : Forall (fun b => u8 b < 128) s -> utf8_valid s = true.
Proof. induction 1; [done|]. by rewrite utf8_valid_ascii_cons. Qed.

Lemma utf8_cont_ascii b : u8 b < 128 -> utf8_cont b = false.
Proof. intros Hb. unfold utf8_cont. by rewrite (proj2 (Z.leb_gt _ _)). Qed.

Lemma utf8_second_ascii x b : u8 b < 128 -> utf8_second x b = false.
Proof.
  intros Hb. unfold utf8_second. apply andb_false_iff. left. apply Z.leb_gt.
  repeat case_match; lia.
Qed.

(** An ASCII byte is a code point on its own: a string splits around it into
    two strings. *)
Lemma utf8_valid_split a c b :
  u8 c < 128 -> utf8_valid (a ++ c :: b) = true ->
  utf8_valid a = true /\ utf8_valid b = true.
Proof.
  intros Hc. induction a as [a IH] using (induction_ltof1 _ (@length byte)).
  unfold ltof in IH. destruct a as [|b0 a1].
  { simpl app. rewrite utf8_valid_ascii_cons by done. done. }
  assert (forall t, (length t <= length a1)%nat ->
    utf8_valid (t ++ c :: b) = true -> utf8_valid t = true /\ utf8_valid b = true)
    as IH' by (intros; apply IH; simpl; [lia|done]).
  clear IH. simpl.
  destruct (u8 b0 <? 128); [by apply IH'|].
  destruct (_ && _).
  { destruct a1 as [|b1 a2]; simpl; [by rewrite utf8_cont_ascii|].
    destruct (utf8_cont b1); [|done]. apply IH'. simpl. lia. }
  destruct (_ && _).
  { destruct a1 as [|b1 [|b2 a3]]; simpl.
    - destruct b; [done|]. by rewrite utf8_second_ascii.
    - by rewrite utf8_cont_ascii, andb_false_r.
    - destruct (_ && utf8_cont b2); [|done]. apply IH'. simpl. lia. }
  destruct (_ && _); [|done].
  destruct a1 as [|b1 [|b2 [|b3 a4]]]; simpl.
  - destruct b as [|? [|? ?]]; [done..|]. by rewrite utf8_second_ascii.
  - destruct b as [|? ?]; [done..|]. by rewrite utf8_cont_ascii, andb_false_r.
  - by rewrite (utf8_cont_ascii c), andb_false_r.
  - destruct (_ && utf8_cont b3); [|done]. apply IH'. simpl. lia.
Qed.

Lemma utf8_valid_app a b :
  utf8_valid a = true -> utf8_valid (a ++ b) = utf8_valid b.
Proof.
  induction a as [a IH] using (induction_ltof1 _ (@length byte)).
  unfold ltof in IH. destruct a as [|b0 a1]; [done|].
  assert (forall t, (length t <= length a1)%nat ->
    utf8_valid t = true -> utf8_valid (t ++ b) = utf8_valid b)
    as IH' by (intros; apply IH; simpl; [lia|done]).
  clear IH. simpl.
  destruct (u8 b0 <? 128); [by apply IH'|].
  destruct (_ && _).
  { destruct a1 as [|b1 a2]; [done|]. simpl.
    destruct (utf8_cont b1); [|done]. apply IH'. simpl. lia. }
  destruct (_ && _).
  { destruct a1 as [|b1 [|b2 a3]]; [done..|]. simpl.
    destruct (_ && utf8_cont b2); [|done]. apply IH'. simpl. lia. }
  destruct (_ && _); [|done].
  destruct a1 as [|b1 [|b2 [|b3 a4]]]; [done..|]. simpl.
  destruct (_ && utf8_cont b3); [|done]. apply IH'. simpl. lia.
Qed.

(** ** Trimming does nothing to visible ASCII *)

Definition graphic (b : byte) : bool := (33 <=? u8 b) && (u8 b <=? 126).

Lemma strip_any_graphic ps s :
  forallb (fun p => match p with c :: _ => negb (graphic c) | [] => false end) ps = true ->
  forallb graphic s = true -> strip_any ps s = None.
Proof.
  intros Hps Hs. induction ps as [|p ps IH]; [done|]. simpl in *.
  apply andb_true_iff in Hps as [Hp Hps].
  destruct p as [|c p]; [done|]. destruct s as [|b s]; simpl in *; [by apply IH|].
  destruct (decide (c = b)) as [->|]; [|by apply IH]. by destruct (graphic b).
Qed.

Lemma strip_while_graphic fuel ps s :
  forallb (fun p => match p with c :: _ => negb (graphic c) | [] => false end) ps = true ->
  forallb graphic s = true -> strip_while fuel ps s = s.
Proof. intros Hps Hs. destruct fuel; simpl; [done|]. by rewrite strip_any_graphic. Qed.

Lemma trim_graphic s : forallb graphic s = true -> trim s = s.
Proof.
  intros Hs. unfold trim, trim_start. rewrite strip_while_graphic by done. unfold trim_end.
  rewrite strip_while_graphic; [by rewrite reverse_involutive|done|].
  rewrite forallb_forall in *. intros b Hb. apply Hs. by rewrite <- list_elem_of_In, elem_of_reverse, list_elem_of_In in Hb.
Qed.

(** ** Trimming keeps a visible head *)

Lemma strip_any_head ps b s :
  forallb (fun p => match p with c :: _ => negb (graphic c) | [] => false end) ps = true ->
  graphic b = true -> strip_any ps (b :: s) = None.
Proof.
  intros Hps Hb. induction ps as [|p ps IH]; [done|]. simpl in *.
  apply andb_true_iff in Hps as [Hp Hps]. destruct p as [|c p]; [done|]. simpl.
  destruct (decide (c = b)) as [->|]; [by rewrite Hb in Hp|by apply IH].
Qed.

Lemma strip_any_Some ps s r : strip_any ps s = Some r -> exists p, p ∈ ps /\ s = p ++ r.
Proof.
  induction ps as [|p ps IH]; [done|]. simpl. destruct (strip_prefix p s) as [r'|] eqn:E.
  - intros [= <-]. exists p. split; [by left|by apply strip_prefix_Some].
  - intros (q & ? & ?)%IH. exists q. split; [by right|done].
Qed.

(** Stripping patterns without [b] from a string that ends in [b] leaves such a string. *)
Lemma strip_while_keeps_last fuel ps b s :
  Forall (fun p => b ∉ p) ps -> exists r, strip_while fuel ps (s ++ [b]) = r ++ [b].
Proof.
  intros Hps. revert s. induction fuel as [|fuel IH]; intros s; simpl; [by exists s|].
  destruct (strip_any ps (s ++ [b])) as [t|] eqn:E; [|by exists s].
  apply strip_any_Some in E as (p & Hp & E). rewrite Forall_forall in Hps.
  assert (exists t', t = t' ++ [b]) as [t' ->]; [|apply IH].
  destruct t as [|x t _] using rev_ind.
  - rewrite app_nil_r in E. destruct (Hps p Hp). rewrite <- E. apply elem_of_app. right. by left.
  - rewrite app_assoc in E. apply app_inj_2 in E as [_ [= ->]]; [|done]. by exists t.
Qed.

Lemma trim_keeps_head b s :
  graphic b = true -> exists r, trim (b :: s) = b :: r.
Proof.
  intros Hb. unfold trim, trim_start. cbn [length strip_while].
  rewrite strip_any_head by done. unfold trim_end. rewrite reverse_cons.
  destruct (strip_while_keeps_last (length (b :: s)) (map reverse white_space) b (reverse s)) as [r ->].
  - apply Forall_forall. intros p Hp Hin.
    assert (Hall : forallb (fun p => forallb (fun c => negb (graphic c)) p) (map reverse white_space) = true) by done.
    rewrite forallb_forall in Hall. specialize (Hall p ltac:(by apply list_elem_of_In)).
    rewrite forallb_forall in Hall. specialize (Hall b ltac:(by apply list_elem_of_In)). by rewrite Hb in Hall.
  - exists (reverse r). by rewrite reverse_app.
Qed.
