(* ===== verification/Lock.v ===== *)
(** * Instance locks ([lock.rs], [server.rs]: [acquire_server_lock])

    Advisory file locks as the operating system keeps them: a lock belongs to an open file,
    conflicts with every other open file of the same path, in any process, and ends when
    the file is closed, by a drop or with its process. *)

From S2P Require Import Prelude RustStr.

(** An open lock file: its number, its process, its path. *)
Record InstanceLock : Type := mkLock { lk_fd : nat; lk_pid : Z; lk_path : bytes }.

Record LockSystem : Type := mkLocks {
  lock_files : gmap bytes bytes;        (* the text of each lock file *)
  held : list InstanceLock;
  next_fd : nat;
}.

Definition no_locks : LockSystem := mkLocks ∅ [] 0.

(** What the system answers to one [acquire]; the last two are best effort. *)
Record LockAnswers : Type := mkLockAnswers {
  la_parent : result bytes ();
  la_open : result bytes ();
  la_try_lock : result bytes ();
  la_set_len : bool;
  la_write : bool;
}.

Inductive LockError : Type :=
| NoHome
| LockDirFailed (why : bytes)
| LockOpenFailed (why : bytes)
| Contended (text : bytes)
| LockFailed (why : bytes).

(** The process id over the start of what the file holds; the position is the start
    whether or not the seek works, as the file was just opened. *)
Definition record_pid (an : LockAnswers) (pid : Z) (old : bytes) : bytes :=
  let kept := if la_set_len an then [] else old in
  let text := dec pid ++ [x0a] in
  if la_write an then text ++ drop (length text) kept else kept.

Definition InstanceLock_acquire (an : LockAnswers) (pid : Z) (path contended_msg : bytes) (s : LockSystem)
  : result LockError InstanceLock * LockSystem :=
  match la_parent an, la_open an with
  | Err why, _ => (Err (LockDirFailed why), s)
  | Ok _, Err why => (Err (LockOpenFailed why), s)
  | Ok _, Ok _ =>
      let text := default [] (lock_files s !! path) in
      let opened := mkLocks (<[path := text]> (lock_files s)) (held s) (next_fd s) in
      match la_try_lock an with
      | Err why => (Err (LockFailed why), opened)
      | Ok _ =>
          if bool_decide (path ∈ lk_path <$> held s) then (Err (Contended contended_msg), opened)
          else
            let lock := mkLock (next_fd s) pid path in
            (Ok lock, mkLocks (<[path := record_pid an pid text]> (lock_files s)) (held s ++ [lock])
                        (S (next_fd s)))
      end
  end.

(** A dropped lock, and the end of a process. *)
Definition release (fd : nat) (s : LockSystem) : LockSystem :=
  mkLocks (lock_files s) (filter (fun l => lk_fd l <> fd) (held s)) (next_fd s).

Definition process_exit (pid : Z) (s : LockSystem) : LockSystem :=
  mkLocks (lock_files s) (filter (fun l => lk_pid l <> pid) (held s)) (next_fd s).

(** ** The server's lock *)

Definition LOCK_KEY_LEN : nat := 16.

(** [own_id] is the printed id, whose prefix names the file. *)
Definition server_lock_path (home : option bytes) (own_id : bytes) : option bytes :=
  (fun h => h ++ str "/.config/flextunnel/server-" ++ take LOCK_KEY_LEN own_id ++ str ".lock") <$> home.

Definition contended_text (own_id : bytes) : bytes :=
  str "Another flextunnel server with this identity (" ++ own_id
  ++ str ") is already running for this user. Only one server per identity is allowed.".

Definition acquire_server_lock (an : LockAnswers) (pid : Z) (home : option bytes) (own_id : bytes) (s : LockSystem)
  : result LockError InstanceLock * LockSystem :=
  match server_lock_path home own_id with
  | None => (Err NoHome, s)
  | Some path => InstanceLock_acquire an pid path (contended_text own_id) s
  end.

(** ** Every history of locks *)

Inductive LockEvent : Type :=
| Acquire (an : LockAnswers) (pid : Z) (home : option bytes) (own_id : bytes)
| Release (fd : nat)
| ProcessExit (pid : Z).

Definition lock_step (s : LockSystem) (ev : LockEvent) : LockSystem :=
  match ev with
  | Acquire an pid home own_id => (acquire_server_lock an pid home own_id s).2
  | Release fd => release fd s
  | ProcessExit pid => process_exit pid s
  end.

Definition lock_run (evs : list LockEvent) : LockSystem := foldl lock_step no_locks evs.

(** ** Exclusion *)

Record lock_inv (s : LockSystem) : Prop := {
  lock_paths : NoDup (lk_path <$> held s);
  lock_fds : Forall (fun l => (lk_fd l < next_fd s)%nat) (held s);
}.

Lemma acquire_cases an pid path msg s :
  let '(r, s') := InstanceLock_acquire an pid path msg s in
  match r with
  | Ok lock => lock = mkLock (next_fd s) pid path /\ held s' = held s ++ [lock] /\ (path ∉ lk_path <$> held s)
               /\ next_fd s' = S (next_fd s)
  | Err _ => held s' = held s /\ next_fd s' = next_fd s
             /\ forall p t, lock_files s !! p = Some t -> lock_files s' !! p = Some t
  end.
Proof.
  assert (Hopen : forall p t, lock_files s !! p = Some t ->
    <[path := default [] (lock_files s !! path)]> (lock_files s) !! p = Some t).
  { intros p t Ht. destruct (decide (p = path)) as [->|]; [by rewrite lookup_insert_eq, Ht|].
    by rewrite lookup_insert_ne. }
  unfold InstanceLock_acquire. destruct (la_parent an), (la_open an), (la_try_lock an); try done.
  by case_bool_decide.
Qed.

Lemma filter_sublist_inv s (P : InstanceLock -> Prop) `{!forall l, Decision (P l)} :
  lock_inv s -> lock_inv (mkLocks (lock_files s) (filter P (held s)) (next_fd s)).
Proof.
  intros [Hp Hf]. split; cbn.
  - eapply sublist_NoDup; [exact Hp|]. apply fmap_sublist, sublist_filter.
  - rewrite Forall_forall in *. intros l [_ Hl]%list_elem_of_filter. by apply Hf.
Qed.

Lemma lock_step_inv s ev : lock_inv s -> lock_inv (lock_step s ev).
Proof.
  intros HI. destruct ev as [an pid home own|fd|pid]; cbn; [|by apply filter_sublist_inv..].
  unfold acquire_server_lock. destruct (server_lock_path home own) as [path|]; [|done].
  pose proof (acquire_cases an pid path (contended_text own) s) as Hc.
  destruct (InstanceLock_acquire _ _ _ _ _) as [[lock|] s']; destruct HI as [Hp Hf].
  - destruct Hc as (-> & Hh & Hn & Hx). split; cbn; rewrite Hh, ?Hx.
    + rewrite fmap_app. apply NoDup_app. split_and!; [done| |apply NoDup_singleton].
      intros p Hin Hp'. apply list_elem_of_singleton in Hp'. by subst.
    + apply Forall_app. split; [eapply Forall_impl; [exact Hf|]; cbn; lia|]. constructor; [cbn; lia|constructor].
  - destruct Hc as (Hh & Hx & _). split; cbn; rewrite Hh; [done|by rewrite Hx].
Qed.

Lemma lock_run_inv evs : lock_inv (lock_run evs).
Proof.
  unfold lock_run. assert (H0 : lock_inv no_locks) by (split; constructor).
  revert H0. generalize no_locks. induction evs as [|ev evs IH]; [done|].
  intros s Hs. apply IH. by apply lock_step_inv.
Qed.

(** Over every history of starts, stops and crashes of any processes of a user, at most
    one holds the server lock of an identity; a refused start leaves the running one's lock
    and every lock file as they were; and once the holder is gone, however it ended, the
    next start gets the lock. *)
Theorem one_server_per_identity (evs : list LockEvent) (home own_id path : bytes) :
  let s := lock_run evs in
  server_lock_path (Some home) own_id = Some path ->
  (forall l l', l ∈ held s -> l' ∈ held s -> lk_path l = path -> lk_path l' = path -> l = l')
  /\ (forall l an pid, l ∈ held s -> lk_path l = path ->
        let '(r, s') := acquire_server_lock an pid (Some home) own_id s in
        is_ok r = false /\ held s' = held s
        /\ forall p t, lock_files s !! p = Some t -> lock_files s' !! p = Some t)
  /\ (forall l an pid, l ∈ held s -> lk_path l = path ->
        la_parent an = Ok tt -> la_open an = Ok tt -> la_try_lock an = Ok tt ->
        is_ok (acquire_server_lock an pid (Some home) own_id (process_exit (lk_pid l) s)).1 = true).
Proof.
  intros s Hpath. destruct (lock_run_inv evs : lock_inv s) as [Hnd Hfd].
  assert (Huniq : forall l l', l ∈ held s -> l' ∈ held s -> lk_path l = lk_path l' -> l = l').
  { intros l l' (i & Hi)%list_elem_of_lookup (j & Hj)%list_elem_of_lookup E.
    assert (i = j) as ->; [|congruence]. eapply NoDup_lookup; [exact Hnd|..]; rewrite list_lookup_fmap.
    - by rewrite Hi.
    - rewrite Hj. cbn. by rewrite E. }
  unfold acquire_server_lock. rewrite Hpath. split_and!.
  - intros l l' Hl Hl' E E'. apply Huniq; congruence.
  - intros l an pid Hl E. pose proof (acquire_cases an pid path (contended_text own_id) s) as Hc.
    destruct (InstanceLock_acquire _ _ _ _ _) as [[lock|] s'].
    + destruct Hc as (_ & _ & Hn & _). destruct Hn. rewrite <- E. by apply list_elem_of_fmap_2.
    + by destruct Hc as (? & _ & ?).
  - intros l an pid Hl E E1 E2 E3. unfold InstanceLock_acquire. rewrite E1, E2, E3.
    rewrite bool_decide_eq_false_2; [done|]. cbn.
    intros (l' & -> & [Hne Hl']%list_elem_of_filter)%list_elem_of_fmap. apply Hne. f_equal. by apply Huniq.
Qed.

Definition all_works : LockAnswers := mkLockAnswers (Ok tt) (Ok tt) (Ok tt) true true.

Lemma one_server_per_identity_witness :
  let s := lock_run [Acquire all_works 7 (Some (str "/home/u")) (str "0123456789abcdef00")] in
  exists l, l ∈ held s /\ is_ok (acquire_server_lock all_works 8 (Some (str "/home/u")) (str "0123456789abcdef00") s).1 = false.
Proof.
  exists (mkLock 0 7 (str "/home/u/.config/flextunnel/server-0123456789abcdef.lock")).
  split; [vm_compute; by left|].
  pose proof (proj1 (proj2 (one_server_per_identity
    [Acquire all_works 7 (Some (str "/home/u")) (str "0123456789abcdef00")] (str "/home/u") (str "0123456789abcdef00")
    (str "/home/u/.config/flextunnel/server-0123456789abcdef.lock") eq_refl))
    (mkLock 0 7 (str "/home/u/.config/flextunnel/server-0123456789abcdef.lock")) all_works 8) as Hw.
  destruct (acquire_server_lock _ _ _ _ _) as [r s']. apply Hw; [vm_compute; by left|reflexivity].
Defined.
