(* ===== verification/Secret.v ===== *)
(** * Identity key files ([secret.rs])

    Generating, writing, reading and showing a server's secret key. A key file is its mode
    and its text; writing one gives the states other users could see on the way, so that
    who could read the secret when is part of the model. The base64 codec, the key type
    and the rendering of JSON objects are the class [SecretApi]. *)

From S2P Require Import Prelude RustStr.

Class SecretApi := {
  SecretKey : Type;
  to_bytes : SecretKey -> bytes;
  try_from : bytes -> option SecretKey;
  public : SecretKey -> bytes;                      (* the endpoint id, as printed *)
  BASE64_encode : bytes -> bytes;
  BASE64_decode : bytes -> option bytes;
  json_object : list (bytes * bytes) -> bytes;      (* an object of strings *)
}.

Definition base64_char (b : byte) : bool := is_ascii_alphanumeric b || bool_decide (b ∈ [x2b; x2f; x3d]).

(** Keys are 32 bytes; the standard base64 alphabet; ids are hexadecimal. *)
Class SecretLaws `{SecretApi} := {
  try_from_to_bytes : forall k, try_from (to_bytes k) = Some k;
  length_to_bytes : forall k, length (to_bytes k) = 32%nat;
  decode_encode : forall b, BASE64_decode (BASE64_encode b) = Some b;
  encode_chars : forall b, forallb base64_char (BASE64_encode b) = true;
  encode_empty : forall b, BASE64_encode b = [] -> b = [];
  public_chars : forall k, forallb is_ascii_alphanumeric (public k) = true;
}.

Section secret.
Context {SA : SecretApi}.

Inductive SecretError : Type :=
| FileNotFound
| ReadFailed (why : bytes)
| NoKeyInFile
| InvalidBase64
| InvalidKey
| NoKeyConfigured
| AlreadyExists
| ParentFailed (why : bytes)
| OpenFailed (why : bytes)
| PermissionsFailed (why : bytes)
| WriteFailed (why : bytes).

(** ** Reading *)

Definition strip_cr (line : bytes) : bytes := default line (strip_suffix [x0d] line).

(** [str::lines]: no empty line after the last newline. *)
Definition lines (s : bytes) : list bytes :=
  let pieces := split x0a s in
  strip_cr <$> (if bool_decide (last pieces = Some []) then take (length pieces - 1) pieces else pieces).

Definition load_secret_from_string (base64_key : bytes) : result SecretError SecretKey :=
  b ← ok_or (BASE64_decode base64_key) InvalidBase64;
  ok_or (try_from b) InvalidKey.

Definition is_key_line (line : bytes) : bool := negb (bool_decide (line = [])) && negb (starts_with line [x23]).

(** A file as [load_secret] finds it: absent, unreadable, or its text. *)
Definition load_secret (file : option (result bytes bytes)) : result SecretError SecretKey :=
  match file with
  | None => Err FileNotFound
  | Some (Err why) => Err (ReadFailed why)
  | Some (Ok content) =>
      if negb (utf8_valid content) then Err (ReadFailed (str "stream did not contain valid UTF-8"))
      else
        match list_find (fun line => is_key_line line = true) (trim <$> lines content) with
        | Some (_, line) => load_secret_from_string line
        | None => Err NoKeyInFile
        end
  end.

Definition secret_to_endpoint_id (secret : SecretKey) : bytes := public secret.

(** [None] without a configured file. *)
Definition resolve_secret_key (secret_file : option (option (result bytes bytes)))
  : result SecretError SecretKey :=
  match secret_file with
  | Some file => load_secret file
  | None => Err NoKeyConfigured
  end.

Definition show_iroh_id (secret_file : option (option (result bytes bytes))) (json : bool)
  : result SecretError bytes :=
  secret ← resolve_secret_key secret_file;
  Ok ((if json then json_object [(str "endpoint_id", secret_to_endpoint_id secret)]
       else secret_to_endpoint_id secret) ++ [x0a]).

(** ** Writing *)

Record KeyFile : Type := mkKeyFile { ks_mode : Z; ks_text : bytes }.

Definition MODE_0600 : Z := 384.

(** What the system answers: the file at the time of the open (another process may have
    come between), the failures, and how much of the text a failing write wrote. *)
Record WriteAnswers : Type := mkWriteAnswers {
  wa_umask : Z;
  wa_parent : result bytes ();
  wa_at_open : option KeyFile;
  wa_open : result bytes ();
  wa_chmod : result bytes ();
  wa_write : result (nat * bytes) ();
}.

(** [open] with the options of the source: [create_new], or [create] and [truncate]. *)
Definition open_output (an : WriteAnswers) (force : bool) : result SecretError KeyFile :=
  let fresh := mkKeyFile (Z.land MODE_0600 (Z.lnot (wa_umask an))) [] in
  match wa_open an with
  | Err why => Err (OpenFailed why)
  | Ok _ =>
      match wa_at_open an, force with
      | None, _ => Ok fresh
      | Some f, true => Ok (mkKeyFile (ks_mode f) [])
      | Some _, false => Err (OpenFailed (str "File exists"))
      end
  end.

(** The file's states from the open on, newest last, and the outcome. *)
Definition write_opened (an : WriteAnswers) (force : bool) (text : bytes) (f : KeyFile)
  : list KeyFile * result SecretError () :=
  let written mode := match wa_write an with
                      | Ok _ => ([mkKeyFile mode text], Ok tt)
                      | Err (n, why) => ([mkKeyFile mode (take n text)], Err (WriteFailed why))
                      end in
  if force
  then match wa_chmod an with
       | Ok _ => let '(states, r) := written MODE_0600 in
                 (f :: mkKeyFile MODE_0600 (ks_text f) :: states, r)
       | Err why => ([f], Err (PermissionsFailed why))
       end
  else let '(states, r) := written (ks_mode f) in (f :: states, r).

(** [write_secret_to_output] on a file; [at_check] is the file when [exists] is called. *)
Definition write_secret_to_output (an : WriteAnswers) (at_check : option KeyFile) (force : bool) (text : bytes)
  : list KeyFile * result SecretError () :=
  if bool_decide (is_Some at_check) && negb force then ([], Err AlreadyExists)
  else match wa_parent an with
       | Err why => ([], Err (ParentFailed why))
       | Ok _ =>
           match open_output an force with
           | Err e => ([], Err e)
           | Ok f => write_opened an force text f
           end
       end.

(** The file after a call that saw it as [wa_at_open] when it opened it. *)
Definition file_after (an : WriteAnswers) (states : list KeyFile) : option KeyFile :=
  match last states with Some f => Some f | None => wa_at_open an end.

(** ** Generating *)

Definition key_text (created : bytes) (secret : SecretKey) : bytes :=
  str "# created: " ++ created ++ [x0a] ++ str "# public key: " ++ secret_to_endpoint_id secret ++ [x0a]
  ++ BASE64_encode (to_bytes secret) ++ [x0a].

(** The generated key to standard output ([-]). *)
Definition print_iroh_key (created : bytes) (secret : SecretKey) (json : bool) : bytes :=
  if json
  then json_object [(str "created", created); (str "endpoint_id", secret_to_endpoint_id secret);
                    (str "secret", BASE64_encode (to_bytes secret))] ++ [x0a]
  else key_text created secret.

(** To a file: the states it takes, what is printed on success, the outcome. *)
Definition generate_iroh_key (an : WriteAnswers) (at_check : option KeyFile) (path created : bytes)
    (secret : SecretKey) (force json : bool) : list KeyFile * result SecretError bytes :=
  let public_info :=
    if json
    then json_object [(str "created", created); (str "endpoint_id", secret_to_endpoint_id secret);
                      (str "secret_file", path)]
    else str "EndpointId: " ++ secret_to_endpoint_id secret in
  let '(states, r) := write_secret_to_output an at_check force (key_text created secret) in
  (states, _ ← r; Ok (public_info ++ [x0a])).
End secret.

(** ** What a written key file holds *)

Section proofs.
Context {SA : SecretApi}.

(** No bit for the group or for others. *)
Definition private (f : KeyFile) : Prop := Z.land (ks_mode f) 63 = 0.

(** No byte of a text shows to another user. *)
Definition hidden (f : KeyFile) : Prop := ks_text f = [] \/ private f.

Lemma masked_private umask text : private (mkKeyFile (Z.land MODE_0600 (Z.lnot umask)) text).
Proof. unfold private. cbn [ks_mode]. by rewrite (Z.land_comm MODE_0600), <- Z.land_assoc, Z.land_0_r. Qed.

Lemma open_output_ok an force f :
  open_output an force = Ok f ->
  ks_text f = [] /\ (force = false -> wa_at_open an = None /\ private f).
Proof.
  unfold open_output. destruct (wa_open an), (wa_at_open an) as [[]|], force; try done; intros [= <-];
    split; try done; auto using masked_private.
Qed.

Lemma write_opened_hidden an force text f :
  ks_text f = [] -> (force = false -> private f) -> Forall hidden (write_opened an force text f).1.
Proof.
  intros Hf Hp. assert (Hh : hidden f) by by left. unfold write_opened.
  destruct force.
  - destruct (wa_chmod an); [|by repeat constructor].
    assert (forall t, hidden (mkKeyFile MODE_0600 t)) by (by right).
    destruct (wa_write an) as [|[]]; cbn; repeat (constructor; auto).
  - assert (forall t, hidden (mkKeyFile (ks_mode f) t)) by (intros t; right; by apply Hp).
    destruct (wa_write an) as [|[]]; cbn; repeat (constructor; auto).
Qed.

Lemma write_opened_nonempty an force text f : (write_opened an force text f).1 <> [].
Proof. unfold write_opened. repeat case_match; by simplify_eq/=. Qed.

Lemma write_opened_ok an force text f :
  (write_opened an force text f).2 = Ok tt ->
  last (write_opened an force text f).1
  = Some (mkKeyFile (if force then MODE_0600 else ks_mode f) text).
Proof. unfold write_opened. destruct force, (wa_chmod an), (wa_write an) as [|[]]; by simplify_eq/=. Qed.

Lemma generate_states an at_check path created secret force json :
  let '(states, r) := generate_iroh_key an at_check path created secret force json in
  (states = [] /\ is_ok r = false)
  \/ exists f r', ks_text f = [] /\ (force = false -> wa_at_open an = None /\ private f)
       /\ write_opened an force (key_text created secret) f = (states, r') /\ is_ok r = is_ok r'.
Proof.
  unfold generate_iroh_key, write_secret_to_output.
  destruct (_ && _); [by left|]. destruct (wa_parent an); [|by left].
  destruct (open_output an force) as [f|e] eqn:Ho; [|by left]. apply open_output_ok in Ho as [Ht Hf].
  destruct (write_opened an force _ f) as [states r] eqn:E. right. exists f, r. split_and!; [done..|].
  by destruct r.
Qed.

(** After success the file holds the key. *)
Lemma key_file_text an at_check path created secret force json :
  let '(states, r) := generate_iroh_key an at_check path created secret force json in
  is_ok r = true -> exists f, file_after an states = Some f /\ ks_text f = key_text created secret.
Proof.
  pose proof (generate_states an at_check path created secret force json) as Hg.
  destruct (generate_iroh_key _ _ _ _ _ _ _) as [states r].
  destruct Hg as [[_ ->]|(f & r' & Ht & Hf & E & ->)]; [done|].
  pose proof (write_opened_ok an force (key_text created secret) f) as Hok. rewrite E in Hok. cbn in Hok.
  destruct r' as [[]|]; [|done]. intros _. unfold file_after. rewrite (Hok eq_refl). by eexists.
Qed.

(** C29. A secret key is never exposed or lost: in every state its file takes, whatever
    fails on the way and whatever the umask, the text is empty or closed to other users;
    without --force an existing file is left as it is, even one that appears after the
    check; and when the call succeeds the file holds exactly the key, closed to others. *)
Theorem key_file_private (an : WriteAnswers) (at_check : option KeyFile) (path created : bytes)
    (secret : SecretKey) (force json : bool) :
  let '(states, r) := generate_iroh_key an at_check path created secret force json in
  Forall hidden states
  /\ (force = false -> is_Some (wa_at_open an) -> file_after an states = wa_at_open an /\ is_ok r = false)
  /\ (is_ok r = true -> exists f, file_after an states = Some f /\ private f
        /\ ks_text f = key_text created secret).
Proof.
  pose proof (generate_states an at_check path created secret force json) as Hg.
  pose proof (key_file_text an at_check path created secret force json) as Htext.
  destruct (generate_iroh_key _ _ _ _ _ _ _) as [states r].
  destruct Hg as [[-> Hr]|(f & r' & Ht & Hf & E & Hr)]; [by rewrite Hr; split_and!; [constructor|done|]|].
  pose proof (write_opened_hidden an force (key_text created secret) f Ht (fun e => proj2 (Hf e))) as Hh.
  pose proof (write_opened_ok an force (key_text created secret) f) as Hok. rewrite E in *. cbn in *.
  split_and!; [done| |].
  - intros ->. destruct (Hf eq_refl) as [-> _]. by intros [? ?].
  - intros Hr'. destruct (Htext Hr') as (f' & Hf' & Ht'). exists f'. split_and!; [done| |done].
    rewrite Hr in Hr'. destruct r' as [[]|]; [|done]. unfold file_after in Hf'. rewrite (Hok eq_refl) in Hf'.
    injection Hf' as <-. destruct force; [done|]. by apply Hf.
Qed.

(** ** Reading it back *)

Lemma strip_cr_id l : x0d ∉ l -> strip_cr l = l.
Proof.
  intros Hl. unfold strip_cr. destruct (strip_suffix [x0d] l) as [r|] eqn:E; [|done].
  apply strip_suffix_Some in E as ->. destruct Hl. apply elem_of_app. right. by left.
Qed.

Lemma comment_not_key s : is_key_line (trim (x23 :: s)) = false.
Proof.
  destruct (trim_keeps_head x23 s eq_refl) as [r ->]. unfold is_key_line.
  rewrite bool_decide_eq_false_2 by done. cbn. by rewrite (proj2 (starts_with_true (x23 :: r) [x23]) (ex_intro _ r eq_refl)).
Qed.

Lemma lines_three (a b c : bytes) :
  x0a ∉ a -> x0a ∉ b -> x0a ∉ c -> x0d ∉ a -> x0d ∉ b -> x0d ∉ c ->
  lines (a ++ [x0a] ++ b ++ [x0a] ++ c ++ [x0a]) = [a; b; c].
Proof.
  intros. unfold lines. cbn [app]. rewrite !split_app by done. change (split x0a []) with [@nil byte].
  rewrite bool_decide_eq_true_2 by done. change (strip_cr <$> take _ _) with [strip_cr a; strip_cr b; strip_cr c].
  by rewrite !strip_cr_id by done.
Qed.

(** Bytes of a class contain none outside it. *)
Lemma forallb_not_in {A} (p : A -> bool) l x : forallb p l = true -> p x = false -> x ∉ l.
Proof. rewrite forallb_forall. intros Hl Hx Hin%list_elem_of_In. by rewrite (Hl x Hin) in Hx. Qed.

Lemma forallb_impl {A} (p q : A -> bool) l :
  (forall x, p x = true -> q x = true) -> forallb p l = true -> forallb q l = true.
Proof. rewrite !forallb_forall. auto. Qed.

Lemma alphanumeric_graphic b : is_ascii_alphanumeric b = true -> graphic b = true.
Proof. by destruct b. Qed.

Lemma base64_graphic b : base64_char b = true -> graphic b = true.
Proof. by destruct b. Qed.

Lemma encode_key_nonempty `{!SecretLaws} secret : BASE64_encode (to_bytes secret) <> [].
Proof. intros E%encode_empty. pose proof (length_to_bytes secret) as Hl. by rewrite E in Hl. Qed.

Lemma key_line_base64 s : forallb base64_char s = true -> s <> [] -> is_key_line s = true.
Proof.
  intros Hs Hne. unfold is_key_line. rewrite bool_decide_eq_false_2 by done. cbn.
  destruct (starts_with s [x23]) eqn:E; [|done]. apply starts_with_true in E as [r ->]. done.
Qed.

Lemma key_text_valid created secret :
  forallb graphic created = true -> forallb graphic (public secret) = true ->
  forallb graphic (BASE64_encode (to_bytes secret)) = true -> utf8_valid (key_text created secret) = true.
Proof.
  intros Hc Hp He. apply utf8_valid_ascii. unfold key_text, secret_to_endpoint_id.
  assert (Hg : forall l, forallb graphic l = true -> Forall (fun b => u8 b < 128) l).
  { intros l. rewrite forallb_forall, Forall_forall. intros Hl b Hb%list_elem_of_In%Hl.
    unfold graphic in Hb. lia. }
  rewrite !Forall_app. split_and!; auto; by vm_compute; repeat constructor.
Qed.

Lemma line_free (l m : bytes) c :
  forallb graphic m = true -> graphic c = false -> bool_decide (c ∈ l) = false -> c ∉ l ++ m.
Proof.
  intros Hm Hc Hl%bool_decide_eq_false. apply not_elem_of_app. split; [done|by eapply forallb_not_in].
Qed.

Lemma load_key_text `{!SecretLaws} created secret :
  forallb graphic created = true -> load_secret (Some (Ok (key_text created secret))) = Ok secret.
Proof.
  intros Hc. pose proof (public_chars secret) as Hp. pose proof (encode_chars (to_bytes secret)) as He.
  pose proof (encode_key_nonempty secret) as Hne. set (b64 := BASE64_encode (to_bytes secret)) in *.
  assert (Hg : forallb graphic b64 = true) by (apply (forallb_impl base64_char); [exact base64_graphic|done]).
  assert (Hpg : forallb graphic (public secret) = true) by (apply (forallb_impl is_ascii_alphanumeric); [exact alphanumeric_graphic|done]).
  unfold load_secret. rewrite key_text_valid by done. cbn [negb]. unfold key_text. fold b64.
  rewrite (app_assoc (str "# created: ")), (app_assoc (str "# public key: ")).
  rewrite lines_three by (by apply line_free || by eapply forallb_not_in).
  change (str "# created: " ++ created) with (x23 :: str " created: " ++ created).
  change (str "# public key: " ++ secret_to_endpoint_id secret) with (x23 :: str " public key: " ++ public secret).
  cbn [fmap list_fmap list_find]. rewrite !decide_False by (by rewrite comment_not_key).
  rewrite (trim_graphic b64) by done. rewrite decide_True by (by apply key_line_base64). cbn.
  unfold load_secret_from_string, b64. rewrite decode_encode. cbn. by rewrite try_from_to_bytes.
Qed.

(** What was generated is loaded: a key written to a file is the one the server reads
    from it, and the id shown for that file is the one printed when it was made. *)
Theorem generated_key_loads {SL : SecretLaws} (an : WriteAnswers) (at_check : option KeyFile) (path created : bytes)
    (secret : SecretKey) (force : bool) states out f :
  forallb graphic created = true ->
  generate_iroh_key an at_check path created secret force false = (states, Ok out) ->
  file_after an states = Some f ->
  resolve_secret_key (Some (Some (Ok (ks_text f)))) = Ok secret
  /\ exists id, show_iroh_id (Some (Some (Ok (ks_text f)))) false = Ok id /\ out = str "EndpointId: " ++ id.
Proof.
  intros Hc Hg Hf. pose proof (key_file_text an at_check path created secret force false) as Hp.
  rewrite Hg in Hp. destruct (Hp eq_refl) as (f' & Hf' & Ht). rewrite Hf in Hf'. injection Hf' as <-.
  assert (Hload : load_secret (Some (Ok (ks_text f))) = Ok secret) by (rewrite Ht; by apply load_key_text).
  split; [done|]. unfold show_iroh_id. cbn [resolve_secret_key]. rewrite Hload. cbn. eexists. split; [done|].
  unfold generate_iroh_key in Hg. destruct (write_secret_to_output _ _ _ _) as [? []]; simplify_eq/=.
  by rewrite <- app_assoc.
Qed.
End proofs.

(** A reference instance: one key, and two letters a byte for base64. *)
Module RefSecret.
Definition high (b : byte) : byte := b8 (97 + u8 b / 16).
Definition low (b : byte) : byte := b8 (97 + u8 b mod 16).
Definition unpair (h l : byte) : byte := b8 ((u8 h - 97) * 16 + (u8 l - 97)).

Fixpoint letters (s : bytes) : bytes :=
  match s with [] => [] | b :: s' => high b :: low b :: letters s' end.

Fixpoint unletters (s : bytes) : option bytes :=
  match s with
  | [] => Some []
  | h :: l :: s' => cons (unpair h l) <$> unletters s'
  | [_] => None
  end.

Definition the_key : bytes := replicate 32 x5a.

#[export] Instance ref_secret : SecretApi := {|
  SecretKey := ();
  to_bytes := fun _ => the_key;
  try_from := fun b => if bool_decide (b = the_key) then Some tt else None;
  public := fun _ => str "5a5a";
  BASE64_encode := letters;
  BASE64_decode := unletters;
  json_object := fun l => concat (snd <$> l);
|}.

Lemma unpair_high_low b : unpair (high b) (low b) = b.
Proof. by destruct b. Qed.

Lemma pair_chars b : base64_char (high b) && base64_char (low b) = true.
Proof. by destruct b. Qed.

#[export] Instance ref_secret_laws : SecretLaws.
Proof.
  split; try done.
  - by intros [].
  - intros b. cbn. induction b as [|b s IH]; [done|]. cbn. rewrite IH. cbn. by rewrite unpair_high_low.
  - intros b. cbn. induction b as [|b s IH]; [done|]. cbn [letters forallb]. pose proof (pair_chars b) as [-> ->]%andb_true_iff. done.
  - by intros [|].
Qed.

Definition ref_writes : WriteAnswers := mkWriteAnswers 18 (Ok tt) None (Ok tt) (Ok tt) (Ok tt).
End RefSecret.

Lemma generated_key_loads_witness :
  exists states out f, generate_iroh_key (SA := RefSecret.ref_secret) RefSecret.ref_writes None (str "server.key")
      (str "2026-01-02T03:04:05Z") tt false false = (states, Ok out)
    /\ file_after RefSecret.ref_writes states = Some f
    /\ resolve_secret_key (SA := RefSecret.ref_secret) (Some (Some (Ok (ks_text f)))) = Ok tt.
Proof.
  do 3 eexists. split; [reflexivity|]. split; [reflexivity|].
  refine (proj1 (generated_key_loads (SA := RefSecret.ref_secret) (SL := RefSecret.ref_secret_laws)
    RefSecret.ref_writes None (str "server.key") (str "2026-01-02T03:04:05Z") tt false _ _ _
    (eq_refl : forallb graphic (str "2026-01-02T03:04:05Z") = true) eq_refl eq_refl)).
Defined.
