(* ===== verification/Endpoint.v ===== *)
(** * The client's endpoint handle ([transport/endpoint.rs]: [ClientEndpoint])

    The handle is shared: any number of callers may ask for a rebuild at once, each a
    future that can be dropped where it waits. A state holds the installed endpoint, the
    [rebuilding] lock and where each call is; an event is one step of one of them between
    two awaits. Endpoints are numbered in the order they are bound. *)

From S2P Require Import Prelude.

(** ** The state *)

(** Where a call of [rebuild] is; [seen] is the generation it read first. *)
Inductive RebuildPc : Type :=
| Waiting (seen : Z)                       (* for the lock *)
| Binding (seen : Z)                       (* in the factory, up to the bind *)
| GoingOnline (seen : Z) (fresh : nat)     (* in the factory, waiting for a home relay *)
| ClosingOld (seen : Z) (old : nat)        (* the bounded wait on the old one's close *)
| Returned (seen : Z) (r : result bytes ()).

Record ClientEndpoint : Type := mkClientEndpoint {
  generation : Z;
  current : nat;
  rebuilding : option nat;                 (* the call that holds the lock *)
  calls : gmap nat RebuildPc;
  bound : nat;                             (* endpoints bound so far *)
  closing : gset nat;                      (* a close was begun *)
  closed : gset nat;
  dropped : gset nat;                      (* dropped without a close *)
  installs : list Z;                       (* per install, the generation its call had seen *)
}.

Definition from_parts : ClientEndpoint := mkClientEndpoint 0 0 None ∅ 1 ∅ ∅ ∅ [].

Definition put_call (c : nat) (pc : RebuildPc) (s : ClientEndpoint) : ClientEndpoint :=
  mkClientEndpoint (generation s) (current s) (rebuilding s) (<[c := pc]> (calls s)) (bound s)
    (closing s) (closed s) (dropped s) (installs s).

Definition put_lock (holder : option nat) (s : ClientEndpoint) : ClientEndpoint :=
  mkClientEndpoint (generation s) (current s) holder (calls s) (bound s)
    (closing s) (closed s) (dropped s) (installs s).

(** ** One call *)

Definition rebuild_begin (c : nat) (s : ClientEndpoint) : option ClientEndpoint :=
  match calls s !! c with
  | None => Some (put_call c (Waiting (generation s)) s)
  | Some _ => None
  end.

(** The lock is taken: another caller's rebuild is enough, or the factory is called. *)
Definition rebuild_locked (c : nat) (s : ClientEndpoint) : option ClientEndpoint :=
  match calls s !! c, rebuilding s with
  | Some (Waiting seen), None =>
      Some (if generation s =? seen
            then put_lock (Some c) (put_call c (Binding seen) s)
            else put_call c (Returned seen (Ok tt)) s)
  | _, _ => None
  end.

(** The bind inside the factory ([rebuild_client_endpoint]); an error gives the lock back
    and leaves the current endpoint in place. *)
Definition rebuild_bound (c : nat) (r : result bytes ()) (s : ClientEndpoint) : option ClientEndpoint :=
  match calls s !! c with
  | Some (Binding seen) =>
      Some (match r with
            | Ok _ =>
                mkClientEndpoint (generation s) (current s) (rebuilding s)
                  (<[c := GoingOnline seen (bound s)]> (calls s)) (S (bound s))
                  (closing s) (closed s) (dropped s) (installs s)
            | Err e => put_lock None (put_call c (Returned seen (Err e)) s)
            end)
  | _ => None
  end.

(** The online wait is over, with or without a relay: the fresh endpoint is swapped in,
    the lock given back and the close of the old one spawned. *)
Definition rebuild_online (c : nat) (s : ClientEndpoint) : option ClientEndpoint :=
  match calls s !! c with
  | Some (GoingOnline seen fresh) =>
      Some (mkClientEndpoint (generation s + 1) fresh None
              (<[c := ClosingOld seen (current s)]> (calls s)) (bound s)
              ({[current s]} ∪ closing s) (closed s) (dropped s) (installs s ++ [seen]))
  | _ => None
  end.

(** The close is done or slow. *)
Definition rebuild_return (c : nat) (s : ClientEndpoint) : option ClientEndpoint :=
  match calls s !! c with
  | Some (ClosingOld seen _) => Some (put_call c (Returned seen (Ok tt)) s)
  | _ => None
  end.

(** The future of a call is dropped where it waits: a lock it holds is released, and an
    endpoint only its factory knows is dropped with it. A spawned close goes on. *)
Definition rebuild_dropped (c : nat) (s : ClientEndpoint) : option ClientEndpoint :=
  let gone lock lost :=
    mkClientEndpoint (generation s) (current s) lock (delete c (calls s)) (bound s)
      (closing s) (closed s) (lost ∪ dropped s) (installs s) in
  match calls s !! c with
  | Some (Waiting _ | ClosingOld _ _) => Some (gone (rebuilding s) ∅)
  | Some (Binding _) => Some (gone None ∅)
  | Some (GoingOnline _ fresh) => Some (gone None {[fresh]})
  | _ => None
  end.

Definition close_finished (e : nat) (s : ClientEndpoint) : option ClientEndpoint :=
  if bool_decide (e ∈ closing s)
  then Some (mkClientEndpoint (generation s) (current s) (rebuilding s) (calls s) (bound s)
               (closing s) ({[e]} ∪ closed s) (dropped s) (installs s))
  else None.

(** [ClientEndpoint::close], at the end of a session. *)
Definition close_begin (s : ClientEndpoint) : option ClientEndpoint :=
  Some (mkClientEndpoint (generation s) (current s) (rebuilding s) (calls s) (bound s)
          ({[current s]} ∪ closing s) (closed s) (dropped s) (installs s)).

(** ** Every interleaving *)

Inductive EndpointEvent : Type :=
| RebuildBegin (c : nat)
| RebuildLocked (c : nat)
| RebuildBound (c : nat) (r : result bytes ())
| RebuildOnline (c : nat)
| RebuildReturn (c : nat)
| RebuildDropped (c : nat)
| CloseFinished (e : nat)
| CloseBegin.

Definition endpoint_step (s : ClientEndpoint) (ev : EndpointEvent) : option ClientEndpoint :=
  match ev with
  | RebuildBegin c => rebuild_begin c s
  | RebuildLocked c => rebuild_locked c s
  | RebuildBound c r => rebuild_bound c r s
  | RebuildOnline c => rebuild_online c s
  | RebuildReturn c => rebuild_return c s
  | RebuildDropped c => rebuild_dropped c s
  | CloseFinished e => close_finished e s
  | CloseBegin => close_begin s
  end.

(** An event that is not possible where it stands is skipped. *)
Definition endpoint_run (evs : list EndpointEvent) : ClientEndpoint :=
  foldl (fun s ev => default s (endpoint_step s ev)) from_parts evs.

(** ** The invariant *)

Definition seen_of (pc : RebuildPc) : Z :=
  match pc with
  | Waiting g | Binding g | GoingOnline g _ | ClosingOld g _ | Returned g _ => g
  end.

(** A call inside the factory. *)
Definition builds (pc : RebuildPc) : bool :=
  match pc with Binding _ | GoingOnline _ _ => true | _ => false end.

(** What a call knows: an install has come between when it is past one. *)
Definition call_ok (s : ClientEndpoint) (pc : RebuildPc) : Prop :=
  match pc with
  | Waiting g | Returned g (Err _) => 0 <= g <= generation s
  | Binding g => g = generation s
  | GoingOnline g e => g = generation s /\ (e < bound s)%nat /\ e <> current s
                       /\ (e ∉ closing s ∪ dropped s)
  | ClosingOld g _ | Returned g (Ok _) => 0 <= g < generation s
  end.

Definition in_factory (s : ClientEndpoint) (e : nat) : Prop :=
  exists c g, calls s !! c = Some (GoingOnline g e).

Record endpoint_inv (s : ClientEndpoint) : Prop := {
  inv_installs : installs s = seqZ 0 (generation s);
  inv_nonneg : 0 <= generation s;
  inv_lock : forall c, rebuilding s = Some c <-> exists pc, calls s !! c = Some pc /\ builds pc = true;
  inv_calls : map_Forall (fun _ => call_ok s) (calls s);
  inv_current : (current s < bound s)%nat /\ current s ∉ dropped s;
  inv_closed : closed s ⊆ closing s;
  inv_bound : forall e, e ∈ closing s ∪ dropped s -> (e < bound s)%nat;
  inv_all : forall e, (e < bound s)%nat -> e = current s \/ in_factory s e \/ e ∈ closing s ∪ dropped s;
}.

Lemma from_parts_inv : endpoint_inv from_parts.
Proof.
  split; cbn; try done.
  - intros c. split; [done|]. intros (pc & Hc & _). by rewrite lookup_empty in Hc.
  - split; [lia|by apply not_elem_of_empty].
  - intros e He. left. lia.
Qed.

(** The fields besides the calls and the lock. *)
Definition resources (s : ClientEndpoint) : Z * nat * nat * gset nat * gset nat * gset nat * list Z :=
  (generation s, current s, bound s, closing s, closed s, dropped s, installs s).

(** A step of one call that touches no endpoint: the call moves on outside the factory
    (or into it, without an endpoint yet), and the lock follows it. *)
Lemma inv_move s s' c :
  endpoint_inv s -> resources s' = resources s ->
  (forall c', c' <> c -> calls s' !! c' = calls s !! c') ->
  (forall g e, calls s !! c = Some (GoingOnline g e) -> calls s' !! c = Some (GoingOnline g e)) ->
  (forall pc, calls s' !! c = Some pc -> call_ok s pc) ->
  (rebuilding s' = Some c <-> exists pc, calls s' !! c = Some pc /\ builds pc = true) ->
  (forall c', c' <> c -> rebuilding s' = Some c' <-> rebuilding s = Some c') ->
  endpoint_inv s'.
Proof.
  intros HI HR Hothers Hkeep Hok Hlock Hrest. unfold resources in HR. injection HR as Hg Hc Hb Hcl Hcd Hd Hi.
  assert (Hfac : forall e, in_factory s e -> in_factory s' e).
  { intros e (c' & g & Hl). destruct (decide (c' = c)) as [->|Hn]; [by exists c, g; apply Hkeep|].
    exists c', g. by rewrite Hothers. }
  assert (Hcall : forall pc, call_ok s pc -> call_ok s' pc).
  { intros pc. unfold call_ok. by rewrite Hg, Hb, Hc, Hcl, Hd. }
  split.
  - rewrite Hi, Hg. apply HI.
  - rewrite Hg. apply HI.
  - intros c'. destruct (decide (c' = c)) as [->|Hn]; [done|].
    rewrite Hrest, Hothers by done. apply HI.
  - intros c' pc Hl. apply Hcall. destruct (decide (c' = c)) as [->|Hn]; [by apply Hok|].
    rewrite Hothers in Hl by done. by apply (inv_calls s HI c').
  - rewrite Hc, Hb, Hd. apply HI.
  - rewrite Hcl, Hcd. apply HI.
  - rewrite Hcl, Hd, Hb. apply HI.
  - rewrite Hcl, Hd, Hb, Hc. intros e He. destruct (inv_all s HI e He) as [?|[?|?]]; auto.
Qed.

(** A call in the factory holds the lock, so no other call is there. *)
Lemma factory_holder s c pc :
  endpoint_inv s -> calls s !! c = Some pc -> builds pc = true -> rebuilding s = Some c.
Proof. intros HI Hl Hb. apply (inv_lock s HI). by exists pc. Qed.

Lemma factory_alone s c pc c' g e :
  endpoint_inv s -> calls s !! c = Some pc -> builds pc = true ->
  calls s !! c' = Some (GoingOnline g e) -> c' = c.
Proof.
  intros HI Hl Hb Hl'. pose proof (factory_holder s c pc HI Hl Hb).
  pose proof (factory_holder s c' _ HI Hl' eq_refl). congruence.
Qed.

(** The frame of [inv_move] where the entry of call [c] is replaced. *)
Ltac moves c HI Hl :=
  apply (inv_move _ _ c HI); cbn; try done; rewrite ?Hl, ?lookup_insert_eq; try done;
  try (by intros ? ?; rewrite ?lookup_insert_ne, ?lookup_delete_ne by done).

Lemma begin_inv c s s' : endpoint_inv s -> rebuild_begin c s = Some s' -> endpoint_inv s'.
Proof.
  unfold rebuild_begin. intros HI. destruct (calls s !! c) eqn:Hl; [done|]. intros [= <-].
  pose proof (inv_nonneg s HI).
  moves c HI Hl.
  - intros pc [= <-]. cbn. lia.
  - rewrite (inv_lock s HI), Hl. split; [by intros (? & ? & _)|by intros (? & [= <-] & ?)].
Qed.

Lemma locked_inv c s s' : endpoint_inv s -> rebuild_locked c s = Some s' -> endpoint_inv s'.
Proof.
  unfold rebuild_locked. intros HI. destruct (calls s !! c) as [[seen| | | |]|] eqn:Hl; try done.
  destruct (rebuilding s) eqn:Hr; [done|]. intros [= <-].
  pose proof (inv_calls s HI c _ Hl) as Hseen. cbn in Hseen.
  destruct (Z.eqb_spec (generation s) seen) as [<-|Hne].
  - moves c HI Hl.
    + by intros pc [= <-].
    + split; [by exists (Binding (generation s))|done].
    + intros c' Hn. rewrite Hr. split; [by intros [= ->]|done].
  - moves c HI Hl.
    + intros pc [= <-]. cbn. lia.
    + rewrite Hr. split; [done|by intros (? & [= <-] & ?)].
Qed.

Lemma return_inv c s s' : endpoint_inv s -> rebuild_return c s = Some s' -> endpoint_inv s'.
Proof.
  unfold rebuild_return. intros HI. destruct (calls s !! c) as [[| | |seen old|]|] eqn:Hl; try done.
  intros [= <-]. pose proof (inv_calls s HI c _ Hl) as Hseen.
  moves c HI Hl.
  - by intros pc [= <-].
  - rewrite (inv_lock s HI), Hl. split; intros (? & [= <-] & ?); done.
Qed.

Lemma bound_ok_inv c s :
  endpoint_inv s -> calls s !! c = Some (Binding (generation s)) ->
  endpoint_inv (mkClientEndpoint (generation s) (current s) (rebuilding s)
    (<[c := GoingOnline (generation s) (bound s)]> (calls s)) (S (bound s))
    (closing s) (closed s) (dropped s) (installs s)).
Proof.
  intros HI Hl. destruct (inv_current s HI) as [Hcur Hnd]. split; cbn; try apply HI.
  - intros c'. destruct (decide (c' = c)) as [->|Hn].
    + rewrite lookup_insert_eq. split; [by eexists|]. intros _. by apply (factory_holder s c _ HI Hl).
    + rewrite lookup_insert_ne by done. apply HI.
  - intros c' pc [[<- <-]|[Hn Hl']]%lookup_insert_Some; cbn.
    + split_and!; [done|lia|lia|]. intros He%(inv_bound s HI). lia.
    + pose proof (inv_calls s HI c' pc Hl') as Hok. destruct pc as [| |g e| |? []]; cbn in *; try done.
      by rewrite (factory_alone s c _ c' g e HI Hl eq_refl Hl') in Hn.
  - split; [lia|done].
  - intros e He%(inv_bound s HI). lia.
  - intros e He. destruct (decide (e = bound s)) as [->|Hne].
    + right; left. exists c, (generation s). apply lookup_insert_eq.
    + destruct (inv_all s HI e ltac:(lia)) as [?|[(c' & g & Hl')|?]]; [by left| |by right; right].
      pose proof (factory_alone s c _ c' g e HI Hl eq_refl Hl') as ->. congruence.
Qed.

Lemma bound_inv c r s s' : endpoint_inv s -> rebuild_bound c r s = Some s' -> endpoint_inv s'.
Proof.
  unfold rebuild_bound. intros HI. destruct (calls s !! c) as [[|seen| | |]|] eqn:Hl; try done.
  intros [= <-]. pose proof (inv_calls s HI c _ Hl) as Hseen. cbn in Hseen. subst seen.
  pose proof (inv_nonneg s HI). pose proof (factory_holder s c _ HI Hl eq_refl) as Hr.
  destruct r as [[]|e].
  - apply (bound_ok_inv c s HI Hl).
  - moves c HI Hl.
    + intros pc [= <-]. cbn. lia.
    + split; [done|by intros (? & [= <-] & ?)].
    + intros c' Hn. rewrite Hr. split; [done|by intros [= ->]].
Qed.

Lemma online_inv c s s' : endpoint_inv s -> rebuild_online c s = Some s' -> endpoint_inv s'.
Proof.
  unfold rebuild_online. intros HI. destruct (calls s !! c) as [[| |seen fresh| |]|] eqn:Hl; try done.
  intros [= <-]. destruct (inv_calls s HI c _ Hl) as (-> & Hf & Hfc & Hfree).
  pose proof (inv_nonneg s HI) as Hg. destruct (inv_current s HI) as [Hcur Hnd].
  pose proof (factory_holder s c _ HI Hl eq_refl) as Hr.
  split; cbn.
  - rewrite seqZ_app, (inv_installs s HI) by lia. by rewrite Z.add_0_l.
  - lia.
  - intros c'. split; [done|]. intros (pc & [[<- <-]|[Hn Hl']]%lookup_insert_Some & Hb); [done|].
    pose proof (factory_holder s c' pc HI Hl' Hb). congruence.
  - intros c' pc [[<- <-]|[Hn Hl']]%lookup_insert_Some; cbn; [lia|].
    pose proof (inv_calls s HI c' pc Hl') as Hok.
    destruct pc as [| g|g e| |? []]; cbn in *; try lia;
      pose proof (factory_holder s c' _ HI Hl' eq_refl); congruence.
  - split; [done|set_solver].
  - pose proof (inv_closed s HI). set_solver.
  - intros e He. destruct (decide (e = current s)) as [->|]; [done|]. apply (inv_bound s HI). set_solver.
  - intros e He. destruct (inv_all s HI e He) as [->|[(c' & g & Hl')|?]]; [set_solver| |set_solver].
    pose proof (factory_alone s c _ c' g e HI Hl eq_refl Hl') as ->. left. congruence.
Qed.

Lemma dropped_online_inv c s g e :
  endpoint_inv s -> calls s !! c = Some (GoingOnline g e) ->
  endpoint_inv (mkClientEndpoint (generation s) (current s) None (delete c (calls s)) (bound s)
    (closing s) (closed s) ({[e]} ∪ dropped s) (installs s)).
Proof.
  intros HI Hl. destruct (inv_calls s HI c _ Hl) as (-> & Hf & Hfc & Hfree).
  destruct (inv_current s HI) as [Hcur Hnd]. split; cbn; try apply HI.
  - intros c'. split; [done|]. intros (pc & [Hn Hl']%lookup_delete_Some & Hb).
    pose proof (factory_holder s c' pc HI Hl' Hb). pose proof (factory_holder s c _ HI Hl eq_refl). congruence.
  - intros c' pc [Hn Hl']%lookup_delete_Some. pose proof (inv_calls s HI c' pc Hl') as Hok.
    destruct pc as [| |g' e'| |]; cbn in *; try done.
    by destruct (factory_alone s c _ c' g' e' HI Hl eq_refl Hl').
  - split; [done|set_solver].
  - intros e' He. destruct (decide (e' = e)) as [->|]; [done|]. apply (inv_bound s HI). set_solver.
  - intros e' He. destruct (inv_all s HI e' He) as [->|[(c' & g' & Hl')|?]]; [by left| |set_solver].
    pose proof (factory_alone s c _ c' g' e' HI Hl eq_refl Hl') as ->. set_solver.
Qed.

Lemma dropped_inv c s s' : endpoint_inv s -> rebuild_dropped c s = Some s' -> endpoint_inv s'.
Proof.
  unfold rebuild_dropped. intros HI. destruct (calls s !! c) as [pc|] eqn:Hl; [|done].
  assert (Hout : forall lock, (lock = None \/ lock = rebuilding s /\ builds pc = false) ->
    (forall g e, pc <> GoingOnline g e) -> (lock = None -> rebuilding s = None \/ rebuilding s = Some c) ->
    endpoint_inv (mkClientEndpoint (generation s) (current s) lock (delete c (calls s)) (bound s)
      (closing s) (closed s) (∅ ∪ dropped s) (installs s))).
  { intros lock Hlock Hpc Hnone. rewrite union_empty_l_L.
    moves c HI Hl; rewrite ?lookup_delete_eq; try done.
    - intros g e [= ->]. by edestruct Hpc.
    - split; [|by intros (? & ? & _)]. destruct Hlock as [->|[-> Hb]]; [done|].
      intros (pc' & Hl' & Hb')%(inv_lock s HI). congruence.
    - intros c' Hn. destruct Hlock as [->|[-> _]]; [|done]. destruct (Hnone eq_refl) as [->| ->]; [done|].
      split; [done|by intros [= ->]]. }
  destruct pc as [g|g|g e|g e|]; intros [= <-].
  - apply Hout; [by right|done|]. by left.
  - apply Hout; [by left|done|]. right. by apply (factory_holder s c _ HI Hl).
  - apply (dropped_online_inv c s g e HI Hl).
  - apply Hout; [by right|done|]. by left.
Qed.

Lemma close_finished_inv e s s' : endpoint_inv s -> close_finished e s = Some s' -> endpoint_inv s'.
Proof.
  unfold close_finished. intros HI. case_bool_decide as He; [|done]. intros [= <-].
  pose proof (inv_closed s HI). split; cbn; try apply HI. set_solver.
Qed.

Lemma close_begin_inv s s' : endpoint_inv s -> close_begin s = Some s' -> endpoint_inv s'.
Proof.
  intros HI [= <-]. destruct (inv_current s HI) as [Hcur Hnd]. pose proof (inv_closed s HI).
  split; cbn; try apply HI; [|set_solver| |].
  - intros c pc Hl. pose proof (inv_calls s HI c pc Hl). destruct pc; cbn in *; try done. set_solver.
  - intros e He. destruct (decide (e = current s)) as [->|]; [done|]. apply (inv_bound s HI). set_solver.
  - intros e He. destruct (inv_all s HI e He) as [?|[?|?]]; [by left|by right; left|set_solver].
Qed.

Lemma endpoint_step_inv s ev s' : endpoint_inv s -> endpoint_step s ev = Some s' -> endpoint_inv s'.
Proof.
  destruct ev; cbn; eauto using begin_inv, locked_inv, bound_inv, online_inv, return_inv, dropped_inv,
    close_finished_inv, close_begin_inv.
Qed.

(** What holds at the start and over each step holds over a run. *)
Lemma endpoint_run_ind (P : ClientEndpoint -> Prop) evs :
  P from_parts -> (forall s ev s', ev ∈ evs -> P s -> endpoint_step s ev = Some s' -> P s') ->
  P (endpoint_run evs).
Proof.
  unfold endpoint_run. intros H0. revert H0. generalize from_parts.
  induction evs as [|ev evs IH]; [done|]. intros s Hs Hstep. cbn. apply IH.
  - destruct (endpoint_step s ev) as [s'|] eqn:E; cbn; [|done].
    apply (Hstep s ev s'); [by left|done|done].
  - intros s1 ev1 s2 Hin. apply Hstep. by right.
Qed.

Lemma endpoint_run_inv evs : endpoint_inv (endpoint_run evs).
Proof. apply endpoint_run_ind; [apply from_parts_inv|]. intros s ev s' _. apply endpoint_step_inv. Qed.

(** Only a dropped call loses an endpoint, and only a teardown closes the current one. *)
Lemma nothing_dropped evs :
  (forall c, RebuildDropped c ∉ evs) -> dropped (endpoint_run evs) = ∅.
Proof.
  intros Hno. apply endpoint_run_ind; [done|]. intros s ev s' Hin Hd Hs.
  destruct ev; cbn in Hs; try by edestruct Hno.
  all: unfold rebuild_begin, rebuild_locked, rebuild_bound, rebuild_online, rebuild_return, close_finished,
    close_begin in Hs; repeat case_match; by simplify_eq/=.
Qed.

Lemma current_kept evs :
  CloseBegin ∉ evs -> current (endpoint_run evs) ∉ closing (endpoint_run evs).
Proof.
  intros Hno.
  apply (endpoint_run_ind (fun s => endpoint_inv s /\ current s ∉ closing s) evs);
    [split; [apply from_parts_inv|set_solver]|].
  intros s ev s' Hin [HI Hc] Hs. split; [by eapply endpoint_step_inv|].
  destruct ev; cbn in Hs; try done.
  all: unfold rebuild_begin, rebuild_locked, rebuild_bound, rebuild_return, rebuild_dropped, close_finished in Hs.
  all: try (repeat case_match; by simplify_eq/=).
  unfold rebuild_online in Hs. destruct (calls s !! c) as [[| |g e| |]|] eqn:Hl; simplify_eq/=.
  destruct (inv_calls s HI _ _ Hl) as (_ & _ & Hne & Hfree). set_solver.
Qed.

(** C40. However many callers notice an outage, and in whatever order their steps come,
    rebuilds coalesce: for every generation exactly one endpoint was installed, by a call
    that had seen that generation; one call at a time is in the factory; a rebuild that
    returned success returns on another endpoint than the one it was asked to replace; and
    no bound endpoint is lost: each is the current one, in the factory, or being closed,
    the current one not unless the session ends, unless a call was dropped halfway. *)
Theorem rebuilds_coalesce (evs : list EndpointEvent) :
  let s := endpoint_run evs in
  installs s = seqZ 0 (generation s)
  /\ (forall c c' pc pc', calls s !! c = Some pc -> calls s !! c' = Some pc' ->
        builds pc = true -> builds pc' = true -> c = c')
  /\ (forall c seen, calls s !! c = Some (Returned seen (Ok tt)) -> seen < generation s)
  /\ ((forall c, RebuildDropped c ∉ evs) ->
        forall e, (e < bound s)%nat -> e = current s \/ in_factory s e \/ e ∈ closing s)
  /\ (CloseBegin ∉ evs -> current s ∉ closing s).
Proof.
  intros s. pose proof (endpoint_run_inv evs : endpoint_inv s) as HI. split_and!.
  - apply HI.
  - intros c c' pc pc' Hl Hl' Hb Hb'. pose proof (factory_holder s c pc HI Hl Hb).
    pose proof (factory_holder s c' pc' HI Hl' Hb'). congruence.
  - intros c seen Hl. pose proof (inv_calls s HI c _ Hl) as Hok. cbn in Hok. lia.
  - intros Hno e He. destruct (inv_all s HI e He) as [?|[?|Hin]]; [by left|by right; left|].
    pose proof (nothing_dropped evs Hno : dropped s = ∅). right; right. set_solver.
  - apply current_kept.
Qed.

(** A call that finds the lock free and whose bind succeeds installs a fresh endpoint and
    returns, whether or not a relay answers and the old endpoint closes. *)
Theorem rebuild_succeeds (evs : list EndpointEvent) c :
  let s := endpoint_run evs in
  let s' := endpoint_run (evs ++ [RebuildLocked c; RebuildBound c (Ok tt); RebuildOnline c; RebuildReturn c]) in
  calls s !! c = Some (Waiting (generation s)) -> rebuilding s = None ->
  generation s' = generation s + 1 /\ current s' = bound s /\ rebuilding s' = None
  /\ calls s' !! c = Some (Returned (generation s) (Ok tt)).
Proof.
  intros s s' Hl Hr. unfold s', endpoint_run. rewrite foldl_app. change (foldl _ from_parts evs) with s.
  cbn. unfold rebuild_locked. rewrite Hl, Hr, Z.eqb_refl. cbn.
  unfold rebuild_bound. cbn. rewrite lookup_insert_eq. cbn.
  unfold rebuild_online. cbn. rewrite lookup_insert_eq. cbn.
  unfold rebuild_return. cbn. rewrite lookup_insert_eq. cbn. by rewrite lookup_insert_eq.
Qed.

(** Two callers that noticed the same outage: one endpoint is built. *)
Example two_callers :
  let s := endpoint_run [RebuildBegin 0; RebuildBegin 1; RebuildLocked 0; RebuildLocked 1; RebuildBound 0 (Ok tt);
    RebuildOnline 0; RebuildLocked 1; RebuildReturn 0] in
  generation s = 1 /\ current s = 1%nat /\ bound s = 2%nat
  /\ calls s !! 0%nat = Some (Returned 0 (Ok tt)) /\ calls s !! 1%nat = Some (Returned 0 (Ok tt)).
Proof. repeat split. Qed.

(** A session that is stopped while its rebuild waits for a relay drops the endpoint that
    was just bound without closing it: the teardown closes the current one only. *)
Theorem stop_drops_bound_endpoint :
  let s := endpoint_run [RebuildBegin 0; RebuildLocked 0; RebuildBound 0 (Ok tt); RebuildDropped 0; CloseBegin] in
  dropped s = {[1%nat]} /\ (1%nat ∉ closing s) /\ closing s = {[0%nat]} /\ bound s = 2%nat.
Proof. split_and!; try reflexivity. by vm_compute. Qed.
