(* ===== verification/Net.v ===== *)
(** * Addresses: [std::net] and the program's [Target]

    [IpAddr] keeps the address as its numeric value ([V4] 32 bits, [V6] 128
    bits); [octets] are its big-endian bytes. [ip_from_str] is the standard
    library's address parser ([core::net::parser]), function by function: a
    parser is a function from the unread text to a value and the rest, and a
    failing parser leaves the text of its caller untouched, which is what
    [read_atomically] does. *)

From S2P Require Import Prelude RustStr.

Inductive IpAddr : Type :=
| V4 (bits : Z)
| V6 (bits : Z).

Inductive SocketAddr : Type :=
| SockV4 (ip port : Z)
| SockV6 (ip port flowinfo scope_id : Z).

(** A connection target requested over a per-SOCKS5 stream. *)
Inductive Target : Type :=
| Ip (sa : SocketAddr)
| Domain (host : bytes) (port : Z).

#[export] Instance IpAddr_eq_dec : EqDecision IpAddr.
Proof. solve_decision. Defined.
#[export] Instance SocketAddr_eq_dec : EqDecision SocketAddr.
Proof. solve_decision. Defined.
#[export] Instance Target_eq_dec : EqDecision Target.
Proof. solve_decision. Defined.

Definition sa_ip (sa : SocketAddr) : IpAddr :=
  match sa with SockV4 ip _ => V4 ip | SockV6 ip _ _ _ => V6 ip end.

Definition sa_port (sa : SocketAddr) : Z :=
  match sa with SockV4 _ p => p | SockV6 _ p _ _ => p end.

(** [SocketAddr::new]. *)
Definition sa_new (ip : IpAddr) (port : Z) : SocketAddr :=
  match ip with V4 a => SockV4 a port | V6 a => SockV6 a port 0 0 end.

(** [IpAddr::is_loopback]: [127.0.0.0/8] and [::1]. *)
Definition is_loopback (ip : IpAddr) : bool :=
  match ip with V4 a => a / 2 ^ 24 =? 127 | V6 a => a =? 1 end.

Definition is_ipv4 (sa : SocketAddr) : bool :=
  match sa with SockV4 _ _ => true | SockV6 _ _ _ _ => false end.

(** [Ipv4Addr::LOCALHOST] and [Ipv6Addr::LOCALHOST]. *)
Definition IPV4_LOCALHOST : Z := 2130706433.
Definition IPV6_LOCALHOST : Z := 1.

(** ** Values of the Rust types *)

Definition wf_u16 (z : Z) : Prop := 0 <= z <= 65535.

Definition wf_ip (ip : IpAddr) : Prop :=
  match ip with V4 a => 0 <= a < 2 ^ 32 | V6 a => 0 <= a < 2 ^ 128 end.

Definition wf_sa (sa : SocketAddr) : Prop :=
  match sa with
  | SockV4 a p => 0 <= a < 2 ^ 32 /\ wf_u16 p
  | SockV6 a p f sc =>
      0 <= a < 2 ^ 128 /\ wf_u16 p /\ 0 <= f < 2 ^ 32 /\ 0 <= sc < 2 ^ 32
  end.

(** What the Rust type [Target] guarantees of a value: every integer fits its
    width, and a host is a [String]. *)
Definition wf_target (t : Target) : Prop :=
  match t with
  | Ip sa => wf_sa sa
  | Domain h p => utf8_valid h = true /\ wf_u16 p
  end.

(** ** The address parser *)

Definition to_digit (radix : Z) (b : byte) : option Z :=
  let v := if is_ascii_digit b then u8 b - 48
           else if (97 <=? u8 b) && (u8 b <=? 122) then u8 b - 87
           else if is_ascii_uppercase b then u8 b - 55
           else 36 in
  if v <? radix then Some v else None.

Definition read_given_char (c : byte) (s : bytes) : option bytes :=
  match s with
  | b :: s' => if decide (b = c) then Some s' else None
  | [] => None
  end.

(** The digit loop of [read_number] with a digit limit: [None] once more than
    [budget] digits were read. *)
Fixpoint read_digits (radix : Z) (budget : nat) (acc : Z) (count : nat) (s : bytes)
  : option (Z * nat * bytes) :=
  match s with
  | b :: s' =>
      match to_digit radix b with
      | Some d =>
          match budget with
          | O => None
          | S k => read_digits radix k (acc * radix + d) (S count) s'
          end
      | None => Some (acc, count, s)
      end
  | [] => Some (acc, count, [])
  end.

Definition read_number (radix : Z) (max_digits : nat) (allow_zero_prefix : bool)
    (limit : Z) (s : bytes) : option (Z * bytes) :=
  match read_digits radix max_digits 0 0 s with
  | Some (v, count, rest) =>
      if bool_decide (count = 0)%nat then None
      else if negb allow_zero_prefix && bool_decide (head s = Some x30)
              && bool_decide (1 < count)%nat then None
      else if v <=? limit then Some (v, rest) else None
  | None => None
  end.

(** [read_separator]: the separator before every group but the first. *)
Definition read_separator {A} (c : byte) (first : bool) (inner : bytes -> option A)
    (s : bytes) : option A :=
  if first then inner s
  else match read_given_char c s with Some s' => inner s' | None => None end.

Fixpoint read_ipv4_groups (n : nat) (first : bool) (acc : Z) (s : bytes)
  : option (Z * bytes) :=
  match n with
  | O => Some (acc, s)
  | S n' =>
      match read_separator x2e first (read_number 10 3 false 255) s with
      | Some (g, s') => read_ipv4_groups n' false (acc * 256 + g) s'
      | None => None
      end
  end.

Definition read_ipv4_addr (s : bytes) : option (Z * bytes) := read_ipv4_groups 4 true 0 s.

(** [read_groups] with [slots] groups left: the groups read, whether a trailing
    IPv4 address was read, and the rest. *)
Fixpoint read_groups (slots : nat) (first : bool) (s : bytes) : list Z * bool * bytes :=
  match slots with
  | O => ([], false, s)
  | S slots' =>
      let v4 := match slots' with
                | O => None
                | S _ => read_separator x3a first read_ipv4_addr s
                end in
      match v4 with
      | Some (a, s') => ([a / 65536; a mod 65536], true, s')
      | None =>
          match read_separator x3a first (read_number 16 4 true 65535) s with
          | Some (g, s') =>
              let '(gs, f, s'') := read_groups slots' false s' in (g :: gs, f, s'')
          | None => ([], false, s)
          end
      end
  end.

Fixpoint groups_value (acc : Z) (gs : list Z) : Z :=
  match gs with [] => acc | g :: gs' => groups_value (acc * 65536 + g) gs' end.

Definition read_ipv6_addr (s : bytes) : option (Z * bytes) :=
  let '(hd, hd_v4, s1) := read_groups 8 true s in
  if bool_decide (length hd = 8)%nat then Some (groups_value 0 hd, s1)
  else if hd_v4 then None
  else
    match read_given_char x3a s1 with
    | None => None
    | Some s2 =>
        match read_given_char x3a s2 with
        | None => None
        | Some s3 =>
            let '(tl, _, s4) := read_groups (8 - (length hd + 1)) true s3 in
            Some (groups_value 0 (hd ++ replicate (8 - length hd - length tl) 0 ++ tl), s4)
        end
    end.

Definition read_ip_addr (s : bytes) : option (IpAddr * bytes) :=
  match read_ipv4_addr s with
  | Some (a, s') => Some (V4 a, s')
  | None => match read_ipv6_addr s with
            | Some (a, s') => Some (V6 a, s')
            | None => None
            end
  end.

(** [IpAddr::from_str]. *)
Definition ip_from_str (s : bytes) : option IpAddr :=
  match read_ip_addr s with Some (ip, []) => Some ip | _ => None end.

(** [read_number(10, None, true)]: any number of digits, checked arithmetic. *)
Fixpoint read_checked (limit acc : Z) (count : nat) (s : bytes) : option (Z * bytes) :=
  match s with
  | b :: s' =>
      match to_digit 10 b with
      | Some d => if acc * 10 + d <=? limit
                  then read_checked limit (acc * 10 + d) (S count) s' else None
      | None => if bool_decide (count = 0)%nat then None else Some (acc, s)
      end
  | [] => if bool_decide (count = 0)%nat then None else Some (acc, [])
  end.

Definition read_port (s : bytes) : option (Z * bytes) :=
  match read_given_char x3a s with
  | Some s' => read_checked 65535 0 0 s'
  | None => None
  end.

Definition read_scope_id (s : bytes) : option (Z * bytes) :=
  match read_given_char x25 s with
  | Some s' => read_checked (2 ^ 32 - 1) 0 0 s'
  | None => None
  end.

Definition read_socket_addr_v4 (s : bytes) : option (SocketAddr * bytes) :=
  match read_ipv4_addr s with
  | Some (a, s1) =>
      match read_port s1 with Some (p, s2) => Some (SockV4 a p, s2) | None => None end
  | None => None
  end.

Definition read_socket_addr_v6 (s : bytes) : option (SocketAddr * bytes) :=
  match read_given_char x5b s with
  | None => None
  | Some s1 =>
      match read_ipv6_addr s1 with
      | None => None
      | Some (a, s2) =>
          let '(scope, s3) := match read_scope_id s2 with
                              | Some (sc, r) => (sc, r) | None => (0, s2) end in
          match read_given_char x5d s3 with
          | None => None
          | Some s4 =>
              match read_port s4 with
              | Some (p, s5) => Some (SockV6 a p 0 scope, s5)
              | None => None
              end
          end
      end
  end.

(** [SocketAddr::from_str]. *)
Definition sa_from_str (s : bytes) : option SocketAddr :=
  match read_socket_addr_v4 s with
  | Some (sa, []) => Some sa
  | Some _ => None
  | None => match read_socket_addr_v6 s with Some (sa, []) => Some sa | _ => None end
  end.

(** ** Sanity checks against the standard library's documented examples *)

Example ip_parse_v4 : ip_from_str (str "93.184.216.34") = Some (V4 1572395042).
Proof. reflexivity. Qed.

Example ip_parse_v6 :
  ip_from_str (str "2606:2800:220:1:248:1893:25c8:1946")
  = Some (V6 50542628918019813867414319910101719366).
Proof. reflexivity. Qed.

Example ip_parse_compressed :
  (ip_from_str (str "::1"), ip_from_str (str "fd00::"), ip_from_str (str "::ffff:1.2.3.4"),
   ip_from_str (str "::"))
  = (Some (V6 1), Some (V6 (253 * 2 ^ 120)), Some (V6 (65535 * 2 ^ 32 + 16909060)), Some (V6 0)).
Proof. reflexivity. Qed.

Example ip_parse_rejects :
  map ip_from_str [str "256.1.1.1"; str "01.2.3.4"; str "1.2.3"; str "1.2.3.4.5";
                   str "1.2.3.4:80"; str "example.com"; str "1::2::3"; str "[::1]";
                   str "1:2:3:4:5:6:7"; str "12345::"; []]
  = replicate 11 None.
Proof. reflexivity. Qed.

Example sa_parse :
  (sa_from_str (str "10.0.0.53:5353"), sa_from_str (str "[::1]:53"), sa_from_str (str "::1:53"))
  = (Some (SockV4 167772213 5353), Some (SockV6 1 53 0 0), None).
Proof. reflexivity. Qed.

(** ** What an address literal looks like *)

Definition ip_char (b : byte) : bool :=
  bool_decide (is_Some (to_digit 16 b)) || bool_decide (b = x2e) || bool_decide (b = x3a).

(** A reader consumed at most [n] bytes, all of them address characters. *)
Definition consumes (n : nat) (s rest : bytes) : Prop :=
  exists used, s = used ++ rest /\ forallb ip_char used = true /\ (length used <= n)%nat.

Lemma consumes_nil n s : consumes n s s.
Proof. exists []. split_and!; [done..|simpl; lia]. Qed.

Lemma consumes_cons n b s rest : ip_char b = true -> consumes n s rest -> consumes (S n) (b :: s) rest.
Proof.
  intros Hb (u & -> & Hu & Hn). exists (b :: u). split_and!; [done|simpl; by rewrite Hb|simpl; lia].
Qed.

Lemma consumes_trans n k s r rest : consumes n s r -> consumes k r rest -> consumes (n + k) s rest.
Proof.
  intros (u & -> & Hu & Hn) (v & -> & Hv & Hk). exists (u ++ v).
  rewrite forallb_app, Hu, Hv, length_app. split_and!; [by rewrite (assoc_L (++))|done|lia].
Qed.

Lemma consumes_mono n k s r : (n <= k)%nat -> consumes n s r -> consumes k s r.
Proof. intros Hle (u & -> & Hu & Hn). exists u. split_and!; [done..|lia]. Qed.

Lemma to_digit_ip radix b d : radix <= 16 -> to_digit radix b = Some d -> ip_char b = true.
Proof.
  unfold to_digit, ip_char. intros Hr Hd. rewrite bool_decide_eq_true_2; [done|].
  unfold to_digit. revert Hd.
  generalize (if is_ascii_digit b then u8 b - 48 else
    if (97 <=? u8 b) && (u8 b <=? 122) then u8 b - 87 else
    if is_ascii_uppercase b then u8 b - 55 else 36). intros v.
  destruct (Z.ltb_spec v radix); [|done]. intros _. destruct (Z.ltb_spec v 16); [eauto|lia].
Qed.

Lemma read_digits_consumes radix budget acc count s v n rest :
  radix <= 16 -> read_digits radix budget acc count s = Some (v, n, rest) -> consumes budget s rest.
Proof.
  intros Hr. revert s acc count. induction budget as [|k IH]; intros [|b s] acc count; simpl;
    try (intros ?; simplify_eq; apply consumes_nil).
  - destruct (to_digit radix b) as [d|] eqn:Hd; [done|]. intros ?; simplify_eq. apply consumes_nil.
  - destruct (to_digit radix b) as [d|] eqn:Hd; [|intros ?; simplify_eq; apply consumes_nil].
    intros H. apply consumes_cons; [by eapply to_digit_ip|by eapply IH].
Qed.

Lemma read_number_consumes radix n z limit s v rest :
  radix <= 16 -> read_number radix n z limit s = Some (v, rest) -> consumes n s rest.
Proof.
  unfold read_number. intros Hr. destruct (read_digits radix n 0 0 s) as [[[w c] r]|] eqn:Hd; [|done].
  repeat (case_match; try done). intros ?; simplify_eq. by eapply read_digits_consumes.
Qed.

Lemma read_separator_consumes {A} c first (inner : bytes -> option (A * bytes)) n s a rest :
  ip_char c = true -> (forall s a rest, inner s = Some (a, rest) -> consumes n s rest) ->
  read_separator c first inner s = Some (a, rest) -> consumes (S n) s rest.
Proof.
  unfold read_separator, read_given_char. intros Hc Hi. destruct first.
  - intros H. eapply consumes_mono; [|by eapply Hi]. lia.
  - destruct s as [|b s]; [done|]. destruct (decide (b = c)) as [->|]; [|done].
    intros H. apply consumes_cons; [done|by eapply Hi].
Qed.

Lemma read_ipv4_groups_consumes n first acc s a rest :
  read_ipv4_groups n first acc s = Some (a, rest) -> consumes (4 * n) s rest.
Proof.
  revert first acc s. induction n as [|n IH]; intros first acc s; cbn [read_ipv4_groups].
  - intros ?; simplify_eq. apply consumes_nil.
  - destruct (read_separator x2e first (read_number 10 3 false 255) s) as [[g s']|] eqn:Hs; [|done].
    intros H. apply IH in H. eapply (consumes_mono (4 + 4 * n)); [lia|].
    eapply consumes_trans; [|exact H]. eapply (read_separator_consumes x2e); [done| |exact Hs].
    intros. by eapply read_number_consumes; [|eassumption].
Qed.

Lemma read_groups_consumes slots first s gs f rest :
  read_groups slots first s = (gs, f, rest) -> consumes (5 * slots + 12) s rest.
Proof.
  revert first s gs f. induction slots as [|slots IH]; intros first s gs f; cbn [read_groups].
  - intros ?; simplify_eq. apply consumes_nil.
  - destruct (match slots with O => None | S _ => _ end) as [[a s']|] eqn:H4.
    + intros ?; simplify_eq. eapply (consumes_mono 17); [lia|]. destruct slots; [done|].
      eapply (read_separator_consumes x3a); [done| |exact H4].
      intros ??? H. by apply read_ipv4_groups_consumes in H.
    + destruct (read_separator x3a first (read_number 16 4 true 65535) s) as [[g s']|] eqn:Hs;
        [|intros ?; simplify_eq; apply consumes_nil].
      destruct (read_groups slots false s') as [[gs' f'] s''] eqn:Hg. intros [= <- <- <-].
      apply IH in Hg. eapply (consumes_mono (5 + (5 * slots + 12))); [lia|].
      eapply consumes_trans; [|exact Hg]. eapply (read_separator_consumes x3a); [done| |exact Hs].
      intros. by eapply read_number_consumes; [|eassumption].
Qed.

Lemma read_given_char_consumes c s s' :
  ip_char c = true -> read_given_char c s = Some s' -> consumes 1 s s'.
Proof.
  intros Hc. destruct s as [|b s]; simpl; [done|]. destruct (decide (b = c)) as [->|]; [|done].
  intros [= <-]. apply consumes_cons; [done|apply consumes_nil].
Qed.

Lemma read_ipv6_consumes s a rest : read_ipv6_addr s = Some (a, rest) -> consumes 101 s rest.
Proof.
  unfold read_ipv6_addr. destruct (read_groups 8 true s) as [[hd f] s1] eqn:H1.
  apply read_groups_consumes in H1. destruct (bool_decide _).
  { intros ?; simplify_eq. eapply consumes_mono; [|exact H1]. lia. }
  destruct f; [done|]. destruct (read_given_char x3a s1) as [s2|] eqn:H2; [|done].
  destruct (read_given_char x3a s2) as [s3|] eqn:H3; [|done].
  destruct (read_groups (8 - (length hd + 1)) true s3) as [[tl f'] s4] eqn:H4.
  intros ?; simplify_eq. apply read_groups_consumes in H4.
  apply read_given_char_consumes in H2, H3; [|done..].
  eapply (consumes_mono (52 + (1 + (1 + (5 * (8 - (length hd + 1)) + 12))))); [lia|].
  repeat (eapply consumes_trans; [eassumption|]). done.
Qed.

Lemma ip_literal_shape s ip :
  ip_from_str s = Some ip -> forallb ip_char s = true /\ (length s <= 101)%nat /\ s <> [].
Proof.
  unfold ip_from_str, read_ip_addr. intros H.
  assert (Hc : consumes 101 s []).
  { destruct (read_ipv4_addr s) as [[a r]|] eqn:H4.
    - destruct r; [|done]. apply read_ipv4_groups_consumes in H4. by eapply consumes_mono; [|exact H4]; lia.
    - destruct (read_ipv6_addr s) as [[a r]|] eqn:H6; [|done]. destruct r; [|done].
      by eapply read_ipv6_consumes. }
  destruct Hc as (u & -> & Hu & Hn). rewrite app_nil_r in *. split_and!; [done..|]. by intros ->.
Qed.
