(* ===== verification/AddrText.v ===== *)
(** * Socket addresses as texts ([Display] of the standard library)

    Dotted IPv4, IPv6 with its longest run of zeros left out, scopes and ports. *)

From S2P Require Import Prelude RustStr Net.


Fixpoint hex_fuel (fuel : nat) (z : Z) : bytes :=
  let digit := b8 (if z mod 16 <? 10 then 48 + z mod 16 else 87 + z mod 16) in
  match fuel with
  | O => []
  | S fuel' => if z <? 16 then [digit] else hex_fuel fuel' (z / 16) ++ [digit]
  end.

Definition ipv4_text (ip : Z) : bytes :=
  join (str ".") (dec <$> [ip / 2 ^ 24 mod 256; ip / 2 ^ 16 mod 256; ip / 2 ^ 8 mod 256; ip mod 256]).

Definition segments (ip : Z) : list Z := (fun i => ip / 2 ^ (16 * i) mod 2 ^ 16) <$> [7; 6; 5; 4; 3; 2; 1; 0].

Fixpoint zero_run (l : list Z) : nat :=
  match l with z :: l' => if z =? 0 then S (zero_run l') else O | [] => O end.

(** Start and length of the first longest run of zeros. *)
Fixpoint longest_run (i : nat) (l : list Z) (best : nat * nat) : nat * nat :=
  match l with
  | [] => best
  | _ :: l' => longest_run (S i) l' (if (best.2 <? zero_run l)%nat then (i, zero_run l) else best)
  end.

Definition hex_groups (l : list Z) : bytes := join (str ":") (hex_fuel 4 <$> l).

Definition ipv6_text (ip : Z) : bytes :=
  if ip / 2 ^ 32 =? 65535 then str "::ffff:" ++ ipv4_text (ip mod 2 ^ 32)
  else let l := segments ip in
       let '(start, len) := longest_run 0 l (0, 0)%nat in
       if (1 <? len)%nat then hex_groups (take start l) ++ str "::" ++ hex_groups (drop (start + len) l)
       else hex_groups l.

Definition addr_text (a : SocketAddr) : bytes :=
  match a with
  | SockV4 ip port => ipv4_text ip ++ str ":" ++ dec port
  | SockV6 ip port _ scope_id =>
      str "[" ++ ipv6_text ip ++ (if scope_id =? 0 then [] else str "%" ++ dec scope_id) ++ str "]:" ++ dec port
  end.

Example addr_texts :
  addr_text (SockV4 2130706433 1080) = str "127.0.0.1:1080"
  /\ addr_text (SockV6 1 8080 0 0) = str "[::1]:8080"
  /\ addr_text (SockV6 (8193 * 2 ^ 112 + 3512 * 2 ^ 96 + 1 * 2 ^ 16) 1 0 2) = str "[2001:db8::1:0%2]:1"
  /\ addr_text (SockV6 (65535 * 2 ^ 32 + 2130706433) 1 0 0) = str "[::ffff:127.0.0.1]:1".
Proof. vm_compute. done. Qed.
