(* ===== verification/Stream.v ===== *)
(** * I/O errors and byte streams

    [io_error] is the part of [std::io::Error] the program looks at (kind, raw
    OS code, message). A [Stream] is one end of an ordered byte stream: the
    bytes the peer will deliver before the stream ends, how it ends, the bytes
    written so far, and whether writing fails. [M] is the state-and-error monad
    the asynchronous I/O functions are translated to: the state survives an
    error, so that what was written before an early return is observable.
    [ProxyError] is the error type of [error.rs]. *)

From S2P Require Import Prelude RustStr.

(** ** [std::io::ErrorKind] and [std::io::Error] *)

Inductive ErrorKind : Type :=
| NotFound | PermissionDenied | ConnectionRefused | ConnectionReset
| HostUnreachable | NetworkUnreachable | ConnectionAborted | NotConnected
| AddrInUse | AddrNotAvailable | BrokenPipe | WouldBlock | InvalidInput
| InvalidData | TimedOut | WriteZero | Interrupted | UnexpectedEof | Other
| Uncategorized (code : Z).

#[export] Instance ErrorKind_eq_dec : EqDecision ErrorKind.
Proof. solve_decision. Defined.

Record io_error : Type := mkIoError {
  kind : ErrorKind;
  raw_os_error : option Z;
  text : bytes;
}.

#[export] Instance io_error_eq_dec : EqDecision io_error.
Proof. solve_decision. Defined.

(** [io::Error::other]. *)
Definition io_other (msg : bytes) : io_error := mkIoError Other None msg.

(** The error [read_exact] reports when the stream ends early. *)
Definition early_eof : io_error := mkIoError UnexpectedEof None (str "early eof").

(** The [{:02x}] format of a byte. *)
Definition hex_digit (d : Z) : byte := b8 (if d <? 10 then 48 + d else 87 + d).
Definition hex2 (b : byte) : bytes := [hex_digit (u8 b / 16); hex_digit (u8 b mod 16)].

(** ** [ProxyError] *)

Inductive ProxyError : Type :=
| Network (e : io_error)
| Config (message : bytes)
| Signaling (message : bytes)
| AuthenticationFailed (message : bytes)
| ConnectionLost (message : bytes)
| DuplicateServerId (message : bytes).

Definition is_recoverable (e : ProxyError) : bool :=
  match e with
  | ConnectionLost _ | Network _ | Signaling _ => true
  | _ => false
  end.

(** ** The monad *)

Definition M (S E A : Type) : Type := S -> result E A * S.

#[export] Instance M_ret {S E} : MRet (M S E) := fun A a s => (Ok a, s).
#[export] Instance M_bind {S E} : MBind (M S E) := fun A B k m s =>
  match m s with
  | (Ok a, s') => k a s'
  | (Err e, s') => (Err e, s')
  end.

Definition fail {S E A} (e : E) : M S E A := fun s => (Err e, s).

(** A pure [Result] under the [?] operator. *)
Definition lift {S E A} (r : result E A) : M S E A := fun s => (r, s).

Definition map_error {S E F A} (f : E -> F) (m : M S E A) : M S F A := fun s =>
  match m s with
  | (Ok a, s') => (Ok a, s')
  | (Err e, s') => (Err (f e), s')
  end.

Section monad_laws.
Context {S E : Type}.

Lemma bind_Ok {A B} (m : M S E A) (k : A -> M S E B) s a s' :
  m s = (Ok a, s') -> (m ≫= k) s = k a s'.
Proof. intros Hm. unfold mbind, M_bind. by rewrite Hm. Qed.

Lemma bind_Err {A B} (m : M S E A) (k : A -> M S E B) s e s' :
  m s = (Err e, s') -> (m ≫= k) s = (Err e, s').
Proof. intros Hm. unfold mbind, M_bind. by rewrite Hm. Qed.

Lemma bind_Ok_inv {A B} (m : M S E A) (k : A -> M S E B) s b s'' :
  (m ≫= k) s = (Ok b, s'') -> exists a s', m s = (Ok a, s') /\ k a s' = (Ok b, s'').
Proof.
  unfold mbind, M_bind. intros Hm.
  destruct (m s) as [[a|e] s'] eqn:Hms; [by eauto | done].
Qed.
End monad_laws.

(** ** Streams *)

Record Stream : Type := mkStream {
  rx : bytes;                 (* bytes still to be read *)
  rx_err : option io_error;   (* how reading ends: [None] is end of file *)
  tx : bytes;                 (* bytes written so far *)
  tx_err : option io_error;   (* [Some e]: every further write fails with [e] *)
}.

Abbreviation IO := (M Stream io_error).

Definition with_rx (s : Stream) (r : bytes) : Stream :=
  mkStream r (rx_err s) (tx s) (tx_err s).
Definition with_tx (s : Stream) (t : bytes) : Stream :=
  mkStream (rx s) (rx_err s) t (tx_err s).

(** A stream that will deliver [r] and then end, and accepts every write. *)
Definition open_stream (r : bytes) : Stream := mkStream r None [] None.

(** [AsyncReadExt::read_exact] into a buffer of [n] bytes. *)
Definition read_exact (n : nat) : IO bytes := fun s =>
  if bool_decide (n <= length (rx s))%nat
  then (Ok (take n (rx s)), with_rx s (drop n (rx s)))
  else (Err (default early_eof (rx_err s)), with_rx s []).

Definition read_u8 : IO byte := b ← read_exact 1; mret (hd x00 b).
Definition read_u16 : IO Z := b ← read_exact 2; mret (from_be b).

(** [AsyncWriteExt::write_all]; an empty buffer never touches the stream. *)
Definition write_all (data : bytes) : IO () := fun s =>
  match data, tx_err s with
  | _ :: _, Some e => (Err e, s)
  | _, _ => (Ok tt, with_tx s (tx s ++ data))
  end.

(** ** Lemmas *)

Lemma read_exact_app n a r s :
  rx s = a ++ r -> length a = n -> read_exact n s = (Ok a, with_rx s r).
Proof.
  intros Hrx Hn. unfold read_exact. rewrite Hrx, length_app.
  rewrite bool_decide_true by lia.
  by rewrite take_app_length', drop_app_length' by done.
Qed.

Lemma read_exact_Ok_inv n s a s' :
  read_exact n s = (Ok a, s') ->
  length a = n /\ rx s = a ++ rx s' /\ s' = with_rx s (rx s').
Proof.
  unfold read_exact. case_bool_decide as Hn; intros Heq; simplify_eq.
  rewrite length_take. simpl. rewrite take_drop. repeat split; lia || done.
Qed.

Lemma read_u8_cons b r s : rx s = b :: r -> read_u8 s = (Ok b, with_rx s r).
Proof.
  intros Hrx. unfold read_u8. by erewrite bind_Ok by (by apply (read_exact_app _ [b] r)).
Qed.

Lemma read_u8_Ok_inv s b s' :
  read_u8 s = (Ok b, s') -> rx s = b :: rx s' /\ s' = with_rx s (rx s').
Proof.
  intros (a & s1 & Ha & Hb)%bind_Ok_inv. injection Hb as <- <-.
  apply read_exact_Ok_inv in Ha as (Hlen & Hrx & Hs).
  destruct a as [|x [|]]; simpl in Hlen; done.
Qed.

Lemma read_u16_be p r s :
  rx s = to_be 2 p ++ r -> 0 <= p <= 65535 -> read_u16 s = (Ok p, with_rx s r).
Proof.
  intros Hrx Hp. unfold read_u16.
  erewrite bind_Ok by (eapply read_exact_app; [exact Hrx | by rewrite length_to_be]).
  unfold mret, M_ret. by rewrite from_be_to_be_small by (simpl; lia).
Qed.

Lemma read_u16_Ok_inv s p s' :
  read_u16 s = (Ok p, s') ->
  rx s = to_be 2 p ++ rx s' /\ 0 <= p <= 65535 /\ s' = with_rx s (rx s').
Proof.
  intros (a & s1 & Ha & Hb)%bind_Ok_inv. injection Hb as <- <-.
  apply read_exact_Ok_inv in Ha as (Hlen & Hrx & Hs).
  rewrite to_be_from_be_len by done.
  pose proof (from_be_range a) as Hr. rewrite Hlen in Hr. simpl in Hr.
  repeat split; [done | lia | lia | done].
Qed.

Lemma write_all_ok data s :
  tx_err s = None -> write_all data s = (Ok tt, with_tx s (tx s ++ data)).
Proof. intros He. unfold write_all. rewrite He. by destruct data. Qed.

Lemma write_all_Ok_inv data s u s' :
  write_all data s = (Ok u, s') -> s' = with_tx s (tx s ++ data).
Proof. unfold write_all. intros Hw. repeat case_match; by simplify_eq. Qed.

Lemma with_rx_with_rx s a b : with_rx (with_rx s a) b = with_rx s b.
Proof. done. Qed.
Lemma with_tx_with_tx s a b : with_tx (with_tx s a) b = with_tx s b.
Proof. done. Qed.
Lemma with_rx_rx s : with_rx s (rx s) = s.
Proof. by destruct s. Qed.

#[export] Hint Rewrite with_rx_with_rx with_tx_with_tx : ft.

(** [io_run] evaluates the leading I/O steps of the goal whose inputs are
    visible, [io_inv H] takes a successful run apart. *)
Ltac io_run :=
  repeat first
    [ erewrite bind_Ok by (apply read_u8_cons; reflexivity)
    | erewrite bind_Ok by (eapply read_u16_be; [reflexivity | assumption || lia])
    | erewrite bind_Ok by (apply read_exact_app; [reflexivity | by autorewrite with ft])
    | erewrite bind_Ok by (apply write_all_ok; first [reflexivity | assumption]) ].

Ltac io_inv H :=
  let a := fresh "a" in let s := fresh "s" in let H1 := fresh "Hio" in
  apply bind_Ok_inv in H as (a & s & H1 & H).

(** ** Address tails

    Both header formats end in fixed-size octets and a port, or in a
    length-prefixed host and a port. *)

Lemma read_octets_port_inv {A} n (f : Z -> Z -> A) s t s' :
  (octets ← read_exact n; port ← read_u16; mret (f (from_be octets) port)) s = (Ok t, s') ->
  exists ip p, t = f ip p /\ 0 <= ip < 256 ^ Z.of_nat n /\ 0 <= p <= 65535
    /\ rx s = to_be n ip ++ to_be 2 p ++ rx s' /\ s' = with_rx s (rx s').
Proof.
  intros Hr. io_inv Hr. apply read_exact_Ok_inv in Hio as (Hl & Hrx & Hs).
  io_inv Hr. apply read_u16_Ok_inv in Hio as (Hrx1 & Hp & Hs1).
  injection Hr as <- <-. exists (from_be a), a0.
  rewrite to_be_from_be_len, <- Hl by done.
  repeat split; [apply from_be_range .. | lia | lia | by rewrite Hrx, Hrx1 | by rewrite Hs1, Hs].
Qed.

Lemma read_host_port_inv {A} (k : bytes -> Z -> IO A) s t s' :
  (len ← read_u8; host ← read_exact (Z.to_nat (u8 len)); port ← read_u16; k host port) s
  = (Ok t, s') ->
  exists host p s1, (length host <= 255)%nat /\ 0 <= p <= 65535
    /\ rx s = b8 (Z.of_nat (length host)) :: host ++ to_be 2 p ++ rx s1
    /\ s1 = with_rx s (rx s1) /\ k host p s1 = (Ok t, s').
Proof.
  intros Hr. io_inv Hr. apply read_u8_Ok_inv in Hio as [Hrx Hs].
  io_inv Hr. apply read_exact_Ok_inv in Hio as (Hl & Hrx1 & Hs1).
  io_inv Hr. apply read_u16_Ok_inv in Hio as (Hrx2 & Hp & Hs2).
  pose proof (u8_range a) as Ha. eexists a0, a1, _.
  rewrite Hl, Z2Nat.id, b8_u8 by lia.
  repeat split; [lia | lia | lia | by rewrite Hrx, Hrx1, Hrx2 | by rewrite Hs2, Hs1, Hs | done].
Qed.
