(* ===== verification/Pipe.v ===== *)
(** * The control pipe on Windows ([pipe_security.rs]; [ipc.rs]: [spawn_pipe],
    [IpcClient::open])

    The pipe names of a machine are one space that every user creates pipes in. The
    system is the class [Pipes]: descriptors made from their text, pipes made with a
    descriptor. [PipeLaws] states what its documentation says of users without special
    privileges. The accept task runs beside other users, who create pipes of any name, and
    beside connections that end. *)

From S2P Require Import Prelude RustStr Net Stream.

Class Pipes := {
  Sid : Type;
  Sid_eq : EqDecision Sid;
  Token : Type;
  Descriptor : Type;
  Pipe : Type;
  Pipe_eq : EqDecision Pipe;
  PipeSpace : Type;
  open_process_token : result io_error Token;
  token_user : Token -> result io_error Sid;
  sid_to_string : Sid -> result io_error bytes;
  descriptor_of : bytes -> result io_error Descriptor;
  desc_owner : Descriptor -> Sid;
  desc_grants : Descriptor -> Sid -> Prop;
  pipe_desc : Pipe -> Descriptor;
  get_owner : Pipe -> result io_error Sid;
  instances : PipeSpace -> bytes -> list Pipe;
  create_pipe : Sid -> bool -> bytes -> Descriptor -> PipeSpace -> result io_error (PipeSpace * Pipe);
  close_pipe : Pipe -> PipeSpace -> PipeSpace;
}.
#[export] Existing Instance Sid_eq.
#[export] Existing Instance Pipe_eq.

(** [first_pipe_instance(true)]. *)
Definition FIRST : bool := true.
Definition ERROR_PIPE_BUSY : Z := 231.

Section pipes.
Context {PP : Pipes}.

Definition pipe_name (key : bytes) : bytes := str "\\.\pipe\flextunnel-client-" ++ key.

(** ** [pipe_security.rs] *)

Definition current_user_sid : result io_error bytes :=
  token ← open_process_token;
  user ← token_user token;
  sid_to_string user.

(** Owned by, and accessible to, [sid] alone. *)
Definition sddl (sid : bytes) : bytes := str "O:" ++ sid ++ str "D:P(A;;GA;;;" ++ sid ++ str ")".

Definition create_owner_only (user : Sid) (first : bool) (name sid : bytes) (ns : PipeSpace)
  : result io_error (PipeSpace * Pipe) :=
  d ← descriptor_of (sddl sid);
  create_pipe user first name d ns.

Definition not_owner (owner sid : bytes) : io_error :=
  mkIoError PermissionDenied None
    (str "the control pipe is owned by another user (" ++ owner ++ str "), not this one (" ++ sid ++ str ")").

Definition check_owner (p : Pipe) (sid : bytes) : result io_error () :=
  owner ← get_owner p;
  owner ← sid_to_string owner;
  if bool_decide (owner = sid) then Ok tt else Err (not_owner owner sid).

(** ** Attaching *)

(** [attempts]: what opening the pipe gives, each time; [None]: still busy. *)
Fixpoint open_loop (sid : bytes) (attempts : list (result io_error Pipe)) : option (result io_error Pipe) :=
  match attempts with
  | [] => None
  | Ok p :: _ => Some (_ ← check_owner p sid; Ok p)
  | Err e :: attempts =>
      if bool_decide (raw_os_error e = Some ERROR_PIPE_BUSY) then open_loop sid attempts else Some (Err e)
  end.

Definition open_pipe (attempts : list (result io_error Pipe)) : option (result io_error Pipe) :=
  match current_user_sid with
  | Err e => Some (Err e)
  | Ok sid => open_loop sid attempts
  end.

(** ** Serving *)

Inductive PipePhase : Type :=
| Listening (server : Pipe)
| Recreating (conn : Pipe).       (* connected; the next instance is not there yet *)

Record PipeWorld : Type := mkPipeWorld {
  pw_space : PipeSpace;
  pw_phase : PipePhase;
  pw_served : list Pipe;          (* connections handed to [serve_connection] *)
}.

Inductive PipeEvent : Type :=
| ClientConnects (ok : bool)
| Recreate
| ConnectionEnds (p : Pipe)
| OtherCreates (user : Sid) (first : bool) (name : bytes) (d : Descriptor)
| OtherCloses (p : Pipe).

Definition spawn_pipe (user : Sid) (name : bytes) (ns : PipeSpace) : result io_error PipeWorld :=
  sid ← current_user_sid;
  '(ns, server) ← create_owner_only user FIRST name sid ns;
  Ok (mkPipeWorld ns (Listening server) []).

Definition held (ph : PipePhase) : Pipe := match ph with Listening p | Recreating p => p end.

Definition pipe_step (user : Sid) (name sid : bytes) (ev : PipeEvent) (w : PipeWorld) : PipeWorld :=
  match ev, pw_phase w with
  | ClientConnects true, Listening server => mkPipeWorld (pw_space w) (Recreating server) (pw_served w)
  | Recreate, Recreating conn =>
      match create_owner_only user false name sid (pw_space w) with
      | Ok (ns, next) => mkPipeWorld ns (Listening next) (pw_served w ++ [conn])
      | Err _ => w
      end
  | ConnectionEnds p, ph =>
      if bool_decide (p ∈ pw_served w)
      then mkPipeWorld (close_pipe p (pw_space w)) ph (filter (fun q => q <> p) (pw_served w)) else w
  | OtherCreates other first n d, ph =>
      match create_pipe other first n d (pw_space w) with
      | Ok (ns, _) => mkPipeWorld ns ph (pw_served w)
      | Err _ => w
      end
  | OtherCloses p, ph =>
      if bool_decide (p = held ph \/ p ∈ pw_served w) then w
      else mkPipeWorld (close_pipe p (pw_space w)) ph (pw_served w)
  | _, _ => w
  end.

Definition pipe_run (user : Sid) (name sid : bytes) (evs : list PipeEvent) (w : PipeWorld) : PipeWorld :=
  foldl (fun w ev => pipe_step user name sid ev w) w evs.
End pipes.

(** ** What the system promises *)

Class PipeLaws `{Pipes} := {
  sid_text_inj s s' t : sid_to_string s = Ok t -> sid_to_string s' = Ok t -> s = s';
  (* the text of [sddl] means what it says *)
  sddl_owner s t d : sid_to_string s = Ok t -> descriptor_of (sddl t) = Ok d ->
    desc_owner d = s /\ (forall u, desc_grants d u -> u = s);
  owner_of_pipe p s : get_owner p = Ok s -> s = desc_owner (pipe_desc p);
  (* a new instance, with its descriptor, and nothing else *)
  create_adds u first n d ns ns' p : create_pipe u first n d ns = Ok (ns', p) ->
    pipe_desc p = d /\ (p ∉ instances ns n) /\ instances ns' n = instances ns n ++ [p]
    /\ (forall n', n' <> n -> instances ns' n' = instances ns n');
  create_first u n d ns ns' p : create_pipe u FIRST n d ns = Ok (ns', p) -> instances ns n = [];
  (* joining a name needs the access its instances grant; a pipe is owned by its maker *)
  create_joins u first n d ns ns' p q : create_pipe u first n d ns = Ok (ns', p) ->
    q ∈ instances ns n -> desc_grants (pipe_desc q) u;
  create_owns u first n d ns ns' p : create_pipe u first n d ns = Ok (ns', p) -> desc_owner d = u;
  close_removes p ns n : instances (close_pipe p ns) n = filter (fun q => q <> p) (instances ns n);
}.

Section ours.
Context `{PL : PipeLaws} (me : Sid) (name sid : bytes) (Hsid : sid_to_string me = Ok sid).

Definition by_others (ev : PipeEvent) : Prop :=
  match ev with OtherCreates u _ _ _ => u <> me | _ => True end.

(** Every instance of the name is ours and lets only us in; one of them is the task's,
    and it is not one that is being served. *)
Record pipe_inv (w : PipeWorld) : Prop := {
  inv_ours p : p ∈ instances (pw_space w) name ->
    desc_owner (pipe_desc p) = me /\ (forall u, desc_grants (pipe_desc p) u -> u = me);
  inv_held : held (pw_phase w) ∈ instances (pw_space w) name;
  inv_served p : p ∈ pw_served w -> p ∈ instances (pw_space w) name;
  inv_apart : held (pw_phase w) ∉ pw_served w;
}.

Lemma created first ns ns' p :
  create_owner_only me first name sid ns = Ok (ns', p) ->
  (p ∉ instances ns name) /\ instances ns' name = instances ns name ++ [p]
  /\ desc_owner (pipe_desc p) = me /\ (forall u, desc_grants (pipe_desc p) u -> u = me).
Proof.
  unfold create_owner_only. destruct (descriptor_of (sddl sid)) as [d|] eqn:Hd; [|done]. cbn.
  intros (-> & Hnew & Hadd & _)%create_adds. split; [done|]. split; [done|]. by eapply sddl_owner.
Qed.

Lemma spawned ns w : current_user_sid = Ok sid -> spawn_pipe me name ns = Ok w -> pipe_inv w.
Proof.
  intros Hcur. unfold spawn_pipe. rewrite Hcur. cbn -[FIRST].
  destruct (create_owner_only me FIRST name sid ns) as [[ns' p]|] eqn:Hc; [|done]. cbn. intros [= <-].
  assert (instances ns name = []) as Hnone.
  { revert Hc. unfold create_owner_only. destruct (descriptor_of _); [|done]. cbn -[FIRST]. apply create_first. }
  apply created in Hc as (_ & Hadd & Ho & Hg). rewrite Hnone in Hadd. cbn in Hadd.
  split; cbn; rewrite ?Hadd; set_solver.
Qed.

Lemma close_inv p w ph served :
  pipe_inv w -> ph = pw_phase w -> p <> held ph -> (forall q, q ∈ served -> q ∈ pw_served w /\ q <> p) ->
  pipe_inv (mkPipeWorld (close_pipe p (pw_space w)) ph served).
Proof.
  intros [Ho Hh Hs Ha] -> Hp Hserved. split; cbn; rewrite ?close_removes.
  - intros q. rewrite list_elem_of_filter. intros [_ ?]. by apply Ho.
  - apply list_elem_of_filter. split; [by apply not_eq_sym|done].
  - intros q [? ?]%Hserved. apply list_elem_of_filter. auto.
  - intros [? _]%Hserved. done.
Qed.

Lemma pipe_step_inv ev w : by_others ev -> pipe_inv w -> pipe_inv (pipe_step me name sid ev w).
Proof.
  intros Hby Hinv. destruct ev as [[]| |p|u first n d|p]; unfold pipe_step.
  - destruct (pw_phase w) as [server|conn] eqn:Hp; [|done]. destruct Hinv as [Ho Hh Hs Ha].
    rewrite Hp in *. by split.
  - by destruct (pw_phase w).
  - destruct (pw_phase w) as [server|conn] eqn:Hp; [done|].
    destruct (create_owner_only _ _ _ _ _) as [[ns next]|] eqn:Hc; [|done].
    apply created in Hc as (Hnew & Hadd & Hown & Hg). destruct Hinv as [Ho Hh Hs Ha]. rewrite Hp in Hh, Ha. cbn in *.
    split; cbn; rewrite ?Hadd; [|set_solver..].
    intros q [Hq| ->%list_elem_of_singleton]%elem_of_app; [by apply Ho|done].
  - case_bool_decide as Hin; [|by destruct (pw_phase w)]. pose proof (inv_apart w Hinv) as Ha.
    assert (pipe_inv (mkPipeWorld (close_pipe p (pw_space w)) (pw_phase w) (filter (fun q => q <> p) (pw_served w))));
      [|by destruct (pw_phase w)].
    apply close_inv; [done|done|by intros ->|]. intros q [? ?]%list_elem_of_filter. done.
  - destruct (create_pipe u first n d (pw_space w)) as [[ns p]|] eqn:Hc; [|by destruct (pw_phase w)].
    assert (instances ns name = instances (pw_space w) name) as Heq.
    { destruct (decide (name = n)) as [<-|Hn].
      - pose proof (create_joins _ _ _ _ _ _ _ _ Hc (inv_held w Hinv)) as Hg.
        by apply (inv_ours w Hinv _ (inv_held w Hinv)) in Hg.
      - apply create_adds in Hc as (_ & _ & _ & Hother). by apply Hother. }
    assert (pipe_inv (mkPipeWorld ns (pw_phase w) (pw_served w))); [|by destruct (pw_phase w)].
    destruct Hinv as [Ho Hh Hs Ha]. split; cbn; rewrite ?Heq; done.
  - case_bool_decide as Hin; [by destruct (pw_phase w)|].
    assert (pipe_inv (mkPipeWorld (close_pipe p (pw_space w)) (pw_phase w) (pw_served w)));
      [|by destruct (pw_phase w)].
    apply close_inv; [done|done|naive_solver|]. intros q Hq. split; [done|]. intros ->. naive_solver.
Qed.

Lemma pipe_run_inv evs w : Forall by_others evs -> pipe_inv w -> pipe_inv (pipe_run me name sid evs w).
Proof.
  revert w. induction evs as [|ev evs IH]; intros w Hall Hw; [done|]. apply Forall_cons in Hall as [Hev Hall].
  apply IH; [done|]. by apply pipe_step_inv.
Qed.
End ours.

(** C31. The control pipe of a running client is its user's. Once it is created, through
    whatever connections come and end, failed accepts and failed recreations, and whatever
    pipes other users try to create: the name is never free, every instance of it is
    owned by the client's user and opens to that user alone, and the user's own commands
    accept each one whose owner can be read. Conversely, a command that attaches got a
    pipe of its own user: a name another user took first is refused. *)
Theorem pipe_is_ours `{PL : PipeLaws} (me : Sid) (name sid : bytes) ns w evs attempts :
  sid_to_string me = Ok sid -> current_user_sid = Ok sid ->
  spawn_pipe me name ns = Ok w -> Forall (by_others me) evs ->
  let w' := pipe_run me name sid evs w in
  instances (pw_space w') name <> []
  /\ (forall p, p ∈ instances (pw_space w') name ->
        desc_owner (pipe_desc p) = me /\ (forall u, desc_grants (pipe_desc p) u -> u = me)
        /\ (is_ok (get_owner p) = true -> check_owner p sid = Ok tt))
  /\ (forall p, open_pipe attempts = Some (Ok p) -> desc_owner (pipe_desc p) = me).
Proof.
  intros Hsid Hcur Hspawn Hevs w'.
  assert (pipe_inv me name w') as Hinv by (apply pipe_run_inv; [done..|by eapply spawned]).
  split; [|split].
  - intros Hnil. pose proof (inv_held _ _ _ Hinv) as Hh. rewrite Hnil in Hh. by apply not_elem_of_nil in Hh.
  - intros p [Ho Hg]%(inv_ours _ _ _ Hinv). split_and!; [done..|]. unfold check_owner.
    destruct (get_owner p) as [s|] eqn:Hs; [|done]. intros _. cbn.
    rewrite (owner_of_pipe _ _ Hs), Ho, Hsid. cbn. by rewrite bool_decide_eq_true_2.
  - intros p. unfold open_pipe. rewrite Hcur. induction attempts as [|[q|e] attempts IH]; cbn; [done| |].
    + destruct (check_owner q sid) as [|] eqn:Hc; [|done]. cbn. intros [= ->]. revert Hc. unfold check_owner.
      destruct (get_owner p) as [s|] eqn:Hs; [|done]. cbn. destruct (sid_to_string s) as [t|] eqn:Ht; [|done].
      cbn. case_bool_decide as Heq; [|done]. intros _. rewrite <- (owner_of_pipe _ _ Hs).
      apply (sid_text_inj _ _ sid); [by rewrite <- Heq|done].
    + case_bool_decide; [done|]. done.
Qed.

(** ** A system with two users *)

Section reference.
(** A descriptor: the owner, and whether everyone is let in. *)
Definition ref_sid (s : bool) : bytes := if s then str "S-1-5-21-2" else str "S-1-5-21-1".
Definition ref_grants (d : bool * bool) (u : bool) : bool := bool_decide (u = d.1) || d.2.
Definition ref_instances (ns : list (bytes * (nat * (bool * bool)))) (n : bytes) : list (nat * (bool * bool)) :=
  snd <$> filter (fun e => e.1 = n) ns.
Definition ref_fresh (ns : list (bytes * (nat * (bool * bool)))) : nat := S (max_list ((fun e => e.2.1) <$> ns)).
Definition ref_refused : io_error := mkIoError PermissionDenied (Some 5) (str "Access is denied.").

Definition RefPipes : Pipes := {|
  Sid := bool; Sid_eq := _; Token := (); Descriptor := bool * bool; Pipe := nat * (bool * bool); Pipe_eq := _;
  PipeSpace := list (bytes * (nat * (bool * bool)));
  open_process_token := Ok tt;
  token_user _ := Ok false;
  sid_to_string s := Ok (ref_sid s);
  descriptor_of t := if bool_decide (t = sddl (ref_sid false)) then Ok (false, false)
                     else if bool_decide (t = sddl (ref_sid true)) then Ok (true, false) else Err ref_refused;
  desc_owner := fst;
  desc_grants d u := ref_grants d u = true;
  pipe_desc := snd;
  get_owner p := Ok p.2.1;
  instances := ref_instances;
  create_pipe u first n d ns :=
    if bool_decide (d.1 = u) && (negb first || bool_decide (ref_instances ns n = []))
       && forallb (fun p => ref_grants p.2 u) (ref_instances ns n)
    then Ok (ns ++ [(n, (ref_fresh ns, d))], (ref_fresh ns, d)) else Err ref_refused;
  close_pipe p ns := filter (fun e => e.2 <> p) ns;
|}.

Lemma ref_sid_inj s s' : ref_sid s = ref_sid s' -> s = s'.
Proof. by destruct s, s'. Qed.

Lemma ref_fresh_new ns n d : (ref_fresh ns, d) ∉ ref_instances ns n.
Proof.
  unfold ref_instances. intros ([m q] & Heq & [_ Hin]%list_elem_of_filter)%list_elem_of_fmap. cbn in Heq. subst q.
  assert (ref_fresh ns <= max_list ((fun e => e.2.1) <$> ns))%nat as Hle; [|unfold ref_fresh in Hle; lia].
  apply max_list_elem_of_le, list_elem_of_fmap. by exists (m, (ref_fresh ns, d)).
Qed.

Lemma ref_create u first n d ns ns' p :
  @create_pipe RefPipes u first n d ns = Ok (ns', p) ->
  p = (ref_fresh ns, d) /\ ns' = ns ++ [(n, p)] /\ d.1 = u
  /\ (first = true -> ref_instances ns n = [])
  /\ (forall q, q ∈ ref_instances ns n -> ref_grants q.2 u = true).
Proof.
  cbn. destruct (_ && _ && _) eqn:Hc; [|done]. intros [= <- <-].
  apply andb_true_iff in Hc as [[Ho%bool_decide_eq_true Hf]%andb_true_iff Hg]. split_and!; [done..| |].
  - intros ->. by apply bool_decide_eq_true in Hf.
  - intros q Hq. rewrite forallb_forall in Hg. apply Hg. by apply list_elem_of_In.
Qed.

Lemma ref_close p ns n :
  ref_instances (filter (fun e => e.2 <> p) ns) n = filter (fun q => q <> p) (ref_instances ns n).
Proof.
  unfold ref_instances. induction ns as [|[m q] ns IH]; [done|].
  rewrite !filter_cons. cbn. destruct (decide (q <> p)), (decide (m = n)); rewrite ?filter_cons; cbn;
    repeat (case_decide; try done); cbn; rewrite ?filter_cons; repeat (case_decide; try done); by f_equal.
Qed.

#[local] Instance RefPipeLaws : @PipeLaws RefPipes.
Proof.
  split; cbn.
  - intros s s' t [= <-] [= ?]. by apply ref_sid_inj.
  - intros s t d [= <-]. unfold ref_grants. destruct s; vm_compute; intros [= <-]; (split; [done|]); by intros [].
  - by intros p s [= <-].
  - intros u first n d ns ns' p (-> & -> & _)%ref_create. split_and!; [done|apply ref_fresh_new| |].
    + unfold ref_instances. by rewrite filter_app, filter_cons_True, fmap_app by done.
    + intros n' Hn. unfold ref_instances. rewrite filter_app, filter_cons_False, fmap_app by (by apply not_eq_sym).
      by rewrite app_nil_r.
  - intros u n d ns ns' p Hc. destruct (ref_create u true n d ns ns' p Hc) as (_ & _ & _ & Hf & _). by apply Hf.
  - intros u first n d ns ns' p q (_ & _ & _ & _ & Hg)%ref_create. apply Hg.
  - by intros u first n d ns ns' p (_ & _ & Ho & _)%ref_create.
  - intros p ns n. apply ref_close.
Qed.

(** A client starts, is attached to, and another user tries to join the name. *)
Definition ref_pipe_events : list (@PipeEvent RefPipes) :=
  [@ClientConnects RefPipes true; @OtherCreates RefPipes true false (pipe_name (str "k")) (true, true); @Recreate RefPipes].

Definition ref_after (w : @PipeWorld RefPipes) : list (@Pipe RefPipes) :=
  @instances RefPipes (@pw_space RefPipes
    (@pipe_run RefPipes false (pipe_name (str "k")) (ref_sid false) ref_pipe_events w)) (pipe_name (str "k")).

Lemma pipe_is_ours_witness :
  exists w, @spawn_pipe RefPipes false (pipe_name (str "k")) [] = Ok w
    /\ length (ref_after w) = 2%nat /\ ref_after w <> [].
Proof.
  eexists. split; [reflexivity|]. split; [vm_compute; reflexivity|].
  apply (@pipe_is_ours RefPipes RefPipeLaws false (pipe_name (str "k")) (ref_sid false) [] _ ref_pipe_events []);
    [reflexivity|reflexivity|reflexivity|by repeat constructor].
Defined.
End reference.
