(* ===== verification/Process.v ===== *)
(** * Process set-up ([crates/flextunnel-core/src/app.rs])

    The open-file limit and the shutdown signal. What the system calls answer is part of
    the input; the limits are unsigned 64-bit numbers, the sysctl a signed 32-bit one. The
    logger and the runtime are not followed. *)

From S2P Require Import Prelude RustStr Stream.

Record rlimit : Type := mkRlimit { rlim_cur : Z; rlim_max : Z }.

(** Which build: on Darwin the kernel has a ceiling of its own, [None] when the sysctl
    failed. *)
Inductive Platform : Type :=
| Darwin (sysctl : option Z)
| OtherUnix
| NotUnix.

Definition darwin_maxfilesperproc (sysctl : option Z) : option Z :=
  maxfiles ← sysctl; if 0 <? maxfiles then Some maxfiles else None.

(** The soft limit that is asked for. *)
Definition fd_target (b : Platform) (lim : rlimit) : option Z :=
  match b with
  | Darwin sysctl => Z.min (rlim_max lim) <$> darwin_maxfilesperproc sysctl
  | OtherUnix => Some (rlim_max lim)
  | NotUnix => None
  end.

(** The limit afterwards; [getrlimit] tells whether reading it worked, [setrlimit]
    whether the kernel takes a new one. *)
Definition raise_fd_limit (b : Platform) (getrlimit : bool) (setrlimit : rlimit -> bool) (lim : rlimit) : rlimit :=
  if negb getrlimit then lim
  else match fd_target b lim with
       | None => lim
       | Some target =>
           if target <=? rlim_cur lim then lim
           else let raised := mkRlimit target (rlim_max lim) in
                if setrlimit raised then raised else lim
       end.

Inductive Signal : Type := SIGTERM | SIGINT | OtherSignal.

(** [shutdown_signal]: [None] while it waits. *)
Fixpoint await_signal (signals : list Signal) : option () :=
  match signals with
  | [] => None
  | (SIGTERM | SIGINT) :: _ => Some tt
  | OtherSignal :: signals => await_signal signals
  end.

Definition shutdown_signal (term_installed int_installed : result bytes ()) (signals : list Signal)
  : option (result bytes ()) :=
  match term_installed, int_installed with
  | Err _, _ => Some (Err (str "installing SIGTERM handler"))
  | _, Err _ => Some (Err (str "installing SIGINT handler"))
  | Ok _, Ok _ => Ok <$> await_signal signals
  end.

(** The kernel the limits are for: it takes a soft limit up to the hard one and, on
    Darwin, up to its ceiling. *)
Definition kernel_takes (b : Platform) (lim : rlimit) : bool :=
  (rlim_cur lim <=? rlim_max lim)
  && match b with Darwin (Some cap) => rlim_cur lim <=? cap | _ => true end.

(** The soft limit only goes up, the hard one stays, no call makes it exceed the hard
    limit, and where the kernel answers it ends at the most it can be: a request that is
    made is one the kernel takes, and the limit it had already, where that is higher. *)
Theorem fd_limit_raised b getrlimit setrlimit lim :
  rlim_cur lim <= rlim_max lim ->
  let lim' := raise_fd_limit b getrlimit setrlimit lim in
  rlim_cur lim <= rlim_cur lim' <= rlim_max lim /\ rlim_max lim' = rlim_max lim
  /\ (getrlimit = true -> (forall l, kernel_takes b l = true -> setrlimit l = true) ->
      forall target, fd_target b lim = Some target -> rlim_cur lim' = Z.max (rlim_cur lim) target).
Proof.
  intros Hle. cbn. unfold raise_fd_limit. destruct getrlimit; [|cbn; split_and!; [lia|lia|done|done]]. cbn.
  assert (Htop : forall target, fd_target b lim = Some target -> target <= rlim_max lim).
  { destruct b as [[cap|]| |]; cbn; unfold darwin_maxfilesperproc; cbn; intros target.
    - destruct (0 <? cap); [|done]. intros [= <-]. lia.
    - done.
    - intros [= <-]. lia.
    - done. }
  destruct (fd_target b lim) as [target|] eqn:Ht; [|cbn; split_and!; [lia|lia|done|done]].
  specialize (Htop target eq_refl). destruct (Z.leb_spec target (rlim_cur lim)).
  { split_and!; [lia|lia|done|]. intros _ _ t [= <-]. lia. }
  destruct (setrlimit _) eqn:Hset; cbn; (split_and!; [lia|lia|done|]); intros _ Hk t [= <-]; [lia|].
  exfalso. rewrite Hk in Hset; [done|]. unfold kernel_takes. cbn. rewrite (proj2 (Z.leb_le _ _)) by lia. cbn.
  revert Ht. destruct b as [[cap|]| |]; cbn; unfold darwin_maxfilesperproc; cbn; [|done..].
  destruct (0 <? cap); [|done]. intros [= <-]. apply Z.leb_le. lia.
Qed.

Lemma fd_limit_raised_witness :
  rlim_cur (raise_fd_limit (Darwin (Some 122880)) true (kernel_takes (Darwin (Some 122880)))
              (mkRlimit 256 (2 ^ 63 - 1))) = 122880.
Proof.
  destruct (fd_limit_raised (Darwin (Some 122880)) true (kernel_takes (Darwin (Some 122880)))
    (mkRlimit 256 (2 ^ 63 - 1))) as (_ & _ & H); [by vm_compute|].
  rewrite (H eq_refl (fun _ h => h) 122880 eq_refl). reflexivity.
Defined.
