(* ===== verification/Signaling.v ===== *)
(** * The wire protocol ([proxy/signaling.rs])

    The handshake messages and their version checks, the length-prefixed
    framing of the control stream, and the binary request/reply header of a
    per-connection stream. [serde_json] is a parameter (class [Json]); what the
    program relies on is its round trip (class [JsonLaws]). *)

From S2P Require Import Prelude RustStr Net Stream.

(** ** Constants *)

Definition PROTOCOL_VERSION : Z := 13.
Definition MAX_HANDSHAKE_SIZE : Z := 64 * 1024.
Definition MAX_CONTROL_MSG_SIZE : Z := 16 * 1024.
Definition STREAM_VERSION : byte := x01.

Definition ATYP_IPV4 : byte := x01.
Definition ATYP_DOMAIN : byte := x03.
Definition ATYP_IPV6 : byte := x04.

Definition REP_SUCCESS : byte := x00.
Definition REP_GENERAL_FAILURE : byte := x01.
Definition REP_NOT_ALLOWED : byte := x02.
Definition REP_NET_UNREACHABLE : byte := x03.
Definition REP_HOST_UNREACHABLE : byte := x04.
Definition REP_CONN_REFUSED : byte := x05.
Definition REP_CMD_NOT_SUPPORTED : byte := x07.
Definition REP_ATYP_NOT_SUPPORTED : byte := x08.

(** ** Messages *)

Record ClientAuthPayload : Type := mkAuth {
  public_key : bytes;
  auth_endpoint_id : bytes;
  signature : bytes;
}.

Record Hello : Type := mkHello {
  hello_version : Z;
  auth : option ClientAuthPayload;
  client_instance_nonce : Z;
  duplicate_server_observed : bool;
}.

Definition Hello_new (a : option ClientAuthPayload) (nonce : Z) : Hello :=
  {| hello_version := PROTOCOL_VERSION; auth := a; client_instance_nonce := nonce;
     duplicate_server_observed := false |}.

Record BridgeHello : Type := mkBridgeHello { bridge_version : Z }.

Definition BridgeHello_new : BridgeHello := mkBridgeHello PROTOCOL_VERSION.

Record BridgeSummary : Type := mkBridgeSummary {
  bs_name : bytes;
  bs_endpoint_id : bytes;
  bs_domains : list bytes;
  bs_cidrs : list bytes;
}.

Record AcceptedRoutes : Type := mkRoutes {
  ar_routed_domains : list bytes;
  ar_routed_cidrs : list bytes;
  ar_host_aliases : list (bytes * bytes);
  ar_dns_forwards : list (bytes * list bytes);
  ar_bridges : list BridgeSummary;
}.

(** [AcceptedRoutes::default]. *)
Definition no_routes : AcceptedRoutes := mkRoutes [] [] [] [] [].

Record HelloResponse : Type := mkResponse {
  resp_version : Z;
  accepted : bool;
  reject_reason : option bytes;
  server_instance_nonce : Z;
  routed_domains : list bytes;
  routed_cidrs : list bytes;
  host_aliases : list (bytes * bytes);
  dns_forwards : list (bytes * list bytes);
  bridges : list BridgeSummary;
}.

Definition HelloResponse_accepted (nonce : Z) (routes : AcceptedRoutes) : HelloResponse :=
  {| resp_version := PROTOCOL_VERSION; accepted := true; reject_reason := None;
     server_instance_nonce := nonce;
     routed_domains := ar_routed_domains routes; routed_cidrs := ar_routed_cidrs routes;
     host_aliases := ar_host_aliases routes; dns_forwards := ar_dns_forwards routes;
     bridges := ar_bridges routes |}.

Definition HelloResponse_rejected (nonce : Z) (reason : bytes) : HelloResponse :=
  {| resp_version := PROTOCOL_VERSION; accepted := false; reject_reason := Some reason;
     server_instance_nonce := nonce;
     routed_domains := []; routed_cidrs := []; host_aliases := []; dns_forwards := [];
     bridges := [] |}.

Inductive ControlMsg : Type :=
| Heartbeat (seq : Z)
| HeartbeatAck (seq : Z).

#[export] Instance ControlMsg_eq_dec : EqDecision ControlMsg.
Proof. solve_decision. Defined.

(** ** [serde_json]

    [to_vec] and [from_slice] of a serialisable type; an error is its message.
    The law is the round trip of the derived implementations on the values of
    the Rust type (those that satisfy [wf]). *)

Class Json (A : Type) := {
  to_vec : A -> result bytes bytes;
  from_slice : bytes -> result bytes A;
}.

Class JsonLaws (A : Type) `{Json A} (wf : A -> Prop) :=
  json_roundtrip : forall v, wf v -> exists data, to_vec v = Ok data /\ from_slice data = Ok v.

(** A reference codec for any countable type, used to exhibit the interface. *)
Fixpoint positive_bytes (p : positive) : bytes :=
  match p with
  | xH => []
  | xO p' => x30 :: positive_bytes p'
  | xI p' => x31 :: positive_bytes p'
  end.

Fixpoint bytes_positive (bs : bytes) : positive :=
  match bs with
  | [] => xH
  | x30 :: bs' => xO (bytes_positive bs')
  | _ :: bs' => xI (bytes_positive bs')
  end.

Definition reference_json (A : Type) `{Countable A} : Json A := {|
  to_vec v := Ok (positive_bytes (encode v));
  from_slice bs := ok_or (decode (bytes_positive bs)) (str "invalid value");
|}.

(** ** Handshake encoding *)

Section codec.
Context `{Json Hello, Json HelloResponse, Json BridgeHello, Json ControlMsg}.

Definition unsupported_version (v : Z) : io_error :=
  io_other (str "Unsupported protocol version: " ++ dec v ++ str " (expected "
            ++ dec PROTOCOL_VERSION ++ str ")").

Definition encode_hello (h : Hello) : result io_error bytes := map_err io_other (to_vec h).

Definition decode_hello (data : bytes) : result io_error Hello :=
  hello ← map_err io_other (from_slice data);
  if negb (hello_version hello =? PROTOCOL_VERSION)
  then Err (unsupported_version (hello_version hello))
  else Ok hello.

Definition encode_hello_response (r : HelloResponse) : result io_error bytes :=
  map_err io_other (to_vec r).

Definition decode_hello_response (data : bytes) : result io_error HelloResponse :=
  resp ← map_err io_other (from_slice data);
  if negb (resp_version resp =? PROTOCOL_VERSION)
  then Err (unsupported_version (resp_version resp))
  else Ok resp.

Definition encode_bridge_hello (h : BridgeHello) : result io_error bytes :=
  map_err io_other (to_vec h).

Definition decode_bridge_hello (data : bytes) : result io_error BridgeHello :=
  hello ← map_err io_other (from_slice data);
  if negb (bridge_version hello =? PROTOCOL_VERSION)
  then Err (unsupported_version (bridge_version hello))
  else Ok hello.

Definition encode_control (m : ControlMsg) : result io_error bytes :=
  map_err io_other (to_vec m).

Definition decode_control (data : bytes) : result io_error ControlMsg :=
  map_err io_other (from_slice data).
End codec.

(** ** Framing *)

Definition write_message (data : bytes) : IO () :=
  let n := Z.of_nat (length data) in
  if 2 ^ 32 <=? n
  then fail (io_other (str "Message too large: " ++ dec n ++ str " bytes"))
  else _ ← write_all (to_be 4 n); write_all data.

Definition read_message (max_size : Z) : IO bytes :=
  len_buf ← read_exact 4;
  let len := from_be len_buf in
  if max_size <? len
  then fail (io_other (str "Message too large: " ++ dec len ++ str " > " ++ dec max_size))
  else read_exact (Z.to_nat len).

(** ** Request and reply headers *)

Definition write_request (t : Target) : IO () :=
  match t with
  | Ip (SockV4 ip port) =>
      write_all ([STREAM_VERSION; ATYP_IPV4] ++ to_be 4 ip ++ to_be 2 port)
  | Ip (SockV6 ip port _ _) =>
      write_all ([STREAM_VERSION; ATYP_IPV6] ++ to_be 16 ip ++ to_be 2 port)
  | Domain host port =>
      let n := Z.of_nat (length host) in
      if 255 <? n then fail (io_other (str "domain name longer than 255 bytes"))
      else write_all ([STREAM_VERSION; ATYP_DOMAIN; b8 n] ++ host ++ to_be 2 port)
  end.

Definition unsupported_stream_version (ver : byte) : io_error :=
  io_other (str "Unsupported stream version: " ++ dec (u8 ver) ++ str " (expected "
            ++ dec (u8 STREAM_VERSION) ++ str ")").

Definition read_request : IO Target :=
  ver ← read_u8;
  if negb (bool_decide (ver = STREAM_VERSION)) then fail (unsupported_stream_version ver)
  else
  atyp ← read_u8;
  if bool_decide (atyp = ATYP_IPV4) then
    octets ← read_exact 4;
    port ← read_u16;
    mret (Ip (SockV4 (from_be octets) port))
  else if bool_decide (atyp = ATYP_IPV6) then
    octets ← read_exact 16;
    port ← read_u16;
    mret (Ip (SockV6 (from_be octets) port 0 0))
  else if bool_decide (atyp = ATYP_DOMAIN) then
    len ← read_u8;
    host ← read_exact (Z.to_nat (u8 len));
    port ← read_u16;
    if utf8_valid host then mret (Domain host port)
    else fail (io_other (str "domain name is not valid UTF-8"))
  else fail (io_other (str "invalid address type: 0x" ++ hex2 atyp)).

Definition write_reply (rep : byte) : IO () := write_all [STREAM_VERSION; rep].

Definition read_reply : IO byte :=
  ver ← read_u8;
  if negb (bool_decide (ver = STREAM_VERSION)) then fail (unsupported_stream_version ver)
  else read_u8.

(** The reply code of an outbound-connect error. *)
Definition map_io_err (e : io_error) : byte :=
  match kind e with
  | ConnectionRefused => REP_CONN_REFUSED
  | NetworkUnreachable => REP_NET_UNREACHABLE
  | HostUnreachable => REP_HOST_UNREACHABLE
  | _ => REP_GENERAL_FAILURE
  end.

(** ** Values of the message types *)

Definition wf_auth (a : ClientAuthPayload) : Prop :=
  utf8_valid (public_key a) = true /\ utf8_valid (auth_endpoint_id a) = true
  /\ utf8_valid (signature a) = true.

Definition wf_hello (h : Hello) : Prop :=
  wf_u16 (hello_version h) /\ 0 <= client_instance_nonce h < 2 ^ 128
  /\ match auth h with Some a => wf_auth a | None => True end.

Definition wf_strings (l : list bytes) : Prop := Forall (fun s => utf8_valid s = true) l.

Definition wf_response (r : HelloResponse) : Prop :=
  wf_u16 (resp_version r) /\ 0 <= server_instance_nonce r < 2 ^ 128
  /\ wf_strings (from_option (fun s => [s]) [] (reject_reason r))
  /\ wf_strings (routed_domains r) /\ wf_strings (routed_cidrs r)
  /\ wf_strings (concat (map (fun p => [p.1; p.2]) (host_aliases r)))
  /\ wf_strings (concat (map (fun p => p.1 :: p.2) (dns_forwards r)))
  /\ wf_strings (concat (map (fun b => bs_name b :: bs_endpoint_id b
                                       :: bs_domains b ++ bs_cidrs b) (bridges r))).

Definition wf_control (m : ControlMsg) : Prop :=
  match m with Heartbeat seq | HeartbeatAck seq => 0 <= seq < 2 ^ 64 end.

(** ** Countability of the messages, and the reference codec's law *)

#[export] Instance ClientAuthPayload_eq_dec : EqDecision ClientAuthPayload.
Proof. solve_decision. Defined.
#[export] Program Instance ClientAuthPayload_countable : Countable ClientAuthPayload :=
  inj_countable' (fun a => (public_key a, auth_endpoint_id a, signature a))
    (fun '(p, e, s) => mkAuth p e s) _.
Next Obligation. by intros []. Qed.

#[export] Instance Hello_eq_dec : EqDecision Hello.
Proof. solve_decision. Defined.
#[export] Program Instance Hello_countable : Countable Hello :=
  inj_countable' (fun h => (hello_version h, auth h, client_instance_nonce h,
                            duplicate_server_observed h))
    (fun '(v, a, n, d) => mkHello v a n d) _.
Next Obligation. by intros []. Qed.

#[export] Instance BridgeHello_eq_dec : EqDecision BridgeHello.
Proof. solve_decision. Defined.
#[export] Program Instance BridgeHello_countable : Countable BridgeHello :=
  inj_countable' bridge_version mkBridgeHello _.
Next Obligation. by intros []. Qed.

#[export] Instance BridgeSummary_eq_dec : EqDecision BridgeSummary.
Proof. solve_decision. Defined.
#[export] Program Instance BridgeSummary_countable : Countable BridgeSummary :=
  inj_countable' (fun b => (bs_name b, bs_endpoint_id b, bs_domains b, bs_cidrs b))
    (fun '(n, e, d, c) => mkBridgeSummary n e d c) _.
Next Obligation. by intros []. Qed.

#[export] Instance HelloResponse_eq_dec : EqDecision HelloResponse.
Proof. solve_decision. Defined.
#[export] Program Instance HelloResponse_countable : Countable HelloResponse :=
  inj_countable' (fun r => (resp_version r, accepted r, reject_reason r,
      server_instance_nonce r, routed_domains r, routed_cidrs r, host_aliases r,
      dns_forwards r, bridges r))
    (fun '(v, a, rr, n, d, c, h, f, b) => mkResponse v a rr n d c h f b) _.
Next Obligation. by intros []. Qed.

#[export] Program Instance ControlMsg_countable : Countable ControlMsg :=
  inj_countable' (fun m => match m with Heartbeat n => inl n | HeartbeatAck n => inr n end)
    (fun x => match x with inl n => Heartbeat n | inr n => HeartbeatAck n end) _.
Next Obligation. by intros []. Qed.

Lemma bytes_positive_bytes p : bytes_positive (positive_bytes p) = p.
Proof. induction p; simpl; congruence. Qed.

Lemma reference_json_laws A `{Countable A} (wf : A -> Prop) :
  @JsonLaws A (reference_json A) wf.
Proof.
  intros v _. eexists. split; [reflexivity|].
  simpl. by rewrite bytes_positive_bytes, decode_encode.
Qed.

(** ** Requests *)

(** What survives the wire: the flow information and scope of an IPv6 address
    are not sent. *)
Definition canonical (t : Target) : Target :=
  match t with Ip (SockV6 ip port _ _) => Ip (SockV6 ip port 0 0) | _ => t end.

(** The targets a request header can carry. *)
Definition sendable (t : Target) : Prop :=
  match t with Domain host _ => (length host <= 255)%nat | Ip _ => True end.

(** The header's bytes, as the wire format defines them. *)
Definition request_frame (t : Target) : bytes :=
  [STREAM_VERSION] ++
  match t with
  | Ip (SockV4 ip port) => ATYP_IPV4 :: to_be 4 ip ++ to_be 2 port
  | Ip (SockV6 ip port _ _) => ATYP_IPV6 :: to_be 16 ip ++ to_be 2 port
  | Domain host port => ATYP_DOMAIN :: b8 (Z.of_nat (length host)) :: host ++ to_be 2 port
  end.

Lemma write_request_frame t s :
  sendable t -> tx_err s = None ->
  write_request t s = (Ok tt, with_tx s (tx s ++ request_frame t)).
Proof.
  intros Hsend Htx. unfold write_request.
  destruct t as [[ip port|ip port fi sc]|host port]; simpl in Hsend.
  1,2: by apply write_all_ok.
  replace (255 <? _) with false by (symmetry; simp_bool; lia). by apply write_all_ok.
Qed.

Lemma read_request_frame t rest r :
  wf_target t -> sendable t -> rx r = request_frame t ++ rest ->
  read_request r = (Ok (canonical t), with_rx r rest).
Proof.
  intros Hwf Hsend Hrx. destruct r as [rx0 re tx0 te]. simpl in Hrx. subst rx0.
  unfold read_request, request_frame.
  destruct t as [[ip port|ip port fi sc]|host port]; simpl in Hwf, Hsend;
    cbn [app]; rewrite <- ?app_assoc; io_run; bdec; io_run; bdec.
  - destruct Hwf as [Hip Hp]. unfold wf_u16 in Hp. io_run.
    rewrite from_be_to_be_small by (simpl; lia). done.
  - destruct Hwf as (Hip & Hp & _). unfold wf_u16 in Hp. io_run.
    rewrite from_be_to_be_small by (simpl; lia). done.
  - destruct Hwf as [Hutf Hp]. unfold wf_u16 in Hp. io_run.
    rewrite u8_b8_small, Nat2Z.id by lia. io_run. by rewrite Hutf.
Qed.

Lemma read_request_sound r t r' :
  read_request r = (Ok t, r') ->
  wf_target t /\ sendable t /\ canonical t = t /\ rx r = request_frame t ++ rx r'
  /\ r' = with_rx r (rx r').
Proof.
  unfold read_request. intros Hr. io_inv Hr.
  apply read_u8_Ok_inv in Hio as [Hrx Hs]. case_bool_decide as Hv; [|done]. simpl in Hr.
  io_inv Hr. apply read_u8_Ok_inv in Hio as [Hrx0 Hs0].
  subst a. repeat case_bool_decide; try subst a0; [| | |done].
  - apply (read_octets_port_inv 4 (fun ip p => Ip (SockV4 ip p))) in Hr
      as (ip & p & -> & Hip & Hp & Hrx1 & Hs1).
    simpl. rewrite Hrx, Hrx0, Hrx1, <- app_assoc.
    repeat split; try done; try (simpl in *; lia). by rewrite Hs1, Hs0, Hs.
  - apply (read_octets_port_inv 16 (fun ip p => Ip (SockV6 ip p 0 0))) in Hr
      as (ip & p & -> & Hip & Hp & Hrx1 & Hs1).
    simpl. rewrite Hrx, Hrx0, Hrx1, <- app_assoc.
    repeat split; try done; try (simpl in *; lia). by rewrite Hs1, Hs0, Hs.
  - apply (read_host_port_inv (fun host port => if utf8_valid host then _ else _)) in Hr
      as (host & p & s1 & Hl & Hp & Hrx1 & Hs1 & Hr).
    destruct (utf8_valid host) eqn:Hutf; [|done]. injection Hr as <- <-.
    simpl. rewrite Hrx, Hrx0, Hrx1, <- app_assoc.
    repeat split; try done; try lia. by rewrite Hs1, Hs0, Hs.
Qed.

(** C33. Request header round trip: writing a target that fits the header
    appends one frame to the stream, and the peer's [read_request] on any
    stream that starts with this frame returns the target (the flow and scope
    fields of an IPv6 address zeroed) and consumes exactly the frame. *)
Theorem request_wire_roundtrip t s r rest :
  wf_target t -> sendable t -> tx_err s = None ->
  exists frame,
    write_request t s = (Ok tt, with_tx s (tx s ++ frame))
    /\ (rx r = frame ++ rest -> read_request r = (Ok (canonical t), with_rx r rest)).
Proof.
  intros Hwf Hsend Htx. exists (request_frame t).
  split; [by apply write_request_frame | intros; by apply read_request_frame].
Qed.

Lemma request_wire_roundtrip_witness :
  let t := Domain (str "example.com") 443 in
  exists frame,
    write_request t (open_stream []) = (Ok tt, with_tx (open_stream []) frame)
    /\ read_request (open_stream (frame ++ str "GET")) = (Ok t, open_stream (str "GET")).
Proof.
  intros t.
  destruct (request_wire_roundtrip t (open_stream []) (open_stream (request_frame t ++ str "GET"))
              (str "GET")) as (frame & Hw & Hr).
  - split; [reflexivity | unfold wf_u16; lia].
  - vm_compute. lia.
  - reflexivity.
  - exists frame. split; [exact Hw|].
    rewrite (write_request_frame t) in Hw by (vm_compute; lia || done).
    injection Hw as <-. by apply Hr.
Defined.

(** The request decoder is sound: whatever bytes a peer sends, a target
    that [read_request] returns is a value of the Rust type, fits a header, and
    the bytes consumed are exactly the bytes [write_request] would send for it,
    so no two targets share an encoding and nothing beyond the header is
    consumed. *)
Theorem request_decode_sound r t r' :
  read_request r = (Ok t, r') ->
  wf_target t /\ sendable t /\ canonical t = t
  /\ exists frame, write_request t (open_stream []) = (Ok tt, with_tx (open_stream []) frame)
     /\ rx r = frame ++ rx r' /\ r' = with_rx r (rx r').
Proof.
  intros (Hwf & Hsend & Hcan & Hrx & Hr')%read_request_sound.
  repeat split; [done..|]. exists (request_frame t).
  by rewrite write_request_frame.
Qed.

Lemma request_decode_sound_witness :
  exists frame, write_request (Ip (SockV4 16909060 80)) (open_stream [])
                = (Ok tt, with_tx (open_stream []) frame)
     /\ [x01; x01; x01; x02; x03; x04; x00; x50; xff] = frame ++ [xff].
Proof.
  destruct (request_decode_sound (open_stream [x01; x01; x01; x02; x03; x04; x00; x50; xff])
              (Ip (SockV4 16909060 80)) (open_stream [xff]))
    as (_ & _ & _ & frame & Hw & Hrx & _); [by vm_compute|].
  exists frame. by split.
Defined.

(** A domain that does not fit the one-byte length is refused before
    anything is written; every other target is written. *)
Theorem write_request_total t s :
  tx_err s = None ->
  (sendable t -> exists frame, write_request t s = (Ok tt, with_tx s (tx s ++ frame)))
  /\ (~ sendable t ->
      write_request t s = (Err (io_other (str "domain name longer than 255 bytes")), s)).
Proof.
  intros Htx. split.
  - intros Hs. exists (request_frame t). by apply write_request_frame.
  - intros Hs. destruct t as [|host port]; simpl in Hs; [done|].
    unfold write_request. replace (255 <? _) with true by (symmetry; simp_bool; lia). done.
Qed.

Lemma write_request_total_witness :
  write_request (Domain (replicate 256 x61) 80) (open_stream [])
  = (Err (io_other (str "domain name longer than 255 bytes")), open_stream []).
Proof.
  apply (write_request_total (Domain (replicate 256 x61) 80) (open_stream []));
    [reflexivity | vm_compute; lia].
Defined.

(** One frame of the control stream. *)
Definition message_frame (data : bytes) : bytes := to_be 4 (Z.of_nat (length data)) ++ data.

Lemma write_message_frame data s :
  Z.of_nat (length data) < 2 ^ 32 -> tx_err s = None ->
  write_message data s = (Ok tt, with_tx s (tx s ++ message_frame data)).
Proof.
  intros Hlen Htx. unfold write_message, message_frame.
  replace (2 ^ 32 <=? _) with false by (symmetry; simp_bool; lia).
  io_run. rewrite write_all_ok by done. simpl. by rewrite app_assoc.
Qed.

Lemma read_message_frame data max_size r rest :
  Z.of_nat (length data) < 2 ^ 32 -> rx r = message_frame data ++ rest ->
  read_message max_size r =
    if Z.of_nat (length data) <=? max_size
    then (Ok data, with_rx r rest)
    else (Err (io_other (str "Message too large: " ++ dec (Z.of_nat (length data))
                         ++ str " > " ++ dec max_size)), with_rx r (data ++ rest)).
Proof.
  unfold message_frame. intros Hlen Hrx. rewrite <- app_assoc in Hrx. unfold read_message.
  erewrite bind_Ok by (apply read_exact_app; [exact Hrx | by autorewrite with ft]).
  rewrite from_be_to_be_small by (simpl; lia).
  destruct (Z.leb_spec (Z.of_nat (length data)) max_size);
    [rewrite (proj2 (Z.ltb_ge _ _)) by lia | rewrite (proj2 (Z.ltb_lt _ _)) by lia]; [|done].
  by rewrite (read_exact_app _ data rest) by (done || by rewrite Nat2Z.id).
Qed.

(** Framing: [write_message] of a payload below 2^32 bytes appends one
    frame; [read_message] on a stream that starts with that frame returns
    exactly the payload when it fits [max_size], and otherwise fails without
    having read (or allocated) the payload. *)
Theorem message_framing data max_size s r rest :
  Z.of_nat (length data) < 2 ^ 32 -> tx_err s = None ->
  exists frame,
    write_message data s = (Ok tt, with_tx s (tx s ++ frame))
    /\ (rx r = frame ++ rest ->
        read_message max_size r =
          if Z.of_nat (length data) <=? max_size
          then (Ok data, with_rx r rest)
          else (Err (io_other (str "Message too large: " ++ dec (Z.of_nat (length data))
                               ++ str " > " ++ dec max_size)), with_rx r (data ++ rest))).
Proof.
  intros Hlen Htx. exists (message_frame data). split.
  - by apply write_message_frame.
  - by apply read_message_frame.
Qed.

Lemma message_framing_witness :
  read_message 2 (open_stream [x00; x00; x00; x03; x61; x62; x63])
  = (Err (io_other (str "Message too large: 3 > 2")), open_stream [x61; x62; x63]).
Proof.
  destruct (message_framing [x61; x62; x63] 2 (open_stream [])
    (open_stream [x00; x00; x00; x03; x61; x62; x63]) []) as (frame & Hw & Hr);
    [simpl; lia | reflexivity |].
  rewrite Hr; [by vm_compute|].
  vm_compute in Hw. injection Hw as <-. reflexivity.
Defined.

(** ** Version checks *)

Section versions.
Context `{Json Hello, !JsonLaws Hello wf_hello}.
Context `{Json HelloResponse, !JsonLaws HelloResponse wf_response}.

Lemma hello_roundtrip_cases h :
  wf_hello h ->
  exists data, encode_hello h = Ok data
    /\ decode_hello data = if hello_version h =? PROTOCOL_VERSION then Ok h
                           else Err (unsupported_version (hello_version h)).
Proof.
  intros Hwf. destruct (json_roundtrip h Hwf) as (data & Hto & Hfrom).
  exists data. unfold encode_hello, decode_hello. rewrite Hto, Hfrom. simpl.
  split; [done|]. by destruct (hello_version h =? PROTOCOL_VERSION).
Qed.

Lemma response_roundtrip_cases r :
  wf_response r ->
  exists data, encode_hello_response r = Ok data
    /\ decode_hello_response data = if resp_version r =? PROTOCOL_VERSION then Ok r
                           else Err (unsupported_version (resp_version r)).
Proof.
  intros Hwf. destruct (json_roundtrip r Hwf) as (data & Hto & Hfrom).
  exists data. unfold encode_hello_response, decode_hello_response. rewrite Hto, Hfrom. simpl.
  split; [done|]. by destruct (resp_version r =? PROTOCOL_VERSION).
Qed.

(** The handshake: a [Hello] and a [HelloResponse] of this protocol version
    decode to what was sent, one of any other version is refused by the decoder
    itself (before a credential or a routed set is looked at). *)
Theorem handshake_versions h r :
  wf_hello h -> wf_response r ->
  exists hdata rdata,
    encode_hello h = Ok hdata /\ encode_hello_response r = Ok rdata
    /\ decode_hello hdata = (if hello_version h =? PROTOCOL_VERSION then Ok h
                             else Err (unsupported_version (hello_version h)))
    /\ decode_hello_response rdata = (if resp_version r =? PROTOCOL_VERSION then Ok r
                             else Err (unsupported_version (resp_version r))).
Proof.
  intros (hd & Heh & Hdh)%hello_roundtrip_cases (rd & Her & Hdr)%response_roundtrip_cases.
  by exists hd, rd.
Qed.
End versions.

Lemma handshake_versions_witness :
  exists hdata, @decode_hello (reference_json Hello) hdata
                = Err (unsupported_version 12).
Proof.
  destruct (@handshake_versions (reference_json Hello) (reference_json_laws Hello wf_hello)
              (reference_json HelloResponse) (reference_json_laws HelloResponse wf_response)
              (mkHello 12 None 7 false) (HelloResponse_rejected 7 (str "nope")))
    as (hd & rd & _ & _ & Hd & _).
  - unfold wf_hello, wf_u16; simpl; repeat split; lia.
  - unfold wf_response, wf_u16, wf_strings; simpl.
    repeat split; first [lia | by repeat constructor].
  - exists hd. exact Hd.
Defined.
