(* ===== verification/Socks5.v ===== *)
(** * The SOCKS5 front-end ([proxy/socks5.rs])

    Method negotiation, the CONNECT request and the reply on the listener's
    side, and the client side ([client_*]) the port forwarders use to dial
    through the local listener. *)

From S2P Require Import Prelude RustStr Net Stream Signaling.

Definition SOCKS_VERSION : byte := x05.
Definition METHOD_NO_AUTH : byte := x00.
Definition METHOD_NONE_ACCEPTABLE : byte := xff.
Definition CMD_CONNECT : byte := x01.
Definition ATYP_IPV4 : byte := x01.
Definition ATYP_DOMAIN : byte := x03.
Definition ATYP_IPV6 : byte := x04.

Definition negotiate_method : IO () :=
  ver ← read_u8;
  if negb (bool_decide (ver = SOCKS_VERSION))
  then fail (io_other (str "unsupported SOCKS version: 0x" ++ hex2 ver))
  else
  nmethods ← read_u8;
  methods ← read_exact (Z.to_nat (u8 nmethods));
  if contains METHOD_NO_AUTH methods
  then write_all [SOCKS_VERSION; METHOD_NO_AUTH]
  else
  _ ← write_all [SOCKS_VERSION; METHOD_NONE_ACCEPTABLE];
  fail (io_other (str "client offered no acceptable SOCKS5 method")).

Definition client_handshake_noauth : IO () :=
  _ ← write_all [SOCKS_VERSION; x01; METHOD_NO_AUTH];
  choice ← read_exact 2;
  let ver := nth 0 choice x00 in
  let method := nth 1 choice x00 in
  if negb (bool_decide (ver = SOCKS_VERSION))
  then fail (io_other (str "not a SOCKS5 server (greeting version 0x" ++ hex2 ver ++ str ")"))
  else if bool_decide (method = METHOD_NO_AUTH) then mret tt
  else if bool_decide (method = METHOD_NONE_ACCEPTABLE)
  then fail (io_other (str "SOCKS5 server refused the no-auth method — an authenticating SOCKS5 server (not this app) is on this port"))
  else fail (io_other (str "SOCKS5 server selected method 0x" ++ hex2 method ++
              str " that was not offered — another SOCKS5 server (not this app) is on this port")).

Definition client_write_connect (target : Target) : IO () :=
  let req := [SOCKS_VERSION; CMD_CONNECT; x00] in
  match target with
  | Domain host port =>
      let n := Z.of_nat (length host) in
      if 255 <? n
      then fail (io_other (str "SOCKS5 domain longer than 255 bytes: " ++ host))
      else write_all (req ++ [ATYP_DOMAIN; b8 n] ++ host ++ to_be 2 port)
  | Ip (SockV4 ip port) => write_all (req ++ [ATYP_IPV4] ++ to_be 4 ip ++ to_be 2 port)
  | Ip (SockV6 ip port _ _) => write_all (req ++ [ATYP_IPV6] ++ to_be 16 ip ++ to_be 2 port)
  end.

Definition client_read_reply : IO byte :=
  head ← read_exact 4;
  let ver := nth 0 head x00 in
  let rep := nth 1 head x00 in
  let atyp := nth 3 head x00 in
  if negb (bool_decide (ver = SOCKS_VERSION))
  then fail (io_other (str "unexpected SOCKS5 reply version: 0x" ++ hex2 ver))
  else
  bnd_len ← (if bool_decide (atyp = ATYP_IPV4) then mret 4%nat
             else if bool_decide (atyp = ATYP_IPV6) then mret 16%nat
             else if bool_decide (atyp = ATYP_DOMAIN)
             then n ← read_u8; mret (Z.to_nat (u8 n))
             else fail (io_other (str "unsupported SOCKS5 reply address type: 0x" ++ hex2 atyp)));
  _ ← read_exact (bnd_len + 2);
  mret rep.

Definition describe_reply (rep : byte) : bytes :=
  if bool_decide (rep = REP_SUCCESS) then str "succeeded"
  else if bool_decide (rep = REP_GENERAL_FAILURE) then str "general failure"
  else if bool_decide (rep = REP_NOT_ALLOWED) then str "connection not allowed"
  else if bool_decide (rep = REP_NET_UNREACHABLE) then str "network unreachable"
  else if bool_decide (rep = REP_HOST_UNREACHABLE) then str "host unreachable"
  else if bool_decide (rep = REP_CONN_REFUSED) then str "connection refused"
  else if bool_decide (rep = REP_CMD_NOT_SUPPORTED) then str "command not supported"
  else if bool_decide (rep = REP_ATYP_NOT_SUPPORTED) then str "address type not supported"
  else str "unknown failure".

(** The reply to the local app: [VER, REP, RSV, ATYP, BND.ADDR, BND.PORT]. *)
Definition reply_frame (rep : byte) : bytes :=
  [SOCKS_VERSION; rep; x00; ATYP_IPV4; x00; x00; x00; x00; x00; x00].

Definition write_reply (rep : byte) : IO () := write_all (reply_frame rep).

Definition read_connect_request : IO Target :=
  head ← read_exact 4;
  let ver := nth 0 head x00 in
  let cmd := nth 1 head x00 in
  let rsv := nth 2 head x00 in
  let atyp := nth 3 head x00 in
  if negb (bool_decide (ver = SOCKS_VERSION))
  then fail (io_other (str "unsupported SOCKS version in request: 0x" ++ hex2 ver))
  else if negb (bool_decide (cmd = CMD_CONNECT)) then
    _ ← write_reply REP_CMD_NOT_SUPPORTED;
    fail (io_other (str "unsupported SOCKS5 command: 0x" ++ hex2 cmd ++ str " (only CONNECT)"))
  else if negb (bool_decide (rsv = x00)) then
    _ ← write_reply REP_GENERAL_FAILURE;
    fail (io_other (str "invalid SOCKS5 reserved byte: 0x" ++ hex2 rsv ++ str " (must be 0x00)"))
  else if bool_decide (atyp = ATYP_IPV4) then
    octets ← read_exact 4;
    port ← read_u16;
    mret (Ip (SockV4 (from_be octets) port))
  else if bool_decide (atyp = ATYP_IPV6) then
    octets ← read_exact 16;
    port ← read_u16;
    mret (Ip (SockV6 (from_be octets) port 0 0))
  else if bool_decide (atyp = ATYP_DOMAIN) then
    len ← read_u8;
    host ← read_exact (Z.to_nat (u8 len));
    port ← read_u16;
    if utf8_valid host then mret (Domain host port)
    else
    _ ← write_reply REP_GENERAL_FAILURE;
    fail (io_other (str "SOCKS5 domain is not valid UTF-8"))
  else
    _ ← write_reply REP_ATYP_NOT_SUPPORTED;
    fail (io_other (str "unsupported SOCKS5 address type: 0x" ++ hex2 atyp)).

(** ** The CONNECT request *)

Definition connect_frame (t : Target) : bytes :=
  [SOCKS_VERSION; CMD_CONNECT; x00] ++
  match t with
  | Domain host port => [ATYP_DOMAIN; b8 (Z.of_nat (length host))] ++ host ++ to_be 2 port
  | Ip (SockV4 ip port) => [ATYP_IPV4] ++ to_be 4 ip ++ to_be 2 port
  | Ip (SockV6 ip port _ _) => [ATYP_IPV6] ++ to_be 16 ip ++ to_be 2 port
  end.

Lemma client_write_connect_frame t s :
  sendable t -> tx_err s = None ->
  client_write_connect t s = (Ok tt, with_tx s (tx s ++ connect_frame t)).
Proof.
  intros Hsend Htx. unfold client_write_connect, connect_frame.
  destruct t as [[ip port|ip port fi sc]|host port]; simpl in Hsend.
  1,2: by apply write_all_ok.
  replace (255 <? _) with false by (symmetry; simp_bool; lia). by apply write_all_ok.
Qed.

(** The leading four bytes of a request. *)
Lemma read_head a b c d r s :
  rx s = a :: b :: c :: d :: r -> read_exact 4 s = (Ok [a; b; c; d], with_rx s r).
Proof. intros Hrx. by apply (read_exact_app 4 [a; b; c; d] r). Qed.

Lemma read_connect_request_frame t rest r :
  wf_target t -> sendable t -> rx r = connect_frame t ++ rest ->
  read_connect_request r = (Ok (canonical t), with_rx r rest).
Proof.
  intros Hwf Hsend Hrx. destruct r as [rx0 re tx0 te]. simpl in Hrx. subst rx0.
  unfold read_connect_request, connect_frame.
  destruct t as [[ip port|ip port fi sc]|host port]; simpl in Hwf, Hsend;
    cbn [app]; rewrite <- ?app_assoc;
    (erewrite bind_Ok by (by apply read_head)); cbn [nth]; bdec.
  - destruct Hwf as [Hip Hp]. unfold wf_u16 in Hp. io_run.
    rewrite from_be_to_be_small by (simpl; lia). done.
  - destruct Hwf as (Hip & Hp & _). unfold wf_u16 in Hp. io_run.
    rewrite from_be_to_be_small by (simpl; lia). done.
  - destruct Hwf as [Hutf Hp]. unfold wf_u16 in Hp. io_run.
    rewrite u8_b8_small, Nat2Z.id by lia. io_run. by rewrite Hutf.
Qed.

Lemma read_connect_request_sound s t s' :
  read_connect_request s = (Ok t, s') ->
  wf_target t /\ sendable t /\ canonical t = t /\ rx s = connect_frame t ++ rx s'
  /\ s' = with_rx s (rx s').
Proof.
  unfold read_connect_request. intros Hr. io_inv Hr.
  apply read_exact_Ok_inv in Hio as (Hl & Hrx & Hs).
  destruct a as [|ver [|cmd [|rsv [|atyp [|]]]]]; try done. cbn [nth] in Hr.
  destruct (decide (ver = SOCKS_VERSION)) as [->|]; [|by rewrite bool_decide_false in Hr].
  destruct (decide (cmd = CMD_CONNECT)) as [->|];
    [|rewrite bool_decide_true, bool_decide_false in Hr by done; cbn [negb] in Hr; by io_inv Hr].
  destruct (decide (rsv = x00)) as [->|];
    [|rewrite !bool_decide_true, bool_decide_false in Hr by done; cbn [negb] in Hr; by io_inv Hr].
  rewrite !bool_decide_true in Hr by done. cbn [negb] in Hr.
  destruct (decide (atyp = ATYP_IPV4)) as [->|];
    [rewrite bool_decide_true in Hr by done | rewrite bool_decide_false in Hr by done;
     destruct (decide (atyp = ATYP_IPV6)) as [->|];
       [rewrite bool_decide_true in Hr by done | rewrite bool_decide_false in Hr by done;
        destruct (decide (atyp = ATYP_DOMAIN)) as [->|];
          [rewrite bool_decide_true in Hr by done
          | rewrite bool_decide_false in Hr by done; by io_inv Hr]]].
  - apply (read_octets_port_inv 4 (fun ip p => Ip (SockV4 ip p))) in Hr
      as (ip & p & -> & Hip & Hp & Hrx1 & Hs1).
    simpl. rewrite Hrx, Hrx1, <- app_assoc.
    repeat split; try done; try (simpl in *; lia). by rewrite Hs1, Hs.
  - apply (read_octets_port_inv 16 (fun ip p => Ip (SockV6 ip p 0 0))) in Hr
      as (ip & p & -> & Hip & Hp & Hrx1 & Hs1).
    simpl. rewrite Hrx, Hrx1, <- app_assoc.
    repeat split; try done; try (simpl in *; lia). by rewrite Hs1, Hs.
  - apply (read_host_port_inv (fun host port => if utf8_valid host then _ else _)) in Hr
      as (host & p & s1 & Hl1 & Hp & Hrx1 & Hs1 & Hr).
    destruct (utf8_valid host) eqn:Hutf; [|by io_inv Hr]. injection Hr as <- <-.
    simpl. rewrite Hrx, Hrx1, <- app_assoc.
    repeat split; try done; try lia. by rewrite Hs1, Hs.
Qed.

(** What the listener answers to a request header it refuses (RFC 1928 reply
    codes), [None] for a header it goes on to parse. *)
Definition header_rejection (ver cmd rsv atyp : byte) : option bytes :=
  if negb (bool_decide (ver = SOCKS_VERSION)) then Some []
  else if negb (bool_decide (cmd = CMD_CONNECT)) then Some (reply_frame REP_CMD_NOT_SUPPORTED)
  else if negb (bool_decide (rsv = x00)) then Some (reply_frame REP_GENERAL_FAILURE)
  else if bool_decide (atyp ∈ [ATYP_IPV4; ATYP_IPV6; ATYP_DOMAIN]) then None
  else Some (reply_frame REP_ATYP_NOT_SUPPORTED).

Lemma write_reply_then_fail {A} rep (e : io_error) s :
  tx_err s = None ->
  (_ ← write_reply rep; fail e : IO A) s = (Err e, with_tx s (tx s ++ reply_frame rep)).
Proof.
  intros Htx. unfold write_reply. by erewrite bind_Ok by (by apply write_all_ok).
Qed.

(** SOCKS5 CONNECT round trip: the port forwarder's request for a target is
    parsed by the listener to that target, and nothing is written back while
    parsing; conversely every target the listener returns was sent as exactly
    the bytes the forwarder would have sent for it. *)
Theorem socks_connect_roundtrip t s r rest :
  wf_target t -> sendable t -> tx_err s = None ->
  exists frame,
    client_write_connect t s = (Ok tt, with_tx s (tx s ++ frame))
    /\ (rx r = frame ++ rest <->
        read_connect_request r = (Ok (canonical t), with_rx r rest)).
Proof.
  intros Hwf Hsend Htx. exists (connect_frame t).
  split; [by apply client_write_connect_frame|]. split.
  - intros Hrx. rewrite (read_connect_request_frame t rest r) by done. done.
  - intros Hr. apply read_connect_request_sound in Hr as (_ & _ & _ & Hrx & _).
    rewrite Hrx. by destruct t as [[]|].
Qed.

Lemma socks_connect_roundtrip_witness :
  let t := Domain (str "nas.lan") 22 in
  exists frame,
    client_write_connect t (open_stream []) = (Ok tt, with_tx (open_stream []) frame)
    /\ (rx (open_stream (connect_frame t)) = frame ++ [] <->
        read_connect_request (open_stream (connect_frame t)) = (Ok t, open_stream [])).
Proof.
  apply (socks_connect_roundtrip (Domain (str "nas.lan") 22) (open_stream [])
           (open_stream (connect_frame (Domain (str "nas.lan") 22))) []);
    [split; [reflexivity | unfold wf_u16; lia] | vm_compute; lia | reflexivity].
Defined.

(** The listener's refusals: a complete four-byte header with a wrong
    version is dropped without a reply; a command other than CONNECT, a nonzero
    reserved byte and an unknown address type are each answered by their own
    reply code, in this order of precedence, and nothing after the header is
    read. *)
Theorem connect_rejections ver cmd rsv atyp rest s answer :
  rx s = [ver; cmd; rsv; atyp] ++ rest -> tx_err s = None ->
  header_rejection ver cmd rsv atyp = Some answer ->
  exists e, read_connect_request s = (Err e, with_tx (with_rx s rest) (tx s ++ answer)).
Proof.
  intros Hrx Htx Hans. unfold read_connect_request.
  erewrite bind_Ok by (apply read_head; exact Hrx). cbn [nth]. revert Hans.
  unfold header_rejection.
  destruct (negb (bool_decide (ver = _))); [intros [= <-]; eexists; rewrite app_nil_r;
    destruct s; reflexivity|].
  destruct (negb (bool_decide (cmd = _)));
    [intros [= <-]; eexists; by rewrite write_reply_then_fail|].
  destruct (negb (bool_decide (rsv = _)));
    [intros [= <-]; eexists; by rewrite write_reply_then_fail|].
  case_bool_decide as Ha; [done|intros [= <-]].
  rewrite (bool_decide_false (atyp = ATYP_IPV4)), (bool_decide_false (atyp = ATYP_IPV6)),
    (bool_decide_false (atyp = ATYP_DOMAIN)) by (intros ->; apply Ha; repeat constructor).
  eexists; by rewrite write_reply_then_fail.
Qed.

Lemma connect_rejections_witness :
  exists e, read_connect_request (open_stream [x05; x02; x00; x01; x7f])
            = (Err e, with_tx (open_stream [x7f]) (reply_frame REP_CMD_NOT_SUPPORTED)).
Proof.
  apply (connect_rejections x05 x02 x00 x01 [x7f] (open_stream [x05; x02; x00; x01; x7f])
           (reply_frame REP_CMD_NOT_SUPPORTED)); reflexivity.
Defined.

(** The two SOCKS5 ends agree: the listener answers the forwarder's
    greeting with the method the forwarder requires, the forwarder accepts that
    answer, and it reads back exactly the reply code the listener writes,
    leaving the relayed bytes that follow. *)
Theorem socks_ends_agree rep rest s :
  tx_err s = None ->
  let greeting := tx (client_handshake_noauth (mkStream [] None [] None)).2 in
  let answer := tx (negotiate_method (open_stream greeting)).2 in
  client_handshake_noauth (with_rx s (answer ++ rest))
    = (Ok tt, with_tx (with_rx s rest) (tx s ++ greeting))
  /\ negotiate_method (with_rx s (greeting ++ rest))
    = (Ok tt, with_tx (with_rx s rest) (tx s ++ answer))
  /\ write_reply rep s = (Ok tt, with_tx s (tx s ++ reply_frame rep))
  /\ client_read_reply (with_rx s (reply_frame rep ++ rest)) = (Ok rep, with_rx s rest).
Proof.
  intros Htx greeting answer.
  change greeting with [SOCKS_VERSION; x01; METHOD_NO_AUTH].
  change answer with [SOCKS_VERSION; METHOD_NO_AUTH].
  destruct s as [r re t te]. simpl in Htx. subst te.
  repeat split; vm_compute; by rewrite ?drop_0.
Qed.

Lemma socks_ends_agree_witness :
  client_read_reply (open_stream (reply_frame REP_CONN_REFUSED ++ str "x"))
  = (Ok REP_CONN_REFUSED, open_stream (str "x")).
Proof. apply (socks_ends_agree REP_CONN_REFUSED (str "x") (open_stream [])). reflexivity. Defined.
