(* ===== verification/Http.v ===== *)
(** * The HTTP proxy front-end ([proxy/http.rs])

    Reading a request head, [CONNECT] authorities, and the rewriting of an
    absolute-form request into the origin-form head sent upstream. The theorems
    say where a request ends, what a rewritten head consists of (nothing a client
    sends can add a line to it), and which authority names which target. *)

From S2P Require Import Prelude RustStr Net Stream Signaling.

(** ** Lossy UTF-8 decoding ([String::from_utf8_lossy])

    The length of the code point at the head of [s], or of the invalid sequence
    there. *)
Definition utf8_chunk (s : bytes) : bool * nat :=
  match s with
  | [] => (true, 0%nat)
  | b0 :: s1 =>
      let x := u8 b0 in
      if x <? 128 then (true, 1%nat)
      else if (194 <=? x) && (x <=? 223) then
        match s1 with
        | b1 :: _ => if utf8_cont b1 then (true, 2%nat) else (false, 1%nat)
        | _ => (false, 1%nat)
        end
      else if (224 <=? x) && (x <=? 239) then
        match s1 with
        | b1 :: s2 =>
            if utf8_second x b1 then
              match s2 with
              | b2 :: _ => if utf8_cont b2 then (true, 3%nat) else (false, 2%nat)
              | [] => (false, 2%nat)
              end
            else (false, 1%nat)
        | [] => (false, 1%nat)
        end
      else if (240 <=? x) && (x <=? 244) then
        match s1 with
        | b1 :: s2 =>
            if utf8_second x b1 then
              match s2 with
              | b2 :: s3 =>
                  if utf8_cont b2 then
                    match s3 with
                    | b3 :: _ => if utf8_cont b3 then (true, 4%nat) else (false, 3%nat)
                    | [] => (false, 3%nat)
                    end
                  else (false, 2%nat)
              | [] => (false, 2%nat)
              end
            else (false, 1%nat)
        | [] => (false, 1%nat)
        end
      else (false, 1%nat)
  end.

Definition REPLACEMENT : bytes := [xef; xbf; xbd].

(** Every chunk of a nonempty string is nonempty, so [length s] rounds suffice. *)
Fixpoint lossy_chunks (fuel : nat) (s : bytes) : bytes :=
  match fuel, s with
  | S fuel', _ :: _ =>
      let '(valid, n) := utf8_chunk s in
      (if valid then take n s else REPLACEMENT) ++ lossy_chunks fuel' (drop n s)
  | _, _ => []
  end.

Definition from_utf8_lossy (s : bytes) : bytes := lossy_chunks (length s) s.

(** A chunk of a nonempty string is nonempty, and a valid one is the code point
    that [utf8_valid] accepts: valid text is decoded to itself. *)
Lemma utf8_chunk_valid s :
  utf8_valid s = true -> s <> [] ->
  exists n, utf8_chunk s = (true, S n) /\ utf8_valid (drop (S n) s) = true
    /\ (S n <= length s)%nat.
Proof.
  destruct s as [|b0 s1]; [done|]. cbn [utf8_valid utf8_chunk]. intros Hv _.
  destruct (u8 b0 <? 128); [exists 0%nat; simpl; repeat split; [done|lia]|].
  destruct ((194 <=? u8 b0) && _).
  { destruct s1 as [|b1 s2]; [done|]. apply andb_true_iff in Hv as [-> Hv].
    exists 1%nat. simpl. repeat split; [done|lia]. }
  destruct ((224 <=? u8 b0) && _).
  { destruct s1 as [|b1 [|b2 s3]]; [done..|]. rewrite !andb_true_iff in Hv.
    destruct Hv as [[-> ->] Hv]. exists 2%nat. simpl. repeat split; [done|lia]. }
  destruct ((240 <=? u8 b0) && _); [|done].
  destruct s1 as [|b1 [|b2 [|b3 s4]]]; [done..|]. rewrite !andb_true_iff in Hv.
  destruct Hv as [[[-> ->] ->] Hv]. exists 3%nat. simpl. repeat split; [done|lia].
Qed.

Lemma from_utf8_lossy_valid s : utf8_valid s = true -> from_utf8_lossy s = s.
Proof.
  intros Hv. unfold from_utf8_lossy.
  assert (Hgen : forall fuel s, utf8_valid s = true -> (length s <= fuel)%nat ->
    lossy_chunks fuel s = s).
  { intros fuel. induction fuel as [|fuel IH]; intros [|b u] Hu Hl; simpl in Hl; [done|lia|done|].
    destruct (utf8_chunk_valid (b :: u) Hu) as (n & Hn & Hd & Hle); [done|].
    cbn [lossy_chunks]. rewrite Hn.
    rewrite IH; [apply take_drop|done|]. rewrite length_drop. simpl. lia. }
  by apply Hgen.
Qed.

(** [str::is_char_boundary] and [str::split_at_checked]. *)
Definition is_char_boundary (s : bytes) (n : nat) : bool :=
  bool_decide (n = length s) || match s !! n with Some b => negb (utf8_cont b) | None => false end.

Definition split_at_checked (s : bytes) (n : nat) : option (bytes * bytes) :=
  if is_char_boundary s n then Some (take n s, drop n s) else None.

(** ** Constants and types *)

Definition MAX_HTTP_HEADER : Z := 64 * 1024.

Definition STRIPPED_HEADERS : list bytes :=
  [str "connection"; str "proxy-connection"; str "keep-alive"; str "te"; str "upgrade";
   str "proxy-authorization"; str "proxy-authenticate"; str "host"].

Inductive HttpRequest : Type :=
| Connect (t : Target)
| ForwardReq (t : Target) (head : bytes).

Record Reject : Type := mkReject { code : Z; reason : bytes; detail : bytes }.

Definition bad_request (d : bytes) : Reject := mkReject 400 (str "Bad Request") d.

(** ** Responses *)

Definition error_response (code : Z) (reason : bytes) : bytes :=
  str "HTTP/1.1 " ++ dec code ++ str " " ++ reason ++ CRLF ++ str "Content-Length: 0" ++ CRLF
  ++ str "Connection: close" ++ CRLF ++ CRLF.

Definition write_error (code : Z) (reason : bytes) : IO () := write_all (error_response code reason).

Definition http_reply_frame (rep : byte) : bytes :=
  if bool_decide (rep = REP_SUCCESS)
  then str "HTTP/1.1 200 Connection Established" ++ CRLF ++ CRLF
  else if bool_decide (rep = REP_NOT_ALLOWED) then error_response 403 (str "Forbidden")
  else error_response 502 (str "Bad Gateway").

Definition write_reply (rep : byte) : IO () := write_all (http_reply_frame rep).

(** ** Authorities *)

Definition split_authority (authority : bytes) (default_port : option Z) : option (bytes * Z) :=
  parts ← match strip_prefix (str "[") authority with
          | Some rest =>
              '(addr, after) ← split_once x5d rest;
              match after with
              | [] => Some (addr, None)
              | _ => p ← strip_prefix (str ":") after; Some (addr, Some p)
              end
          | None =>
              match rsplit_once x3a authority with
              | Some (host, port) => if contains x3a host then None else Some (host, Some port)
              | None => Some (authority, None)
              end
          end;
  let '(host, port_str) := parts : bytes * option bytes in
  if bool_decide (host = []) then None
  else match port_str with
       | Some p => match parse_u16 p with
                   | Some port => if port =? 0 then None else Some (host, port)
                   | None => None
                   end
       | None => port ← default_port; Some (host, port)
       end.

Definition host_to_target (host : bytes) (port : Z) : Target :=
  match ip_from_str host with
  | Some ip => Ip (sa_new ip port)
  | None => Domain host port
  end.

Definition strip_scheme (target scheme : bytes) : option bytes :=
  '(prefix, rest) ← split_at_checked target (length scheme);
  if eq_ignore_ascii_case prefix scheme then Some rest else None.

(** ** Header lines *)

Record HeaderLine : Type := mkHeader { name : bytes; value : bytes }.

Section http.
Context (debug : bytes -> bytes).   (* the [Debug] text of a string *)

Definition malformed (line : bytes) : Reject :=
  bad_request (str "malformed header line: " ++ debug line).

Definition parse_header_line (line : bytes) : result Reject HeaderLine :=
  if match line with b :: _ => bool_decide (b = x20) || bool_decide (b = x09) | [] => false end
  then Err (bad_request (str "obsolete header line folding is not supported"))
  else match split_once x3a line with
  | None => Err (malformed line)
  | Some (raw_name, value) =>
      if negb (utf8_valid raw_name) then Err (malformed line)
      else
      let name := trim_ascii_end raw_name in
      if existsb is_ascii_control name
         || existsb (fun b => bool_decide (b = x0d) || bool_decide (b = x0a) || bool_decide (b = x00))
              value
      then Err (malformed line)
      else Ok (mkHeader name value)
  end.

(** The loop over the block; each round consumes at least one byte. *)
Fixpoint header_lines (fuel : nat) (rest : bytes) : result Reject (list HeaderLine) :=
  match fuel, rest with
  | _, [] => Ok []
  | O, _ => Ok []
  | S fuel', _ =>
      let '(line, rest') := default (rest, []) (split_crlf rest) in
      h ← parse_header_line line;
      hs ← header_lines fuel' rest';
      Ok (h :: hs)
  end.

Definition split_header_lines (block : bytes) : result Reject (list HeaderLine) :=
  header_lines (length block) block.

(** The header names a [Connection] header marks hop-by-hop. *)
Definition options_of (h : HeaderLine) : list bytes :=
  if eq_ignore_ascii_case (name h) (str "connection")
     || eq_ignore_ascii_case (name h) (str "proxy-connection")
  then map (fun t => to_ascii_lowercase (trim t)) (split x2c (from_utf8_lossy (value h)))
  else [].

Definition connection_options (headers : list HeaderLine) : list bytes :=
  concat (map options_of headers).

Definition survives (options : list bytes) (h : HeaderLine) : bool :=
  let lower := to_ascii_lowercase (name h) in
  negb (bool_decide (lower ∈ STRIPPED_HEADERS) || bool_decide (lower ∈ options)).

Definition header_text (h : HeaderLine) : bytes := name h ++ x3a :: value h.

(** ** Rewriting *)

Definition origin_form (rest : bytes) : bytes * bytes :=
  match find_split (fun b => bool_decide (b = x2f) || bool_decide (b = x3f)) rest with
  | Some (authority, tail) =>
      match tail with
      | b :: _ => if bool_decide (b = x2f) then (authority, tail) else (authority, x2f :: tail)
      | [] => (authority, tail)
      end
  | None => (rest, [x2f])
  end.

Definition rewrite_forward (method request_target version header_block : bytes)
  : result Reject (Target * bytes) :=
  match strip_scheme request_target (str "http://") with
  | None =>
      Err (bad_request
        (if bool_decide (is_Some (strip_scheme request_target (str "https://")))
         then str "https absolute-URI must use CONNECT: " ++ debug request_target
         else str "request target is not an absolute http:// URI: " ++ debug request_target))
  | Some rest =>
      let '(authority, path) := origin_form rest in
      if contains x40 authority
      then Err (bad_request (str "userinfo in request target: " ++ debug request_target))
      else match split_authority authority (Some 80) with
      | None =>
          Err (bad_request (str "invalid authority in request target: " ++ debug request_target))
      | Some (host, port) =>
          headers ← split_header_lines header_block;
          let options := connection_options headers in
          Ok (host_to_target host port,
              method ++ str " " ++ path ++ str " " ++ version ++ CRLF
              ++ str "Host: " ++ authority ++ CRLF
              ++ concat (map (fun h => header_text h ++ CRLF) (List.filter (survives options) headers))
              ++ str "Connection: close" ++ CRLF ++ CRLF)
      end
  end.

(** ** Reading a request *)

Inductive HeadOutcome : Type :=
| HeadRead (head : bytes)
| HeadTooLong
| HeadEnded.        (* the stream ended or failed first *)

Definition HEAD_END : bytes := CRLF ++ CRLF.

(** One byte at a time: the outcome and what is left unread. *)
Fixpoint read_head_loop (head rest : bytes) : HeadOutcome * bytes :=
  match rest with
  | [] => (HeadEnded, [])
  | b :: rest' =>
      let head := head ++ [b] in
      if ends_with head HEAD_END then (HeadRead head, rest')
      else if MAX_HTTP_HEADER <=? Z.of_nat (length head) then (HeadTooLong, rest')
      else read_head_loop head rest'
  end.

Definition reject {A} (code : Z) (reason d : bytes) : IO A :=
  _ ← write_error code reason; fail (io_other d).

Definition read_head : IO bytes := fun s =>
  let '(outcome, rest) := read_head_loop [] (rx s) in
  let s' := with_rx s rest in
  match outcome with
  | HeadRead head => (Ok head, s')
  | HeadTooLong => reject 400 (str "Bad Request") (str "HTTP request head exceeded size cap") s'
  | HeadEnded => (Err (default early_eof (rx_err s)), s')
  end.

(** The request line's three parts, when it has exactly three and none is empty. *)
Definition request_parts (line : bytes) : option (bytes * bytes * bytes) :=
  match split x20 line with
  | [m; t; v] => if bool_decide (m = []) || bool_decide (t = []) || bool_decide (v = [])
                 then None else Some (m, t, v)
  | _ => None
  end.

Definition parse_request (head : bytes) : IO HttpRequest :=
  let '(request_line, after) := default (head, []) (split_crlf head) in
  if negb (utf8_valid request_line)
  then reject 400 (str "Bad Request") (str "HTTP request line is not valid UTF-8")
  else if existsb is_ascii_control request_line
  then reject 400 (str "Bad Request") (str "control byte in HTTP request line")
  else match request_parts request_line with
  | None => reject 400 (str "Bad Request") (str "malformed HTTP request line: " ++ debug request_line)
  | Some (method, request_target, version) =>
      if negb (bool_decide (version = str "HTTP/1.1")) && negb (bool_decide (version = str "HTTP/1.0"))
      then reject 505 (str "HTTP Version Not Supported") (str "unsupported HTTP version: " ++ version)
      else if eq_ignore_ascii_case method (str "CONNECT") then
        match split_authority request_target None with
        | None => reject 400 (str "Bad Request")
                    (str "invalid CONNECT authority: " ++ debug request_target)
        | Some (host, port) => mret (Connect (host_to_target host port))
        end
      else
        let header_block := take (length after - 2) after in
        match rewrite_forward method request_target version header_block with
        | Ok (t, h) => mret (ForwardReq t h)
        | Err r => reject (code r) (reason r) (detail r)
        end
  end.

Definition read_request : IO HttpRequest :=
  head ← read_head; parse_request head.

(** ** The loops' bounds are enough *)

Lemma split_crlf_shorter s l r : split_crlf s = Some (l, r) -> (length r < length s)%nat.
Proof. intros [-> _]%split_crlf_Some. rewrite !length_app. simpl. lia. Qed.

(** Any two bounds that cover the block give the same result. *)
Lemma header_lines_enough f1 f2 rest :
  (length rest <= f1)%nat -> (length rest <= f2)%nat -> header_lines f1 rest = header_lines f2 rest.
Proof.
  revert f2 rest. induction f1 as [|f1 IH]; intros f2 [|b rest] H1 H2; simpl in H1, H2;
    [by destruct f2|lia|by destruct f2|].
  destruct f2 as [|f2]; [lia|]. cbn [header_lines].
  destruct (split_crlf (b :: rest)) as [[l r]|] eqn:Hs; cbn [default from_option id].
  - apply split_crlf_shorter in Hs. simpl in Hs. by rewrite (IH f2) by lia.
  - by rewrite (IH f2) by (simpl; lia).
Qed.

(** ** Where a request ends *)

(** [h] is complete, and no shorter prefix of it is. *)
Definition complete_head (h : bytes) : Prop :=
  ends_with h HEAD_END = true
  /\ forall p q, h = p ++ q -> q <> [] -> ends_with p HEAD_END = false.

Lemma read_head_loop_complete head h rest :
  h <> [] -> ends_with (head ++ h) HEAD_END = true ->
  (forall p q, h = p ++ q -> p <> [] -> q <> [] -> ends_with (head ++ p) HEAD_END = false) ->
  Z.of_nat (length (head ++ h)) <= MAX_HTTP_HEADER ->
  read_head_loop head (h ++ rest) = (HeadRead (head ++ h), rest).
Proof.
  revert head. induction h as [|b h IH]; intros head Hne Hend Hfirst Hlen; [done|]. simpl.
  destruct h as [|b' h].
  { by rewrite Hend. }
  rewrite (Hfirst [b] (b' :: h)) by done.
  rewrite length_app in Hlen. simpl in Hlen.
  rewrite (proj2 (Z.leb_gt _ _)) by (rewrite length_app; simpl; lia).
  rewrite (IH (head ++ [b])); rewrite <- ?app_assoc; try done.
  - intros p q Hp Hp0 Hq. rewrite <- app_assoc.
    apply (Hfirst (b :: p) q); [by rewrite Hp|done|done].
  - rewrite length_app. simpl. lia.
Qed.

Lemma read_head_complete h rest s :
  complete_head h -> Z.of_nat (length h) <= MAX_HTTP_HEADER -> rx s = h ++ rest ->
  read_head s = (Ok h, with_rx s rest).
Proof.
  intros [Hend Hfirst] Hlen Hrx. unfold read_head. rewrite Hrx.
  rewrite (read_head_loop_complete [] h rest); [done|by intros ->|done| |done].
  intros p q Hp _ Hq. by apply (Hfirst p q).
Qed.

(** A rejection is one error response and the error. *)
Lemma reject_run {A} code reason d s :
  tx_err s = None ->
  @reject A code reason d s = (Err (io_other d), with_tx s (tx s ++ error_response code reason)).
Proof. intros Htx. unfold reject, write_error. by erewrite bind_Ok by by apply write_all_ok. Qed.

Lemma parse_request_outcome h s :
  tx_err s = None ->
  (exists r, parse_request h s = (Ok r, s))
  \/ exists e code reason, parse_request h s
       = (Err e, with_tx s (tx s ++ error_response code reason)).
Proof.
  intros Htx. unfold parse_request.
  repeat first
    [ rewrite reject_run by done; right; by eexists _, _, _
    | match goal with |- context [match ?x with _ => _ end] => destruct x end
    | left; by eexists ].
Qed.

(** A request ends where its head ends: a complete head within the size cap
    is consumed exactly, so that every byte after its blank line (the tunnel's
    bytes, or a request body) is left in the stream; the parse depends on the
    head alone; and the application has then been sent nothing if the request
    was accepted, and exactly one error response if it was refused. *)
Theorem http_request_boundary h rest s :
  complete_head h -> Z.of_nat (length h) <= MAX_HTTP_HEADER -> rx s = h ++ rest ->
  tx_err s = None ->
  exists r more, read_request s = (r, with_tx (with_rx s rest) (tx s ++ more))
    /\ match r with
       | Ok _ => more = []
       | Err _ => exists code reason, more = error_response code reason
       end.
Proof.
  intros Hh Hlen Hrx Htx. unfold read_request.
  erewrite bind_Ok by by eapply read_head_complete.
  destruct (parse_request_outcome h (with_rx s rest) Htx) as [[r Hr]|(e & c & why & Hr)]; rewrite Hr.
  - exists (Ok r), []. rewrite app_nil_r. by destruct s.
  - exists (Err e). eexists. split; [done|]. by eexists _, _.
Qed.

(** ** What the origin is sent *)

(** A line no recipient can read as two: no CR, no LF, no NUL. *)
Definition clean (l : bytes) : Prop := (x0d ∉ l) /\ (x0a ∉ l) /\ (x00 ∉ l).

Lemma existsb_false {A} (f : A -> bool) l : existsb f l = false -> forall x, x ∈ l -> f x = false.
Proof.
  intros Hl x Hx. destruct (f x) eqn:Hf; [|done]. rewrite <- Hl. symmetry.
  apply existsb_exists. exists x. by rewrite <- list_elem_of_In.
Qed.

Lemma clean_app a b : clean (a ++ b) <-> clean a /\ clean b.
Proof. unfold clean. rewrite !elem_of_app. tauto. Qed.

Lemma clean_sub a b : (forall x, x ∈ a -> x ∈ b) -> clean b -> clean a.
Proof. unfold clean. naive_solver. Qed.

Lemma no_control_clean l : existsb is_ascii_control l = false -> clean l.
Proof.
  intros Hl. split_and!; intros Hb; by apply (existsb_false _ _ Hl) in Hb.
Qed.

Lemma split_crlf_clean l r : clean l -> split_crlf (l ++ CRLF ++ r) = Some (l, r).
Proof.
  intros [Hcr _]. induction l as [|b l IH]; [done|].
  cbn [app]. unfold split_crlf; fold split_crlf.
  destruct (strip_prefix CRLF (b :: l ++ CRLF ++ r)) as [q|] eqn:Hp.
  { apply strip_prefix_Some in Hp. injection Hp as -> _. set_solver. }
  rewrite IH by set_solver. done.
Qed.

(** A lenient recipient (RFC 9112, section 2.2) also ends a line at a bare CR or
    a bare LF. *)
Fixpoint split_any_eol (s : bytes) : option (bytes * bytes) :=
  match s with
  | [] => None
  | b :: s' =>
      if bool_decide (b = x0d) then Some ([], match s' with x0a :: r => r | _ => s' end)
      else if bool_decide (b = x0a) then Some ([], s')
      else '(l, r) ← split_any_eol s'; Some (b :: l, r)
  end.

Lemma split_any_eol_clean l r : clean l -> split_any_eol (l ++ CRLF ++ r) = Some (l, r).
Proof.
  induction l as [|b l IH]; [done|]. intros (Hcr & Hlf & Hnul).
  cbn [app split_any_eol]. rewrite !bool_decide_false by set_solver. rewrite IH by (split_and!; set_solver). done.
Qed.

(** How a recipient that cuts lines with [cut] reads a header section: lines up to
    the first empty one. *)
Fixpoint section_lines (cut : bytes -> option (bytes * bytes)) (fuel : nat) (s : bytes) : list bytes :=
  match fuel with
  | O => []
  | S fuel' =>
      match cut s with
      | Some (l, r) => if bool_decide (l = []) then [] else l :: section_lines cut fuel' r
      | None => []
      end
  end.

Definition section_text (ls : list bytes) : bytes := concat (map (fun l => l ++ CRLF) ls) ++ CRLF.

Lemma section_lines_text cut ls rest fuel :
  (forall l r, clean l -> cut (l ++ CRLF ++ r) = Some (l, r)) ->
  Forall (fun l => clean l /\ l <> []) ls -> (length ls < fuel)%nat ->
  section_lines cut fuel (section_text ls ++ rest) = ls.
Proof.
  intros Hcut Hls. revert fuel. induction Hls as [|l ls [Hc Hne] _ IH]; intros [|fuel] Hf; simpl in Hf;
    [lia|cbn [section_lines]|lia|].
  { change (section_text [] ++ rest) with ([] ++ CRLF ++ rest).
    by rewrite (Hcut [] rest) by (split_and!; set_solver). }
  unfold section_text. cbn [map concat section_lines]. rewrite <- !app_assoc.
  rewrite Hcut by done. rewrite bool_decide_false by done. f_equal.
  rewrite <- (IH fuel) at 2 by lia. f_equal. unfold section_text. by rewrite <- app_assoc.
Qed.

(** ** What the client sent *)

(** A header line of the client: the name, the whitespace that is tolerated before
    the colon, the value. *)
Definition header_of (l : bytes) (h : HeaderLine) : Prop :=
  exists ws, l = name h ++ ws ++ x3a :: value h /\ (x3a ∉ name h ++ ws)
    /\ forallb is_ascii_whitespace ws = true.

(** A request target with its path in origin form. *)
Definition target_of (u authority path : bytes) : Prop :=
  exists scheme tail, u = scheme ++ authority ++ tail
    /\ eq_ignore_ascii_case scheme (str "http://") = true
    /\ (x2f ∉ authority) /\ (x3f ∉ authority) /\ (x40 ∉ authority)
    /\ ((exists p, tail = x2f :: p /\ path = tail)
        \/ (exists q, tail = x3f :: q /\ path = x2f :: tail)
        \/ (tail = [] /\ path = [x2f])).

Lemma split_crlf_before x z :
  split_crlf (x ++ CRLF ++ z)
  = match split_crlf x with Some (l, r) => Some (l, r ++ CRLF ++ z) | None => Some (x, z) end.
Proof.
  induction x as [|b x IH]; [done|]. cbn [app]. unfold split_crlf; fold split_crlf.
  assert (Hpre : strip_prefix CRLF (b :: x ++ CRLF ++ z)
                 = (fun r => r ++ CRLF ++ z) <$> strip_prefix CRLF (b :: x)).
  { destruct x as [|c x]; [|cbn; by repeat case_decide].
    cbn. by repeat case_decide. }
  rewrite Hpre, IH. destruct (strip_prefix CRLF (b :: x)); [done|]. cbn. by destruct (split_crlf x) as [[]|].
Qed.

Lemma drop_while_split (f : byte -> bool) l :
  exists p, l = p ++ drop_while f l /\ forallb f p = true.
Proof.
  induction l as [|x l IH]; [by exists []|]. cbn. destruct (f x) eqn:Hx; [|by exists []].
  destruct IH as (p & Hp & Hf). exists (x :: p). cbn. rewrite Hx. split; [by f_equal|done].
Qed.

Lemma trim_ascii_end_split s :
  exists ws, s = trim_ascii_end s ++ ws /\ forallb is_ascii_whitespace ws = true.
Proof.
  unfold trim_ascii_end. destruct (drop_while_split is_ascii_whitespace (reverse s)) as (p & Hp & Hf).
  exists (reverse p). split.
  - rewrite <- reverse_app, <- Hp. by rewrite reverse_involutive.
  - rewrite forallb_forall in Hf |- *. intros x Hx. apply Hf. apply list_elem_of_In.
    by apply elem_of_reverse, list_elem_of_In.
Qed.

Lemma parse_header_line_of line h : parse_header_line line = Ok h -> header_of line h.
Proof.
  unfold parse_header_line. destruct (match line with b :: _ => _ | [] => _ end); [done|].
  destruct (split_once x3a line) as [[raw v]|] eqn:Hs; [|done].
  destruct (utf8_valid raw); [simpl|done]. destruct (_ || _); [done|]. intros [= <-].
  apply split_once_Some in Hs as [-> Hc]. destruct (trim_ascii_end_split raw) as (ws & Hw & Hf).
  exists ws. cbn. rewrite <- Hw. split_and!; [|done..]. by rewrite app_assoc, <- Hw.
Qed.

Lemma result_bind_Ok {E A B} (r : result E A) (f : A -> result E B) b :
  (r ≫= f) = Ok b -> exists a, r = Ok a /\ f a = Ok b.
Proof. destruct r as [a|]; [|done]. by exists a. Qed.

Lemma header_lines_of fuel x hs : (length (x ++ CRLF) <= fuel)%nat ->
  header_lines fuel (x ++ CRLF) = Ok hs ->
  exists raw, x ++ CRLF = concat (map (fun l => l ++ CRLF) raw) /\ Forall2 header_of raw hs.
Proof.
  revert x hs. induction fuel as [|fuel IH]; intros x hs Hf; rewrite length_app in Hf; simpl in Hf; [lia|].
  destruct (x ++ CRLF) as [|b0 x0] eqn:Hx0; [by destruct x|]. cbn [header_lines]. rewrite <- Hx0.
  pose proof (split_crlf_before x []) as Hsb. rewrite app_nil_r in Hsb. rewrite Hsb. clear Hsb.
  assert (Hlast : forall l h, x = l -> parse_header_line l = Ok h ->
    exists raw, x ++ CRLF = concat (map (fun l => l ++ CRLF) raw) /\ Forall2 header_of raw [h]).
  { intros l h -> Hh%parse_header_line_of. exists [l]. cbn. rewrite app_nil_r. by repeat constructor. }
  destruct (split_crlf x) as [[l r]|] eqn:Hs; cbn [default from_option id].
  - intros (h & Hh & Hrest)%result_bind_Ok. apply result_bind_Ok in Hrest as (hs' & Hhs & [= <-]).
    apply split_crlf_Some in Hs as [-> _].
    apply IH in Hhs as (raw & Hraw & Hall); [|rewrite !length_app in *; simpl in *; lia].
    exists (l :: raw). cbn. rewrite <- Hraw, <- !app_assoc. split; [done|].
    constructor; [by apply parse_header_line_of|done].
  - intros (h & Hh & Hrest)%result_bind_Ok. apply result_bind_Ok in Hrest as (hs' & Hhs & [= <-]).
    assert (hs' = []) as -> by (by destruct fuel; simplify_eq/=). by eapply Hlast.
Qed.

Lemma read_head_loop_read head rest h r :
  read_head_loop head rest = (HeadRead h, r) -> head ++ rest = h ++ r /\ exists x, h = x ++ HEAD_END.
Proof.
  revert head. induction rest as [|b rest IH]; intros head; [done|]. cbn [read_head_loop].
  destruct (ends_with (head ++ [b]) HEAD_END) eqn:He.
  - intros [= <- <-]. rewrite <- app_assoc. split; [done|]. by apply ends_with_true.
  - destruct (_ <=? _); [done|]. intros [Heq Hx]%IH. by rewrite <- app_assoc in Heq.
Qed.

Lemma read_head_read s h s' : read_head s = (Ok h, s') -> rx s = h ++ rx s' /\ exists x, h = x ++ HEAD_END.
Proof.
  unfold read_head. destruct (read_head_loop [] (rx s)) as [o r] eqn:Hr. destruct o as [h0| |].
  - intros [= <- <-]. by apply read_head_loop_read in Hr.
  - intros H. exfalso. revert H. unfold reject, mbind, M_bind.
    by destruct (write_error _ _ _) as [[u|e] s1].
  - done.
Qed.

(** A head is its request line, its header block and the empty line. *)
Lemma head_parts x : exists line block,
  default (x ++ HEAD_END, []) (split_crlf (x ++ HEAD_END)) = (line, block ++ CRLF)
  /\ x ++ HEAD_END = line ++ CRLF ++ block ++ CRLF
  /\ (block = [] \/ exists y, block = y ++ CRLF).
Proof.
  unfold HEAD_END. rewrite split_crlf_before. destruct (split_crlf x) as [[l r]|] eqn:Hs; cbn [default from_option id].
  - apply split_crlf_Some in Hs as [-> _]. exists l, (r ++ CRLF). rewrite <- !app_assoc.
    split_and!; [done..|]. right. by exists r.
  - exists x, []. split_and!; [done..|]. by left.
Qed.

Lemma request_parts_sub line m u v x :
  request_parts line = Some (m, u, v) -> x ∈ m \/ x ∈ u \/ x ∈ v -> x ∈ line.
Proof.
  unfold request_parts. destruct (split x20 line) as [|a [|b [|c [|]]]] eqn:Hs; try done.
  destruct (_ || _); [done|]. intros [= -> -> ->] Hx.
  destruct Hx as [Hx|[Hx|Hx]]; eapply (split_elem_sub x20); try exact Hx; rewrite Hs; set_solver.
Qed.

Lemma strip_scheme_sub u scheme rest x : strip_scheme u scheme = Some rest -> x ∈ rest -> x ∈ u.
Proof.
  unfold strip_scheme, split_at_checked. destruct (is_char_boundary _ _); [simpl|done].
  destruct (eq_ignore_ascii_case _ _); [|done]. intros [= <-] Hx.
  rewrite <- (take_drop (length scheme) u). set_solver.
Qed.

Lemma origin_form_sub rest a path :
  origin_form rest = (a, path) ->
  (forall x, x ∈ a -> x ∈ rest) /\ (exists p, path = x2f :: p /\ forall x, x ∈ p -> x ∈ rest).
Proof.
  unfold origin_form. destruct (find_split _ rest) as [[l r]|] eqn:Hf.
  - apply find_split_Some in Hf as (-> & _ & b & r' & -> & Hb).
    case_bool_decide as Hs; intros [= <- <-]; (split; [set_solver|]).
    + subst b. exists r'. split; [done|]. set_solver.
    + exists (b :: r'). split; [done|]. set_solver.
  - intros [= <- <-]. split; [done|]. exists []. split; [done|]. set_solver.
Qed.

Lemma parse_header_line_clean line h :
  parse_header_line line = Ok h -> clean (header_text h).
Proof.
  unfold parse_header_line. destruct (match line with b :: _ => _ | [] => _ end); [done|].
  destruct (split_once x3a line) as [[raw v]|]; [|done].
  destruct (utf8_valid raw); [simpl|done].
  destruct (existsb is_ascii_control (trim_ascii_end raw)) eqn:Hn; [done|].
  destruct (existsb _ v) eqn:Hv; [done|]. simpl. intros [= <-]. unfold header_text. simpl.
  apply clean_app. split; [by apply no_control_clean|].
  split_and!; rewrite elem_of_cons; intros [?|Hb]; try done; by apply (existsb_false _ _ Hv) in Hb.
Qed.

Lemma header_lines_clean fuel block hs :
  header_lines fuel block = Ok hs -> Forall (fun h => clean (header_text h)) hs.
Proof.
  revert block hs. induction fuel as [|fuel IH]; intros block hs; destruct block as [|b block];
    cbn [header_lines]; try (by intros [= <-]; constructor).
  destruct (default _ _) as [line rest].
  destruct (parse_header_line line) as [h|e] eqn:Hh; [simpl|done].
  destruct (header_lines fuel rest) as [hs'|e] eqn:Hs; [simpl|done]. intros [= <-].
  constructor; [by eapply parse_header_line_clean|by eapply IH].
Qed.

Lemma reject_not_ok {A} code reason d s (a : A) s' : reject code reason d s <> (Ok a, s').
Proof.
  unfold reject, mbind, M_bind. by destruct (write_error code reason s) as [[u|e] s1].
Qed.

Lemma request_parts_text line m u v :
  request_parts line = Some (m, u, v) -> line = m ++ str " " ++ u ++ str " " ++ v.
Proof.
  unfold request_parts. destruct (split x20 line) as [|a [|b [|c [|]]]] eqn:Hs; try done.
  destruct (_ || _); [done|]. intros [= -> -> ->].
  assert (Hjoin : forall s a l, split x20 s = a :: l ->
    (l = [] /\ s = a) \/ exists r, s = a ++ x20 :: r /\ split x20 r = l).
  { clear. intros s a l Hs. destruct (split_once x20 s) as [[p r]|] eqn:Ho.
    - apply split_once_Some in Ho as [-> Hp]. rewrite split_app in Hs by done.
      injection Hs as -> <-. right. by exists r.
    - apply split_once_None in Ho. rewrite split_no_sep in Hs by done. injection Hs as -> <-. by left. }
  destruct (Hjoin _ _ _ Hs) as [[? _]|(r1 & -> & H1)]; [done|].
  destruct (Hjoin _ _ _ H1) as [[? _]|(r2 & -> & H2)]; [done|].
  destruct (Hjoin _ _ _ H2) as [[_ ->]|(r3 & _ & H3)]; [done|]. by apply split_nonempty in H3.
Qed.

Lemma parse_request_forward x s t out s' :
  parse_request (x ++ HEAD_END) s = (Ok (ForwardReq t out), s') ->
  s' = s /\ exists line method request_target version block,
    x ++ HEAD_END = line ++ CRLF ++ block ++ CRLF
    /\ (block = [] \/ exists y, block = y ++ CRLF)
    /\ existsb is_ascii_control line = false
    /\ request_parts line = Some (method, request_target, version)
    /\ (version = str "HTTP/1.1" \/ version = str "HTTP/1.0")
    /\ rewrite_forward method request_target version block = Ok (t, out).
Proof.
  unfold parse_request. destruct (head_parts x) as (line & block & Hsplit & Hx & Hblock).
  rewrite Hsplit.
  destruct (utf8_valid line); [cbn [negb]|by intros ?%reject_not_ok].
  destruct (existsb is_ascii_control line) eqn:Hc; [by intros ?%reject_not_ok|].
  destruct (request_parts line) as [[[m u] v]|] eqn:Hp; [|by intros ?%reject_not_ok].
  destruct (_ && _) eqn:Hv; [by intros ?%reject_not_ok|].
  destruct (eq_ignore_ascii_case _ _).
  { destruct (split_authority _ _) as [[host port]|]; [done|by intros ?%reject_not_ok]. }
  rewrite length_app. replace (length block + length CRLF - 2)%nat with (length block) by (simpl; lia).
  rewrite take_app_length.
  destruct (rewrite_forward m u v _) as [[t' out']|r] eqn:Hr; [|by intros ?%reject_not_ok].
  intros [= <- <- <-]. split; [done|]. exists line, m, u, v, block.
  split_and!; try done. apply andb_false_iff in Hv.
  destruct Hv as [Hv|Hv]; apply negb_false_iff, bool_decide_eq_true in Hv; auto.
Qed.

(** The lines of a rewritten head. *)
Definition forward_lines (method path version authority : bytes) (headers : list HeaderLine)
  : list bytes :=
  (method ++ str " " ++ path ++ str " " ++ version)
  :: (str "Host: " ++ authority)
  :: map header_text (List.filter (survives (connection_options headers)) headers)
  ++ [str "Connection: close"].

Lemma section_text_app a b :
  section_text (a ++ b) = concat (map (fun l => l ++ CRLF) a) ++ section_text b.
Proof. unfold section_text. by rewrite map_app, concat_app, <- app_assoc. Qed.

Lemma rewrite_forward_Ok m u v block t out :
  rewrite_forward m u v block = Ok (t, out) ->
  exists rest path authority host port headers,
    strip_scheme u (str "http://") = Some rest /\ origin_form rest = (authority, path)
    /\ contains x40 authority = false
    /\ split_authority authority (Some 80) = Some (host, port) /\ t = host_to_target host port
    /\ split_header_lines block = Ok headers
    /\ out = section_text (forward_lines m path v authority headers).
Proof.
  unfold rewrite_forward. destruct (strip_scheme u _) as [rest|]; [|done].
  destruct (origin_form rest) as [authority path] eqn:Ho.
  destruct (contains x40 authority) eqn:Hat; [done|].
  destruct (split_authority authority (Some 80)) as [[host port]|] eqn:Hs; [|done].
  destruct (split_header_lines block) as [headers|e] eqn:Hh; [simpl|done]. intros [= <- <-].
  exists rest, path, authority, host, port, headers. repeat split; try done.
  unfold forward_lines. rewrite !app_comm_cons, section_text_app. cbn [map concat].
  rewrite map_map, <- !app_assoc. by unfold section_text; simpl.
Qed.

Lemma header_text_nonempty h : header_text h <> [].
Proof. unfold header_text. by destruct (name h). Qed.

Lemma forward_lines_clean m path v authority headers :
  clean m -> clean path -> clean v -> clean authority ->
  Forall (fun h => clean (header_text h)) headers ->
  Forall (fun l => clean l /\ l <> []) (forward_lines m path v authority headers).
Proof.
  intros Hm Hp Hv Ha Hh. unfold forward_lines.
  assert (Hlit : forall l, existsb is_ascii_control l = false -> clean l) by apply no_control_clean.
  constructor; [|constructor; [|apply Forall_app; split]].
  - split; [|by destruct m]. rewrite !clean_app. repeat split; try apply Hm; try apply Hp; try apply Hv;
      by apply Hlit.
  - split; [|done]. apply clean_app. split; [by apply Hlit|done].
  - apply Forall_forall. intros l Hl%list_elem_of_In%in_map_iff.
    destruct Hl as (h & <- & Hin). apply filter_In in Hin as [Hin _].
    split; [|apply header_text_nonempty].
    rewrite Forall_forall in Hh. apply Hh. by apply list_elem_of_In.
  - constructor; [|constructor]. split; [by apply Hlit|done].
Qed.

Lemma survives_spec options h :
  survives options h = true ->
  (to_ascii_lowercase (name h) ∉ STRIPPED_HEADERS) /\ (to_ascii_lowercase (name h) ∉ options).
Proof.
  unfold survives. rewrite negb_true_iff, orb_false_iff, !bool_decide_eq_false. done.
Qed.

Lemma forward_lines_all_clean line m u v rest path a block headers :
  existsb is_ascii_control line = false -> request_parts line = Some (m, u, v) ->
  strip_scheme u (str "http://") = Some rest -> origin_form rest = (a, path) ->
  split_header_lines block = Ok headers ->
  Forall (fun l => clean l /\ l <> []) (forward_lines m path v a headers).
Proof.
  intros Hc Hparts Hsch Ho Hh.
  assert (Hu : forall x, x ∈ m \/ x ∈ u \/ x ∈ v -> x ∈ line) by (intros x; by apply request_parts_sub).
  apply no_control_clean in Hc. destruct (origin_form_sub rest a path Ho) as [Ha (p & -> & Hpath)].
  assert (Hrest : forall x, x ∈ rest -> x ∈ line).
  { intros x Hx. apply Hu. right. left. by apply (strip_scheme_sub u (str "http://") rest). }
  apply forward_lines_clean.
  - apply (clean_sub m line); [naive_solver|done].
  - apply (clean_app [x2f] p). split; [by apply no_control_clean|].
    apply (clean_sub p line); [naive_solver|done].
  - apply (clean_sub v line); [naive_solver|done].
  - apply (clean_sub a line); [naive_solver|done].
  - by eapply header_lines_clean.
Qed.

Lemma target_of_parts u rest a path :
  strip_scheme u (str "http://") = Some rest -> origin_form rest = (a, path) ->
  contains x40 a = false -> target_of u a path.
Proof.
  unfold strip_scheme, split_at_checked. destruct (is_char_boundary _ _); [cbn -[str]|done].
  destruct (eq_ignore_ascii_case _ _) eqn:Hsch; [|done]. intros [= Hrest] Ho Hat%contains_false.
  exists (take (length (str "http://")) u). rewrite <- Hrest in Ho. unfold origin_form in Ho.
  destruct (find_split _ _) as [[l r]|] eqn:Hf.
  - apply find_split_Some in Hf as (Hu & Hl & b & r' & -> & Hb).
    assert (Hnot : (x2f ∉ l) /\ (x3f ∉ l)).
    { rewrite Forall_forall in Hl. split; intros Hin; by apply Hl in Hin. }
    exists (b :: r'). rewrite <- (take_drop (length (str "http://")) u) at 1. rewrite Hu.
    case_bool_decide as Hs; simplify_eq.
    + split_and!; try done; try apply Hnot. left. by exists r'.
    + split_and!; try done; try apply Hnot. right. left. exists r'.
      apply orb_true_iff in Hb as [Hb|Hb]; [done|]. apply bool_decide_eq_true in Hb. by subst.
  - apply find_split_None in Hf. rewrite Forall_forall in Hf. injection Ho as <- <-. exists [].
    rewrite app_nil_r, take_drop.
    split_and!; try done; [..|by right; right]; intros Hin; by apply Hf in Hin.
Qed.

Lemma header_block_of block hs : block = [] \/ (exists y, block = y ++ CRLF) ->
  split_header_lines block = Ok hs ->
  exists raw, block = concat (map (fun l => l ++ CRLF) raw) /\ Forall2 header_of raw hs.
Proof.
  unfold split_header_lines. intros [->|[y ->]]; [intros [= <-]; exists []; by repeat constructor|].
  by apply header_lines_of.
Qed.

(** The head a client sent: a request line of three parts, header lines, the empty
    line. *)
Definition sent_head (method u version : bytes) (raw : list bytes) : bytes :=
  section_text ((method ++ str " " ++ u ++ str " " ++ version) :: raw).

(** C34. Nothing a client sends can inject into a forwarded request. The head that was
    read is a request line and the client's header lines; the head that is sent is the
    same method and version with the target's path in origin form, one [Host] line, the
    client's headers that survive, in order and one per line, and the forced close. No
    line of it has a CR, an LF or a NUL, so that whatever follows it, a recipient reads
    exactly these lines from it, whether it ends lines at CRLF only or also at a bare CR
    or LF. No surviving header is hop-by-hop, a [Host], or named by the client's
    [Connection] header; the [Host] sent and the target dialed come from the request
    target's own authority; and what follows the head is left unread. *)
Theorem forwarded_head_no_injection s t out s' :
  read_request s = (Ok (ForwardReq t out), s') ->
  exists method u version raw path authority host port headers,
    let ls := forward_lines method path version authority headers in
    rx s = sent_head method u version raw ++ rx s'
    /\ target_of u authority path /\ Forall2 header_of raw headers
    /\ out = section_text ls /\ Forall (fun l => clean l /\ l <> []) ls
    /\ (forall body, section_lines split_crlf (S (length ls)) (out ++ body) = ls
                     /\ section_lines split_any_eol (S (length ls)) (out ++ body) = ls)
    /\ split_authority authority (Some 80) = Some (host, port) /\ t = host_to_target host port
    /\ (version = str "HTTP/1.1" \/ version = str "HTTP/1.0")
    /\ Forall (fun h => (to_ascii_lowercase (name h) ∉ STRIPPED_HEADERS)
                        /\ (to_ascii_lowercase (name h) ∉ connection_options headers))
         (List.filter (survives (connection_options headers)) headers).
Proof.
  unfold read_request. intros (h & s1 & Hread & Hp)%bind_Ok_inv.
  apply read_head_read in Hread as (Hrx & x & ->).
  apply parse_request_forward in Hp as (-> & line & m & u & v & block & Hx & Hb & Hc & Hparts & Hv & Hr).
  apply rewrite_forward_Ok in Hr as (rest & path & a & host & port & headers & Hsch & Ho & Hat & Hs & -> & Hh & ->).
  destruct (header_block_of block headers Hb Hh) as (raw & -> & Hraw).
  exists m, u, v, raw, path, a, host, port, headers. cbv zeta.
  assert (Hls : Forall (fun l => clean l /\ l <> []) (forward_lines m path v a headers))
    by (by eapply forward_lines_all_clean).
  split_and!; try done.
  - rewrite Hrx, Hx. unfold sent_head, section_text. cbn [map concat].
    rewrite <- (request_parts_text line m u v Hparts). by rewrite <- !app_assoc.
  - by eapply target_of_parts.
  - intros body. split; (apply section_lines_text; [|done|lia]);
      [apply split_crlf_clean|apply split_any_eol_clean].
  - apply Forall_forall. intros hd [_ Hhd]%list_elem_of_In%filter_In. by apply survives_spec.
Qed.
End http.

(** ** Authorities *)

Lemma dec_not_colon z : 0 <= z <= 65535 -> x3a ∉ dec z.
Proof.
  intros Hz Hin. pose proof (parse_u16_dec z Hz) as Hp. unfold parse_u16, parse_uint in Hp.
  apply list_elem_of_split in Hin as (a & b & Heq). rewrite Heq in Hp.
  assert (Hbad : forall acc c, parse_digits U16_MAX acc (c ++ x3a :: b) = None).
  { intros acc c. rewrite parse_digits_app. by destruct (parse_digits U16_MAX acc c). }
  destruct a as [|x a]; [done|]. cbn [app] in Hp.
  destruct (decide (x = x2b)).
  - destruct (a ++ x3a :: b) eqn:Ha; [done|]. by rewrite <- Ha, Hbad in Hp.
  - by rewrite app_comm_cons, Hbad in Hp.
Qed.

Lemma split_authority_Some a d h p :
  split_authority a d = Some (h, p) -> h <> [] /\ (1 <= p <= 65535 \/ d = Some p).
Proof.
  unfold split_authority. destruct (match strip_prefix _ a with Some _ => _ | None => _ end)
    as [[host ps]|]; [simpl|done].
  case_bool_decide as Hh; [done|]. destruct ps as [s|].
  - destruct (parse_u16 s) as [port|] eqn:Hp; [|done]. apply parse_u16_range in Hp.
    destruct (Z.eqb_spec port 0); [done|]. intros [= <- <-]. split; [done|]. lia.
  - destruct d as [p'|]; [simpl|done]. intros [= <- <-]. auto.
Qed.

(** Authorities: a host and a port from 1 to 65535, written as [host:port], or
    as [[addr]:port] for a host with colons, are read back exactly; the port may
    be left out only where there is a default; and port 0 and an empty host are
    never read. *)
Theorem authority_roundtrip host port d :
  1 <= port <= 65535 -> host <> [] ->
  (x3a ∉ host -> (forall r, host <> x5b :: r) ->
     split_authority (host ++ x3a :: dec port) d = Some (host, port)
     /\ split_authority host d = (p ← d; Some (host, p)))
  /\ (x5d ∉ host ->
      split_authority (x5b :: host ++ x5d :: x3a :: dec port) d = Some (host, port))
  /\ (forall a h, split_authority a None <> Some (h, 0))
  /\ (forall a e p, split_authority a e <> Some ([], p)).
Proof.
  intros Hport Hne. pose proof (dec_not_colon port ltac:(lia)) as Hdec.
  assert (Hnb : forall a, (forall r, a <> x5b :: r) -> strip_prefix (str "[") a = None).
  { intros a Ha. destruct (strip_prefix (str "[") a) as [r|] eqn:Hs; [|done].
    apply strip_prefix_Some in Hs. by destruct (Ha r). }
  assert (Hpz : (port =? 0) = false) by lia.
  split; [intros Hc Hb; split|split; [|split]].
  - unfold split_authority. rewrite Hnb.
    2:{ intros r Hr. destruct host as [|b host]; [done|]. injection Hr as -> _. by eapply Hb. }
    rewrite (proj2 (rsplit_once_Some x3a (host ++ x3a :: dec port) host (dec port))) by done.
    rewrite (proj2 (contains_false _ _)) by done. simpl. rewrite bool_decide_false by done.
    rewrite parse_u16_dec by lia. by rewrite Hpz.
  - unfold split_authority. rewrite Hnb by done. rewrite (proj2 (rsplit_once_None _ _)) by done.
    simpl. by rewrite bool_decide_false by done.
  - intros Hb. unfold split_authority.
    change (x5b :: host ++ x5d :: x3a :: dec port) with (str "[" ++ host ++ x5d :: x3a :: dec port).
    rewrite (proj2 (strip_prefix_Some (str "[") _ _) eq_refl).
    rewrite split_once_app by done. cbn [mbind option_bind].
    rewrite (proj2 (strip_prefix_Some (str ":") (x3a :: dec port) (dec port))) by reflexivity.
    simpl. rewrite bool_decide_false by done. rewrite parse_u16_dec by lia. by rewrite Hpz.
  - intros a h Ha. apply split_authority_Some in Ha as (_ & [Hp|Hp]); [lia|done].
  - intros a e p Ha. by apply split_authority_Some in Ha as [? _].
Qed.

(** A sign is accepted in a port ([u16]'s parser takes one), so that
    [host:+443] names port 443. *)
Theorem signed_port_accepted : split_authority (str "host:+443") None = Some (str "host", 443).
Proof. by vm_compute. Qed.

(** ** Witnesses *)

Lemma complete_head_check h :
  ends_with h HEAD_END && forallb (fun k => negb (ends_with (take k h) HEAD_END)) (seq 0 (length h))
    = true ->
  complete_head h.
Proof.
  rewrite andb_true_iff. intros [Hend Hall]. split; [done|]. intros p q -> Hq.
  rewrite forallb_forall in Hall. specialize (Hall (length p)).
  rewrite take_app_length in Hall. apply negb_true_iff, Hall.
  apply in_seq. rewrite length_app. destruct q; [done|]. simpl. lia.
Qed.

Definition no_debug (s : bytes) : bytes := s.

Definition ref_get : bytes :=
  str "GET http://Example.com:8080?q HTTP/1.1" ++ CRLF ++ str "Host: evil" ++ CRLF
  ++ str "X-Hop : 1" ++ CRLF ++ str "Accept: *" ++ CRLF ++ str "Connection: x-hop" ++ HEAD_END.

Lemma http_request_boundary_witness :
  exists r more, read_request no_debug (open_stream (ref_get ++ str "body"))
                 = (r, with_tx (with_rx (open_stream (ref_get ++ str "body")) (str "body"))
                         ([] ++ more)).
Proof.
  destruct (http_request_boundary no_debug ref_get (str "body")
              (open_stream (ref_get ++ str "body"))) as (r & more & Hr & _).
  - apply complete_head_check. by vm_compute.
  - apply Z.leb_le. by vm_compute.
  - reflexivity.
  - reflexivity.
  - exists r, more. exact Hr.
Defined.

Definition ref_rewritten : bytes :=
  str "GET /?q HTTP/1.1" ++ CRLF ++ str "Host: Example.com:8080" ++ CRLF ++ str "Accept: *" ++ CRLF
  ++ str "Connection: close" ++ HEAD_END.

Lemma forwarded_head_no_injection_witness :
  exists ls, ref_rewritten = section_text ls /\ Forall (fun l => clean l /\ l <> []) ls
    /\ section_lines split_crlf (S (length ls)) (ref_rewritten ++ str "smuggled: 1") = ls
    /\ section_lines split_any_eol (S (length ls)) (ref_rewritten ++ str "smuggled: 1") = ls.
Proof.
  assert (Hr : read_request no_debug (open_stream (ref_get ++ str "body"))
               = (Ok (ForwardReq (Domain (str "Example.com") 8080) ref_rewritten), open_stream (str "body")))
    by (vm_compute; reflexivity).
  destruct (forwarded_head_no_injection no_debug _ _ _ _ Hr)
    as (m & u & v & raw & p & a & h & po & hs & _ & _ & _ & Hout & Hc & Hls & _).
  exists (forward_lines m p v a hs). split; [exact Hout|]. split; [exact Hc|]. apply Hls.
Defined.

Lemma authority_roundtrip_witness :
  split_authority (x5b :: str "::1" ++ x5d :: x3a :: dec 443) None = Some (str "::1", 443).
Proof.
  apply (authority_roundtrip (str "::1") 443 None); [lia | by vm_compute |].
  apply (bool_decide_unpack _). by vm_compute.
Defined.
