(* ===== verification/RoutedSet.v ===== *)
(** * The routed set ([proxy/routed_set.rs]) and the reserved names
    ([proxy/reserved.rs])

    [RoutedSet] with its constructor, its matcher [allows] and the two
    reachability checks. The [ipnetwork] crate is a parameter: class
    [IpNetworkApi] has the functions the source calls, [IpNetworkLaws] the
    documented meaning of a CIDR network (an address and a prefix length). The
    abstract specification is [rules_match]: which targets a list of domain
    rules and a list of CIDR rules describe. *)

From S2P Require Import Prelude RustStr Net.

(** ** The [ipnetwork] crate *)

Definition same_family (a b : IpAddr) : bool :=
  match a, b with V4 _, V4 _ | V6 _, V6 _ => true | _, _ => false end.
Definition width (ip : IpAddr) : Z := match ip with V4 _ => 32 | V6 _ => 128 end.
Definition bits (ip : IpAddr) : Z := match ip with V4 a | V6 a => a end.

(** The first [p] bits of an address, and the address with its other bits
    cleared. *)
Definition prefix_bits (p : Z) (ip : IpAddr) : Z := bits ip / 2 ^ (width ip - p).
Definition clear_host_bits (p : Z) (ip : IpAddr) : IpAddr :=
  let z := prefix_bits p ip * 2 ^ (width ip - p) in
  match ip with V4 _ => V4 z | V6 _ => V6 z end.

Class IpNetworkApi := {
  IpNetwork : Type;
  net_from_str : bytes -> option IpNetwork;
  net_from_ip : IpAddr -> IpNetwork;
  net_ip : IpNetwork -> IpAddr;
  net_prefix : IpNetwork -> Z;
  net_network : IpNetwork -> IpAddr;
  net_contains : IpNetwork -> IpAddr -> bool;
}.

Class IpNetworkLaws `{IpNetworkApi} := {
  net_wf : forall n, wf_ip (net_ip n) /\ 0 <= net_prefix n <= width (net_ip n);
  net_network_spec : forall n, net_network n = clear_host_bits (net_prefix n) (net_ip n);
  net_contains_spec : forall n ip,
    net_contains n ip = same_family (net_ip n) ip
      && (prefix_bits (net_prefix n) ip =? prefix_bits (net_prefix n) (net_ip n));
  net_from_ip_spec : forall ip, wf_ip ip ->
    net_ip (net_from_ip ip) = ip /\ net_prefix (net_from_ip ip) = width ip;
}.

Section routed_set.
Context `{IpNetworkApi}.

(** ** The set and its constructor *)

Record RoutedSet : Type := mkRoutedSet {
  domains_exact : gset bytes;
  domains_suffix : list bytes;
  cidrs : list IpNetwork;
  domains_all : bool;
}.

Definition RoutedSet_default : RoutedSet := mkRoutedSet ∅ [] [] false.

(** The configuration errors, with the offending entry. *)
Inductive RuleError : Type :=
| InvalidWildcardPattern (raw : bytes)
| InvalidDomainPattern (raw : bytes)
| InvalidRoutedCidr (raw : bytes)
| DomainRuleNotCovered (raw : bytes)
| InvalidCidrRule (raw : bytes)
| CidrRuleNoOverlap (raw : bytes).

(** One iteration of the domain loop, on the three accumulators. *)
Definition add_domain (raw : bytes) (acc : gset bytes * list bytes * bool)
  : result RuleError (gset bytes * list bytes * bool) :=
  let '(exact, suffixes, all) := acc in
  let entry := trim raw in
  if bool_decide (entry = str "*") then Ok (exact, suffixes, true)
  else match strip_prefix (str "*.") entry with
  | Some suffix =>
      if contains x2a suffix || existsb (fun l => bool_decide (l = [])) (split x2e suffix)
      then Err (InvalidWildcardPattern raw)
      else Ok (exact, suffixes ++ [x2e :: to_ascii_lowercase suffix], all)
  | None =>
      if bool_decide (entry = []) || contains x2a entry
      then Err (InvalidDomainPattern raw)
      else Ok ({[to_ascii_lowercase entry]} ∪ exact, suffixes, all)
  end.

Fixpoint add_domains (domains : list bytes) (acc : gset bytes * list bytes * bool)
  : result RuleError (gset bytes * list bytes * bool) :=
  match domains with
  | [] => Ok acc
  | raw :: domains' => acc' ← add_domain raw acc; add_domains domains' acc'
  end.

(** [a.b.c.d/n], or a bare address as a single-host network. *)
Definition parse_network (entry : bytes) : option IpNetwork :=
  match net_from_str entry with
  | Some net => Some net
  | None => net_from_ip <$> ip_from_str entry
  end.

Fixpoint add_cidrs (raws : list bytes) (nets : list IpNetwork) : result RuleError (list IpNetwork) :=
  match raws with
  | [] => Ok nets
  | raw :: raws' =>
      net ← ok_or (parse_network (trim raw)) (InvalidRoutedCidr raw);
      add_cidrs raws' (nets ++ [net])
  end.

Definition RoutedSet_new (domains raw_cidrs : list bytes) : result RuleError RoutedSet :=
  acc ← add_domains domains (∅, [], false);
  nets ← add_cidrs raw_cidrs [];
  let '(exact, suffixes, all) := acc in
  Ok {| domains_exact := exact; domains_suffix := suffixes; cidrs := nets; domains_all := all |}.

(** ** Matching *)

Definition parse_ip_literal (host : bytes) : option IpAddr :=
  let unbracketed :=
    match strip_prefix [x5b] host with
    | Some h => default host (strip_suffix [x5d] h)
    | None => host
    end in
  ip_from_str unbracketed.

Definition allows_ip (self : RoutedSet) (ip : IpAddr) : bool :=
  existsb (fun net => net_contains net ip) (cidrs self).

Definition allows_host (self : RoutedSet) (host : bytes) : bool :=
  match parse_ip_literal host with
  | Some ip => allows_ip self ip
  | None =>
      if domains_all self then true
      else
        let host := to_ascii_lowercase host in
        bool_decide (host ∈ domains_exact self)
        || existsb (fun suffix => ends_with host suffix) (domains_suffix self)
  end.

Definition allows (self : RoutedSet) (target : Target) : bool :=
  match target with
  | Domain host _ => allows_host self host
  | Ip sa => allows_ip self (sa_ip sa)
  end.

(** ** Reachability of rules *)

Definition covers_suffix (self : RoutedSet) (suffix : bytes) : bool :=
  if domains_all self then true
  else
    let dot_suffix := x2e :: suffix in
    if bool_decide (suffix ∈ domains_exact self)
       || existsb (fun e => ends_with e dot_suffix) (elements (domains_exact self))
    then true
    else existsb (fun dot_t =>
           let t := tail dot_t in
           bool_decide (t = suffix) || ends_with suffix dot_t || ends_with t dot_suffix)
         (domains_suffix self).

Definition domain_rule_reachable (self : RoutedSet) (entry : bytes) : bool :=
  if bool_decide (entry = str "*") then
    domains_all self || negb (bool_decide (domains_exact self = ∅))
    || negb (bool_decide (domains_suffix self = []))
  else match strip_prefix (str "*.") entry with
  | Some suffix => covers_suffix self (to_ascii_lowercase suffix)
  | None => allows_host self entry
  end.

Fixpoint check_domain_rules (self : RoutedSet) (domains : list bytes) : result RuleError () :=
  match domains with
  | [] => Ok tt
  | raw :: domains' =>
      if domain_rule_reachable self (trim raw) then check_domain_rules self domains'
      else Err (DomainRuleNotCovered raw)
  end.

Definition networks_overlap (routed net : IpNetwork) : bool :=
  net_contains routed (net_network net) || net_contains net (net_network routed).

Fixpoint check_cidr_rules (self : RoutedSet) (raws : list bytes) : result RuleError () :=
  match raws with
  | [] => Ok tt
  | raw :: raws' =>
      net ← ok_or (parse_network (trim raw)) (InvalidCidrRule raw);
      if existsb (fun routed => networks_overlap routed net) (cidrs self)
      then check_cidr_rules self raws'
      else Err (CidrRuleNoOverlap raw)
  end.

Definition validate_rules_reachable (self : RoutedSet) (domains raw_cidrs : list bytes)
  : result RuleError () :=
  _ ← check_domain_rules self domains;
  check_cidr_rules self raw_cidrs.
End routed_set.

#[global] Arguments mkRoutedSet {_} _ _ _ _.
#[global] Arguments RoutedSet {_}.

(** ** Reserved names *)

Definition STATUS_HOST : bytes := str "flextunnel.internal".
Definition LOCALHOST_HOST : bytes := str "localhost.flextunnel.internal".
Definition RESERVED_SUFFIX : bytes := str ".flextunnel.internal".

Definition is_status_host (host : bytes) : bool := eq_ignore_ascii_case host STATUS_HOST.
Definition is_localhost_host (host : bytes) : bool := eq_ignore_ascii_case host LOCALHOST_HOST.

Definition is_reserved_host (host : bytes) : bool :=
  if is_status_host host then true
  else match strip_suffix RESERVED_SUFFIX (to_ascii_lowercase host) with
       | Some label => negb (bool_decide (label = []))
       | None => false
       end.

(** ** Specification: what a list of rules matches *)

Section specification.
Context `{IpNetworkApi}.

Definition domain_rule_matches (raw host : bytes) : Prop :=
  let entry := trim raw in
  entry = str "*"
  \/ (exists base label, entry = str "*." ++ base
        /\ to_ascii_lowercase host = label ++ x2e :: to_ascii_lowercase base)
  \/ ((x2a ∉ entry) /\ to_ascii_lowercase entry = to_ascii_lowercase host).

Definition cidr_rule_matches (raw : bytes) (ip : IpAddr) : Prop :=
  exists net, parse_network (trim raw) = Some net /\ net_contains net ip = true.

(** Hostnames are matched by domain rules only, addresses (also numeric
    literals that arrive as a domain) by CIDR rules only. *)
Definition rules_match (domains raw_cidrs : list bytes) (t : Target) : Prop :=
  match t with
  | Ip sa => Exists (fun raw => cidr_rule_matches raw (sa_ip sa)) raw_cidrs
  | Domain host _ =>
      match parse_ip_literal host with
      | Some ip => Exists (fun raw => cidr_rule_matches raw ip) raw_cidrs
      | None => Exists (fun raw => domain_rule_matches raw host) domains
      end
  end.

Definition valid_domain_rule (raw : bytes) : Prop :=
  let entry := trim raw in
  entry = str "*"
  \/ (exists base, entry = str "*." ++ base /\ (x2a ∉ base) /\ ([] ∉ split x2e base))
  \/ (entry <> [] /\ (x2a ∉ entry)).

Definition valid_cidr_rule (raw : bytes) : Prop := is_Some (parse_network (trim raw)).

(** ** The constructor *)

Definition acc_matches (acc : gset bytes * list bytes * bool) (host : bytes) : Prop :=
  let '(exact, suffixes, all) := acc in
  all = true \/ to_ascii_lowercase host ∈ exact
  \/ exists s, s ∈ suffixes /\ ends_with (to_ascii_lowercase host) s = true.

Lemma star_in_wildcard base : x2a ∈ str "*." ++ base.
Proof. apply elem_of_app. left. rewrite list_elem_of_lookup. by exists 0%nat. Qed.

Lemma star_in_star : x2a ∈ str "*".
Proof. rewrite list_elem_of_lookup. by exists 0%nat. Qed.

Lemma star_not_wildcard base : str "*" <> str "*." ++ base.
Proof. intros Heq%(f_equal length). rewrite length_app in Heq. vm_compute in Heq. lia. Qed.

Lemma existsb_empty_label l :
  existsb (fun x : bytes => bool_decide (x = [])) l = true <-> [] ∈ l.
Proof.
  rewrite existsb_exists. setoid_rewrite bool_decide_eq_true.
  setoid_rewrite <- list_elem_of_In. naive_solver.
Qed.

Lemma add_domain_valid raw acc :
  (exists acc', add_domain raw acc = Ok acc') <-> valid_domain_rule raw.
Proof.
  destruct acc as [[exact suffixes] all]. unfold add_domain, valid_domain_rule.
  case_bool_decide as Hstar; [naive_solver|].
  destruct (strip_prefix (str "*.") (trim raw)) as [base|] eqn:Hp.
  - apply strip_prefix_Some in Hp. rewrite Hp in *.
    destruct (contains x2a base || _) eqn:Hc.
    + split; [by intros [? [=]]|]. intros [|[(b & Heq & Hb & Hl)|[_ Hn]]]; [done| |].
      * apply (inj (app (str "*."))) in Heq as <-.
        apply orb_true_iff in Hc as [Hc|Hc];
          [by apply contains_true in Hc | by apply existsb_empty_label in Hc].
      * by destruct (Hn (star_in_wildcard base)).
    + apply orb_false_iff in Hc as [Hc1 Hc2]. split; [intros _|eauto].
      right; left. exists base. repeat split; [by apply contains_false|].
      intros Hin%existsb_empty_label. congruence.
  - destruct (bool_decide (trim raw = []) || _) eqn:Hc.
    + split; [by intros [? [=]]|]. intros [|[(b & Heq & _)|[Hne Hn]]]; [done| |].
      * apply strip_prefix_Some in Heq. congruence.
      * apply orb_true_iff in Hc as [Hc|Hc];
          [by apply bool_decide_eq_true in Hc | by apply contains_true in Hc].
    + apply orb_false_iff in Hc as [Hc1%bool_decide_eq_false Hc2%contains_false].
      split; [intros _; by right; right | eauto].
Qed.

Lemma add_domain_matches raw acc acc' host :
  add_domain raw acc = Ok acc' ->
  (acc_matches acc' host <-> acc_matches acc host \/ domain_rule_matches raw host).
Proof.
  destruct acc as [[exact suffixes] all]. unfold add_domain, domain_rule_matches.
  case_bool_decide as Hstar; [intros [= <-]; simpl; naive_solver|].
  destruct (strip_prefix (str "*.") (trim raw)) as [base|] eqn:Hp.
  - apply strip_prefix_Some in Hp. rewrite Hp in *.
    destruct (contains x2a base || _); [done|]. intros [= <-]. simpl.
    setoid_rewrite elem_of_app. setoid_rewrite list_elem_of_singleton.
    setoid_rewrite ends_with_true. split.
    + intros [?|[?|(s & [Hs| ->] & r & Hr)]]; eauto 8.
    + intros [[?|[?|(s & Hs & Hr)]]|[?|[(b & l & Heq & Hl)|[Hn _]]]]; eauto 8; [|].
      * apply (inj (app (str "*."))) in Heq as <-. eauto 10.
      * destruct Hn. apply elem_of_app, star_in_wildcard.
  - destruct (bool_decide (trim raw = []) || _) eqn:Hc; [done|].
    apply orb_false_iff in Hc as [_ Hc%contains_false]. intros [= <-]. simpl.
    rewrite elem_of_union, elem_of_singleton. split; [naive_solver|].
    intros [|[?|[(b & l & Heq & Hl)|[_ <-]]]]; [naive_solver|done| |eauto].
    rewrite Heq in Hc. by destruct (Hc (star_in_wildcard b)).
Qed.

Lemma add_domains_valid ds acc :
  (exists acc', add_domains ds acc = Ok acc') <-> Forall valid_domain_rule ds.
Proof.
  revert acc. induction ds as [|raw ds IH]; intros acc; simpl; [split; eauto|].
  rewrite Forall_cons, <- (add_domain_valid raw acc).
  destruct (add_domain raw acc) as [acc1|e]; simpl.
  - rewrite IH. naive_solver.
  - naive_solver.
Qed.

Lemma add_domains_matches ds acc acc' host :
  add_domains ds acc = Ok acc' ->
  (acc_matches acc' host
   <-> acc_matches acc host \/ Exists (fun raw => domain_rule_matches raw host) ds).
Proof.
  revert acc. induction ds as [|raw ds IH]; intros acc; simpl.
  - intros [= <-]. rewrite Exists_nil. tauto.
  - destruct (add_domain raw acc) as [acc1|e] eqn:Hadd; simpl; [|done].
    intros Hds. rewrite (IH acc1 Hds), (add_domain_matches _ _ _ _ Hadd), Exists_cons. tauto.
Qed.

Lemma add_cidrs_spec raws nets :
  match add_cidrs raws nets with
  | Ok nets' => exists new, nets' = nets ++ new
                 /\ Forall2 (fun raw net => parse_network (trim raw) = Some net) raws new
  | Err _ => ~ Forall valid_cidr_rule raws
  end.
Proof.
  revert nets. induction raws as [|raw raws IH]; intros nets; simpl.
  - exists []. by rewrite app_nil_r.
  - destruct (parse_network (trim raw)) as [net|] eqn:Hp; simpl.
    + specialize (IH (nets ++ [net])). destruct (add_cidrs raws (nets ++ [net])).
      * destruct IH as (new & -> & Hnew). exists (net :: new).
        rewrite <- app_assoc. by repeat constructor.
      * rewrite Forall_cons. tauto.
    + rewrite Forall_cons. unfold valid_cidr_rule at 1. rewrite Hp. intros [[? [=]] _].
Qed.

Lemma parsed_valid raws nets :
  Forall2 (fun raw net => parse_network (trim raw) = Some net) raws nets ->
  Forall valid_cidr_rule raws.
Proof. induction 1; constructor; unfold valid_cidr_rule; eauto. Qed.

Lemma parsed_matches raws nets ip :
  Forall2 (fun raw net => parse_network (trim raw) = Some net) raws nets ->
  existsb (fun net => net_contains net ip) nets = true
  <-> Exists (fun raw => cidr_rule_matches raw ip) raws.
Proof.
  induction 1 as [|raw net raws nets Hp _ IH]; simpl; [by rewrite Exists_nil|].
  rewrite orb_true_iff, IH, Exists_cons. unfold cidr_rule_matches at 2.
  rewrite Hp. naive_solver.
Qed.

Lemma RoutedSet_new_inv ds cs rs :
  RoutedSet_new ds cs = Ok rs ->
  add_domains ds (∅, [], false) = Ok (domains_exact rs, domains_suffix rs, domains_all rs)
  /\ Forall2 (fun raw net => parse_network (trim raw) = Some net) cs (cidrs rs).
Proof.
  unfold RoutedSet_new. intros Hnew.
  destruct (add_domains ds _) as [[[ex sf] al]|] eqn:Hd; simpl in Hnew; [|done].
  pose proof (add_cidrs_spec cs []) as Hc.
  destruct (add_cidrs cs []) as [nets|]; simpl in Hnew; [|done].
  injection Hnew as <-. simpl. destruct Hc as (new & -> & Hnew). by split.
Qed.

Lemma allows_host_domains rs host :
  parse_ip_literal host = None ->
  allows_host rs host = true
  <-> acc_matches (domains_exact rs, domains_suffix rs, domains_all rs) host.
Proof.
  intros Hlit. unfold allows_host. rewrite Hlit. simpl.
  destruct (domains_all rs); [naive_solver|].
  rewrite orb_true_iff, bool_decide_eq_true, existsb_exists.
  setoid_rewrite <- list_elem_of_In. naive_solver.
Qed.

Lemma allows_ip_rules ds cs rs ip :
  RoutedSet_new ds cs = Ok rs ->
  allows_ip rs ip = true <-> Exists (fun raw => cidr_rule_matches raw ip) cs.
Proof. intros [_ Hcs]%RoutedSet_new_inv. by apply parsed_matches. Qed.

Lemma allows_spec ds cs rs t :
  RoutedSet_new ds cs = Ok rs -> allows rs t = true <-> rules_match ds cs t.
Proof.
  intros Hnew. destruct t as [sa|host port]; simpl; [exact (allows_ip_rules ds cs rs _ Hnew)|].
  destruct (parse_ip_literal host) as [ip|] eqn:Hlit.
  - unfold allows_host. rewrite Hlit. exact (allows_ip_rules ds cs rs _ Hnew).
  - rewrite allows_host_domains by done.
    apply RoutedSet_new_inv in Hnew as [Hds _].
    rewrite (add_domains_matches _ _ _ _ Hds). simpl. set_solver.
Qed.

(** C8. The matcher implements the rule language: for a set built from
    configuration, a target is routed exactly when some rule of the list its
    kind belongs to matches it (domain rules for hostnames, CIDR rules for
    addresses and for numeric literals in domain form). *)
Theorem routed_set_matches_rules ds cs rs t :
  RoutedSet_new ds cs = Ok rs -> (allows rs t = true <-> rules_match ds cs t).
Proof. apply allows_spec. Qed.

(** Configuration errors are exact: building the set succeeds precisely
    when every domain rule is a catch-all, a wildcard over non-empty star-free
    labels or a non-empty star-free name, and every CIDR rule parses. *)
Theorem routed_set_new_total ds cs :
  is_ok (RoutedSet_new ds cs) = true
  <-> Forall valid_domain_rule ds /\ Forall valid_cidr_rule cs.
Proof.
  unfold RoutedSet_new. rewrite <- (add_domains_valid ds (∅, [], false)).
  destruct (add_domains ds _) as [[[ex sf] al]|]; simpl; [|naive_solver].
  pose proof (add_cidrs_spec cs []) as Hc.
  destruct (add_cidrs cs []) as [nets|]; simpl.
  - destruct Hc as (new & _ & Hnew%parsed_valid). naive_solver.
  - naive_solver.
Qed.

(** An address cannot masquerade as a hostname: a numeric literal in
    domain form (bracketed or not) is routed exactly when the address itself
    is, whatever the domain rules say. *)
Theorem literal_gated_by_cidrs rs host ip port sa :
  parse_ip_literal host = Some ip -> sa_ip sa = ip ->
  allows rs (Domain host port) = allows rs (Ip sa).
Proof. intros Hlit <-. simpl. unfold allows_host. by rewrite Hlit. Qed.
End specification.

(** ** Coverage of a suffix *)

Section coverage.
Context `{IpNetworkApi}.

(** A hostname at or under [suffix]. *)
Definition at_or_under (suffix host : bytes) : Prop :=
  to_ascii_lowercase host = suffix
  \/ exists label, to_ascii_lowercase host = label ++ x2e :: suffix.

(** Every stored rule is lower case, and a stored wildcard starts with the dot. *)
Definition wf_routed_set (rs : RoutedSet) : Prop :=
  (forall e, e ∈ domains_exact rs -> to_ascii_lowercase e = e)
  /\ (forall s, s ∈ domains_suffix rs -> exists t, s = x2e :: t /\ to_ascii_lowercase t = t).

Definition no_literal_names (rs : RoutedSet) : Prop :=
  forall e, e ∈ domains_exact rs -> parse_ip_literal e = None.

Lemma add_domains_wf ds acc acc' :
  add_domains ds acc = Ok acc' ->
  (forall e, e ∈ acc.1.1 -> to_ascii_lowercase e = e) ->
  (forall s, s ∈ acc.1.2 -> exists t, s = x2e :: t /\ to_ascii_lowercase t = t) ->
  (forall e, e ∈ acc'.1.1 -> to_ascii_lowercase e = e)
  /\ (forall s, s ∈ acc'.1.2 -> exists t, s = x2e :: t /\ to_ascii_lowercase t = t).
Proof.
  revert acc. induction ds as [|raw ds IH]; intros acc; simpl; [by intros [= <-]|].
  destruct (add_domain raw acc) as [acc1|e] eqn:Hadd; simpl; [|done].
  intros Hds He Hs. apply (IH _ Hds); destruct acc as [[ex sf] al];
    unfold add_domain in Hadd; repeat destruct_match; simplify_eq/=; try done.
  - intros e [->%elem_of_singleton|]%elem_of_union; [apply to_ascii_lowercase_idem|auto].
  - intros s [?| ->%list_elem_of_singleton]%elem_of_app; [auto|].
    eexists. split; [done|]. apply to_ascii_lowercase_idem.
Qed.

Lemma RoutedSet_new_wf ds cs rs : RoutedSet_new ds cs = Ok rs -> wf_routed_set rs.
Proof.
  intros [Hds _]%RoutedSet_new_inv.
  eapply add_domains_wf in Hds; [exact Hds | set_solver | set_solver].
Qed.

(** A name that starts with the letter x is no address. *)
Lemma x_not_literal s : parse_ip_literal (str "x." ++ s) = None.
Proof. reflexivity. Qed.

Lemma lower_x_dot s : to_ascii_lowercase (str "x." ++ s) = str "x" ++ x2e :: to_ascii_lowercase s.
Proof. reflexivity. Qed.

Lemma allows_wildcard rs t host label :
  x2e :: t ∈ domains_suffix rs -> parse_ip_literal host = None ->
  to_ascii_lowercase host = label ++ x2e :: t -> allows_host rs host = true.
Proof.
  intros Ht Hlit Hl. apply allows_host_domains; [done|]. right; right.
  exists (x2e :: t). split; [done|]. apply ends_with_true. eauto.
Qed.

Lemma covers_suffix_sound rs suffix :
  wf_routed_set rs -> no_literal_names rs -> to_ascii_lowercase suffix = suffix ->
  covers_suffix rs suffix = true ->
  exists host, at_or_under suffix host /\ parse_ip_literal host = None
               /\ allows_host rs host = true.
Proof.
  intros [Hex Hsf] Hlit Hlow. unfold covers_suffix.
  assert (Hx : forall t, to_ascii_lowercase t = t ->
            to_ascii_lowercase (str "x." ++ t) = str "x" ++ x2e :: t)
    by (intros t Ht; by rewrite lower_x_dot, Ht).
  destruct (domains_all rs) eqn:Hall.
  { intros _. exists (str "x." ++ suffix). split; [right; eauto|]. split; [done|].
    apply allows_host_domains; [done|]. by left. }
  destruct (bool_decide (suffix ∈ _) || _) eqn:Hexact.
  { intros _. assert (exists e, e ∈ domains_exact rs /\ at_or_under suffix e) as (e & He & Hu).
    { apply orb_true_iff in Hexact as [Hin%bool_decide_eq_true|Hin].
      - exists suffix. by split; [|left].
      - apply existsb_exists in Hin as (e & He%list_elem_of_In%elem_of_elements & Hend).
        apply ends_with_true in Hend as [r Hr]. exists e. split; [done|right].
        exists r. by rewrite (Hex e He). }
    exists e. split; [done|]. split; [by apply Hlit|].
    apply allows_host_domains; [by apply Hlit|]. right; left. simpl. by rewrite (Hex e He). }
  intros (dt & Hin%list_elem_of_In & Hcase)%existsb_exists.
  destruct (Hsf dt Hin) as (t & -> & Ht). simpl in Hcase.
  rewrite !orb_true_iff, bool_decide_eq_true, !ends_with_true in Hcase.
  destruct Hcase as [[->|[r Hr]]|[r Hr]].
  - exists (str "x." ++ suffix). split; [right; eauto|]. split; [done|].
    by eapply allows_wildcard; [| |apply Hx].
  - exists (str "x." ++ suffix). split; [right; eauto|]. split; [done|].
    eapply (allows_wildcard rs t _ (str "x" ++ x2e :: r)); [done..|].
    by rewrite Hx, Hr, <- app_assoc.
  - exists (str "x." ++ t). split; [right; exists (str "x" ++ x2e :: r)|].
    { by rewrite Hx, Hr, <- app_assoc. }
    split; [done|]. by eapply allows_wildcard; [| |apply Hx].
Qed.

Lemma dot_suffixes_linear (h a b s t : bytes) :
  h = a ++ x2e :: s -> h = b ++ x2e :: t ->
  t = s \/ (exists r, s = r ++ x2e :: t) \/ (exists r, t = r ++ x2e :: s).
Proof.
  intros -> Heq. destruct (Nat.le_ge_cases (length s) (length t)) as [Hl|Hl].
  - apply suffix_linear in Heq as [r Hr]; [|simpl; lia].
    destruct r as [|c r]; simplify_eq/=; eauto.
  - symmetry in Heq. apply suffix_linear in Heq as [r Hr]; [|simpl; lia].
    destruct r as [|c r]; simplify_eq/=; eauto.
Qed.

Lemma covers_suffix_complete rs suffix host :
  wf_routed_set rs -> at_or_under suffix host -> parse_ip_literal host = None ->
  allows_host rs host = true -> covers_suffix rs suffix = true.
Proof.
  intros [Hex Hsf] Hu Hlit Hallow. apply allows_host_domains in Hallow; [|done].
  unfold covers_suffix. destruct (domains_all rs) eqn:Hall; [done|].
  destruct Hallow as [?|[Hin|(dt & Hin & Hend)]]; [done| |].
  - replace (bool_decide _ || _) with true; [done|]. symmetry. apply orb_true_iff.
    destruct Hu as [Hu|[l Hu]]; rewrite Hu in Hin.
    + left. by apply bool_decide_eq_true.
    + right. apply existsb_exists. eexists.
      split; [apply list_elem_of_In, elem_of_elements, Hin|]. apply ends_with_true. eauto.
  - destruct (bool_decide (suffix ∈ _) || _); [done|].
    apply existsb_exists. exists dt. split; [by apply list_elem_of_In|].
    destruct (Hsf dt Hin) as (t & -> & Ht). simpl. apply ends_with_true in Hend as [r Hr].
    rewrite !orb_true_iff, bool_decide_eq_true, !ends_with_true.
    destruct Hu as [Hu|[l Hu]]; rewrite Hu in Hr; [eauto|].
    destruct (dot_suffixes_linear _ l r suffix t eq_refl Hr) as [|[|]]; eauto.
Qed.

(** The dead-configuration check for a DNS-forward suffix is exact: a set
    built from configuration, whose exact names are hostnames, covers a suffix
    if and only if it really routes some hostname at or under that suffix. *)
Theorem covers_suffix_exact ds cs rs suffix :
  RoutedSet_new ds cs = Ok rs -> no_literal_names rs ->
  to_ascii_lowercase suffix = suffix ->
  (covers_suffix rs suffix = true
   <-> exists host, at_or_under suffix host /\ parse_ip_literal host = None
                    /\ allows_host rs host = true).
Proof.
  intros Hwf%RoutedSet_new_wf Hlit Hlow. split.
  - by apply covers_suffix_sound.
  - intros (host & Hu & Hh & Ha). by eapply covers_suffix_complete.
Qed.
End coverage.

(** ** Overlap of networks *)

Section overlap.
Context `{IpNetworkLaws}.

Lemma clear_then_shift a j k :
  0 <= j <= k -> (a / 2 ^ j * 2 ^ j) / 2 ^ k = a / 2 ^ k.
Proof.
  intros Hjk. replace (2 ^ k) with (2 ^ j * 2 ^ (k - j)) by (rewrite <- Z.pow_add_r; f_equal; lia).
  pose proof (Z.pow_pos_nonneg 2 j ltac:(lia) ltac:(lia)).
  pose proof (Z.pow_pos_nonneg 2 (k - j) ltac:(lia) ltac:(lia)).
  rewrite <- !Z.div_div by lia. by rewrite Z.div_mul by lia.
Qed.

Lemma same_family_width a b : same_family a b = true -> width a = width b.
Proof. by destruct a, b. Qed.

Lemma clear_same_family p ip : same_family ip (clear_host_bits p ip) = true.
Proof. by destruct ip. Qed.

Lemma bits_clear p ip : bits (clear_host_bits p ip) = prefix_bits p ip * 2 ^ (width ip - p).
Proof. by destruct ip. Qed.

Lemma width_clear p ip : width (clear_host_bits p ip) = width ip.
Proof. by destruct ip. Qed.

Lemma clear_wf p ip : wf_ip ip -> 0 <= p <= width ip -> wf_ip (clear_host_bits p ip).
Proof.
  intros Hw Hp. destruct ip as [a|a]; simpl in *; unfold prefix_bits; simpl;
    pose proof (Z.mul_div_le a (2 ^ (32 - p))); pose proof (Z.mul_div_le a (2 ^ (128 - p)));
    pose proof (Z.pow_pos_nonneg 2 (32 - p)); pose proof (Z.pow_pos_nonneg 2 (128 - p));
    (split; [apply Z.mul_nonneg_nonneg; [apply Z.div_pos|]; lia | lia]).
Qed.

(** A network contains its own network address. *)
Lemma contains_network n : net_contains n (net_network n) = true.
Proof.
  rewrite net_contains_spec, net_network_spec, clear_same_family. simpl. apply Z.eqb_eq.
  destruct (net_wf n) as [_ Hp].
  unfold prefix_bits at 1. rewrite bits_clear, width_clear.
  unfold prefix_bits. apply clear_then_shift. lia.
Qed.

(** The network address of [n] lies in any wider network that shares an address
    with [n]. *)
Lemma wider_contains_network n m ip :
  net_prefix m <= net_prefix n ->
  net_contains n ip = true -> net_contains m ip = true ->
  net_contains m (net_network n) = true.
Proof.
  rewrite !net_contains_spec, net_network_spec, !andb_true_iff, !Z.eqb_eq.
  intros Hle [Hfn Hn] [Hfm Hm]. destruct (net_wf n) as [_ Hpn], (net_wf m) as [_ Hpm].
  apply same_family_width in Hfn as Hwn. apply same_family_width in Hfm as Hwm.
  split; [by destruct (net_ip n), (net_ip m), ip|].
  rewrite <- Hm. unfold prefix_bits at 1. rewrite bits_clear, width_clear, <- Hn.
  unfold prefix_bits. rewrite Hwn. apply clear_then_shift. lia.
Qed.

Lemma networks_overlap_iff n m :
  networks_overlap n m = true
  <-> exists ip, wf_ip ip /\ net_contains n ip = true /\ net_contains m ip = true.
Proof.
  unfold networks_overlap. rewrite orb_true_iff. split.
  - assert (forall k, wf_ip (net_network k)).
    { intros k. rewrite net_network_spec. destruct (net_wf k). by apply clear_wf. }
    intros [Hc|Hc]; eexists; eauto using contains_network.
  - intros (ip & _ & Hn & Hm). destruct (Z.le_ge_cases (net_prefix n) (net_prefix m));
      [left|right]; by eapply wider_contains_network.
Qed.

(** ** Reachability of the rules *)

Lemma check_cidr_rules_ok rs raws :
  check_cidr_rules rs raws = Ok tt
  <-> Forall (fun raw => exists ip net, wf_ip ip /\ allows_ip rs ip = true
        /\ parse_network (trim raw) = Some net /\ net_contains net ip = true) raws.
Proof.
  induction raws as [|raw raws IH]; simpl; [by split; [constructor|]|].
  rewrite Forall_cons, <- IH.
  destruct (parse_network (trim raw)) as [net|]; simpl; [|naive_solver].
  destruct (existsb _ (cidrs rs)) eqn:He.
  - split; [|tauto]. intros Hrest. split; [|done].
    apply existsb_exists in He as (m & Hm & (ip & Hwf & Hc1 & Hc2)%networks_overlap_iff).
    exists ip, net. repeat split; [done| |done..]. apply existsb_exists. eauto.
  - split; [done|]. intros [(ip & net' & Hwf & Hal & [= <-] & Hc) _].
    apply existsb_exists in Hal as (m & Hm & Hc1).
    assert (existsb (fun routed => networks_overlap routed net) (cidrs rs) = true); [|congruence].
    apply existsb_exists. exists m. split; [done|]. apply networks_overlap_iff. eauto.
Qed.

Lemma check_domain_rules_ok rs ds :
  check_domain_rules rs ds = Ok tt
  <-> Forall (fun raw => domain_rule_reachable rs (trim raw) = true) ds.
Proof.
  induction ds as [|raw ds IH]; simpl; [by split; [constructor|]|].
  rewrite Forall_cons, <- IH. destruct (domain_rule_reachable rs (trim raw)); naive_solver.
Qed.
End overlap.

Section reachability.
Context `{IpNetworkLaws}.

(** The names a domain rule is about: like [domain_rule_matches], the apex of a
    wildcard included (the check of [validate_rules_reachable] counts it). *)
Definition rule_zone (raw host : bytes) : Prop :=
  let entry := trim raw in
  entry = str "*"
  \/ (exists base, entry = str "*." ++ base /\ at_or_under (to_ascii_lowercase base) host)
  \/ ((x2a ∉ entry) /\ to_ascii_lowercase entry = to_ascii_lowercase host).

Lemma some_hostname rs :
  wf_routed_set rs -> no_literal_names rs ->
  (exists host, parse_ip_literal host = None /\ allows_host rs host = true)
  <-> domains_all rs || negb (bool_decide (domains_exact rs = ∅))
      || negb (bool_decide (domains_suffix rs = [])) = true.
Proof.
  intros [Hex Hsf] Hlit. rewrite !orb_true_iff, !negb_true_iff, !bool_decide_eq_false. split.
  - intros (host & Hh & Ha). apply allows_host_domains in Ha as [?|[Hin|(s & Hs & _)]]; [tauto|..|done].
    + left; right. set_solver.
    + right. intros Hnil. rewrite Hnil in Hs. by apply not_elem_of_nil in Hs.
  - intros [[Hall|(e & He)%set_choose_L]|Hne].
    + exists (str "x." ++ []). split; [done|]. apply allows_host_domains; [done|]. by left.
    + exists e. split; [by apply Hlit|]. apply allows_host_domains; [by apply Hlit|].
      right; left. by rewrite (Hex e He).
    + destruct (domains_suffix rs) as [|s l] eqn:Hs; [done|].
      destruct (Hsf s) as (t & -> & Ht); [left|].
      exists (str "x." ++ t). split; [done|].
      eapply (allows_wildcard rs t _ (str "x")); [rewrite Hs; left | done |].
      by rewrite lower_x_dot, Ht.
Qed.

(** Letter case decides nothing about a literal. *)
Lemma allows_host_lower rs a b :
  parse_ip_literal a = None -> parse_ip_literal b = None ->
  to_ascii_lowercase a = to_ascii_lowercase b -> allows_host rs a = allows_host rs b.
Proof. intros Ha Hb Hl. unfold allows_host. by rewrite Ha, Hb, Hl. Qed.

Lemma domain_rule_reachable_iff rs raw :
  wf_routed_set rs -> no_literal_names rs ->
  valid_domain_rule raw -> parse_ip_literal (trim raw) = None ->
  domain_rule_reachable rs (trim raw) = true
  <-> exists host, parse_ip_literal host = None /\ allows_host rs host = true
                   /\ rule_zone raw host.
Proof.
  intros Hwf Hlit Hv Hrl. unfold domain_rule_reachable, rule_zone.
  case_bool_decide as Hstar.
  { rewrite <- some_hostname by done. naive_solver. }
  destruct (strip_prefix (str "*.") (trim raw)) as [base|] eqn:Hp.
  - apply strip_prefix_Some in Hp. rewrite Hp in *. split.
    + intros (host & Hu & Hh & Ha)%covers_suffix_sound; [|done|done|apply to_ascii_lowercase_idem].
      exists host. eauto 8.
    + intros (host & Hh & Ha & [?|[(b & Heq & Hu)|[Hn _]]]); [done| |].
      * apply (inj (app (str "*."))) in Heq as <-. by eapply covers_suffix_complete.
      * by destruct (Hn (star_in_wildcard base)).
  - assert (Hns : forall b, trim raw <> str "*." ++ b).
    { intros b Hb%strip_prefix_Some. congruence. }
    assert (Hno : x2a ∉ trim raw) by (destruct Hv as [?|[(b & Hb & _)|[_ ?]]]; naive_solver).
    split; [intros Ha; exists (trim raw); auto 8|].
    intros (host & Hh & Ha & [?|[(b & Heq & _)|[_ Heq]]]); [done|naive_solver|].
    by rewrite (allows_host_lower rs _ host).
Qed.

(** The dead-rule check on a bridge's route rules: for rules that would
    build a routed set, none of them a numeric literal, the check passes if and
    only if the routed set routes, for every domain rule, a hostname of the
    rule's zone, and, for every CIDR rule, an address inside that network. *)
Theorem validate_rules_exact ds0 cs0 rs ds cs bridge :
  RoutedSet_new ds0 cs0 = Ok rs -> no_literal_names rs ->
  RoutedSet_new ds cs = Ok bridge ->
  Forall (fun raw => parse_ip_literal (trim raw) = None) ds ->
  (validate_rules_reachable rs ds cs = Ok tt <->
   Forall (fun raw => exists host, parse_ip_literal host = None
             /\ allows_host rs host = true /\ rule_zone raw host) ds
   /\ Forall (fun raw => exists ip net, wf_ip ip /\ allows_ip rs ip = true
        /\ parse_network (trim raw) = Some net /\ net_contains net ip = true) cs).
Proof.
  intros Hwf%RoutedSet_new_wf Hlit Hb Hds.
  apply RoutedSet_new_inv in Hb as [Hb _].
  assert (Hv : Forall valid_domain_rule ds) by (eapply add_domains_valid; eauto).
  unfold validate_rules_reachable. rewrite <- check_cidr_rules_ok.
  transitivity (check_domain_rules rs ds = Ok tt /\ check_cidr_rules rs cs = Ok tt).
  { destruct (check_domain_rules rs ds) as [[]|]; simpl; naive_solver. }
  rewrite check_domain_rules_ok.
  assert (Hiff : Forall (fun raw => domain_rule_reachable rs (trim raw) = true) ds
    <-> Forall (fun raw => exists host, parse_ip_literal host = None
             /\ allows_host rs host = true /\ rule_zone raw host) ds); [|tauto].
  clear Hb. induction Hds as [|raw ds Hr Hds IH]; [by split; constructor|].
  apply Forall_cons in Hv as [Hv1 Hv]. rewrite !Forall_cons, IH by done.
  by rewrite domain_rule_reachable_iff.
Qed.
End reachability.

(** ** Reserved names *)

Lemma lower_status : to_ascii_lowercase STATUS_HOST = STATUS_HOST.
Proof. reflexivity. Qed.

(** The reserved namespace is exactly [flextunnel.internal] and the names
    with at least one character before [.flextunnel.internal], in any letter
    case; the loopback name is one of them and is not the status host. *)
Theorem reserved_host_spec host :
  (is_reserved_host host = true <->
   to_ascii_lowercase host = STATUS_HOST
   \/ exists label, label <> [] /\ to_ascii_lowercase host = label ++ x2e :: STATUS_HOST)
  /\ (is_localhost_host host = true -> is_reserved_host host = true /\ is_status_host host = false).
Proof.
  assert (Hst : is_status_host host = true <-> to_ascii_lowercase host = STATUS_HOST).
  { unfold is_status_host. by rewrite eq_ignore_ascii_case_true, lower_status. }
  unfold is_reserved_host. split.
  - destruct (is_status_host host); [naive_solver|].
    destruct (strip_suffix RESERVED_SUFFIX _) as [label|] eqn:Hs.
    + apply strip_suffix_Some in Hs. rewrite negb_true_iff, bool_decide_eq_false. split.
      * intros Hne. right. by exists label.
      * intros [?|(l & Hl & Heq)]; [naive_solver|]. rewrite Hs in Heq.
        apply (suffix_same_length label l RESERVED_SUFFIX) in Heq as [-> _]; done.
    + split; [done|]. intros [?|(l & Hl & Heq)]; [naive_solver|].
      apply (strip_suffix_Some RESERVED_SUFFIX) in Heq. congruence.
  - intros Hlo%eq_ignore_ascii_case_true.
    change (to_ascii_lowercase LOCALHOST_HOST) with LOCALHOST_HOST in Hlo.
    rewrite Hlo. destruct (is_status_host host); [|done].
    assert (Hx : to_ascii_lowercase host = STATUS_HOST) by tauto.
    rewrite Hlo in Hx. vm_compute in Hx. done.
Qed.

(** ** A reference implementation of the network interface

    An address and a prefix length, parsed from [addr/len]; it shows that the
    laws above can be met and makes the model executable. *)

Definition net_ok (n : IpAddr * Z) : bool :=
  match n.1 with
  | V4 a => (0 <=? a) && (a <? 2 ^ 32) && (0 <=? n.2) && (n.2 <=? 32)
  | V6 a => (0 <=? a) && (a <? 2 ^ 128) && (0 <=? n.2) && (n.2 <=? 128)
  end.

Definition ref_network : Type := { n : IpAddr * Z | net_ok n = true }.

Definition ref_make (ip : IpAddr) (p : Z) : option ref_network :=
  match Bool.bool_dec (net_ok (ip, p)) true with
  | left Hok => Some (exist _ (ip, p) Hok)
  | right _ => None
  end.

Definition ref_wrap (ip : IpAddr) : IpAddr :=
  match ip with V4 a => V4 (a mod 2 ^ 32) | V6 a => V6 (a mod 2 ^ 128) end.

Lemma ref_wrap_ok ip : net_ok (ref_wrap ip, width ip) = true.
Proof.
  destruct ip as [a|a]; unfold net_ok; cbn [ref_wrap width fst snd].
  - pose proof (Z.mod_pos_bound a (2 ^ 32) ltac:(lia)). lia.
  - pose proof (Z.mod_pos_bound a (2 ^ 128) ltac:(lia)). lia.
Qed.

Definition ref_from_str (s : bytes) : option ref_network :=
  match split_once x2f s with
  | Some (a, p) => ip ← ip_from_str a; n ← parse_uint 128 p; ref_make ip n
  | None => None
  end.

#[export] Instance RefNetwork : IpNetworkApi := {|
  IpNetwork := ref_network;
  net_from_str := ref_from_str;
  net_from_ip ip := exist _ (ref_wrap ip, width ip) (ref_wrap_ok ip);
  net_ip n := (proj1_sig n).1;
  net_prefix n := (proj1_sig n).2;
  net_network n := clear_host_bits (proj1_sig n).2 (proj1_sig n).1;
  net_contains n ip := same_family (proj1_sig n).1 ip
    && (prefix_bits (proj1_sig n).2 ip =? prefix_bits (proj1_sig n).2 (proj1_sig n).1);
|}.

#[export] Instance RefNetworkLaws : IpNetworkLaws.
Proof.
  split; try done.
  - intros [[ip p] Hok]. destruct ip as [a|a]; unfold net_ok in Hok; simpl in *; lia.
  - intros [a|a] Hwf; simpl in *; by rewrite Z.mod_small.
Qed.

Lemma routed_set_matches_rules_witness :
  let ds := [str "*.Example.com"; str "httpbin.org"] in
  exists r, RoutedSet_new ds [str " 10.0.0.0/8 "] = Ok r
  /\ (allows r (Domain (str "API.example.COM") 443) = true
      <-> rules_match ds [str " 10.0.0.0/8 "] (Domain (str "API.example.COM") 443))
  /\ allows r (Domain (str "API.example.COM") 443) = true
  /\ allows r (Domain (str "10.1.2.3") 80) = true
  /\ allows r (Domain (str "example.com") 443) = false.
Proof.
  intros ds. eexists. split; [reflexivity|].
  split; [apply routed_set_matches_rules; reflexivity|].
  repeat split; vm_compute; reflexivity.
Defined.

Lemma literal_gated_by_cidrs_witness :
  let r := mkRoutedSet ∅ [] [] true in
  allows r (Domain (str "[::1]") 80) = allows r (Ip (SockV6 1 443 0 0)).
Proof.
  apply (literal_gated_by_cidrs _ (str "[::1]") (V6 1) 80 (SockV6 1 443 0 0)); reflexivity.
Defined.

Lemma covers_suffix_exact_witness :
  let ds := [str "*.db.local.xyz"] in
  exists rs, RoutedSet_new ds [] = Ok rs
  /\ (covers_suffix rs (str "local.xyz") = true
      <-> exists host, at_or_under (str "local.xyz") host /\ parse_ip_literal host = None
                       /\ allows_host rs host = true).
Proof.
  intros ds. eexists. split; [reflexivity|].
  apply (covers_suffix_exact ds [] _ (str "local.xyz"));
    [reflexivity | intros e He; exfalso; by apply not_elem_of_empty in He | reflexivity].
Defined.

Lemma validate_rules_exact_witness :
  exists rs, RoutedSet_new [str "*.svc"] [str "10.0.0.0/8"] = Ok rs
  /\ (validate_rules_reachable rs [str "a.svc"] [str "10.0.0.0/7"] = Ok tt <->
   Forall (fun raw => exists host, parse_ip_literal host = None
             /\ allows_host rs host = true /\ rule_zone raw host) [str "a.svc"]
   /\ Forall (fun raw => exists ip net, wf_ip ip /\ allows_ip rs ip = true
        /\ parse_network (trim raw) = Some net /\ net_contains net ip = true)
        [str "10.0.0.0/7"]).
Proof.
  eexists. split; [reflexivity|].
  eapply (validate_rules_exact [str "*.svc"] [str "10.0.0.0/8"]);
    [reflexivity | intros e He; exfalso; by apply not_elem_of_empty in He | reflexivity
    | repeat constructor].
Defined.

(** ** Where the two checks are coarser than routing *)

(** Two gaps of the dead-configuration checks. A numeric literal among the
    exact domain rules counts as a routed name although no target is ever
    routed by it; and a wildcard rule passes when only its apex is routed,
    which the wildcard does not match. *)
Theorem reachability_gaps :
  (exists rs, RoutedSet_new [str "10.0.0.1"] [] = Ok rs
     /\ covers_suffix rs (str "0.0.1") = true
     /\ forall t, allows rs t = false)
  /\ (exists rs, RoutedSet_new [str "svc"] [] = Ok rs
     /\ validate_rules_reachable rs [str "*.svc"] [] = Ok tt
     /\ forall host, allows_host rs host = true -> ~ domain_rule_matches (str "*.svc") host).
Proof.
  split.
  - eexists. split; [reflexivity|]. split; [reflexivity|].
    intros [sa|host port]; [done|]. simpl. unfold allows_host.
    destruct (parse_ip_literal host) as [ip|] eqn:Hlit; [done|]. simpl.
    apply orb_false_iff. split; [|done]. apply bool_decide_eq_false. intros Hin.
    rewrite union_empty_r_L, elem_of_singleton in Hin.
    apply lower_caseless in Hin as ->; [done|]. repeat (constructor; [done|]). constructor.
  - eexists. split; [reflexivity|]. split; [reflexivity|].
    intros host Ha [Hs|[(base & label & Hb & Hl)|[Hn _]]]; [done| |].
    + change (trim (str "*.svc")) with (str "*." ++ str "svc") in Hb.
      apply (inj (app (str "*."))) in Hb as <-. unfold allows_host in Ha.
      destruct (parse_ip_literal host); [done|]. simpl in Ha. rewrite orb_false_r in Ha.
      apply bool_decide_eq_true in Ha. rewrite union_empty_r_L, elem_of_singleton, Hl in Ha.
      apply (f_equal length) in Ha. rewrite length_app in Ha.
      change (length (x2e :: _)) with 4%nat in Ha.
      change (length (to_ascii_lowercase (trim _))) with 3%nat in Ha. lia.
    + by destruct (Hn (star_in_wildcard (str "svc"))).
Qed.
