(* ===== verification/DnsForward.v ===== *)
(** * Conditional DNS forwarding ([proxy/dns_forward.rs])

    The forwarding table, its constructor and the suffix match. The hickory
    resolver is a parameter: a type [Resolver], its constructor from the parsed
    name servers and its lookup. The configuration is a Rust [HashMap], whose
    iteration order is unspecified: [DnsForwarder_new] takes the entries in the
    order the iteration yields them, and the theorems say what does not depend
    on that order. *)

From S2P Require Import Prelude RustStr Net Stream.

Class ResolverApi := {
  Resolver : Type;
  build_resolver : list (IpAddr * Z) -> result bytes Resolver;
  lookup_ip : Resolver -> bytes -> result bytes (list IpAddr);
}.

Definition DEFAULT_DNS_PORT : Z := 53.

(** [parse_server]: [IP], or [IP:port]. *)
Definition parse_server (spec : bytes) : option (IpAddr * Z) :=
  let spec := trim spec in
  match ip_from_str spec with
  | Some ip => Some (ip, DEFAULT_DNS_PORT)
  | None => match sa_from_str spec with
            | Some sa => Some (sa_ip sa, sa_port sa)
            | None => None
            end
  end.

(** Whether [host] equals [suffix] or is a subdomain of it; both lower case. *)
Definition suffix_matches (host suffix : bytes) : bool :=
  if bool_decide (host = suffix) then true
  else match strip_suffix suffix host with
       | Some prefix => ends_with prefix [x2e]
       | None => false
       end.

Inductive DnsError : Type :=
| InvalidSuffix (suffix : bytes)
| NoServers (suffix : bytes)
| InvalidServer (spec suffix : bytes)
| BuildFailed (suffix why : bytes).

Section dns.
Context {RA : ResolverApi}.

Record Forward : Type := mkForward {
  suffix : bytes;
  servers : list bytes;
  resolver : Resolver;
}.

Record DnsForwarder : Type := mkForwarder { entries : list Forward }.

(** The suffix as it is matched at run time. *)
Definition normalize_suffix (key : bytes) : bytes :=
  to_ascii_lowercase (trim_matches x2e (trim key)).

Fixpoint parse_servers (sfx : bytes) (specs : list bytes) : result DnsError (list (IpAddr * Z)) :=
  match specs with
  | [] => Ok []
  | spec :: specs' =>
      server ← ok_or (parse_server spec) (InvalidServer spec sfx);
      rest ← parse_servers sfx specs';
      Ok (server :: rest)
  end.

(** One iteration of the constructor's loop. *)
Definition make_forward (kv : bytes * list bytes) : result DnsError Forward :=
  let sfx := normalize_suffix kv.1 in
  if bool_decide (sfx = []) || contains x2a sfx
     || existsb (fun l => bool_decide (l = [])) (split x2e sfx)
  then Err (InvalidSuffix sfx)
  else if bool_decide (kv.2 = []) then Err (NoServers sfx)
  else
  name_servers ← parse_servers sfx kv.2;
  r ← map_err (BuildFailed sfx) (build_resolver name_servers);
  Ok {| suffix := sfx; servers := map trim kv.2; resolver := r |}.

Fixpoint make_forwards (forwards : list (bytes * list bytes)) : result DnsError (list Forward) :=
  match forwards with
  | [] => Ok []
  | kv :: forwards' =>
      f ← make_forward kv;
      rest ← make_forwards forwards';
      Ok (f :: rest)
  end.

(** Longest suffix first, the suffix as tiebreaker. *)
Definition forward_le (a b : Forward) : bool :=
  let la := length (suffix a) in
  let lb := length (suffix b) in
  if bool_decide (lb < la)%nat then true
  else if bool_decide (la < lb)%nat then false
  else bytes_le (suffix a) (suffix b).

Definition DnsForwarder_new (forwards : list (bytes * list bytes))
  : result DnsError (option DnsForwarder) :=
  if bool_decide (forwards = []) then Ok None
  else
  es ← make_forwards forwards;
  Ok (Some (mkForwarder (isort forward_le es))).

Definition suffixes (self : DnsForwarder) : list bytes := map suffix (entries self).

(** The pairs shown to clients, sorted by suffix. *)
Definition forwards_view (self : DnsForwarder) : list (bytes * list bytes) :=
  isort (fun a b => bytes_le a.1 b.1) (map (fun f => (suffix f, servers f)) (entries self)).

Definition resolver_for (self : DnsForwarder) (host : bytes) : option Resolver :=
  let host := to_ascii_lowercase host in
  resolver <$> List.find (fun f => suffix_matches host (suffix f)) (entries self).

Definition lookup (r : Resolver) (host : bytes) (port : Z) : result io_error (list SocketAddr) :=
  ips ← map_err io_other (lookup_ip r host);
  Ok (map (fun ip => sa_new ip port) ips).

Definition resolve (self : DnsForwarder) (host : bytes) (port : Z)
  : option (result io_error (list SocketAddr)) :=
  match resolver_for self host with
  | Some r => Some (lookup r host port)
  | None => None
  end.

(** ** Matching *)

Lemma suffix_matches_spec host sfx :
  suffix_matches host sfx = true <-> host = sfx \/ exists label, host = label ++ x2e :: sfx.
Proof.
  unfold suffix_matches. case_bool_decide as Heq; [naive_solver|].
  destruct (strip_suffix sfx host) as [p|] eqn:Hs.
  - apply strip_suffix_Some in Hs as ->. rewrite ends_with_true. split.
    + intros [r ->]. right. exists r. by rewrite <- app_assoc.
    + intros [?|[label Hl]]; [done|]. exists label.
      change (x2e :: sfx) with ([x2e] ++ sfx) in Hl. rewrite app_assoc in Hl.
      by apply app_inj_2 in Hl as [-> _].
  - split; [done|]. intros [?|[label ->]]; [done|].
    assert (strip_suffix sfx (label ++ x2e :: sfx) = Some (label ++ [x2e])); [|congruence].
    apply strip_suffix_Some. by rewrite <- app_assoc.
Qed.

(** Two suffixes of one host that are equally long are the same. *)
Lemma suffix_matches_length host a b :
  suffix_matches host a = true -> suffix_matches host b = true ->
  length a = length b -> a = b.
Proof.
  rewrite !suffix_matches_spec. intros Ha Hb Hl.
  assert (Hdrop : forall s, host = s \/ (exists l, host = l ++ x2e :: s) ->
            s = drop (length host - length s) host).
  { intros s [->|[l ->]]; [by rewrite Nat.sub_diag|].
    rewrite (cons_middle x2e), app_assoc, length_app.
    replace (_ + length s - length s)%nat with (length (l ++ [x2e])) by lia.
    by rewrite drop_app_length. }
  rewrite (Hdrop a Ha), (Hdrop b Hb). by rewrite Hl.
Qed.

Lemma forward_le_total a b : forward_le a b = true \/ forward_le b a = true.
Proof.
  unfold forward_le. repeat case_bool_decide; auto; try lia. apply bytes_le_total.
Qed.

Lemma forward_le_trans a b c :
  forward_le a b = true -> forward_le b c = true -> forward_le a c = true.
Proof.
  unfold forward_le. repeat case_bool_decide; try done; try lia. apply bytes_le_trans.
Qed.

Lemma forward_le_antisym a b :
  forward_le a b = true -> forward_le b a = true -> suffix a = suffix b.
Proof.
  unfold forward_le. repeat case_bool_decide; try done; try lia. apply bytes_le_antisym.
Qed.

Lemma forward_le_length a b : forward_le a b = true -> (length (suffix b) <= length (suffix a))%nat.
Proof. unfold forward_le. repeat case_bool_decide; try done; lia. Qed.

(** The first match of a list sorted by [forward_le] is a longest match. *)
Lemma find_longest p l f :
  StronglySorted (le_rel forward_le) l -> List.find p l = Some f ->
  f ∈ l /\ p f = true /\ forall g, g ∈ l -> p g = true -> (length (suffix g) <= length (suffix f))%nat.
Proof.
  induction 1 as [|x l Hl IH Hx]; simpl; [done|]. rewrite Forall_forall in Hx.
  destruct (p x) eqn:Hp.
  - intros [= <-]. split; [left|]. split; [done|].
    intros g [->|Hg]%elem_of_cons _; [done|]. by apply forward_le_length, Hx.
  - intros (Hin & Hpf & Hmax)%IH. split; [by right|]. split; [done|].
    intros g [->|Hg]%elem_of_cons; [congruence|auto].
Qed.

Lemma make_forwards_elem kvs es f :
  make_forwards kvs = Ok es ->
  f ∈ es <-> exists kv, kv ∈ kvs /\ make_forward kv = Ok f.
Proof.
  revert es. induction kvs as [|kv kvs IH]; intros es; simpl.
  - intros [= <-]. split; [by intros ?%not_elem_of_nil|by intros (? & ?%not_elem_of_nil & _)].
  - destruct (make_forward kv) as [g|] eqn:Hg; simpl; [|done].
    destruct (make_forwards kvs) as [rest|]; simpl; [|done].
    intros [= <-]. rewrite elem_of_cons, (IH rest eq_refl).
    split.
    + intros [->|(kv' & Hin & Hmk)]; [exists kv|exists kv']; (split; [|done]); [left|by right].
    + intros (kv' & [->|Hin]%elem_of_cons & Hmk); [left; congruence|eauto].
Qed.

Lemma make_forward_suffix kv f : make_forward kv = Ok f -> suffix f = normalize_suffix kv.1.
Proof.
  unfold make_forward. destruct (_ || _); [done|]. case_bool_decide; [done|].
  destruct (parse_servers _ _); simpl; [|done].
  destruct (build_resolver _); simpl; [|done]. by intros [= <-].
Qed.

Lemma DnsForwarder_new_entries kvs fw :
  DnsForwarder_new kvs = Ok (Some fw) ->
  exists es, make_forwards kvs = Ok es /\ entries fw = isort forward_le es.
Proof.
  unfold DnsForwarder_new. case_bool_decide; [done|].
  destruct (make_forwards kvs) as [es|]; simpl; [|done]. intros [= <-]. by exists es.
Qed.

Lemma resolver_for_spec kvs fw host :
  DnsForwarder_new kvs = Ok (Some fw) ->
  match resolver_for fw host with
  | Some r => exists kv f, kv ∈ kvs /\ make_forward kv = Ok f /\ resolver f = r
      /\ suffix_matches (to_ascii_lowercase host) (suffix f) = true
      /\ forall kv' f', kv' ∈ kvs -> make_forward kv' = Ok f' ->
           suffix_matches (to_ascii_lowercase host) (suffix f') = true ->
           (length (suffix f') <= length (suffix f))%nat
  | None => forall kv f, kv ∈ kvs -> make_forward kv = Ok f ->
           suffix_matches (to_ascii_lowercase host) (suffix f) = false
  end.
Proof.
  intros (es & Hes & Hen)%DnsForwarder_new_entries. unfold resolver_for. rewrite Hen.
  pose proof (isort_sorted forward_le forward_le_total forward_le_trans es) as Hsorted.
  destruct (List.find _ _) as [f|] eqn:Hf; simpl.
  - destruct (find_longest _ _ _ Hsorted Hf) as (Hin & Hm & Hmax).
    rewrite isort_perm, (make_forwards_elem _ _ f Hes) in Hin.
    destruct Hin as (kv & Hkv & Hmk). exists kv, f. repeat split; try done.
    intros kv' f' Hkv' Hmk'. apply Hmax.
    rewrite isort_perm, (make_forwards_elem _ _ f' Hes). eauto.
  - intros kv f Hkv Hmk.
    apply (List.find_none _ _ Hf f), list_elem_of_In.
    rewrite isort_perm, (make_forwards_elem _ _ f Hes). eauto.
Qed.

(** ** Order independence *)

Definition distinct_suffixes (kvs : list (bytes * list bytes)) : Prop :=
  NoDup (map (fun kv => normalize_suffix kv.1) kvs).

Lemma make_forwards_suffixes kvs es :
  make_forwards kvs = Ok es -> map suffix es = map (fun kv => normalize_suffix kv.1) kvs.
Proof.
  revert es. induction kvs as [|kv kvs IH]; intros es; simpl; [by intros [= <-]|].
  destruct (make_forward kv) as [f|] eqn:Hf; simpl; [|done].
  destruct (make_forwards kvs) as [rest|]; simpl; [|done].
  intros [= <-]. simpl. by rewrite (make_forward_suffix kv f Hf), (IH rest eq_refl).
Qed.

Lemma make_forwards_perm kvs kvs' es :
  kvs ≡ₚ kvs' -> make_forwards kvs = Ok es ->
  exists es', make_forwards kvs' = Ok es' /\ es ≡ₚ es'.
Proof.
  intros Hp. revert es. induction Hp as [|kv l l' Hp IH|a b l|l1 l2 l3 H1 IH1 H2 IH2];
    intros es; simpl.
  - intros [= <-]. by exists [].
  - destruct (make_forward kv) as [f|]; simpl; [|done].
    destruct (make_forwards l) as [rest|]; simpl; [|done]. intros [= <-].
    destruct (IH rest eq_refl) as (rest' & -> & Hr). simpl. eexists. split; [done|]. by f_equiv.
  - destruct (make_forward a) as [f|]; simpl; [|by destruct (make_forward b)].
    destruct (make_forward b) as [g|]; simpl; [|done].
    destruct (make_forwards l) as [rest|]; simpl; [|done]. intros [= <-].
    eexists. split; [done|]. apply Permutation_swap.
  - intros (es2 & H2e & Hp12)%IH1. apply IH2 in H2e as (es3 & ? & Hp23).
    exists es3. split; [done|]. by rewrite Hp12.
Qed.

Lemma forwarder_order_independent kvs kvs' fw :
  kvs ≡ₚ kvs' -> distinct_suffixes kvs ->
  DnsForwarder_new kvs = Ok (Some fw) -> DnsForwarder_new kvs' = Ok (Some fw).
Proof.
  intros Hp Hd Hnew. pose proof Hnew as (es & Hes & Hen)%DnsForwarder_new_entries.
  destruct (make_forwards_perm _ _ _ Hp Hes) as (es' & Hes' & Hpe).
  unfold DnsForwarder_new in *. revert Hnew.
  case_bool_decide as He; [done|]. rewrite bool_decide_false.
  2:{ intros ->. by apply Permutation_nil_r in Hp. }
  rewrite Hes, Hes'. simpl. intros [= <-]. do 3 f_equal. symmetry.
  unfold distinct_suffixes in Hd. rewrite <- (make_forwards_suffixes _ _ Hes) in Hd.
  apply (sorted_perm_unique (le_rel forward_le)).
  - intros x y Hx Hy H1 H2. rewrite isort_perm in Hx, Hy.
    pose proof (forward_le_antisym _ _ H1 H2) as Hs.
    apply list_elem_of_lookup in Hx as [i Hi], Hy as [j Hj].
    assert (i = j) as ->; [|congruence].
    eapply (NoDup_lookup (map suffix es)); [done| |].
    + rewrite list_lookup_fmap, Hi. done.
    + rewrite list_lookup_fmap, Hj. simpl. by rewrite Hs.
  - apply isort_sorted; [apply forward_le_total | apply forward_le_trans].
  - apply isort_sorted; [apply forward_le_total | apply forward_le_trans].
  - by rewrite !isort_perm.
Qed.

(** Most specific zone wins: the upstream used for a host is that of a
    configured suffix the host equals or is a subdomain of (label boundary,
    any letter case), no longer configured suffix matches it, and a host is
    left to the system resolver exactly when no configured suffix matches. *)
Theorem dns_longest_match kvs fw host :
  DnsForwarder_new kvs = Ok (Some fw) ->
  match resolver_for fw host with
  | Some r => exists kv f, kv ∈ kvs /\ make_forward kv = Ok f /\ resolver f = r
      /\ (to_ascii_lowercase host = normalize_suffix kv.1
          \/ exists label, to_ascii_lowercase host = label ++ x2e :: normalize_suffix kv.1)
      /\ forall kv' f', kv' ∈ kvs -> make_forward kv' = Ok f' ->
           suffix_matches (to_ascii_lowercase host) (suffix f') = true ->
           (length (suffix f') <= length (suffix f))%nat
  | None => forall kv f, kv ∈ kvs -> make_forward kv = Ok f ->
           suffix_matches (to_ascii_lowercase host) (suffix f) = false
  end.
Proof.
  intros Hnew. pose proof (resolver_for_spec kvs fw host Hnew) as Hs.
  destruct (resolver_for fw host) as [r|]; [|done].
  destruct Hs as (kv & f & Hkv & Hmk & Hr & Hm & Hmax). exists kv, f.
  repeat split; try done.
  by rewrite <- (make_forward_suffix kv f Hmk), <- suffix_matches_spec.
Qed.

(** When the normalised suffixes are distinct, the table does not depend
    on the order in which the configuration map is iterated. *)
Theorem dns_table_deterministic kvs kvs' fw :
  kvs ≡ₚ kvs' -> distinct_suffixes kvs ->
  DnsForwarder_new kvs = Ok (Some fw) -> DnsForwarder_new kvs' = Ok (Some fw).
Proof. apply forwarder_order_independent. Qed.
End dns.

(** ** A reference resolver: the list of its name servers *)

Definition RefResolver : ResolverApi := {|
  Resolver := list (IpAddr * Z);
  build_resolver := fun l => Ok l;
  lookup_ip := fun l _ => Ok (map fst l);
|}.

Lemma dns_longest_match_witness :
  exists fw, @DnsForwarder_new RefResolver
      [(str "example.com", [str "10.0.0.1"]); (str "Corp.example.com.", [str "10.0.0.2:5353"])]
    = Ok (Some fw)
  /\ resolver_for fw (str "a.CORP.example.com") = Some [(V4 167772162, 5353)]
  /\ exists kv f, kv ∈ [(str "example.com", [str "10.0.0.1"]);
                        (str "Corp.example.com.", [str "10.0.0.2:5353"])]
      /\ @make_forward RefResolver kv = Ok f
      /\ @resolver RefResolver f = [(V4 167772162, 5353)].
Proof.
  eexists. split; [reflexivity|]. split; [reflexivity|].
  pose proof (@dns_longest_match RefResolver
    [(str "example.com", [str "10.0.0.1"]); (str "Corp.example.com.", [str "10.0.0.2:5353"])]
    _ (str "a.CORP.example.com") eq_refl) as Hm.
  destruct Hm as (kv & f & Hkv & Hmk & Hr & _). exists kv, f. by rewrite Hr.
Defined.

Lemma dns_table_deterministic_witness :
  exists fw, @DnsForwarder_new RefResolver
      [(str "b.c", [str "10.0.0.2"]); (str "a.com", [str "10.0.0.1"])] = Ok (Some fw).
Proof.
  eexists.
  apply (@dns_table_deterministic RefResolver
    [(str "a.com", [str "10.0.0.1"]); (str "b.c", [str "10.0.0.2"])]);
    [apply Permutation_swap | | reflexivity].
  unfold distinct_suffixes. apply (bool_decide_unpack _). by vm_compute.
Defined.

(** Without distinct normalised suffixes it does: two accepted keys that
    differ only in a trailing dot make the upstream of a name depend on the
    map's iteration order. *)
Theorem dns_duplicate_suffix_order_dependent :
  exists fw fw' host,
    let a := (str "corp.com", [str "10.0.0.1"]) in
    let b := (str "corp.com.", [str "10.0.0.2"]) in
    @DnsForwarder_new RefResolver [a; b] = Ok (Some fw)
    /\ @DnsForwarder_new RefResolver [b; a] = Ok (Some fw')
    /\ a.1 <> b.1
    /\ resolver_for fw host <> resolver_for fw' host.
Proof.
  eexists _, _, (str "db.corp.com"). split; [reflexivity|]. split; [reflexivity|].
  split; [by vm_compute|]. by vm_compute.
Qed.
