(* ===== verification/Dial.v ===== *)
(** * Dialing a target ([proxy/dial.rs])

    The network is a parameter ([NetEnv]): the outcome of a TCP connect to an
    address and of a system DNS lookup. A handler runs on a [Conn]: the tunnel
    stream it answers on and the log of its outward actions ([Event]), so that
    what is dialed, in which order, and what is never dialed can be stated. *)

From S2P Require Import Prelude RustStr Net Stream Signaling DnsForward.

Class NetEnv := {
  Tcp : Type;
  tcp_connect : SocketAddr -> result io_error Tcp;
  lookup_host : bytes -> Z -> result io_error (list SocketAddr);
}.

(** The outward actions of a handler. *)
Inductive Event : Type :=
| Resolved (host : bytes) (port : Z)      (* a name was looked up *)
| Connecting (sa : SocketAddr)            (* a TCP connect was attempted *)
| Piped                                   (* bytes are copied both ways from here on *)
| BridgeOpened (name : bytes)             (* a stream was opened on a bridge *)
| BridgeRequested (name : bytes) (t : Target) (* a request was written to a bridge *)
| Flushed                                 (* the tunnel stream was flushed *)
| TunnelOpened (conn : Z)                 (* a stream was opened on the server connection *)
| TunnelRequested (conn : Z) (t : Target) (* a request was written to it *)
| HeadSent (head : bytes).                (* a rewritten request head was sent upstream *)

#[export] Instance Event_eq_dec : EqDecision Event.
Proof. solve_decision. Defined.

Record Conn : Type := mkConn { stream : Stream; log : list Event }.

Abbreviation PIO := (M Conn io_error).

(** An action on the tunnel stream, and a logged action. *)
Definition on_stream {A} (m : IO A) : PIO A := fun c =>
  let '(r, s) := m (stream c) in (r, mkConn s (log c)).

Definition emit (e : Event) : PIO () := fun c => (Ok tt, mkConn (stream c) (log c ++ [e])).

Definition flush : PIO () := emit Flushed.

Section dial.
Context {RA : ResolverApi} {NE : NetEnv}.

Definition CONNECT_TIMEOUT_SECS : Z := 10.

Definition loopback_port (t : Target) : option Z :=
  match t with
  | Ip sa => if is_loopback (sa_ip sa) then Some (sa_port sa) else None
  | Domain host port =>
      if eq_ignore_ascii_case host (str "localhost") then Some port
      else match ip_from_str host with
           | Some ip => if is_loopback ip then Some port else None
           | None => None
           end
  end.

Definition loopback_addrs (port : Z) : list SocketAddr :=
  [SockV4 IPV4_LOCALHOST port; SockV6 IPV6_LOCALHOST port 0 0].

Definition no_addresses : io_error :=
  mkIoError HostUnreachable None (str "no addresses to connect to").

Definition tcp_stream_connect (sa : SocketAddr) : PIO Tcp :=
  _ ← emit (Connecting sa); lift (tcp_connect sa).

(** Try each address in order; [last_err] is the error of the previous one. *)
Fixpoint connect_any (addrs : list SocketAddr) (last_err : option io_error) : PIO Tcp :=
  match addrs with
  | [] => fail (default no_addresses last_err)
  | addr :: addrs' => fun c =>
      match tcp_stream_connect addr c with
      | (Ok tcp, c') => (Ok tcp, c')
      | (Err e, c') => connect_any addrs' (Some e) c'
      end
  end.

(** IPv4 before IPv6, otherwise the order of the list. *)
Definition ipv4_first (a b : SocketAddr) : bool := is_ipv4 a || negb (is_ipv4 b).

Definition connect_resolved (host : bytes) (port : Z) (forwarder : option DnsForwarder) : PIO Tcp :=
  _ ← emit (Resolved host port);
  addrs ← lift (match f ← forwarder; resolve f host port with
                | Some res => res
                | None => lookup_host host port
                end);
  if bool_decide (addrs = [])
  then fail (mkIoError HostUnreachable None
               (str "no addresses resolved for " ++ host ++ str ":" ++ dec port))
  else
  let addrs := if forallb (fun a => is_loopback (sa_ip a)) addrs
               then isort ipv4_first addrs else addrs in
  connect_any addrs None.

Definition dial_target (t : Target) (forwarder : option DnsForwarder) : PIO Tcp :=
  match loopback_port t with
  | Some port => connect_any (loopback_addrs port) None
  | None =>
      match t with
      | Ip sa => tcp_stream_connect sa
      | Domain host port => connect_resolved host port forwarder
      end
  end.

Definition connect_timed_out : io_error := mkIoError TimedOut None (str "connect timed out").

(** [tokio::time::timeout] around the dial: with [Some n] the deadline passes
    after the dial's first [n] actions and the dial is dropped there. *)
Definition with_deadline {A} (expired : option nat) (e : io_error) (m : PIO A) : PIO A :=
  fun c =>
    let '(r, c') := m c in
    match expired with
    | None => (r, c')
    | Some n => (Err e, mkConn (stream c) (log c ++ take n (drop (length (log c)) (log c'))))
    end.

(** Runs a fallible step and hands its outcome to the continuation. *)
Definition attempt {S E A} (m : M S E A) : M S E (result E A) := fun s =>
  let '(r, s') := m s in (Ok r, s').

Definition connect_and_pipe (expired : option nat) (t : Target) (forwarder : option DnsForwarder)
  : PIO () :=
  connected ← attempt (with_deadline expired connect_timed_out (dial_target t forwarder));
  match connected with
  | Ok _ =>
      _ ← on_stream (write_reply REP_SUCCESS);
      _ ← flush;
      emit Piped
  | Err e =>
      _ ← on_stream (write_reply (map_io_err e));
      flush
  end.

End dial.

(** ** What a handler emits *)

(** Every action [m] logs satisfies [ok]. *)
Definition emits {A} (ok : Event -> Prop) (m : PIO A) : Prop :=
  forall c, exists evs, log (m c).2 = log c ++ evs /\ Forall ok evs.

Lemma emits_bind {A B} ok (m : PIO A) (k : A -> PIO B) :
  emits ok m -> (forall a, emits ok (k a)) -> emits ok (m ≫= k).
Proof.
  intros Hm Hk c. unfold mbind, M_bind. destruct (Hm c) as (e1 & Hl1 & Ho1).
  destruct (m c) as [[a|e] c1]; simpl in *; [|eauto].
  destruct (Hk a c1) as (e2 & Hl2 & Ho2). exists (e1 ++ e2).
  rewrite Hl2, Hl1, <- app_assoc. split; [done|]. by apply Forall_app.
Qed.

Lemma emits_emit (ok : Event -> Prop) e : ok e -> emits ok (emit e).
Proof. intros He c. exists [e]. by repeat constructor. Qed.

Lemma emits_on_stream {A} ok (m : IO A) : emits ok (on_stream m).
Proof.
  intros c. exists []. unfold on_stream. destruct (m (stream c)). simpl.
  by rewrite app_nil_r.
Qed.

Lemma emits_mono {A} (ok ok' : Event -> Prop) (m : PIO A) :
  (forall e, ok e -> ok' e) -> emits ok m -> emits ok' m.
Proof.
  intros Himp Hm c. destruct (Hm c) as (evs & Hl & Ho). exists evs. split; [done|].
  eapply Forall_impl; eauto.
Qed.

Create HintDb emits discriminated.
#[export] Hint Resolve emits_on_stream : emits.

Lemma emits_lift {A} ok (r : result io_error A) : emits ok (lift r : PIO A).
Proof. intros c. exists []. by rewrite app_nil_r. Qed.

Lemma emits_fail {A} ok e : emits ok (fail e : PIO A).
Proof. intros c. exists []. by rewrite app_nil_r. Qed.

Lemma emits_ret {A} ok (a : A) : emits ok (mret a : PIO A).
Proof. intros c. exists []. by rewrite app_nil_r. Qed.
#[export] Hint Resolve emits_lift emits_fail emits_ret : emits.

Lemma emits_attempt {A} ok (m : PIO A) : emits ok m -> emits ok (attempt m).
Proof.
  intros Hm c. destruct (Hm c) as (evs & Hl & Ho). exists evs. unfold attempt.
  by destruct (m c).
Qed.

Lemma emits_deadline {A} ok ex e (m : PIO A) : emits ok m -> emits ok (with_deadline ex e m).
Proof.
  intros Hm c. destruct (Hm c) as (evs & Hl & Ho). unfold with_deadline.
  destruct (m c) as [r c']. simpl in Hl. destruct ex as [n|]; simpl; [|eauto].
  exists (take n evs). rewrite Hl, drop_app_length. split; [done|]. by apply Forall_take.
Qed.

Ltac emit_tac :=
  repeat first
    [ solve [eauto 2 with emits] | apply emits_bind; [|intro] | apply emits_emit ].

(** ** Which addresses are attempted *)

Section plan.
Context {RA : ResolverApi} {NE : NetEnv}.

Lemma connect_any_spec addrs last c :
  (exists pre sa post tcp, addrs = pre ++ sa :: post
     /\ Forall (fun a => is_ok (tcp_connect a) = false) pre /\ tcp_connect sa = Ok tcp
     /\ connect_any addrs last c
        = (Ok tcp, mkConn (stream c) (log c ++ map Connecting (pre ++ [sa]))))
  \/ (Forall (fun a => is_ok (tcp_connect a) = false) addrs
     /\ exists e, connect_any addrs last c
          = (Err e, mkConn (stream c) (log c ++ map Connecting addrs))
        /\ match rev addrs with
           | sa :: _ => tcp_connect sa = Err e
           | [] => e = default no_addresses last
           end).
Proof.
  revert last c. induction addrs as [|sa addrs IH]; intros last c; simpl.
  - right. split; [constructor|]. eexists. rewrite app_nil_r. by destruct c.
  - unfold tcp_stream_connect, lift, mbind, M_bind; simpl.
    destruct (tcp_connect sa) as [tcp|e] eqn:Hc.
    + left. exists [], sa, addrs, tcp. by repeat split.
    + destruct (IH (Some e) (mkConn (stream c) (log c ++ [Connecting sa])))
        as [(pre & sb & post & tcp & -> & Hpre & Htcp & Hrun)|(Hall & e' & Hrun & Hlast)].
      * left. exists (sa :: pre), sb, post, tcp. repeat split; [|done|].
        { constructor; [by rewrite Hc|done]. }
        rewrite Hrun. simpl. by rewrite <- app_assoc.
      * right. split; [constructor; [by rewrite Hc|done]|].
        exists e'. rewrite Hrun. simpl. rewrite <- app_assoc. split; [done|].
        destruct (rev addrs) as [|sb l]; simpl; [by simplify_eq/=|done].
Qed.

Lemma connect_any_log addrs last c :
  exists tried, tried `prefix_of` addrs
    /\ (connect_any addrs last c).2 = mkConn (stream c) (log c ++ map Connecting tried).
Proof.
  destruct (connect_any_spec addrs last c)
    as [(pre & sa & post & tcp & -> & _ & _ & ->)|(_ & e & -> & _)].
  - exists (pre ++ [sa]). split; [|done]. exists post. by rewrite <- app_assoc.
  - by exists addrs.
Qed.

(** The addresses a resolution yields, in the order they are tried. *)
Definition resolved_addrs (host : bytes) (port : Z) (forwarder : option DnsForwarder)
  : list SocketAddr :=
  match match f ← forwarder; resolve f host port with
        | Some res => res
        | None => lookup_host host port
        end with
  | Ok addrs => if forallb (fun a => is_loopback (sa_ip a)) addrs
                then isort ipv4_first addrs else addrs
  | Err _ => []
  end.

(** What a dial of [t] may do, in order. *)
Definition dial_plan (t : Target) (forwarder : option DnsForwarder) : list Event :=
  match loopback_port t, t with
  | Some port, _ => map Connecting (loopback_addrs port)
  | None, Ip sa => [Connecting sa]
  | None, Domain host port =>
      Resolved host port :: map Connecting (resolved_addrs host port forwarder)
  end.

Lemma map_prefix {A B} (f : A -> B) l k : l `prefix_of` k -> map f l `prefix_of` map f k.
Proof. intros [r ->]. exists (map f r). apply map_app. Qed.

Lemma connect_resolved_log host port fw c :
  exists evs, evs `prefix_of` map Connecting (resolved_addrs host port fw)
    /\ (connect_resolved host port fw c).2
       = mkConn (stream c) (log c ++ Resolved host port :: evs).
Proof.
  unfold connect_resolved, resolved_addrs, emit, lift, mbind, M_bind; simpl.
  destruct (match _ with Some res => res | None => _ end) as [addrs|e]; simpl.
  - case_bool_decide as Hnil; [subst addrs; exists []; by split; [apply prefix_nil|]|].
    destruct (connect_any_log (if forallb (fun a => is_loopback (sa_ip a)) addrs
        then isort ipv4_first addrs else addrs) None
        (mkConn (stream c) (log c ++ [Resolved host port]))) as (tried & Hp & ->).
    exists (map Connecting tried). simpl. rewrite <- app_assoc.
    split; [by apply map_prefix | done].
  - exists []. split; [apply prefix_nil|done].
Qed.

Lemma dial_target_log t fw c :
  exists evs, evs `prefix_of` dial_plan t fw
    /\ (dial_target t fw c).2 = mkConn (stream c) (log c ++ evs).
Proof.
  unfold dial_target, dial_plan. destruct (loopback_port t) as [port|].
  - destruct (connect_any_log (loopback_addrs port) None c) as (tried & Hp & ->).
    exists (map Connecting tried). split; [by apply map_prefix|done].
  - destruct t as [sa|host port].
    + unfold tcp_stream_connect, mbind, M_bind, lift, emit. simpl. by exists [Connecting sa].
    + destruct (connect_resolved_log host port fw c) as (evs & Hp & ->).
      exists (Resolved host port :: evs). split; [by apply prefix_cons|done].
Qed.

Lemma deadline_log {A} expired e (m : PIO A) c evs :
  (m c).2 = mkConn (stream c) (log c ++ evs) ->
  exists evs', evs' `prefix_of` evs
    /\ (with_deadline expired e m c).2 = mkConn (stream c) (log c ++ evs').
Proof.
  intros Hm. unfold with_deadline. destruct (m c) as [r c']. simpl in Hm. subst c'.
  destruct expired as [n|]; simpl; [|by exists evs].
  rewrite drop_app_length. exists (take n evs). split; [|done].
  exists (drop n evs). by rewrite take_drop.
Qed.

Lemma dial_target_emits t fw : emits (fun e => e ∈ dial_plan t fw) (dial_target t fw).
Proof.
  intros c. destruct (dial_target_log t fw c) as (evs & [k Hk] & ->). exists evs. split; [done|].
  apply Forall_forall. intros e He. rewrite Hk. set_solver.
Qed.

(** A dial only does what the target calls for, in order: a loopback target
    ([localhost] or a loopback literal) is never resolved and only the two
    loopback addresses of its port are tried, IPv4 first; a literal address is
    connected to directly; a name is looked up once and then only addresses it
    resolved to are tried. Nothing is written to the tunnel stream. *)
Theorem dial_follows_plan t fw c :
  exists evs, evs `prefix_of` dial_plan t fw
    /\ (dial_target t fw c).2 = mkConn (stream c) (log c ++ evs).
Proof. apply dial_target_log. Qed.

(** Dual-stack loopback: dialing a loopback target succeeds exactly when one
    of the two loopback sockets accepts, prefers IPv4, and otherwise reports the
    IPv6 error. *)
Theorem dial_loopback t fw port c :
  loopback_port t = Some port ->
  (dial_target t fw c).1 =
    match tcp_connect (SockV4 IPV4_LOCALHOST port) with
    | Ok tcp => Ok tcp
    | Err _ => tcp_connect (SockV6 IPV6_LOCALHOST port 0 0)
    end.
Proof.
  intros Hp. unfold dial_target. rewrite Hp. simpl.
  unfold tcp_stream_connect, mbind, M_bind, lift, emit. simpl.
  destruct (tcp_connect (SockV4 _ _)); [done|]. by destruct (tcp_connect (SockV6 _ _ _ _)).
Qed.

(** The outcome of the dial inside [connect_and_pipe]. *)
Definition dial_outcome (expired : option nat) t fw c : result io_error Tcp :=
  match expired with Some _ => Err connect_timed_out | None => (dial_target t fw c).1 end.

Lemma connect_and_pipe_run expired t fw c :
  tx_err (stream c) = None ->
  exists evs, evs `prefix_of` dial_plan t fw
    /\ connect_and_pipe expired t fw c =
       match dial_outcome expired t fw c with
       | Ok _ => (Ok tt, mkConn (with_tx (stream c) (tx (stream c) ++ [STREAM_VERSION; REP_SUCCESS]))
                           (log c ++ evs ++ [Flushed; Piped]))
       | Err e => (Ok tt, mkConn (with_tx (stream c) (tx (stream c) ++ [STREAM_VERSION; map_io_err e]))
                           (log c ++ evs ++ [Flushed]))
       end.
Proof.
  intros Htx. destruct (dial_target_log t fw c) as (evs0 & Hp0 & Hlog0).
  destruct (deadline_log expired connect_timed_out (dial_target t fw) c evs0 Hlog0)
    as (evs & Hp & Hlog).
  exists evs. split; [by etransitivity|].
  unfold connect_and_pipe, attempt, mbind, M_bind, dial_outcome.
  replace (match expired with Some _ => _ | None => _ end)
    with (with_deadline expired connect_timed_out (dial_target t fw) c).1.
  2:{ unfold with_deadline. destruct (dial_target t fw c), expired; done. }
  destruct (with_deadline expired _ _ c) as [r c1]. simpl in *. subst c1.
  destruct r as [tcp|e]; unfold on_stream, write_reply, flush, emit; cbn [stream log];
    rewrite write_all_ok by done; simpl; by rewrite <- !app_assoc.
Qed.

(** One reply per tunneled request: terminating a stream writes exactly one
    two-byte reply, success if and only if the dial produced a connection before
    the deadline (and only then are bytes piped, after the reply was flushed),
    otherwise the code of the failure. *)
Theorem connect_and_pipe_replies_once expired t fw c :
  tx_err (stream c) = None ->
  exists evs, evs `prefix_of` dial_plan t fw
    /\ connect_and_pipe expired t fw c =
       match dial_outcome expired t fw c with
       | Ok _ => (Ok tt, mkConn (with_tx (stream c) (tx (stream c) ++ [STREAM_VERSION; REP_SUCCESS]))
                           (log c ++ evs ++ [Flushed; Piped]))
       | Err e => (Ok tt, mkConn (with_tx (stream c) (tx (stream c) ++ [STREAM_VERSION; map_io_err e]))
                           (log c ++ evs ++ [Flushed]))
       end.
Proof. apply connect_and_pipe_run. Qed.
End plan.

(** ** A reference network: the listening addresses and a host table *)

Definition ref_net (listening : list SocketAddr) (hosts : list (bytes * list IpAddr)) : NetEnv := {|
  Tcp := SocketAddr;
  tcp_connect sa := if decide (sa ∈ listening) then Ok sa
    else Err (mkIoError ConnectionRefused None (str "connection refused"));
  lookup_host h p :=
    match list_find (fun e : bytes * list IpAddr => e.1 = h) hosts with
    | Some (_, (_, ips)) => Ok (map (fun ip => sa_new ip p) ips)
    | None => Err (io_other (str "no such host"))
    end;
|}.

Lemma dial_loopback_witness :
  let NE := ref_net [SockV6 1 8080 0 0] [] in
  (@dial_target RefResolver NE (Domain (str "LocalHost") 8080) None
     (mkConn (open_stream []) [])).1 = Ok (SockV6 1 8080 0 0).
Proof.
  intros NE.
  rewrite (@dial_loopback RefResolver NE (Domain (str "LocalHost") 8080) None 8080);
    vm_compute; reflexivity.
Defined.

Lemma connect_and_pipe_replies_once_witness :
  let NE := ref_net [] [] in
  exists evs, evs `prefix_of` @dial_plan RefResolver NE (Ip (SockV4 16909060 80)) None
  /\ @connect_and_pipe RefResolver NE None (Ip (SockV4 16909060 80)) None (mkConn (open_stream []) [])
     = (Ok tt, mkConn (with_tx (open_stream []) [STREAM_VERSION; REP_CONN_REFUSED])
                 (evs ++ [Flushed])).
Proof.
  intros NE.
  apply (@connect_and_pipe_replies_once RefResolver NE None (Ip (SockV4 16909060 80)) None
           (mkConn (open_stream []) [])). reflexivity.
Defined.
