(* ===== verification/Blocklist.v ===== *)
(** * The duplicate-id blocklist ([blocklist.rs])

    The in-memory list, its JSON file and the atomic write. The file system is
    a map from paths to contents; [WriteFaults] says which operations of one
    [write_atomic] fail, a failing write leaving an arbitrary partial file. The
    clock is an argument. *)

From S2P Require Import Prelude RustStr Stream Signaling.

Record BlockEntry : Type := mkEntry { id : bytes; reason : bytes; detected_at_ms : Z }.

Record BlockListData : Type := mkData {
  blocked_clients : list BlockEntry;
  conflicted_server_ids : list BlockEntry;
}.

Definition BlockListData_default : BlockListData := mkData [] [].

Record BlockList : Type := mkBlockList { path : bytes; data : BlockListData }.

#[export] Instance BlockEntry_eq_dec : EqDecision BlockEntry.
Proof. solve_decision. Defined.
#[export] Program Instance BlockEntry_countable : Countable BlockEntry :=
  inj_countable' (fun e => (id e, reason e, detected_at_ms e)) (fun '(i, r, d) => mkEntry i r d) _.
Next Obligation. by intros []. Qed.
#[export] Instance BlockListData_eq_dec : EqDecision BlockListData.
Proof. solve_decision. Defined.
#[export] Program Instance BlockListData_countable : Countable BlockListData :=
  inj_countable' (fun d => (blocked_clients d, conflicted_server_ids d))
    (fun '(b, c) => mkData b c) _.
Next Obligation. by intros []. Qed.

Definition blocked_client_count (self : BlockList) : nat := length (blocked_clients (data self)).
Definition conflicted_server_count (self : BlockList) : nat :=
  length (conflicted_server_ids (data self)).

Definition is_client_blocked (self : BlockList) (i : bytes) : bool :=
  existsb (fun e => bool_decide (id e = i)) (blocked_clients (data self)).

Definition is_server_conflicted (self : BlockList) (i : bytes) : bool :=
  existsb (fun e => bool_decide (id e = i)) (conflicted_server_ids (data self)).

Definition add_blocked_client (now_ms : Z) (self : BlockList) (i why : bytes) : bool * BlockList :=
  if is_client_blocked self i then (false, self)
  else (true, mkBlockList (path self)
          (mkData (blocked_clients (data self) ++ [mkEntry i why now_ms])
                  (conflicted_server_ids (data self)))).

Definition add_conflicted_server (now_ms : Z) (self : BlockList) (i why : bytes)
  : bool * BlockList :=
  if is_server_conflicted self i then (false, self)
  else (true, mkBlockList (path self)
          (mkData (blocked_clients (data self))
                  (conflicted_server_ids (data self) ++ [mkEntry i why now_ms]))).

(** ** The file *)

Abbreviation FileSystem := (gmap bytes bytes).

(** What a read of the file reports; [Ok] carries the whole content. *)
Definition read_to_string (fs : FileSystem) (p : bytes) (fault : option io_error)
  : result io_error bytes :=
  match fault with
  | Some e => Err e
  | None => ok_or (fs !! p) (mkIoError NotFound None (str "No such file or directory"))
  end.

Section file.
Context `{Json BlockListData}.

Definition load (p : bytes) (content : result io_error bytes) : result io_error BlockList :=
  d ← match content with
      | Ok c => map_err (fun e => io_other (str "Failed to parse blocklist " ++ p ++ str ": " ++ e))
                  (from_slice c)
      | Err e =>
          if bool_decide (kind e = NotFound) then Ok BlockListData_default
          else Err (mkIoError (kind e) None
                      (str "Failed to read blocklist " ++ p ++ str ": " ++ text e))
      end;
  Ok (mkBlockList p d).

Definition to_json (self : BlockList) : result io_error bytes := map_err io_other (to_vec (data self)).

(** The faults of one atomic write: creating the parent directories, writing
    the temporary file (which then holds a partial content), renaming it; and
    whether the clean-up of the temporary file works. *)
Record WriteFaults : Type := mkFaults {
  mkdir_fault : option io_error;
  write_fault : option (bytes * io_error);
  rename_fault : option io_error;
  remove_works : bool;
}.

Definition no_faults : WriteFaults := mkFaults None None None true.

Definition remove_file (works : bool) (p : bytes) (fs : FileSystem) : FileSystem :=
  if works then delete p fs else fs.

(** The temporary name is unique per writer: process id and a counter. *)
Definition tmp_name (p : bytes) (pid seq : Z) : bytes :=
  p ++ str "." ++ dec pid ++ str "." ++ dec seq ++ str ".tmp".

Definition write_atomic (faults : WriteFaults) (pid seq : Z) (p json : bytes)
  : M FileSystem io_error () := fun fs =>
  match mkdir_fault faults with
  | Some e => (Err e, fs)
  | None =>
      let tmp := tmp_name p pid seq in
      match write_fault faults with
      | Some (partial, e) => (Err e, remove_file (remove_works faults) tmp (<[tmp := partial]> fs))
      | None =>
          let fs1 := <[tmp := json]> fs in
          match rename_fault faults with
          | Some e => (Err e, remove_file (remove_works faults) tmp fs1)
          | None => (Ok tt, <[p := json]> (delete tmp fs1))
          end
      end
  end.

(** [persist_blocklist] of the server. *)
Definition persist_blocklist (faults : WriteFaults) (pid seq : Z) (bl : BlockList)
  : M FileSystem io_error () :=
  json ← lift (to_json bl);
  write_atomic faults pid seq (path bl) json.
End file.

(** ** Well-formedness: an id is recorded once *)

Definition wf_blocklist (bl : BlockList) : Prop :=
  NoDup (map id (blocked_clients (data bl))) /\ NoDup (map id (conflicted_server_ids (data bl))).

Lemma is_client_blocked_spec bl i :
  is_client_blocked bl i = true <-> i ∈ map id (blocked_clients (data bl)).
Proof.
  unfold is_client_blocked. rewrite existsb_exists, list_elem_of_fmap.
  setoid_rewrite bool_decide_eq_true. setoid_rewrite <- list_elem_of_In. naive_solver.
Qed.

Lemma is_server_conflicted_spec bl i :
  is_server_conflicted bl i = true <-> i ∈ map id (conflicted_server_ids (data bl)).
Proof.
  unfold is_server_conflicted. rewrite existsb_exists, list_elem_of_fmap.
  setoid_rewrite bool_decide_eq_true. setoid_rewrite <- list_elem_of_In. naive_solver.
Qed.

Lemma NoDup_snoc {A} (l : list A) x : NoDup l -> x ∉ l -> NoDup (l ++ [x]).
Proof. intros Hl Hx. apply NoDup_app. split; [done|]. split; [set_solver|apply NoDup_singleton]. Qed.

Lemma add_blocked_client_spec now bl i why :
  wf_blocklist bl ->
  let '(added, bl') := add_blocked_client now bl i why in
  wf_blocklist bl' /\ path bl' = path bl
  /\ added = negb (is_client_blocked bl i)
  /\ (forall j, is_client_blocked bl' j = is_client_blocked bl j || bool_decide (j = i))
  /\ (forall j, is_server_conflicted bl' j = is_server_conflicted bl j).
Proof.
  intros [Hc Hs]. unfold add_blocked_client. destruct (is_client_blocked bl i) eqn:Hb.
  - repeat split; try done. intros j. case_bool_decide; subst; [by rewrite Hb|].
    by rewrite orb_false_r.
  - assert (i ∉ map id (blocked_clients (data bl))).
    { rewrite <- is_client_blocked_spec. congruence. }
    repeat split; try done; simpl.
    + rewrite map_app. by apply NoDup_snoc.
    + intros j. unfold is_client_blocked. simpl. rewrite existsb_app. simpl.
      rewrite orb_false_r. f_equal. by apply bool_decide_ext.
Qed.

Lemma add_conflicted_server_spec now bl i why :
  wf_blocklist bl ->
  let '(added, bl') := add_conflicted_server now bl i why in
  wf_blocklist bl' /\ path bl' = path bl
  /\ added = negb (is_server_conflicted bl i)
  /\ (forall j, is_server_conflicted bl' j = is_server_conflicted bl j || bool_decide (j = i))
  /\ (forall j, is_client_blocked bl' j = is_client_blocked bl j).
Proof.
  intros [Hc Hs]. unfold add_conflicted_server. destruct (is_server_conflicted bl i) eqn:Hb.
  - repeat split; try done. intros j. case_bool_decide; subst; [by rewrite Hb|].
    by rewrite orb_false_r.
  - assert (i ∉ map id (conflicted_server_ids (data bl))).
    { rewrite <- is_server_conflicted_spec. congruence. }
    repeat split; try done; simpl.
    + rewrite map_app. by apply NoDup_snoc.
    + intros j. unfold is_server_conflicted. simpl. rewrite existsb_app. simpl.
      rewrite orb_false_r. f_equal. by apply bool_decide_ext.
Qed.

Lemma tmp_name_differs p pid seq : tmp_name p pid seq <> p.
Proof.
  unfold tmp_name. intros Heq%(f_equal length). rewrite !length_app in Heq.
  change (length (str ".")) with 1%nat in Heq. lia.
Qed.

Section durability.
Context `{Json BlockListData, !JsonLaws BlockListData (fun _ => True)}.

(** The blocklist file is written atomically: whatever fails, the file at
    the path is afterwards either untouched (and an error is returned) or the
    complete new snapshot (and success is returned); no other file than the
    writer's own temporary one is touched, and on success that one is gone. *)
Theorem write_atomic_all_or_nothing faults pid seq p json fs :
  let '(r, fs') := write_atomic faults pid seq p json fs in
  (r = Ok tt <-> mkdir_fault faults = None /\ write_fault faults = None /\ rename_fault faults = None)
  /\ fs' !! p = (if is_ok r then Some json else fs !! p)
  /\ (forall q, q <> p -> q <> tmp_name p pid seq -> fs' !! q = fs !! q)
  /\ (r = Ok tt -> fs' !! tmp_name p pid seq = None).
Proof.
  pose proof (tmp_name_differs p pid seq) as Hne.
  assert (Hrm : forall b t g q, q <> t -> remove_file b t g !! q = g !! q).
  { intros [] t g q Hq; simpl; [by rewrite lookup_delete_ne|done]. }
  unfold write_atomic. destruct (mkdir_fault faults) as [e|]; [naive_solver|].
  destruct (write_fault faults) as [[partial e]|].
  { repeat split; try naive_solver; simpl.
    - by rewrite Hrm, lookup_insert_ne.
    - intros q Hp Ht. by rewrite Hrm, lookup_insert_ne. }
  destruct (rename_fault faults) as [e|].
  { repeat split; try naive_solver; simpl.
    - by rewrite Hrm, lookup_insert_ne.
    - intros q Hp Ht. by rewrite Hrm, lookup_insert_ne. }
  repeat split; simpl.
  - by rewrite lookup_insert_eq.
  - intros q Hp Ht. by rewrite lookup_insert_ne, lookup_delete_ne, lookup_insert_ne.
  - intros _. by rewrite lookup_insert_ne, lookup_delete_eq.
Qed.

Lemma persist_then_load pid seq bl fs :
  exists fs', persist_blocklist no_faults pid seq bl fs = (Ok tt, fs')
    /\ load (path bl) (read_to_string fs' (path bl) None) = Ok bl.
Proof.
  destruct (json_roundtrip (data bl) I) as (json & Hto & Hfrom).
  unfold persist_blocklist, to_json, lift, mbind, M_bind. rewrite Hto. simpl.
  eexists. split; [reflexivity|]. unfold read_to_string, load.
  rewrite lookup_insert_eq. simpl. rewrite Hfrom. simpl. by destruct bl.
Qed.
End durability.
