(* ===== verification/Registry.v ===== *)
(** * Live connections of the server ([proxy/server.rs], [transport/mod.rs])

    The registry of live client connections (duplicate-client detection), the
    registry of inbound bridges, their RAII guards, and the server's heartbeat
    loop. Endpoint ids are a parameter type; instants are milliseconds on one
    monotonic clock. The registry's life is the step relation [reg_step]. *)

From S2P Require Import Prelude RustStr Stream Signaling.

(** ** Heartbeat timing ([transport/mod.rs]), in milliseconds *)

Definition QUIC_IDLE_TIMEOUT : Z := 180000.
Definition HEARTBEAT_INTERVAL : Z := 10000.
Definition HEARTBEAT_INTERVAL_IDLE : Z := 60000.
Definition LIVENESS_GRACE : Z := 3000.
Definition liveness_window (interval : Z) : Z := interval / 1000 * 3 * 1000 + LIVENESS_GRACE.
Definition LIVENESS_WINDOW : Z := liveness_window HEARTBEAT_INTERVAL_IDLE.

Definition CLOSE_DUPLICATE : Z := 2.

Record ConnEntry : Type := mkConnEntry {
  nonce : Z;
  last_seen : Z;
  connection : Z;           (* the connection handle *)
  client_key : option bytes;
}.

Section registry.
Context {EndpointId : Type} `{Countable EndpointId}.

Abbreviation Registry := (gmap EndpointId (gmap Z ConnEntry)).
Abbreviation BridgeRegistry := (gmap EndpointId (gset Z)).

(** A live entry of another process at time [now]. *)
Definition is_duplicate (now new_nonce : Z) (e : ConnEntry) : bool :=
  negb (nonce e =? new_nonce) && (now - last_seen e <? LIVENESS_WINDOW).

Definition try_register (now : Z) (remote_id : EndpointId) (conn_seq new_nonce conn : Z)
    (key : option bytes) : M Registry (list Z) () := fun reg =>
  let per := default ∅ (reg !! remote_id) in
  let dups := map (fun p => connection p.2)
                (filter (fun p => is_duplicate now new_nonce p.2 = true) (map_to_list per)) in
  if negb (bool_decide (dups = [])) then (Err dups, <[remote_id := per]> reg)
  else (Ok tt, <[remote_id := <[conn_seq := mkConnEntry new_nonce now conn key]> per]> reg).

(** [Drop for ConnGuard]. *)
Definition conn_guard_drop (remote_id : EndpointId) (conn_seq : Z) (reg : Registry) : Registry :=
  match reg !! remote_id with
  | None => reg
  | Some per =>
      let per' := delete conn_seq per in
      if bool_decide (per' = ∅) then delete remote_id reg else <[remote_id := per']> reg
  end.

(** The liveness refresh of one heartbeat. *)
Definition refresh (now : Z) (remote_id : EndpointId) (conn_seq : Z) (reg : Registry) : Registry :=
  match reg !! remote_id with
  | None => reg
  | Some per =>
      match per !! conn_seq with
      | None => reg
      | Some e => <[remote_id := <[conn_seq :=
                     mkConnEntry (nonce e) now (connection e) (client_key e)]> per]> reg
      end
  end.

Definition bridge_register (remote_id : EndpointId) (conn_seq : Z) (reg : BridgeRegistry)
  : BridgeRegistry := <[remote_id := {[conn_seq]} ∪ default ∅ (reg !! remote_id)]> reg.

(** [Drop for BridgeGuard]. *)
Definition bridge_guard_drop (remote_id : EndpointId) (conn_seq : Z) (reg : BridgeRegistry)
  : BridgeRegistry :=
  match reg !! remote_id with
  | None => reg
  | Some seqs =>
      let seqs' := seqs ∖ {[conn_seq]} in
      if bool_decide (seqs' = ∅) then delete remote_id reg else <[remote_id := seqs']> reg
  end.

(** The distinct keys of the connected clients, sorted. *)
Definition connected_client_keys (reg : Registry) : list bytes :=
  let keys := map_to_list reg ≫= fun p => omap (fun q => client_key q.2) (map_to_list p.2) in
  isort bytes_le (remove_dups keys).

(** ** The server's heartbeat loop *)

Section heartbeat.
Context `{Json ControlMsg}.

(** The Debug text of an unexpected acknowledgement. *)
Definition debug_ack (seq : Z) : bytes := str "HeartbeatAck { seq: " ++ dec seq ++ str " }".

(** A heartbeat refreshes the client's entry and is acknowledged. *)
Definition answer_heartbeat (client_entry : option (EndpointId * Z)) (now seq : Z)
  : M (Registry * Stream) ProxyError () := fun st =>
  let reg' := match client_entry with
              | Some (remote_id, conn_seq) => refresh now remote_id conn_seq st.1
              | None => st.1
              end in
  match encode_control (HeartbeatAck seq) with
  | Err e => (Err (Network e), (reg', st.2))
  | Ok ack =>
      let '(r, s') := write_message ack st.2 in
      (map_err Network r, (reg', s'))
  end.

(** One iteration: [incoming] is the outcome of the bounded read ([None]: the
    liveness window elapsed). *)
Definition server_heartbeat_step (client_entry : option (EndpointId * Z)) (now : Z)
    (incoming : option (result io_error bytes)) : M (Registry * Stream) ProxyError () :=
  match incoming with
  | None => fail (ConnectionLost (str "heartbeat liveness window elapsed"))
  | Some (Err e) => fail (ConnectionLost (str "control stream closed: " ++ text e))
  | Some (Ok payload) =>
      msg ← lift (map_err Network (decode_control payload));
      match msg with
      | Heartbeat seq => answer_heartbeat client_entry now seq
      | HeartbeatAck seq =>
          fail (ConnectionLost (str "unexpected control message from client: " ++ debug_ack seq))
      end
  end.

(** The loop over the reads it performs; it has no way to end but an error. *)
Fixpoint server_heartbeat_loop (client_entry : option (EndpointId * Z))
    (reads : list (Z * option (result io_error bytes))) : M (Registry * Stream) ProxyError () :=
  match reads with
  | [] => mret tt
  | (now, incoming) :: reads' =>
      _ ← server_heartbeat_step client_entry now incoming;
      server_heartbeat_loop client_entry reads'
  end.
End heartbeat.

(** ** Functional behaviour of the registry operations *)

Definition entry (reg : Registry) (remote_id : EndpointId) (conn_seq : Z) : option ConnEntry :=
  per ← reg !! remote_id; per !! conn_seq.

Definition live (now : Z) (e : ConnEntry) : Prop := now - last_seen e < LIVENESS_WINDOW.

Definition no_empty (reg : Registry) : Prop := forall i per, reg !! i = Some per -> per <> ∅.

Lemma entry_default reg i s : default ∅ (reg !! i) !! s = entry reg i s.
Proof. unfold entry. by destruct (reg !! i). Qed.

Lemma entry_insert reg i per j s :
  entry (<[i := per]> reg) j s = if decide (j = i) then per !! s else entry reg j s.
Proof.
  unfold entry. case_decide as Hj; subst; [by rewrite lookup_insert_eq|].
  by rewrite lookup_insert_ne.
Qed.

Lemma dups_nil now n per :
  map (fun p : Z * ConnEntry => connection p.2)
    (filter (fun p => is_duplicate now n p.2 = true) (map_to_list per)) = []
  <-> forall s e, per !! s = Some e -> live now e -> nonce e = n.
Proof.
  transitivity (filter (fun p : Z * ConnEntry => is_duplicate now n p.2 = true)
                  (map_to_list per) = []).
  { split; [by intros ?%fmap_nil_inv | by intros ->]. }
  unfold is_duplicate, live. split.
  - intros Hnil s e Hs Hl. destruct (decide (nonce e = n)) as [|Hn]; [done|].
    assert ((s, e) ∈ filter (fun p : Z * ConnEntry => is_duplicate now n p.2 = true)
                       (map_to_list per)) as Hin.
    { apply list_elem_of_filter. split; [|by apply elem_of_map_to_list].
      unfold is_duplicate. simpl. lia. }
    unfold is_duplicate in Hin. rewrite Hnil in Hin. by apply not_elem_of_nil in Hin.
  - intros Hall. destruct (filter _ _) as [|[s e] l] eqn:Hf; [done|exfalso].
    assert ((s, e) ∈ (s, e) :: l) as Hin by left. rewrite <- Hf in Hin.
    apply list_elem_of_filter in Hin as [Hd Hin%elem_of_map_to_list].
    simpl in Hd. specialize (Hall s e Hin). lia.
Qed.

Lemma try_register_spec now i s n c k reg :
  let '(r, reg') := try_register now i s n c k reg in
  (r = Ok tt <-> forall s' e, entry reg i s' = Some e -> live now e -> nonce e = n)
  /\ (r = Ok tt -> forall j t, entry reg' j t
        = if decide (j = i /\ t = s) then Some (mkConnEntry n now c k) else entry reg j t)
  /\ (r <> Ok tt -> forall j t, entry reg' j t = entry reg j t).
Proof.
  unfold try_register. pose proof (dups_nil now n (default ∅ (reg !! i))) as Hd.
  setoid_rewrite entry_default in Hd.
  case_bool_decide as Hnil; simpl.
  - repeat split; try done; [by intros _; apply Hd|].
    intros _ j t. rewrite entry_insert. case_decide as Hj; subst.
    + destruct (decide (t = s)) as [->|Ht].
      * rewrite lookup_insert_eq, decide_True by done. done.
      * rewrite lookup_insert_ne, decide_False, entry_default by naive_solver. done.
    + rewrite decide_False by naive_solver. done.
  - repeat split; try done; [by intros; exfalso; apply Hnil, Hd|].
    intros _ j t. rewrite entry_insert. case_decide as Hj; subst; [by rewrite entry_default|done].
Qed.

Lemma conn_guard_drop_entry i s reg j t :
  entry (conn_guard_drop i s reg) j t
  = if decide (j = i /\ t = s) then None else entry reg j t.
Proof.
  unfold conn_guard_drop. destruct (reg !! i) as [per|] eqn:Hi.
  - assert (Hdel : forall t, delete s per !! t = if decide (t = s) then None else per !! t).
    { intros t'. case_decide; subst; [by rewrite lookup_delete_eq|by rewrite lookup_delete_ne]. }
    case_bool_decide as He.
    + unfold entry at 1. destruct (decide (j = i)) as [->|Hj].
      * rewrite lookup_delete_eq. simpl. specialize (Hdel t). rewrite He, lookup_empty in Hdel.
        destruct (decide (t = s)) as [->|Ht]; [by rewrite decide_True|].
        rewrite decide_False by naive_solver. unfold entry. by rewrite Hi.
      * rewrite lookup_delete_ne by done. by rewrite decide_False by naive_solver.
    + rewrite entry_insert. destruct (decide (j = i)) as [->|Hj].
      * rewrite Hdel. destruct (decide (t = s)) as [->|Ht]; [by rewrite decide_True|].
        rewrite decide_False by naive_solver. unfold entry. by rewrite Hi.
      * by rewrite decide_False by naive_solver.
  - case_decide as Hd; [|done]. destruct Hd as [-> ->]. unfold entry. by rewrite Hi.
Qed.

Lemma refresh_entry now i s reg j t :
  entry (refresh now i s reg) j t
  = if decide (j = i /\ t = s)
    then (fun e => mkConnEntry (nonce e) now (connection e) (client_key e)) <$> entry reg i s
    else entry reg j t.
Proof.
  unfold refresh. destruct (reg !! i) as [per|] eqn:Hi.
  2:{ case_decide as Hd; [|done]. destruct Hd as [-> ->]. unfold entry. by rewrite Hi. }
  destruct (per !! s) as [e|] eqn:Hs.
  2:{ case_decide as Hd; [|done]. destruct Hd as [-> ->]. unfold entry. rewrite Hi. simpl.
      by rewrite Hs. }
  rewrite entry_insert. destruct (decide (j = i)) as [->|Hj].
  - destruct (decide (t = s)) as [->|Ht].
    + rewrite lookup_insert_eq, decide_True by done. unfold entry. rewrite Hi. simpl. by rewrite Hs.
    + rewrite lookup_insert_ne, decide_False by naive_solver. unfold entry. by rewrite Hi.
  - by rewrite decide_False by naive_solver.
Qed.

(** ** The registry over time

    The clock advances; a connection takes the next sequence number and
    registers, is rejected as a duplicate, or never gets that far (a bridge, a
    failed authentication); its handler exits and the guard removes the entry.
    Between its registration and its first read, and between a heartbeat and
    the next read, the handler writes (the Hello response, the acknowledgement)
    and no timer runs: [step_read] starts the read bounded by [LIVENESS_WINDOW]
    and [reads] keeps its start. A heartbeat refreshes the entry whatever its
    age: the handler does not look at the old [last_seen], and the timeout looks
    at the stream before it looks at the clock.

    [lapsed] is a history variable, no field of the server: the connections
    whose entry was at some time older than the window. *)

Record RegState : Type := mkRegState {
  clock : Z;
  next_seq : Z;
  reg : Registry;
  reads : gmap Z Z;
  lapsed : gset Z;
}.

(** The connections whose entry is older than the window at [now]. *)
Definition stale_seqs (now : Z) (r : Registry) : gset Z :=
  list_to_set (map_to_list r ≫= fun p =>
    omap (fun q : Z * ConnEntry =>
            if now - last_seen q.2 <? LIVENESS_WINDOW then None else Some q.1) (map_to_list p.2)).

Inductive reg_step : RegState -> RegState -> Prop :=
| step_tick st d : 0 <= d ->
    reg_step st (mkRegState (clock st + d) (next_seq st) (reg st) (reads st)
                   (lapsed st ∪ stale_seqs (clock st + d) (reg st)))
| step_register st i n c k r reg' :
    try_register (clock st) i (next_seq st) n c k (reg st) = (r, reg') ->
    reg_step st (mkRegState (clock st) (next_seq st + 1) reg' (reads st) (lapsed st))
| step_unregistered st :
    reg_step st (mkRegState (clock st) (next_seq st + 1) (reg st) (reads st) (lapsed st))
| step_read st s : 0 <= s < next_seq st ->
    reg_step st (mkRegState (clock st) (next_seq st) (reg st) (<[s := clock st]> (reads st))
                   (lapsed st))
| step_heartbeat st i s start : reads st !! s = Some start ->
    reg_step st (mkRegState (clock st) (next_seq st) (refresh (clock st) i s (reg st))
                   (delete s (reads st)) (lapsed st))
| step_close st i s :
    reg_step st (mkRegState (clock st) (next_seq st) (conn_guard_drop i s (reg st))
                   (delete s (reads st)) (lapsed st)).

Definition reg_init : RegState := mkRegState 0 0 ∅ ∅ ∅.

(** Of two registered connections of one endpoint id that belong to different
    processes, the older one was once unheard for a whole window. *)
Definition replaced_lapsed (st : RegState) : Prop :=
  forall i s1 s2 e1 e2, entry (reg st) i s1 = Some e1 -> entry (reg st) i s2 = Some e2 ->
    s1 < s2 -> nonce e1 <> nonce e2 -> s1 ∈ lapsed st.

(** A connection that is out of its window is on record as lapsed. *)
Definition stale_lapsed (st : RegState) : Prop :=
  forall i s e, entry (reg st) i s = Some e -> ~ live (clock st) e -> s ∈ lapsed st.

(** The connections that never lapsed belong, per endpoint id, to one process. *)
Definition one_process (st : RegState) : Prop :=
  forall i s1 s2 e1 e2, entry (reg st) i s1 = Some e1 -> entry (reg st) i s2 = Some e2 ->
    s1 ∉ lapsed st -> s2 ∉ lapsed st -> nonce e1 = nonce e2.

(** Every entry is one accepted connection, seen in the past. *)
Definition sequenced (st : RegState) : Prop :=
  forall i s e, entry (reg st) i s = Some e -> 0 <= s < next_seq st /\ last_seen e <= clock st.

(** A sequence number names at most one connection. *)
Definition seq_unique (st : RegState) : Prop :=
  forall i j s e e', entry (reg st) i s = Some e -> entry (reg st) j s = Some e' -> i = j.

Record reg_inv (st : RegState) : Prop := {
  inv_replaced : replaced_lapsed st;
  inv_stale : stale_lapsed st;
  inv_sequenced : sequenced st;
  inv_seq_unique : seq_unique st;
  inv_no_empty : no_empty (reg st);
  inv_seq_pos : 0 <= next_seq st;
}.

Lemma elem_of_stale_seqs now r s :
  s ∈ stale_seqs now r <-> exists i e, entry r i s = Some e /\ ~ live now e.
Proof.
  unfold stale_seqs, live. rewrite elem_of_list_to_set, list_elem_of_bind. split.
  - intros ([i per] & Hin & Hi). apply elem_of_map_to_list in Hi.
    apply list_elem_of_omap in Hin as ([t e] & Hper & Ht). apply elem_of_map_to_list in Hper.
    simpl in *. case_match eqn:Hw; simplify_eq. exists i, e. unfold entry. rewrite Hi. simpl.
    split; [done|lia].
  - intros (i & e & He & Hw). apply bind_Some in He as (per & Hi & Hs).
    exists (i, per). split; [|by apply elem_of_map_to_list].
    apply list_elem_of_omap. exists (s, e). split; [by apply elem_of_map_to_list|].
    simpl. case_match eqn:Hc; [lia|done].
Qed.

Lemma entry_empty i s : entry ∅ i s = None.
Proof. unfold entry. by rewrite lookup_empty. Qed.

Lemma insert_no_empty i per r : per <> ∅ -> no_empty r -> no_empty (<[i := per]> r).
Proof.
  intros Hper Hr j per' Hj. destruct (decide (j = i)) as [->|Hne].
  - rewrite lookup_insert_eq in Hj. by simplify_eq.
  - rewrite lookup_insert_ne in Hj by done. by eapply Hr.
Qed.

Lemma try_register_no_empty now i s n c k r :
  no_empty r -> no_empty (try_register now i s n c k r).2.
Proof.
  intros Hr. unfold try_register. case_bool_decide as Hnil; simpl.
  - apply insert_no_empty; [apply insert_non_empty|done].
  - apply insert_no_empty; [|done]. intros He. rewrite He in Hnil.
    by rewrite map_to_list_empty in Hnil.
Qed.

Lemma conn_guard_drop_no_empty i s r : no_empty r -> no_empty (conn_guard_drop i s r).
Proof.
  intros Hr. unfold conn_guard_drop. destruct (r !! i) as [per|] eqn:Hi; [|done].
  case_bool_decide as He; [|by apply insert_no_empty].
  intros j per' Hj. apply (Hr j). by apply lookup_delete_Some in Hj as [_ ?].
Qed.

Lemma refresh_no_empty now i s r : no_empty r -> no_empty (refresh now i s r).
Proof.
  intros Hr. unfold refresh. destruct (r !! i) as [per|] eqn:Hi; [|done].
  destruct (per !! s); [|done]. apply insert_no_empty; [apply insert_non_empty|done].
Qed.

Lemma inv_tick st d : 0 <= d -> reg_inv st ->
  reg_inv (mkRegState (clock st + d) (next_seq st) (reg st) (reads st)
             (lapsed st ∪ stale_seqs (clock st + d) (reg st))).
Proof.
  intros Hd [Hrep Hst Hseq Huniq Hne Hpos]. split; simpl; try done.
  - intros i s1 s2 e1 e2 H1 H2 Hlt Hn. simpl in *. apply elem_of_union_l. by eapply Hrep.
  - intros i s e He Hl. simpl in *. apply elem_of_union_r, elem_of_stale_seqs. by exists i, e.
  - intros i s e He. simpl. destruct (Hseq i s e He). lia.
Qed.

(** A step that adds no entry, moves neither the clock nor the counter and keeps
    every surviving entry's process, and its age unless it is refreshed now. *)
Lemma inv_survivors st reg' rds : reg_inv st -> no_empty reg' ->
  (forall j t e', entry reg' j t = Some e' -> exists e, entry (reg st) j t = Some e
     /\ nonce e = nonce e' /\ (last_seen e' = clock st \/ last_seen e' = last_seen e)) ->
  reg_inv (mkRegState (clock st) (next_seq st) reg' rds (lapsed st)).
Proof.
  intros [Hrep Hst Hseq Huniq Hne Hpos] Hne' Hold. split; simpl; try done.
  - intros i s1 s2 e1 e2 (f1 & H1 & E1 & _)%Hold (f2 & H2 & E2 & _)%Hold Hlt Hn. simpl in *.
    eapply (Hrep i s1 s2 f1 f2); congruence || done.
  - intros i s e (f & Hf & _ & Hseen)%Hold Hl. simpl in *. unfold live in Hl.
    destruct Hseen as [Hs|Hs]; [unfold LIVENESS_WINDOW, liveness_window in Hl;
      rewrite Hs in Hl; exfalso; apply Hl; rewrite Z.sub_diag; by vm_compute|].
    eapply Hst; [exact Hf|]. unfold live. by rewrite <- Hs.
  - intros i s e (f & Hf & _ & Hseen)%Hold. destruct (Hseq i s f Hf). simpl. lia.
  - intros i j s e e' (f1 & H1 & _)%Hold (f2 & H2 & _)%Hold. by eapply Huniq.
Qed.

Lemma inv_skip_seq st reg' : reg_inv st -> no_empty reg' ->
  (forall j t, entry reg' j t = entry (reg st) j t) ->
  reg_inv (mkRegState (clock st) (next_seq st + 1) reg' (reads st) (lapsed st)).
Proof.
  intros [Hrep Hst Hseq Huniq Hne Hpos] Hne' Hsame. split; simpl; try done; [| | | |lia].
  - intros j s1 s2 e1 e2. simpl. rewrite !Hsame. apply Hrep.
  - intros j s e. simpl. rewrite Hsame. apply Hst.
  - intros j s e. simpl. rewrite Hsame. intros He. destruct (Hseq j s e He). lia.
  - intros j j' s e e'. simpl. rewrite !Hsame. apply Huniq.
Qed.

Lemma inv_added st i n c k reg' : reg_inv st -> no_empty reg' ->
  (forall s e, entry (reg st) i s = Some e -> live (clock st) e -> nonce e = n) ->
  (forall j t, entry reg' j t = if decide (j = i /\ t = next_seq st)
     then Some (mkConnEntry n (clock st) c k) else entry (reg st) j t) ->
  reg_inv (mkRegState (clock st) (next_seq st + 1) reg' (reads st) (lapsed st)).
Proof.
  intros [Hrep Hst Hseq Huniq Hne Hpos] Hne' Hnonce Hadd.
  split; simpl; try done; [| | | |lia].
  - intros j s1 s2 e1 e2; simpl; rewrite !Hadd; intros H1 H2 Hlt Hn.
    destruct (decide (j = i /\ s1 = next_seq st)) as [[Ej ->]|_];
      destruct (decide (j = i /\ s2 = next_seq st)) as [[? ->]|_]; subst; simplify_eq/=; try lia.
    + destruct (Hseq _ _ _ H2). lia.
    + eapply Hst; [exact H1|]. intros Hl. by apply Hn, (Hnonce _ _ H1).
    + by eapply Hrep.
  - intros j s e. simpl. rewrite Hadd. case_decide as Hd; [|apply Hst].
    intros [= <-] Hl. exfalso. apply Hl. unfold live. simpl. rewrite Z.sub_diag. by vm_compute.
  - intros j s e. simpl. rewrite Hadd. case_decide as Hd.
    + intros [= <-]. destruct Hd as [-> ->]. simpl. lia.
    + intros He. destruct (Hseq j s e He). lia.
  - intros j j' s e e'. simpl. rewrite !Hadd. repeat case_decide; destruct_and?; subst; try done.
    + intros _ He. destruct (Hseq _ _ _ He). lia.
    + intros He _. destruct (Hseq _ _ _ He). lia.
    + apply Huniq.
Qed.

Lemma inv_register st i n c k r reg' : reg_inv st ->
  try_register (clock st) i (next_seq st) n c k (reg st) = (r, reg') ->
  reg_inv (mkRegState (clock st) (next_seq st + 1) reg' (reads st) (lapsed st)).
Proof.
  intros Hinv Hr.
  pose proof (try_register_spec (clock st) i (next_seq st) n c k (reg st)) as Hspec.
  pose proof (try_register_no_empty (clock st) i (next_seq st) n c k _ (inv_no_empty _ Hinv)) as Hne'.
  rewrite Hr in Hspec, Hne'. simpl in Hne'. destruct Hspec as (Hok & Hadd & Hsame).
  destruct r as [[]|dups].
  - eapply inv_added; [done|done|by apply Hok|by apply Hadd].
  - by apply inv_skip_seq; [..|apply Hsame].
Qed.

Lemma inv_close st i s : reg_inv st ->
  reg_inv (mkRegState (clock st) (next_seq st) (conn_guard_drop i s (reg st))
             (delete s (reads st)) (lapsed st)).
Proof.
  intros Hinv. apply inv_survivors; [done|by apply conn_guard_drop_no_empty, Hinv|].
  intros j t e. rewrite conn_guard_drop_entry. case_decide; [done|]. intros He. exists e. auto.
Qed.

Lemma inv_heartbeat st i s : reg_inv st ->
  reg_inv (mkRegState (clock st) (next_seq st) (refresh (clock st) i s (reg st))
             (delete s (reads st)) (lapsed st)).
Proof.
  intros Hinv. apply inv_survivors; [done|by apply refresh_no_empty, Hinv|].
  intros j t e'. rewrite refresh_entry. case_decide as Hd; [|intros He; exists e'; auto].
  destruct Hd as [-> ->]. intros (e & He & Heq)%fmap_Some. exists e. subst e'. auto.
Qed.

Lemma reg_step_inv st st' : reg_step st st' -> reg_inv st -> reg_inv st'.
Proof.
  intros Hstep Hinv. destruct Hstep.
  - by apply inv_tick.
  - by eapply inv_register.
  - by apply inv_skip_seq; [..|apply Hinv|].
  - apply inv_survivors; [done|apply Hinv|]. intros j t e He. exists e. auto.
  - by apply inv_heartbeat.
  - by apply inv_close.
Qed.

Lemma reg_inv_init : reg_inv reg_init.
Proof.
  split; simpl; try done; intros ?*; simpl; rewrite ?entry_empty; try done.
Qed.

Lemma registry_reachable st : rtc reg_step reg_init st -> reg_inv st.
Proof.
  intros Hreach. assert (Hgen : forall a, rtc reg_step a st -> reg_inv a -> reg_inv st).
  { clear. intros a. induction 1; eauto using reg_step_inv. }
  eapply Hgen; [exact Hreach | apply reg_inv_init].
Qed.

Lemma replaced_one_process st : replaced_lapsed st -> one_process st.
Proof.
  intros Hrep i s1 s2 e1 e2 H1 H2 N1 N2.
  destruct (decide (nonce e1 = nonce e2)) as [|Hn]; [done|exfalso].
  destruct (Z.lt_trichotomy s1 s2) as [Hlt|[->|Hlt]].
  - by eapply N1, Hrep.
  - naive_solver.
  - by eapply N2, (Hrep i s2 s1).
Qed.

(** C6. Duplicate-client safety over every interleaving of connections, reads,
    heartbeats however late, timeouts and teardowns. A connection of another
    process is registered beside an older one of the same endpoint id only once
    the older one has gone unheard for a whole liveness window, whatever either
    does afterwards: of two registered connections of one id with different
    nonces the older is on record as lapsed, so the connections that never
    lapsed belong to one process per id. A connection outside its window is
    always on that record, every entry belongs to exactly one accepted
    connection, and no endpoint id keeps an empty slot once its connections are
    gone. *)
Theorem registry_invariant st :
  rtc reg_step reg_init st ->
  replaced_lapsed st /\ one_process st /\ stale_lapsed st
  /\ sequenced st /\ seq_unique st /\ no_empty (reg st).
Proof.
  intros Hreach. destruct (registry_reachable st Hreach) as []. split_and!; try done.
  by apply replaced_one_process.
Qed.
End registry.

Section decisions.
Context {EndpointId : Type} `{Countable EndpointId}.

(** The duplicate check and the registration are one decision: a
    connection is registered if and only if every live connection of the same
    endpoint id carries the same process nonce; a registration adds exactly its
    own entry, a refusal changes nothing. *)
Theorem registration_decision now (i : EndpointId) s n c k reg :
  let '(r, reg') := try_register now i s n c k reg in
  (r = Ok tt <-> forall s' e, entry reg i s' = Some e -> live now e -> nonce e = n)
  /\ (r = Ok tt -> forall j t, entry reg' j t
        = if decide (j = i /\ t = s) then Some (mkConnEntry n now c k) else entry reg j t)
  /\ (r <> Ok tt -> forall j t, entry reg' j t = entry reg j t).
Proof. apply try_register_spec. Qed.

(** The guard undoes its registration: after the handler's exit the entry
    is gone and every other one is as before, so a later connection of the same
    id under another nonce is judged on the remaining live connections only. *)
Theorem guard_undoes_registration now (i : EndpointId) s n c k reg reg' :
  no_empty reg -> entry reg i s = None ->
  try_register now i s n c k reg = (Ok tt, reg') ->
  forall j t, entry (conn_guard_drop i s reg') j t = entry reg j t.
Proof.
  intros Hne Hnone Hreg j t. rewrite conn_guard_drop_entry.
  pose proof (try_register_spec now i s n c k reg) as Hs. rewrite Hreg in Hs.
  destruct Hs as (_ & Hadd & _). rewrite (Hadd eq_refl).
  repeat case_decide; try done. destruct_and!; by subst.
Qed.
End decisions.

(** The run of [lapsed_entry_revived] and of the witness: a client of process 7
    registers at 0 and its first read starts 5 ms later, when the Hello response
    is written; no heartbeat for a window, so the id is free for process 8; then
    the first client's heartbeat, still within the window of its own read. *)
Definition before_revival : @RegState Z _ _ :=
  mkRegState 183000 2
    (<[1 := <[1 := mkConnEntry 8 183000 11 None]> (<[0 := mkConnEntry 7 0 10 None]> ∅)]> ∅)
    {[0 := 5]} {[0]}.

Definition after_revival : @RegState Z _ _ :=
  mkRegState 183000 2
    (<[1 := <[1 := mkConnEntry 8 183000 11 None]> (<[0 := mkConnEntry 7 183000 10 None]> ∅)]> ∅)
    ∅ {[0]}.

Lemma revival_reachable : rtc reg_step reg_init before_revival.
Proof.
  set (r0 := <[1 := <[0 := mkConnEntry 7 0 10 None]> ∅]> ∅ : gmap Z (gmap Z ConnEntry)).
  set (rd := {[0 := 5]} : gmap Z Z).
  apply (rtc_l _ _ (mkRegState 0 1 r0 ∅ ∅)); [by apply (step_register reg_init 1 7 10 None (Ok tt))|].
  apply (rtc_l _ _ (mkRegState 5 1 r0 ∅ (∅ ∪ stale_seqs 5 r0)));
    [apply (step_tick (mkRegState 0 1 r0 ∅ ∅) 5); lia|].
  assert (∅ ∪ stale_seqs 5 r0 = ∅) as -> by by vm_compute.
  apply (rtc_l _ _ (mkRegState 5 1 r0 rd ∅));
    [apply (step_read (mkRegState 5 1 r0 ∅ ∅) 0); simpl; lia|].
  apply (rtc_l _ _ (mkRegState (5 + 182995) 1 r0 rd (∅ ∪ stale_seqs (5 + 182995) r0)));
    [apply (step_tick (mkRegState 5 1 r0 rd ∅) 182995); lia|].
  change (5 + 182995) with 183000. assert (∅ ∪ stale_seqs 183000 r0 = {[0]}) as -> by by vm_compute.
  apply rtc_once.
  set (st := mkRegState 183000 1 r0 rd {[0]}).
  assert (before_revival = mkRegState (clock st) (next_seq st + 1)
    (try_register (clock st) 1 (next_seq st) 8 11 None (reg st)).2 (reads st) (lapsed st)) as ->
    by by vm_compute.
  apply (step_register st 1 8 11 None (Ok tt)). by vm_compute.
Qed.

Lemma revival_step : reg_step before_revival after_revival.
Proof.
  assert (after_revival = mkRegState (clock before_revival) (next_seq before_revival)
    (refresh (clock before_revival) 1 0 (reg before_revival))
    (delete 0 (reads before_revival)) (lapsed before_revival)) as -> by by vm_compute.
  by apply (step_heartbeat _ 1 0 5).
Qed.

(** The read's timeout is counted from the end of the previous write, the
    entry's age from the previous heartbeat: a heartbeat more than a window after
    the last one can still arrive in time for the read, and it revives an entry
    beside which another process has registered meanwhile. *)
Theorem lapsed_entry_revived :
  rtc reg_step reg_init after_revival
  /\ reads before_revival !! 0 = Some 5 /\ clock before_revival < 5 + LIVENESS_WINDOW
  /\ exists e1 e2, entry (reg after_revival) 1 0 = Some e1
       /\ entry (reg after_revival) 1 1 = Some e2
       /\ live (clock after_revival) e1 /\ live (clock after_revival) e2
       /\ nonce e1 <> nonce e2.
Proof.
  split; [eapply rtc_r; [apply revival_reachable|apply revival_step]|].
  split; [done|]. split; [by vm_compute|]. do 2 eexists.
  split; [by vm_compute|]. split; [by vm_compute|]. by vm_compute.
Qed.

Lemma registry_invariant_witness :
  replaced_lapsed after_revival /\ one_process after_revival /\ stale_lapsed after_revival
  /\ sequenced after_revival /\ seq_unique after_revival /\ no_empty (reg after_revival).
Proof.
  apply (registry_invariant after_revival).
  eapply rtc_r; [apply revival_reachable|apply revival_step].
Defined.

Lemma guard_undoes_registration_witness :
  let reg := ∅ : gmap Z (gmap Z ConnEntry) in
  entry (conn_guard_drop 1 0 (try_register 0 1 0 7 10 None reg).2) 1 0 = entry reg 1 0.
Proof.
  apply (guard_undoes_registration 0 1 0 7 10 None (∅ : gmap Z (gmap Z ConnEntry)));
    [|done|reflexivity].
  intros i per Hl. by rewrite lookup_empty in Hl.
Defined.
