(* ===== verification/Server.v ===== *)
(** * The server's connections ([proxy/server.rs], [auth.rs],
    [transport/endpoint.rs])

    The [ProxyServer] configuration, the native allowlist hook, the client
    authentication, and the whole connection handler: handshake, rejection,
    self-block, duplicate handling, registration, acceptance, the heartbeat
    session and the guards' clean-up. Endpoint ids, authentication keys and
    signatures are parameters ([Identity]); what one connection does is a run of
    the [M] monad over [SrvState]. *)

From S2P Require Import Prelude RustStr Net Stream Signaling RoutedSet DnsForward Blocklist Registry.

(** ** Identities, keys, signatures: iroh and flexaccess *)

Class Identity := {
  EndpointId : Type;
  EndpointId_eq : EqDecision EndpointId;
  EndpointId_countable : Countable EndpointId;
  id_to_string : EndpointId -> bytes;
  id_parse : bytes -> option EndpointId;
  PublicKey : Type;
  key_parse : bytes -> option PublicKey;
  key_to_token : PublicKey -> bytes;
  AuthorizedKeys : Type;
  keys_contain : AuthorizedKeys -> PublicKey -> bool;
  verify_signature : PublicKey -> bytes -> EndpointId -> bytes -> bool;
}.
#[export] Existing Instance EndpointId_eq.
#[export] Existing Instance EndpointId_countable.

(** The printed form of an id identifies it. *)
Class IdentityLaws `{Identity} :=
  id_parse_print : forall i, id_parse (id_to_string i) = Some i.

Definition ALPN : bytes := str "flextunnel/1".
Definition BRIDGE_ALPN : bytes := str "flextunnel-bridge/1".
Definition QUICK_ALPN : bytes := str "flextunnel-quick/1".
Definition AUTH_CONTEXT : bytes := str "flextunnel-client-auth-v1".
Definition CLOSE_NOT_ALLOWLISTED : Z := 3.

Section server.
Context {ID : Identity} {NA : IpNetworkApi} {RA : ResolverApi}.

(** ** The allowlist hook *)

Inductive Side : Type := SideClient | SideServer.

Inductive AfterHandshakeOutcome : Type :=
| Accept
| Reject (error_code : Z) (why : bytes).

Record EndpointAllowlists : Type := mkAllowlists {
  bridge_servers : gset EndpointId;
  quick_clients : gset EndpointId;
}.

Definition gate (allowed : gset EndpointId) (remote_id : EndpointId) (disabled rejected : bytes)
  : AfterHandshakeOutcome :=
  if bool_decide (remote_id ∈ allowed) then Accept
  else Reject CLOSE_NOT_ALLOWLISTED (if bool_decide (allowed = ∅) then disabled else rejected).

Definition after_handshake (self : EndpointAllowlists) (side : Side) (alpn : bytes)
    (remote_id : EndpointId) : AfterHandshakeOutcome :=
  match side with
  | SideClient => Accept
  | SideServer =>
      if bool_decide (alpn = BRIDGE_ALPN) then
        gate (bridge_servers self) remote_id (str "bridging is not enabled on this server")
          (str "server id is not on this server's bridge allowlist")
      else if bool_decide (alpn = QUICK_ALPN) then
        gate (quick_clients self) remote_id (str "quick mode is not enabled on this server")
          (str "client id is not on this server's quick-client allowlist")
      else Accept
  end.

(** ** The server *)

Record BridgeUpstreamConfig : Type := mkBridgeConfig {
  bc_name : bytes;
  bc_endpoint_id : EndpointId;
  bc_relay_urls : list bytes;
  bc_routed_set : RoutedSet;
  bc_domains : list bytes;
  bc_cidrs : list bytes;
}.

Record ProxyServer : Type := mkServer {
  own_id : EndpointId;
  server_instance_nonce : Z;
  authorized_keys : AuthorizedKeys;
  allowed_bridge_servers : gset EndpointId;
  bridges : list BridgeUpstreamConfig;
  host_aliases : list (bytes * bytes);
  routed_set : RoutedSet;
  routed_domains : list bytes;
  routed_cidrs : list bytes;
  dns_forwarder : option DnsForwarder;
  has_first_client : bool;
}.

Record ProxyServerParams : Type := mkParams {
  pp_own_id : EndpointId;
  pp_authorized_keys : AuthorizedKeys;
  pp_allowed_bridge_servers : gset EndpointId;
  pp_host_aliases : list (bytes * bytes);
  pp_routed_set : RoutedSet;
  pp_routed_domains : list bytes;
  pp_routed_cidrs : list bytes;
  pp_dns_forwarder : option DnsForwarder;
  pp_bridges : list BridgeUpstreamConfig;
  pp_first_client : bool;
}.

(** [ProxyServer::new]: the process nonce is drawn at random, the bridges are
    put in name order (the registries and the blocklist are in [SrvState]). *)
Definition bridge_name_le (a b : BridgeUpstreamConfig) : bool := bytes_le (bc_name a) (bc_name b).

Definition ProxyServer_new (random_nonce : Z) (params : ProxyServerParams) : ProxyServer :=
  {| own_id := pp_own_id params;
     server_instance_nonce := random_nonce;
     authorized_keys := pp_authorized_keys params;
     allowed_bridge_servers := pp_allowed_bridge_servers params;
     bridges := isort bridge_name_le (pp_bridges params);
     host_aliases := pp_host_aliases params;
     routed_set := pp_routed_set params;
     routed_domains := pp_routed_domains params;
     routed_cidrs := pp_routed_cidrs params;
     dns_forwarder := pp_dns_forwarder params;
     has_first_client := pp_first_client params |}.

(** Pairs in tuple order, as [Vec::sort] puts them. *)
Definition pair_le (a b : bytes * bytes) : bool :=
  if bool_decide (a.1 = b.1) then bytes_le a.2 b.2 else bytes_le a.1 b.1.

Definition sorted_host_aliases (self : ProxyServer) : list (bytes * bytes) :=
  isort pair_le (host_aliases self).

Definition server_dns_forwards (self : ProxyServer) : list (bytes * list bytes) :=
  from_option forwards_view [] (dns_forwarder self).

Definition bridge_summaries (self : ProxyServer) : list BridgeSummary :=
  map (fun b => {| bs_name := bc_name b; bs_endpoint_id := id_to_string (bc_endpoint_id b);
                   bs_domains := bc_domains b; bs_cidrs := bc_cidrs b |}) (bridges self).

(** [auth::verify_endpoint_id_signature]. *)
Definition verify_endpoint_id_signature (public : PublicKey) (i : EndpointId) (sig : bytes) : bool :=
  verify_signature public AUTH_CONTEXT i sig.

Definition verify_client_auth (self : ProxyServer) (a : ClientAuthPayload) (remote_id : EndpointId)
  : bool :=
  match id_parse (auth_endpoint_id a) with
  | None => false
  | Some claimed =>
      if negb (bool_decide (claimed = remote_id)) then false
      else match key_parse (public_key a) with
      | None => false
      | Some public =>
          if negb (keys_contain (authorized_keys self) public) then false
          else if negb (verify_endpoint_id_signature public remote_id (signature a)) then false
          else true
      end
  end.

(** ** State of the server process and of one connection *)

Record Connection : Type := mkConnection {
  alpn : bytes;
  remote_id : EndpointId;
  handle : Z;
}.

Record SrvState : Type := mkSrv {
  registry : gmap EndpointId (gmap Z ConnEntry);
  bridge_registry : gmap EndpointId (gset Z);
  blocklist : BlockList;
  fs : FileSystem;
  write_seq : Z;                       (* the counter of [write_atomic] *)
  next_conn_seq : Z;                   (* [NEXT_CONN_SEQ] *)
  shutdown : bool;                     (* the shutdown notification is pending *)
  first_client_notified : bool;
  closes : list (Z * Z * bytes);       (* connection, code, reason *)
  ctrl : Stream;                       (* this connection's control stream *)
}.

Abbreviation SM := (M SrvState ProxyError).

Definition upd (f : SrvState -> SrvState) : SM () := fun st => (Ok tt, f st).
Definition gets {A} (f : SrvState -> A) : SM A := fun st => (Ok (f st), st).

Definition with_registry st r := mkSrv r (bridge_registry st) (blocklist st) (fs st) (write_seq st)
  (next_conn_seq st) (shutdown st) (first_client_notified st) (closes st) (ctrl st).
Definition with_bridge_registry st r := mkSrv (registry st) r (blocklist st) (fs st) (write_seq st)
  (next_conn_seq st) (shutdown st) (first_client_notified st) (closes st) (ctrl st).
Definition with_blocklist st bl f := mkSrv (registry st) (bridge_registry st) bl f (write_seq st + 1)
  (next_conn_seq st) (shutdown st) (first_client_notified st) (closes st) (ctrl st).
Definition with_shutdown st := mkSrv (registry st) (bridge_registry st) (blocklist st) (fs st)
  (write_seq st) (next_conn_seq st) true (first_client_notified st) (closes st) (ctrl st).
Definition with_next_seq st := mkSrv (registry st) (bridge_registry st) (blocklist st) (fs st)
  (write_seq st) (next_conn_seq st + 1) (shutdown st) (first_client_notified st) (closes st) (ctrl st).
Definition with_notified st := mkSrv (registry st) (bridge_registry st) (blocklist st) (fs st)
  (write_seq st) (next_conn_seq st) (shutdown st) true (closes st) (ctrl st).
Definition with_closes st c := mkSrv (registry st) (bridge_registry st) (blocklist st) (fs st)
  (write_seq st) (next_conn_seq st) (shutdown st) (first_client_notified st) c (ctrl st).
Definition with_ctrl st s := mkSrv (registry st) (bridge_registry st) (blocklist st) (fs st)
  (write_seq st) (next_conn_seq st) (shutdown st) (first_client_notified st) (closes st) s.

Definition on_ctrl {A} (m : IO A) : SM A := fun st =>
  let '(r, s) := m (ctrl st) in (map_err Network r, with_ctrl st s).

Definition close (c : Z) (code : Z) (why : bytes) : SM () :=
  upd (fun st => with_closes st (closes st ++ [(c, code, why)])).

(** What the environment decides for one connection: the clocks, the process
    id, the faults of a blocklist write, the fate of the handshake stream, and
    the control-stream reads of the session. *)
Inductive HandshakeIn : Type :=
| HsTimeout
| HsAcceptFailed (why : bytes)
| HsStream.

Record ConnEnv : Type := mkEnv {
  now : Z;
  now_ms : Z;
  pid : Z;
  faults : WriteFaults;
  handshake_in : HandshakeIn;
  session : list (Z * option (result io_error bytes));
}.

(** ** The handlers *)

Section handlers.
Context `{Json Hello, Json HelloResponse, Json BridgeHello, Json ControlMsg, Json BlockListData}.

(** Persisting only logs its failure; the in-memory record stands. *)
Definition persist (env : ConnEnv) (bl : BlockList) : SM () := fun st =>
  let '(_, f) := persist_blocklist (faults env) (pid env) (write_seq st) bl (fs st) in
  (Ok tt, with_blocklist st bl f).

Definition self_block (env : ConnEnv) (self : ProxyServer) (why : bytes) : SM () :=
  bl ← gets blocklist;
  let '(added, bl') := add_conflicted_server (now_ms env) bl (id_to_string (own_id self)) why in
  _ ← (if added then persist env bl' else mret tt);
  upd with_shutdown.

Definition block_client (env : ConnEnv) (i : EndpointId) (why : bytes) : SM () :=
  bl ← gets blocklist;
  let '(added, bl') := add_blocked_client (now_ms env) bl (id_to_string i) why in
  if added then persist env bl' else mret tt.

Definition client_blocked (i : EndpointId) : SM bool :=
  gets (fun st => is_client_blocked (blocklist st) (id_to_string i)).

(** A response whose write error is reported, and one whose write error is
    ignored (its encoding error is not). *)
Definition send_response (r : HelloResponse) : SM () :=
  payload ← lift (map_err Network (encode_hello_response r));
  on_ctrl (write_message payload).

Definition try_write (payload : bytes) : SM () := fun st =>
  let '(_, s) := write_message payload (ctrl st) in (Ok tt, with_ctrl st s).

Definition send_response_ignoring (r : HelloResponse) : SM () :=
  payload ← lift (map_err Network (encode_hello_response r));
  try_write payload.

Definition BLOCKLISTED : bytes := str "node id is blocklisted (duplicate id previously detected)".
Definition AUTH_FAILED : bytes := str "public-key authentication failed".

Definition register (env : ConnEnv) (conn : Connection) (conn_seq new_nonce : Z)
    (key : option bytes) : SM (result (list Z) ()) := fun st =>
  let '(r, reg) := try_register (now env) (remote_id conn) conn_seq new_nonce (handle conn) key
                     (registry st) in
  (Ok r, with_registry st reg).

(** A guard: its clean-up runs on every exit of the guarded part. *)
Definition guarded {A} (cleanup : SrvState -> SrvState) (m : SM A) : SM A := fun st =>
  let '(r, st') := m st in (r, cleanup st').

(** The session of an accepted connection: the heartbeat loop and the stream
    dispatcher race; a read that ends the loop ends the session with its error,
    otherwise the session ends when the peer closes the connection. *)
Definition run_session (env : ConnEnv) (client_entry : option (EndpointId * Z)) : SM () := fun st =>
  let '(r, (reg, s)) := server_heartbeat_loop client_entry (session env) (registry st, ctrl st) in
  (r, with_ctrl (with_registry st reg) s).

Definition handle_bridge (env : ConnEnv) (self : ProxyServer) (conn : Connection) (conn_seq : Z)
  : SM () :=
  _ ← upd (fun st => with_bridge_registry st
             (bridge_register (remote_id conn) conn_seq (bridge_registry st)));
  guarded (fun st => with_bridge_registry st
             (bridge_guard_drop (remote_id conn) conn_seq (bridge_registry st)))
    (_ ← send_response (HelloResponse_accepted (server_instance_nonce self) no_routes);
     run_session env None).

Definition accepted_routes (self : ProxyServer) : AcceptedRoutes :=
  {| ar_routed_domains := routed_domains self; ar_routed_cidrs := routed_cidrs self;
     ar_host_aliases := sorted_host_aliases self; ar_dns_forwards := server_dns_forwards self;
     ar_bridges := bridge_summaries self |}.

(** The key shown for a connected client: verified keys only. *)
Definition client_key_of (conn : Connection) (hello : Hello) : option bytes :=
  a ← auth hello;
  if bool_decide (alpn conn = QUICK_ALPN) then None
  else key_to_token <$> key_parse (public_key a).

Definition reject_client (self : ProxyServer) (conn : Connection) (blocked : bool) : SM () :=
  let why := if blocked then BLOCKLISTED else AUTH_FAILED in
  _ ← send_response (HelloResponse_rejected (server_instance_nonce self) why);
  _ ← close (handle conn) 1 (str "authentication rejected");
  fail (AuthenticationFailed (str "client " ++ id_to_string (remote_id conn)
                              ++ str " rejected: " ++ why)).

Definition stop_as_duplicate (env : ConnEnv) (self : ProxyServer) (conn : Connection) : SM () :=
  _ ← self_block env self (str "client " ++ id_to_string (remote_id conn)
                           ++ str " reported a duplicate-server pattern");
  _ ← send_response_ignoring (HelloResponse_rejected (server_instance_nonce self)
        (str "server is stopping: duplicate server id detected"));
  close (handle conn) CLOSE_DUPLICATE (str "duplicate server id").

Fixpoint close_all (dups : list Z) : SM () :=
  match dups with
  | [] => mret tt
  | c :: dups' => _ ← close c CLOSE_DUPLICATE (str "duplicate client id"); close_all dups'
  end.

Definition reject_duplicate (env : ConnEnv) (self : ProxyServer) (conn : Connection)
    (dups : list Z) : SM () :=
  _ ← block_client env (remote_id conn) (str "duplicate client id (concurrent live connections)");
  _ ← close_all dups;
  _ ← send_response_ignoring (HelloResponse_rejected (server_instance_nonce self)
        (str "duplicate client id detected"));
  _ ← close (handle conn) CLOSE_DUPLICATE (str "duplicate client id");
  fail (AuthenticationFailed (str "duplicate client id " ++ id_to_string (remote_id conn))).

(** The accepted client: response, first-client notification, session. *)
Definition serve_client (env : ConnEnv) (self : ProxyServer) (conn : Connection) (conn_seq : Z)
  : SM () :=
  _ ← send_response (HelloResponse_accepted (server_instance_nonce self) (accepted_routes self));
  _ ← (if has_first_client self then upd with_notified else mret tt);
  run_session env (Some (remote_id conn, conn_seq)).

Definition auth_ok (self : ProxyServer) (conn : Connection) (hello : Hello) : bool :=
  bool_decide (alpn conn = QUICK_ALPN)
  || match auth hello with
     | Some a => verify_client_auth self a (remote_id conn)
     | None => false
     end.

(** A decoded client [Hello]: authenticate, honour the duplicate-server
    advisory, register, accept. *)
Definition handle_client (env : ConnEnv) (self : ProxyServer) (conn : Connection) (conn_seq : Z)
    (hello : Hello) : SM () :=
  blocked ← client_blocked (remote_id conn);
  if negb (auth_ok self conn hello) || blocked then reject_client self conn blocked
  else if duplicate_server_observed hello then stop_as_duplicate env self conn
  else
  registered ← register env conn conn_seq (client_instance_nonce hello) (client_key_of conn hello);
  match registered with
  | Err dups => reject_duplicate env self conn dups
  | Ok _ =>
      guarded (fun st => with_registry st
                 (conn_guard_drop (remote_id conn) conn_seq (registry st)))
        (serve_client env self conn conn_seq)
  end.

Definition read_handshake (env : ConnEnv) : SM bytes :=
  match handshake_in env with
  | HsTimeout => fail (Signaling (str "timed out waiting for client handshake"))
  | HsAcceptFailed why => fail (Signaling (str "Failed to accept handshake stream: " ++ why))
  | HsStream => on_ctrl (read_message MAX_HANDSHAKE_SIZE)
  end.

Definition handle_connection (env : ConnEnv) (self : ProxyServer)
    (incoming : result bytes Connection) : SM () :=
  conn ← lift (map_err (fun e => Signaling (str "Failed to accept connection: " ++ e)) incoming);
  conn_seq ← gets next_conn_seq;
  _ ← upd with_next_seq;
  payload ← read_handshake env;
  if bool_decide (alpn conn = BRIDGE_ALPN) then
    _ ← lift (map_err Network (decode_bridge_hello payload));
    handle_bridge env self conn conn_seq
  else
  hello ← lift (map_err Network (decode_hello payload));
  handle_client env self conn conn_seq hello.
End handlers.
End server.

(** ** Reference identities: numbers, with a transparent signature scheme *)

Definition print_number (z : Z) : bytes := positive_bytes (encode z).
Definition read_number (bs : bytes) : option Z := decode (bytes_positive bs).

Definition ref_sign (key : Z) (ctx : bytes) (i : Z) : bytes :=
  print_number key ++ x2e :: ctx ++ x2e :: print_number i.

Definition RefIdentity : Identity := {|
  EndpointId := Z;
  EndpointId_eq := _;
  EndpointId_countable := _;
  id_to_string := print_number;
  id_parse := read_number;
  PublicKey := Z;
  key_parse := read_number;
  key_to_token := print_number;
  AuthorizedKeys := list Z;
  keys_contain l k := bool_decide (k ∈ l);
  verify_signature k ctx i sig := bool_decide (sig = ref_sign k ctx i);
|}.

#[export] Instance RefIdentityLaws : @IdentityLaws RefIdentity.
Proof. intros i. unfold id_parse, id_to_string. simpl. unfold read_number, print_number.
  by rewrite bytes_positive_bytes, decode_encode. Qed.

(** A server with one authorized key, 5, and id 100. *)
Definition ref_server : @ProxyServer RefIdentity RefNetwork RefResolver :=
  @mkServer RefIdentity RefNetwork RefResolver 100 4242 [5] ∅ [] [] RoutedSet_default [] [] None false.

Definition ref_state (tx_in : bytes) : @SrvState RefIdentity :=
  @mkSrv RefIdentity ∅ ∅ (mkBlockList (str "bl.json") BlockListData_default) ∅ 0 0 false false []
    (open_stream tx_in).

Definition ref_env : ConnEnv := mkEnv 0 0 1 no_faults HsStream [].

Definition ref_conn (i : Z) : @Connection RefIdentity := @mkConnection RefIdentity ALPN i i.

(** A [Hello] of key [k] for endpoint [i]. *)
Definition ref_hello (k i nonce : Z) (dup : bool) : Hello :=
  mkHello PROTOCOL_VERSION
    (Some (mkAuth (print_number k) (print_number i) (ref_sign k AUTH_CONTEXT i))) nonce dup.

(** The reference codec for every message of the program. *)
Module RefJson.
#[export] Instance json_hello : Json Hello := reference_json Hello.
#[export] Instance json_response : Json HelloResponse := reference_json HelloResponse.
#[export] Instance json_bridge : Json BridgeHello := reference_json BridgeHello.
#[export] Instance json_control : Json ControlMsg := reference_json ControlMsg.
#[export] Instance json_blocklist : Json BlockListData := reference_json BlockListData.
End RefJson.
