(* ===== verification/ServerProofs.v ===== *)
(** * Theorems on the server's connection handler

    Authentication and what it binds, who can influence the server, the
    self-block, the treatment of duplicates, the clean-up of the registries. *)

From S2P Require Import Prelude RustStr Net Stream Signaling RoutedSet DnsForward Blocklist Registry.
From S2P Require Import Server.

Section proofs.
Context {ID : Identity} {NA : IpNetworkApi} {RA : ResolverApi}.

(** ** The allowlist hook *)

(** The native access control: an inbound bridge connection is accepted if
    and only if its TLS-authenticated id is on the bridge list, an inbound
    quick-mode connection if and only if it is on the quick list (an empty list
    admits nobody and says the feature is off); the client protocol and
    outbound connections are never gated here. *)
Theorem allowlist_hook_exact al side a i :
  (after_handshake al side a i = Accept <->
     side = SideClient
     \/ (a = BRIDGE_ALPN /\ i ∈ bridge_servers al)
     \/ (a = QUICK_ALPN /\ i ∈ quick_clients al)
     \/ (a <> BRIDGE_ALPN /\ a <> QUICK_ALPN))
  /\ (forall code why, after_handshake al side a i = Reject code why ->
       code = CLOSE_NOT_ALLOWLISTED
       /\ (why = str "bridging is not enabled on this server" -> bridge_servers al = ∅)
       /\ (why = str "quick mode is not enabled on this server" -> quick_clients al = ∅)).
Proof.
  assert (Hne : BRIDGE_ALPN <> QUICK_ALPN) by (by vm_compute).
  unfold after_handshake, gate. destruct side; [naive_solver|].
  repeat case_bool_decide; subst; (split; [naive_solver|]);
    intros code why [= <- <-]; repeat split; try done; by vm_compute.
Qed.

(** ** Client authentication *)

Lemma verify_client_auth_spec self a i :
  verify_client_auth self a i = true <->
  id_parse (auth_endpoint_id a) = Some i
  /\ exists key, key_parse (public_key a) = Some key
       /\ keys_contain (authorized_keys self) key = true
       /\ verify_signature key AUTH_CONTEXT i (signature a) = true.
Proof.
  unfold verify_client_auth, verify_endpoint_id_signature.
  destruct (id_parse (auth_endpoint_id a)) as [c|]; [|naive_solver].
  case_bool_decide as Hc; simpl; [subst|naive_solver].
  destruct (key_parse (public_key a)) as [key|]; [|naive_solver].
  destruct (keys_contain (authorized_keys self) key) eqn:Hk; simpl; [|naive_solver].
  destruct (verify_signature key AUTH_CONTEXT i (signature a)) eqn:Hv; simpl; naive_solver.
Qed.

(** C5. What authentication establishes: outside quick mode a [Hello] is
    accepted as authenticated exactly when it claims the endpoint id that TLS
    authenticated for this connection and carries a signature over that id,
    under the program's context, that verifies under a key of the
    authorized-keys file. In particular a captured [Hello] presented on a
    connection of another endpoint id is not authenticated. *)
Theorem authentication_binds_connection self conn hello :
  alpn conn <> QUICK_ALPN ->
  (auth_ok self conn hello = true <->
   exists a key, auth hello = Some a
     /\ id_parse (auth_endpoint_id a) = Some (remote_id conn)
     /\ key_parse (public_key a) = Some key
     /\ keys_contain (authorized_keys self) key = true
     /\ verify_signature key AUTH_CONTEXT (remote_id conn) (signature a) = true)
  /\ (forall other, alpn other <> QUICK_ALPN -> remote_id other <> remote_id conn ->
        auth_ok self conn hello = true -> auth_ok self other hello = false).
Proof.
  intros Hq.
  assert (Hiff : forall c, alpn c <> QUICK_ALPN -> auth_ok self c hello
            = match auth hello with Some a => verify_client_auth self a (remote_id c)
              | None => false end).
  { intros c Hc. unfold auth_ok. by rewrite bool_decide_false. }
  split.
  - rewrite (Hiff conn Hq). destruct (auth hello) as [a|]; [|naive_solver].
    rewrite verify_client_auth_spec. naive_solver.
  - intros other Ho Hne. rewrite (Hiff conn Hq), (Hiff other Ho).
    destruct (auth hello) as [a|]; [|done].
    intros [Hid _]%verify_client_auth_spec. apply not_true_iff_false.
    rewrite verify_client_auth_spec. intros [Hid' _]. congruence.
Qed.

(** ** Frames: what a step leaves alone *)

Abbreviation SM := (M SrvState ProxyError).

Definition respects {A} (R : SrvState -> SrvState -> Prop) (m : SM A) : Prop :=
  forall st, R st (m st).2.

Section frames.
Context (R : SrvState -> SrvState -> Prop) `{!PreOrder R}.

Lemma respects_bind {A B} (m : SM A) (k : A -> SM B) :
  respects R m -> (forall a, respects R (k a)) -> respects R (m ≫= k).
Proof.
  intros Hm Hk st. unfold mbind, M_bind. specialize (Hm st).
  destruct (m st) as [[a|e] st']; simpl in *; [|done]. etransitivity; [done|apply Hk].
Qed.

Lemma respects_ret {A} (a : A) : respects R (mret a : SM A).
Proof. intros st. simpl. reflexivity. Qed.

Lemma respects_fail {A} e : respects R (fail e : SM A).
Proof. intros st. simpl. reflexivity. Qed.

Lemma respects_lift {A} (r : result ProxyError A) : respects R (lift r : SM A).
Proof. intros st. simpl. reflexivity. Qed.

Lemma respects_gets {A} (f : SrvState -> A) : respects R (gets f).
Proof. intros st. simpl. reflexivity. Qed.
End frames.

Create HintDb frames discriminated.

Ltac frame :=
  repeat first
    [ solve [eauto 2 with frames]
    | apply respects_bind; [typeclasses eauto| |intro] | apply respects_ret; typeclasses eauto
    | apply respects_fail; typeclasses eauto | apply respects_lift; typeclasses eauto
    | apply respects_gets; typeclasses eauto ].

(** Nothing durable changes: only the control stream, the log of closes and
    the connection counter may. *)
Definition undisturbed (st st' : SrvState) : Prop :=
  registry st' = registry st /\ bridge_registry st' = bridge_registry st
  /\ blocklist st' = blocklist st /\ fs st' = fs st /\ shutdown st' = shutdown st
  /\ first_client_notified st' = first_client_notified st.

#[local] Instance undisturbed_preorder : PreOrder undisturbed.
Proof. split; [done|]. intros a b c. unfold undisturbed. naive_solver congruence. Qed.

(** The identity records are not written: blocklist, its file, the shutdown. *)
Definition unblocked (st st' : SrvState) : Prop :=
  blocklist st' = blocklist st /\ fs st' = fs st /\ shutdown st' = shutdown st.

#[local] Instance unblocked_preorder : PreOrder unblocked.
Proof. split; [done|]. intros a b c. unfold unblocked. naive_solver congruence. Qed.

Lemma undisturbed_unblocked {A} (m : SM A) : respects undisturbed m -> respects unblocked m.
Proof. intros Hm st. destruct (Hm st) as (_ & _ & ? & ? & ? & _). by repeat split. Qed.

Section handlers.
Context `{Json Hello, Json HelloResponse, Json BridgeHello, Json ControlMsg, Json BlockListData}.

Lemma on_ctrl_undisturbed {A} (m : IO A) : respects undisturbed (on_ctrl m).
Proof. intros st. unfold on_ctrl. by destruct (m (ctrl st)). Qed.

Lemma close_undisturbed c code why : respects undisturbed (close c code why).
Proof. by intros st. Qed.

Lemma next_seq_undisturbed : respects undisturbed (upd with_next_seq).
Proof. by intros st. Qed.

Lemma try_write_undisturbed p : respects undisturbed (try_write p).
Proof. intros st. unfold try_write. by destruct (write_message p (ctrl st)). Qed.
#[local] Hint Resolve on_ctrl_undisturbed close_undisturbed next_seq_undisturbed
  try_write_undisturbed : frames.

Lemma send_response_undisturbed r : respects undisturbed (send_response r).
Proof. unfold send_response. frame. Qed.

Lemma send_ignoring_undisturbed r : respects undisturbed (send_response_ignoring r).
Proof. unfold send_response_ignoring. frame. Qed.

Lemma client_blocked_undisturbed i : respects undisturbed (client_blocked i).
Proof. unfold client_blocked. frame. Qed.
#[local] Hint Resolve send_response_undisturbed send_ignoring_undisturbed
  client_blocked_undisturbed : frames.

Lemma reject_client_undisturbed self conn b : respects undisturbed (reject_client self conn b).
Proof. unfold reject_client. frame. Qed.

Lemma read_handshake_undisturbed env : respects undisturbed (read_handshake env).
Proof. unfold read_handshake. destruct (handshake_in env); frame. Qed.
#[local] Hint Resolve reject_client_undisturbed read_handshake_undisturbed : frames.
#[local] Hint Resolve undisturbed_unblocked : frames.

Lemma run_session_unblocked env ce : respects unblocked (run_session env ce).
Proof.
  intros st. unfold run_session.
  destruct (server_heartbeat_loop ce (session env) (registry st, ctrl st)) as [r [reg s]]. done.
Qed.

Lemma guarded_respects {A} (R : SrvState -> SrvState -> Prop) `{!PreOrder R} c (m : SM A) :
  (forall st, R st (c st)) -> respects R m -> respects R (guarded c m).
Proof.
  intros Hc Hm st. unfold guarded. specialize (Hm st). destruct (m st) as [r st'].
  simpl in *. etransitivity; [done|apply Hc].
Qed.

Lemma upd_unblocked f : (forall st, unblocked st (f st)) -> respects unblocked (upd f).
Proof. intros Hf st. apply Hf. Qed.
#[local] Hint Resolve run_session_unblocked : frames.

Lemma handle_bridge_unblocked env self conn s : respects unblocked (handle_bridge env self conn s).
Proof.
  unfold handle_bridge. frame; [by apply upd_unblocked|].
  apply guarded_respects; [typeclasses eauto|by intros st|]. frame.
Qed.

Lemma register_unblocked env conn s n k : respects unblocked (register env conn s n k).
Proof. intros st. unfold register. by destruct try_register. Qed.

Lemma serve_client_unblocked env self conn s : respects unblocked (serve_client env self conn s).
Proof.
  unfold serve_client. frame. destruct (has_first_client self); frame. by apply upd_unblocked.
Qed.
#[local] Hint Resolve handle_bridge_unblocked register_unblocked serve_client_unblocked : frames.

(** The [Hello] a connection presents. *)
Definition presents (env : ConnEnv) (incoming : result bytes Connection) (st : SrvState)
    (conn : Connection) (hello : Hello) : Prop :=
  incoming = Ok conn /\ alpn conn <> BRIDGE_ALPN /\ handshake_in env = HsStream
  /\ exists payload, (read_message MAX_HANDSHAKE_SIZE (ctrl st)).1 = Ok payload
       /\ decode_hello payload = Ok hello.

Lemma read_handshake_Ok env st payload st' :
  read_handshake env st = (Ok payload, st') ->
  handshake_in env = HsStream /\ (read_message MAX_HANDSHAKE_SIZE (ctrl st)).1 = Ok payload.
Proof.
  unfold read_handshake. destruct (handshake_in env); [done..|].
  unfold on_ctrl. destruct (read_message MAX_HANDSHAKE_SIZE (ctrl st)) as [[p|e] s]; simpl;
    [by intros [= <- _]|done].
Qed.

Lemma handle_client_cases env self conn s hello st :
  let bl := is_client_blocked (blocklist st) (id_to_string (remote_id conn)) in
  (auth_ok self conn hello = true /\ bl = false)
  \/ handle_client env self conn s hello st = reject_client self conn bl st.
Proof.
  unfold handle_client. simpl. unfold client_blocked, gets, mbind, M_bind. simpl.
  destruct (auth_ok self conn hello), (is_client_blocked _ _); simpl; auto.
Qed.

(** C4. Only authenticated, unblocked clients influence the server: whatever a
    connection sends, if handling it changed the blocklist, its file, or tripped
    the shutdown, then the peer presented a decodable [Hello] of this protocol
    version that authenticates for this connection, and its id was not
    blocklisted. *)
Theorem only_authenticated_influence env self incoming st :
  let '(_, st') := handle_connection env self incoming st in
  unblocked st st'
  \/ exists conn hello, presents env incoming st conn hello
       /\ auth_ok self conn hello = true
       /\ is_client_blocked (blocklist st) (id_to_string (remote_id conn)) = false.
Proof.
  destruct (handle_connection env self incoming st) as [r st'] eqn:Hrun.
  destruct incoming as [conn|e]; [|injection Hrun as _ <-; by left].
  unfold handle_connection in Hrun. simpl in Hrun.
  unfold mbind, M_bind, lift in Hrun. simpl in Hrun.
  pose proof (read_handshake_undisturbed env (with_next_seq st)) as Hrd.
  destruct (read_handshake env (with_next_seq st)) as [[payload|e] st1] eqn:Hread;
    simpl in Hrd; destruct Hrd as (_ & _ & Hbl & Hfs & Hsd & _); simpl in *.
  2:{ injection Hrun as _ <-. left. by repeat split. }
  apply read_handshake_Ok in Hread as [Hin Hread].
  assert (Hfrom : forall (m : SM ()), respects unblocked m -> m st1 = (r, st') -> unblocked st st').
  { intros m Hm Hst. specialize (Hm st1). rewrite Hst in Hm. unfold unblocked in *.
    simpl in Hm. destruct Hm as (? & ? & ?). repeat split; congruence. }
  case_bool_decide as Halpn.
  { left. destruct (decode_bridge_hello payload) as [bh|e]; simpl in Hrun.
    - by apply (Hfrom _ (handle_bridge_unblocked env self conn (next_conn_seq st))).
    - injection Hrun as _ <-. by repeat split. }
  destruct (decode_hello payload) as [hello|e] eqn:Hdec; simpl in Hrun.
  2:{ injection Hrun as _ <-. left. by repeat split. }
  destruct (handle_client_cases env self conn (next_conn_seq st) hello st1) as [[Ha Hb]|Hrej].
  - right. exists conn, hello. repeat split; try done; [by exists payload|]. by rewrite <- Hbl.
  - left. rewrite Hrej in Hrun. eapply Hfrom; [|exact Hrun].
    apply undisturbed_unblocked, reject_client_undisturbed.
Qed.

(** ** Clean-up *)

(** The client entries other than the connection's own are as before. *)
Definition same_entries_except (i : EndpointId) (s : Z) (reg reg' : gmap EndpointId (gmap Z ConnEntry))
  : Prop := forall j t, (j = i /\ t = s) \/ entry reg' j t = entry reg j t.

Lemma heartbeat_step_entries ce nw inc reg s :
  let reg' := (server_heartbeat_step ce nw inc (reg, s)).2.1 in
  match ce with
  | Some (i, q) => same_entries_except i q reg reg'
  | None => reg' = reg
  end.
Proof.
  assert (Href : forall i q, same_entries_except i q reg (refresh nw i q reg)).
  { intros i q j t. rewrite refresh_entry. case_decide; auto. }
  assert (Hrefl : forall i q, same_entries_except i q reg reg) by (right; done).
  unfold server_heartbeat_step. destruct inc as [[payload|e]|]; [|by destruct ce as [[]|]..].
  unfold lift, mbind, M_bind. simpl.
  destruct (decode_control payload) as [[seq|seq]|e]; simpl; [|by destruct ce as [[]|]..].
  unfold answer_heartbeat. simpl. destruct (encode_control _) as [ack|e]; simpl.
  - destruct (write_message ack s). simpl. by destruct ce as [[]|].
  - by destruct ce as [[]|].
Qed.

Lemma heartbeat_loop_entries ce reads reg s :
  let reg' := (server_heartbeat_loop ce reads (reg, s)).2.1 in
  match ce with
  | Some (i, q) => same_entries_except i q reg reg'
  | None => reg' = reg
  end.
Proof.
  revert reg s. induction reads as [|[nw inc] reads IH]; intros reg s; simpl.
  - destruct ce as [[i q]|]; [by right|done].
  - unfold mbind, M_bind. pose proof (heartbeat_step_entries ce nw inc reg s) as Hstep.
    destruct (server_heartbeat_step ce nw inc (reg, s)) as [[u|e] [reg1 s1]]; simpl in *; [|done].
    specialize (IH reg1 s1). destruct ce as [[i q]|].
    + intros j t. destruct (IH j t) as [?| ->]; [by left|]. apply Hstep.
    + by rewrite IH, Hstep.
Qed.

(** The registrations of all connections are as before (in particular no entry
    of the connection itself is left). *)
Definition registries_kept (st st' : SrvState) : Prop :=
  (forall j t, entry (registry st') j t = entry (registry st) j t)
  /\ (forall j t, t ∈ (default ∅ (bridge_registry st' !! j) : gset Z)
                 <-> t ∈ (default ∅ (bridge_registry st !! j) : gset Z)).

#[local] Instance registries_kept_preorder : PreOrder registries_kept.
Proof.
  split; [by split|]. intros a b c [Hr1 Hb1] [Hr2 Hb2].
  split; intros j t; [by rewrite Hr2|by rewrite Hb2].
Qed.

Lemma undisturbed_kept {A} (m : SM A) : respects undisturbed m -> respects registries_kept m.
Proof. intros Hm st. destruct (Hm st) as (Hr & Hb & _). split; intros; by rewrite ?Hr, ?Hb. Qed.
#[local] Hint Resolve undisturbed_kept : frames.

Lemma persist_kept env bl : respects registries_kept (persist env bl).
Proof. intros st. unfold persist. by destruct persist_blocklist. Qed.
#[local] Hint Resolve persist_kept : frames.

Lemma block_client_kept env i why : respects registries_kept (block_client env i why).
Proof. unfold block_client. frame. destruct add_blocked_client as [[] bl']; frame. Qed.

Lemma self_block_kept env self why : respects registries_kept (self_block env self why).
Proof.
  unfold self_block. frame. destruct add_conflicted_server as [[] bl']; frame; by intros st.
Qed.

Lemma close_all_undisturbed dups : respects undisturbed (close_all dups).
Proof. induction dups as [|c dups IH]; simpl; frame. Qed.
#[local] Hint Resolve block_client_kept self_block_kept close_all_undisturbed : frames.

Lemma register_kept_unless env conn s n k st :
  let '(r, st') := register env conn s n k st in
  exists res, r = Ok res /\
  bridge_registry st' = bridge_registry st
  /\ match res with
     | Ok _ => same_entries_except (remote_id conn) s (registry st) (registry st')
     | Err _ => forall j t, entry (registry st') j t = entry (registry st) j t
     end.
Proof.
  unfold register.
  pose proof (try_register_spec (now env) (remote_id conn) s n (handle conn) k (registry st)) as Hs.
  destruct (try_register _ _ _ _ _ _ _) as [[[]|dups] reg]; destruct Hs as (_ & Hok & Herr);
    eexists; (split; [done|]); (split; [done|]); simpl.
  - intros j t. rewrite (Hok eq_refl). case_decide; auto.
  - apply Herr. done.
Qed.

Lemma serve_client_entries env self conn s st :
  let st' := (serve_client env self conn s st).2 in
  bridge_registry st' = bridge_registry st
  /\ same_entries_except (remote_id conn) s (registry st) (registry st').
Proof.
  unfold serve_client, mbind, M_bind.
  pose proof (send_response_undisturbed
    (HelloResponse_accepted (server_instance_nonce self) (accepted_routes self)) st) as Hu.
  destruct (send_response _ st) as [[u|e] st1]; simpl in Hu;
    destruct Hu as (Hr & Hb & _); simpl; [|split; [done|right; by rewrite Hr]].
  assert (exists st2, (if has_first_client self then upd with_notified else mret tt) st1
            = (Ok tt, st2) /\ registry st2 = registry st1 /\ bridge_registry st2 = bridge_registry st1)
    as (st2 & -> & Hr2 & Hb2) by (destruct (has_first_client self); by eexists).
  unfold run_session.
  pose proof (heartbeat_loop_entries (Some (remote_id conn, s)) (session env) (registry st2) (ctrl st2))
    as Hl.
  destruct (server_heartbeat_loop _ _ _) as [r [reg s']]. simpl in *.
  split; [congruence|]. by rewrite <- Hr, <- Hr2.
Qed.

Lemma handle_client_kept env self conn s hello st :
  entry (registry st) (remote_id conn) s = None ->
  registries_kept st (handle_client env self conn s hello st).2.
Proof.
  intros Hfresh. unfold handle_client, client_blocked, gets, mbind, M_bind at 1. simpl.
  destruct (_ || _); [apply undisturbed_kept, reject_client_undisturbed|].
  destruct (duplicate_server_observed hello).
  { unfold stop_as_duplicate. revert st Hfresh. intros st _.
    apply (respects_bind registries_kept); [|intros]; frame. }
  unfold mbind, M_bind.
  pose proof (register_kept_unless env conn s (client_instance_nonce hello)
                (client_key_of conn hello) st) as Hreg.
  destruct (register _ _ _ _ _ st) as [r st1]. destruct Hreg as (res & -> & Hb & Hreg).
  destruct res as [u|dups].
  - unfold guarded. pose proof (serve_client_entries env self conn s st1) as [Hb2 Hs].
    destruct (serve_client env self conn s st1) as [r st2]. simpl in *.
    split; simpl; [|by rewrite Hb2, Hb]. intros j t. rewrite conn_guard_drop_entry.
    case_decide as Hd; [by destruct Hd as [-> ->]|].
    destruct (Hs j t) as [?| ->]; [done|]. by destruct (Hreg j t) as [?| ->].
  - transitivity st1; [split; intros; by rewrite ?Hreg, ?Hb|].
    apply (respects_bind registries_kept); [|intros]; frame.
Qed.

Lemma bridge_drop_members i s (breg : gmap EndpointId (gset Z)) j t :
  t ∈ (default ∅ (bridge_guard_drop i s breg !! j) : gset Z)
  <-> t ∈ (default ∅ (breg !! j) : gset Z) /\ ~ (j = i /\ t = s).
Proof.
  unfold bridge_guard_drop. destruct (breg !! i) as [seqs|] eqn:Hi.
  - case_bool_decide as He; destruct (decide (j = i)) as [->|Hj].
    + rewrite lookup_delete_eq, Hi. simpl. set_solver.
    + rewrite lookup_delete_ne by done. naive_solver.
    + rewrite lookup_insert_eq, Hi. simpl. set_solver.
    + rewrite lookup_insert_ne by done. naive_solver.
  - destruct (decide (j = i)) as [->|Hj]; [rewrite Hi; simpl; set_solver|naive_solver].
Qed.

Lemma handle_bridge_kept env self conn s st :
  s ∉ (default ∅ (bridge_registry st !! remote_id conn) : gset Z) ->
  registries_kept st (handle_bridge env self conn s st).2.
Proof.
  intros Hfresh. unfold handle_bridge, mbind, M_bind at 1. simpl. unfold guarded.
  set (st1 := with_bridge_registry st _).
  assert (Hm : forall m : SM (), (forall st0, bridge_registry (m st0).2 = bridge_registry st0
              /\ registry (m st0).2 = registry st0) ->
    registries_kept st (let '(r, st') := m st1 in
      (r, with_bridge_registry st' (bridge_guard_drop (remote_id conn) s (bridge_registry st')))).2).
  { intros m Hm. specialize (Hm st1). destruct (m st1) as [r st2]. simpl in *.
    destruct Hm as [Hb Hr]. split; simpl; [by rewrite Hr|]. intros j t.
    rewrite bridge_drop_members, Hb. simpl. unfold bridge_register.
    destruct (decide (j = remote_id conn)) as [->|Hj].
    - rewrite lookup_insert_eq. simpl. set_solver.
    - rewrite lookup_insert_ne by done. naive_solver. }
  apply Hm. intros st0.
  pose proof (send_response_undisturbed
    (HelloResponse_accepted (server_instance_nonce self) no_routes) st0) as Hu.
  unfold mbind, M_bind. destruct (send_response _ st0) as [[u|e] st2]; simpl in Hu;
    destruct Hu as (Hr & Hb & _); simpl; [|done].
  unfold run_session.
  pose proof (heartbeat_loop_entries None (session env) (registry st2) (ctrl st2)) as Hl.
  destruct (server_heartbeat_loop _ _ _) as [r [reg s']]. simpl in *. split; congruence.
Qed.

(** C7. No stale registrations: whatever a connection does and however its
    handler ends (error, rejection, self-block, lost heartbeat, close), once it
    has ended the client registry and the bridge registry hold exactly the
    registrations they held before, given that the connection's fresh sequence
    number was unused. *)
Theorem handler_leaves_no_registration env self incoming st :
  (forall i, entry (registry st) i (next_conn_seq st) = None) ->
  (forall i, next_conn_seq st ∉ (default ∅ (bridge_registry st !! i) : gset Z)) ->
  registries_kept st (handle_connection env self incoming st).2.
Proof.
  intros Hfresh Hbfresh.
  destruct incoming as [conn|e]; [|done].
  unfold handle_connection, mbind, M_bind, lift. simpl.
  pose proof (read_handshake_undisturbed env (with_next_seq st)) as Hrd.
  destruct (read_handshake env (with_next_seq st)) as [[payload|e] st1]; simpl in *;
    destruct Hrd as (Hr & Hb & _); simpl in *.
  2:{ split; intros; by rewrite ?Hr, ?Hb. }
  assert (Hk : registries_kept st st1) by (split; intros; by rewrite ?Hr, ?Hb).
  case_bool_decide as Halpn.
  - destruct (decode_bridge_hello payload); simpl; [|done].
    transitivity st1; [done|]. apply handle_bridge_kept. by rewrite Hb.
  - destruct (decode_hello payload); simpl; [|done].
    transitivity st1; [done|]. apply handle_client_kept. by rewrite Hr.
Qed.

(** ** The self-block *)

Lemma send_ignoring_run r st :
  (exists e, send_response_ignoring r st = (Err e, st))
  \/ exists s, send_response_ignoring r st = (Ok tt, with_ctrl st s).
Proof.
  unfold send_response_ignoring, mbind, M_bind, lift, try_write.
  destruct (encode_hello_response r) as [p|e]; simpl; [|by left; eexists].
  destruct (write_message p (ctrl st)) as [? s]. right. by exists s.
Qed.

Lemma self_block_effect env self why st :
  wf_blocklist (blocklist st) ->
  let st' := (self_block env self why st).2 in
  (self_block env self why st).1 = Ok tt
  /\ shutdown st' = true /\ wf_blocklist (blocklist st')
  /\ path (blocklist st') = path (blocklist st)
  /\ is_server_conflicted (blocklist st') (id_to_string (own_id self)) = true
  /\ registry st' = registry st
  /\ (is_server_conflicted (blocklist st) (id_to_string (own_id self)) = false ->
      exists q, fs st' = (persist_blocklist (faults env) (pid env) q (blocklist st') (fs st)).2).
Proof.
  intros Hwf. unfold self_block, gets, mbind, M_bind. simpl.
  pose proof (add_conflicted_server_spec (now_ms env) (blocklist st)
                (id_to_string (own_id self)) why Hwf) as Hadd.
  destruct (add_conflicted_server _ _ _ _) as [added bl] eqn:Ha.
  destruct Hadd as ([Hwf1 Hwf2] & Hpath & Hadded & Hconf & _).
  assert (Hc : is_server_conflicted bl (id_to_string (own_id self)) = true).
  { rewrite Hconf, bool_decide_true by done. apply orb_true_r. }
  destruct added.
  - unfold persist. destruct (persist_blocklist _ _ _ bl (fs st)) as [r f] eqn:Hp. simpl.
    repeat split; try done. intros _. exists (write_seq st). by rewrite Hp.
  - unfold add_conflicted_server in Ha. simpl.
    destruct (is_server_conflicted (blocklist st) _) eqn:Hb; [|done].
    injection Ha as <-. destruct Hwf. by repeat split.
Qed.

Lemma authenticated_flow env self conn s hello st :
  auth_ok self conn hello = true ->
  is_client_blocked (blocklist st) (id_to_string (remote_id conn)) = false ->
  duplicate_server_observed hello = true ->
  handle_client env self conn s hello st = stop_as_duplicate env self conn st.
Proof.
  intros Ha Hb Hd. unfold handle_client, client_blocked, gets, mbind, M_bind at 1. simpl.
  by rewrite Ha, Hb, Hd.
Qed.

Definition advisory_reason (conn : Connection) : bytes :=
  str "client " ++ id_to_string (remote_id conn) ++ str " reported a duplicate-server pattern".

Lemma stop_as_duplicate_state env self conn st :
  (self_block env self (advisory_reason conn) st).1 = Ok tt ->
  unblocked (self_block env self (advisory_reason conn) st).2 (stop_as_duplicate env self conn st).2.
Proof.
  intros Hok. unfold stop_as_duplicate. fold (advisory_reason conn). unfold mbind, M_bind at 1.
  destruct (self_block _ _ _ st) as [r st1]. simpl in *. subst r. unfold M_bind.
  destruct (send_ignoring_run (HelloResponse_rejected (server_instance_nonce self)
      (str "server is stopping: duplicate server id detected")) st1)
    as [[e ->]|[s' ->]]; simpl; by repeat split.
Qed.

Section durable.
Context `{!JsonLaws BlockListData (fun _ => True)}.

(** The duplicate-server self-block is durable: an authenticated client's
    advisory makes the server record its own id as conflicted and stop, and,
    unless a write fails, the blocklist file afterwards loads to a list in which
    the id is conflicted, which the next start refuses. *)
Theorem self_block_is_durable env self conn s hello st :
  wf_blocklist (blocklist st) ->
  auth_ok self conn hello = true ->
  is_client_blocked (blocklist st) (id_to_string (remote_id conn)) = false ->
  duplicate_server_observed hello = true ->
  let st' := (handle_client env self conn s hello st).2 in
  shutdown st' = true
  /\ is_server_conflicted (blocklist st') (id_to_string (own_id self)) = true
  /\ (faults env = no_faults ->
      is_server_conflicted (blocklist st) (id_to_string (own_id self)) = false ->
      exists bl, load (path (blocklist st)) (read_to_string (fs st') (path (blocklist st)) None) = Ok bl
        /\ is_server_conflicted bl (id_to_string (own_id self)) = true).
Proof.
  intros Hwf Ha Hb Hd. rewrite authenticated_flow by done.
  pose proof (self_block_effect env self (advisory_reason conn) st Hwf)
    as (Hok & Hsd & _ & Hpath & Hc & _ & Hp).
  destruct (stop_as_duplicate_state env self conn st Hok) as (Hbl & Hfs & Hsd2).
  cbv zeta. rewrite Hsd2, Hbl, Hfs. split; [done|]. split; [done|]. intros Hf Hnew.
  destruct (Hp Hnew) as [q Hq]. rewrite Hq, Hf.
  destruct (persist_then_load (pid env) q (blocklist (self_block env self (advisory_reason conn) st).2)
              (fs st)) as (f & -> & Hload). simpl.
  rewrite Hpath in Hload. eauto.
Qed.

End durable.

(** ** Duplicate clients *)

Lemma close_all_closes dups st :
  close_all dups st
  = (Ok tt, with_closes st (closes st ++ map (fun c => (c, CLOSE_DUPLICATE, str "duplicate client id")) dups)).
Proof.
  revert st. induction dups as [|c dups IH]; intros st; simpl.
  - rewrite app_nil_r. by destruct st.
  - unfold mbind, M_bind. simpl. rewrite IH. simpl. by rewrite <- app_assoc.
Qed.

Lemma block_client_effect env i why st :
  wf_blocklist (blocklist st) ->
  let '(r, st') := block_client env i why st in
  r = Ok tt /\ is_client_blocked (blocklist st') (id_to_string i) = true
  /\ closes st' = closes st /\ shutdown st' = shutdown st /\ registry st' = registry st.
Proof.
  intros Hwf. unfold block_client, gets, mbind, M_bind. simpl.
  pose proof (add_blocked_client_spec (now_ms env) (blocklist st) (id_to_string i) why Hwf) as Hadd.
  destruct (add_blocked_client _ _ _ _) as [added bl] eqn:Ha.
  destruct Hadd as (_ & _ & Hadded & Hbl & _).
  assert (Hc : is_client_blocked bl (id_to_string i) = true).
  { rewrite Hbl, bool_decide_true by done. apply orb_true_r. }
  destruct added.
  - unfold persist. by destruct (persist_blocklist _ _ _ bl (fs st)).
  - unfold add_blocked_client in Ha. destruct (is_client_blocked (blocklist st) _) eqn:Hb; [|done].
    injection Ha as <-. by repeat split.
Qed.

(** A confirmed duplicate client is shut out: when a live connection of the
    same endpoint id carries another process nonce, the newcomer is refused
    without being registered, the id is blocklisted (so every later connection
    of it is rejected), each live connection of another process is closed, and
    the server keeps running. *)
Theorem duplicate_client_blocked env self conn s hello st :
  wf_blocklist (blocklist st) ->
  auth_ok self conn hello = true ->
  is_client_blocked (blocklist st) (id_to_string (remote_id conn)) = false ->
  duplicate_server_observed hello = false ->
  (exists s' e, entry (registry st) (remote_id conn) s' = Some e
     /\ live (now env) e /\ nonce e <> client_instance_nonce hello) ->
  let '(r, st') := handle_client env self conn s hello st in
  is_ok r = false
  /\ is_client_blocked (blocklist st') (id_to_string (remote_id conn)) = true
  /\ shutdown st' = shutdown st
  /\ (forall j t, entry (registry st') j t = entry (registry st) j t)
  /\ exists dups, dups <> []
       /\ map (fun c => (c, CLOSE_DUPLICATE, str "duplicate client id")) dups
            ⊆ closes st'.
Proof.
  intros Hwf Ha Hb Hd (s' & e & He & Hl & Hn).
  unfold handle_client, client_blocked, gets, mbind, M_bind at 1. simpl. rewrite Ha, Hb, Hd. simpl.
  unfold mbind, M_bind at 1, register.
  pose proof (try_register_spec (now env) (remote_id conn) s (client_instance_nonce hello)
     (handle conn) (client_key_of conn hello) (registry st)) as Hs.
  destruct (try_register _ _ _ _ _ _ _) as [[[]|dups] reg] eqn:Htry; destruct Hs as (Hok & _ & Herr).
  { destruct Hn. by eapply (proj1 Hok). }
  specialize (Herr ltac:(done)).
  assert (Hdups : dups <> []).
  { unfold try_register in Htry. case_bool_decide; by simplify_eq/=. }
  unfold reject_duplicate, mbind, M_bind at 1.
  pose proof (block_client_effect env (remote_id conn)
    (str "duplicate client id (concurrent live connections)") (with_registry st reg) Hwf) as Hbe.
  destruct (block_client _ _ _ _) as [r st1]. destruct Hbe as (-> & Hbl & Hcl & Hsd & Hreg).
  unfold M_bind at 1. rewrite close_all_closes. unfold M_bind at 1.
  destruct (send_ignoring_run (HelloResponse_rejected (server_instance_nonce self)
     (str "duplicate client id detected"))
     (with_closes st1 (closes st1 ++ map (fun c => (c, CLOSE_DUPLICATE, str "duplicate client id")) dups)))
     as [[e' ->]|[s2 ->]]; simpl;
    (repeat split; try done; [by rewrite Hreg|exists dups; split; [done|]]); set_solver.
Qed.
End handlers.
End proofs.

(** ** Witnesses *)

Lemma authentication_binds_connection_witness :
  @auth_ok RefIdentity RefNetwork RefResolver ref_server (ref_conn 7) (ref_hello 5 7 1 false) = true
  /\ @auth_ok RefIdentity RefNetwork RefResolver ref_server (ref_conn 8) (ref_hello 5 7 1 false) = false.
Proof.
  destruct (@authentication_binds_connection RefIdentity RefNetwork RefResolver ref_server (ref_conn 7)
              (ref_hello 5 7 1 false)) as [Hiff Hother]; [by vm_compute|].
  assert (Hok : @auth_ok RefIdentity RefNetwork RefResolver ref_server (ref_conn 7)
                  (ref_hello 5 7 1 false) = true) by (vm_compute; reflexivity).
  split; [exact Hok|]. apply Hother; [by vm_compute | by vm_compute | exact Hok].
Defined.

Section witnesses.
Import RefJson.
#[local] Existing Instance RefIdentity.
#[local] Existing Instance RefResolver.

Lemma handler_leaves_no_registration_witness :
  registries_kept (ref_state []) (handle_connection ref_env ref_server (Ok (ref_conn 7)) (ref_state [])).2.
Proof.
  apply (handler_leaves_no_registration ref_env ref_server (Ok (ref_conn 7)) (ref_state [])).
  - reflexivity.
  - intros i. simpl. rewrite lookup_empty. simpl. set_solver.
Defined.

Lemma self_block_is_durable_witness :
  let st' := (handle_client ref_env ref_server (ref_conn 7) 0 (ref_hello 5 7 1 true) (ref_state [])).2 in
  shutdown st' = true
  /\ exists bl, load (str "bl.json") (read_to_string (fs st') (str "bl.json") None) = Ok bl
       /\ is_server_conflicted bl (id_to_string (own_id ref_server)) = true.
Proof.
  destruct (self_block_is_durable (JsonLaws0 := reference_json_laws BlockListData _)
              ref_env ref_server (ref_conn 7) 0 (ref_hello 5 7 1 true) (ref_state []))
    as (Hs & _ & Hf); [by split; constructor | by vm_compute .. |].
  split; [exact Hs|]. apply Hf; reflexivity.
Defined.

Definition ref_busy_state : SrvState :=
  with_registry (ref_state []) (<[7 := <[0 := mkConnEntry 1 0 70 None]> ∅]> ∅).

Lemma duplicate_client_blocked_witness :
  let '(r, st') := handle_client ref_env ref_server (ref_conn 7) 1 (ref_hello 5 7 2 false)
                     ref_busy_state in
  is_ok r = false
  /\ is_client_blocked (blocklist st') (id_to_string (7 : @EndpointId RefIdentity)) = true.
Proof.
  pose proof (duplicate_client_blocked ref_env ref_server (ref_conn 7) 1
     (ref_hello 5 7 2 false) ref_busy_state) as Hd.
  destruct (handle_client _ _ _ _ _ _) as [r st'].
  destruct Hd as (Hr & Hb & _).
  - by split; constructor.
  - by vm_compute.
  - by vm_compute.
  - reflexivity.
  - exists 0, (mkConnEntry 1 0 70 None). repeat split; by vm_compute.
  - by split.
Defined.
End witnesses.
