(* ===== verification/ServerStream.v ===== *)
(** * Tunneled streams on the server ([proxy/server.rs], [proxy/status_page.rs])

    Host aliases, the choice of a bridge, the reserved namespace and the whole
    per-stream handler [handle_socks_stream]. A [HashMap] is its list of entries
    in iteration order; the askama templates are a parameter ([Render]); the
    chunking of a raw read is an argument ([reads]: how many bytes each
    successive read delivers before one of them fails or times out). *)

From S2P Require Import Prelude RustStr Net Stream Signaling RoutedSet DnsForward Dial.
From S2P Require Import Blocklist Registry Server.

(** ** Host aliases *)

Section aliases.

(** [HashMap::get]. *)
Fixpoint alias_get (aliases : list (bytes * bytes)) (key : bytes) : option bytes :=
  match aliases with
  | [] => None
  | (k, v) :: aliases' => if bool_decide (k = key) then Some v else alias_get aliases' key
  end.

(** The wildcard entries that match [host], with the length of their suffix. *)
Definition wildcard_hits (aliases : list (bytes * bytes)) (host : bytes) : list (Z * bytes) :=
  omap (fun kv => suffix ← strip_prefix (str "*.") kv.1;
                  if ends_with host (x2e :: suffix)
                  then Some (Z.of_nat (length suffix), kv.2) else None) aliases.

(** [Iterator::max_by_key] on the length: the last of the greatest. *)
Definition keep_longer (best : option (Z * bytes)) (hit : Z * bytes) : option (Z * bytes) :=
  match best with
  | None => Some hit
  | Some b => if b.1 <=? hit.1 then Some hit else Some b
  end.

Definition max_by_len (hits : list (Z * bytes)) : option (Z * bytes) :=
  fold_left keep_longer hits None.

Definition resolve_alias (aliases : list (bytes * bytes)) (host : bytes) : option bytes :=
  let host := to_ascii_lowercase host in
  match alias_get aliases host with
  | Some value => Some value
  | None => snd <$> max_by_len (wildcard_hits aliases host)
  end.

Definition apply_alias (t : Target) (aliases : list (bytes * bytes)) : Target :=
  match t with
  | Domain host port =>
      match resolve_alias aliases host with
      | Some mapped => Domain mapped port
      | None => t
      end
  | Ip _ => t
  end.
End aliases.

(** ** The status page *)

Definition STATUS_TEXT_PATH : bytes := str "/status.txt".
Definition STATUS_JSON_PATH : bytes := str "/status.json".
Definition CONTENT_TYPE_HTML : bytes := str "text/html; charset=utf-8".
Definition CONTENT_TYPE_TEXT : bytes := str "text/plain; charset=utf-8".
Definition CONTENT_TYPE_JSON : bytes := str "application/json; charset=utf-8".
Definition FALLBACK_BODY : bytes :=
  str "<!DOCTYPE html><title>flextunnel</title><p>status page unavailable</p>".
Definition FALLBACK_TEXT_BODY : bytes := str "flextunnel server status unavailable" ++ [x0a].
Definition FALLBACK_JSON_BODY : bytes :=
  [x7b; x22] ++ str "error" ++ [x22; x3a; x22] ++ str "flextunnel server status unavailable"
  ++ [x22; x7d; x0a].

Definition RESERVED_REQUEST_HEAD_LIMIT : nat := Z.to_nat (64 * 1024).

Inductive StatusFormat : Type := Html | Text | JsonFormat.

#[export] Instance StatusFormat_eq_dec : EqDecision StatusFormat.
Proof. solve_decision. Defined.

Record BridgeUpstreamStatus : Type := mkUpstreamStatus {
  us_name : bytes; us_endpoint_id : bytes; us_domains : list bytes; us_cidrs : list bytes;
  us_connected : bool }.

Record BridgeInboundStatus : Type := mkInboundStatus { in_endpoint_id : bytes; in_connected : bool }.

Record ServerStatusTemplate : Type := mkStatus {
  st_version : bytes;
  st_node_id : bytes;
  st_routed_domains : list bytes;
  st_routed_cidrs : list bytes;
  st_host_aliases : list (bytes * bytes);
  st_dns_forwards : list (bytes * list bytes);
  st_bridges : list BridgeUpstreamStatus;
  st_inbound_bridges : list BridgeInboundStatus;
  st_blocklist_path : bytes;
  st_blocked_client_count : nat;
  st_conflicted_server_count : nat;
}.

(** The templates (askama) and the JSON document of the status. *)
Class Render := {
  render_html : ServerStatusTemplate -> result bytes bytes;
  render_text : ServerStatusTemplate -> result bytes bytes;
  render_json : ServerStatusTemplate -> result bytes bytes;
  render_404 : result bytes bytes;
  pkg_version : bytes;
}.

Section status.
Context {RN : Render}.

Definition render_status (tpl : ServerStatusTemplate) (format : StatusFormat)
  : bytes * bytes * bytes :=
  match format with
  | Html => match render_html tpl with
            | Ok body => (str "200 OK", CONTENT_TYPE_HTML, body)
            | Err _ => (str "500 Internal Server Error", CONTENT_TYPE_HTML, FALLBACK_BODY)
            end
  | Text => match render_text tpl with
            | Ok body => (str "200 OK", CONTENT_TYPE_TEXT, body)
            | Err _ => (str "500 Internal Server Error", CONTENT_TYPE_TEXT, FALLBACK_TEXT_BODY)
            end
  | JsonFormat => match render_json tpl with
            | Ok body => (str "200 OK", CONTENT_TYPE_JSON, body ++ [x0a])
            | Err _ => (str "500 Internal Server Error", CONTENT_TYPE_JSON, FALLBACK_JSON_BODY)
            end
  end.

Definition render_reserved_404 : bytes * bytes * bytes :=
  (str "404 Not Found", CONTENT_TYPE_HTML,
   match render_404 with Ok body => body | Err _ => FALLBACK_BODY end).

Definition http_response (status_line content_type body : bytes) : bytes :=
  str "HTTP/1.1 " ++ status_line ++ CRLF
  ++ str "Content-Type: " ++ content_type ++ CRLF
  ++ str "Content-Length: " ++ dec (Z.of_nat (length body)) ++ CRLF
  ++ str "Connection: close" ++ CRLF
  ++ CRLF ++ body.

Definition write_tunnel_success : PIO () :=
  _ ← on_stream (write_reply REP_SUCCESS); flush.

Definition write_http_payload (status_line content_type body : bytes) : PIO () :=
  _ ← on_stream (write_all (http_response status_line content_type body)); flush.

Definition write_http_response (status_line content_type body : bytes) : PIO () :=
  _ ← write_tunnel_success; write_http_payload status_line content_type body.
End status.

(** ** The request of a reserved name *)

(** [str::split("\r\n")]. *)
Fixpoint split_lines_fuel (fuel : nat) (s : bytes) : list bytes :=
  match fuel with
  | O => [s]
  | S fuel' => match split_crlf s with
               | Some (l, r) => l :: split_lines_fuel fuel' r
               | None => [s]
               end
  end.
Definition split_lines (s : bytes) : list bytes := split_lines_fuel (length s) s.

(** [str::split_ascii_whitespace]. *)
Fixpoint split_ascii_ws (cur : bytes) (s : bytes) : list bytes :=
  match s with
  | [] => if bool_decide (cur = []) then [] else [rev cur]
  | b :: s' =>
      if is_ascii_whitespace b
      then (if bool_decide (cur = []) then split_ascii_ws [] s' else rev cur :: split_ascii_ws [] s')
      else split_ascii_ws (b :: cur) s'
  end.
Definition split_ascii_whitespace (s : bytes) : list bytes := split_ascii_ws [] s.

Definition strip_http_scheme (target : bytes) : option bytes :=
  let n := length (str "http://") in
  if bool_decide (length target < n)%nat then None
  else if eq_ignore_ascii_case (take n target) (str "http://") then Some (drop n target) else None.

Definition request_target_status_format (target : bytes) : option StatusFormat :=
  let path := match strip_http_scheme target with
              | Some rest => match find_split (fun b => bool_decide (b ∈ [x2f; x3f])) rest with
                             | Some (_, r) => r
                             | None => str "/"
                             end
              | None => target
              end in
  let path := match split_once x3f path with Some (p, _) => p | None => path end in
  if bool_decide (path = STATUS_TEXT_PATH) then Some Text
  else if bool_decide (path = STATUS_JSON_PATH) then Some JsonFormat
  else None.

Fixpoint find_map {A B} (f : A -> option B) (l : list A) : option B :=
  match l with
  | [] => None
  | x :: l' => match f x with Some y => Some y | None => find_map f l' end
  end.

Definition status_format_for_accept (value : bytes) : option StatusFormat :=
  find_map (fun part =>
    match split x3b (trim part) with
    | [] => None
    | first :: _ =>
        let media_type := trim first in
        if eq_ignore_ascii_case media_type (str "application/json") then Some JsonFormat
        else if eq_ignore_ascii_case media_type (str "text/plain") then Some Text
        else None
    end) (split x2c value).

Definition accept_header_format (line : bytes) : option StatusFormat :=
  match split_once x3a line with
  | None => None
  | Some (name, value) =>
      if eq_ignore_ascii_case name (str "accept") then status_format_for_accept value else None
  end.

Definition status_format_for_reserved_request (head : bytes) : StatusFormat :=
  if negb (utf8_valid head) then Html
  else
    let lines := split_lines head in
    let from_target :=
      match lines with
      | request_line :: _ =>
          match split_ascii_whitespace request_line with
          | _ :: target :: _ => request_target_status_format target
          | _ => None
          end
      | [] => None
      end in
    match from_target with
    | Some f => f
    | None => default Html (find_map accept_header_format (tail lines))
    end.

(** Does the head end, i.e. contain the empty line? *)
Fixpoint has_head_end (s : bytes) : bool :=
  starts_with s (CRLF ++ CRLF) || match s with [] => false | _ :: s' => has_head_end s' end.

(** Reads of at most 1024 bytes (and never past the limit) until the head is
    complete; each element of [reads] is the size of one successful read. *)
Fixpoint read_reserved_request_head (reads : list nat) (head : bytes) : IO bytes := fun s =>
  if bool_decide (length head < RESERVED_REQUEST_HEAD_LIMIT)%nat then
    match reads with
    | [] => (Ok head, s)
    | n :: reads' =>
        let n := Nat.min n (Nat.min 1024 (Nat.min (RESERVED_REQUEST_HEAD_LIMIT - length head)
                                                  (length (rx s)))) in
        if bool_decide (n = 0)%nat then (Ok head, s)
        else
          let head' := head ++ take n (rx s) in
          let s' := with_rx s (drop n (rx s)) in
          if has_head_end head' then (Ok head', s')
          else read_reserved_request_head reads' head' s'
    end
  else (Ok head, s).

(** The drain after the response: reads of at most 4096 bytes until the cap. *)
Fixpoint drain_reserved_request (reads : list nat) (drained : nat) : IO () := fun s =>
  if bool_decide (drained < RESERVED_REQUEST_HEAD_LIMIT)%nat then
    match reads with
    | [] => (Ok tt, s)
    | n :: reads' =>
        let n := Nat.min n (Nat.min 4096 (length (rx s))) in
        if bool_decide (n = 0)%nat then (Ok tt, s)
        else drain_reserved_request reads' (drained + n) (with_rx s (drop n (rx s)))
    end
  else (Ok tt, s).

(** ** The handler *)

(** A bridge's upstream as a stream handler meets it: down, refusing a new
    stream, or up with the stream it opens. *)
Inductive BridgeLink : Type :=
| LinkDown
| LinkOpenFails (why : bytes)
| LinkUp (s : Stream).

Section handler.
Context {ID : Identity} {NA : IpNetworkApi} {RA : ResolverApi} {NE : NetEnv} {RN : Render}.

(** The live state a handler reads besides the configuration. *)
Record StreamEnv : Type := mkStreamEnv {
  expired : option nat;                         (* the dial's deadline *)
  links : bytes -> BridgeLink;                  (* upstreams by bridge name *)
  head_reads : list nat;
  drain_reads : list nat;
  live_blocklist : BlockList;
  live_bridges : gmap EndpointId (gset Z);
}.

Definition is_connected (l : BridgeLink) : bool :=
  match l with LinkDown => false | _ => true end.

Definition outbound_bridge_status (env : StreamEnv) (self : ProxyServer) : list BridgeUpstreamStatus :=
  map (fun b => mkUpstreamStatus (bc_name b) (id_to_string (bc_endpoint_id b)) (bc_domains b)
                  (bc_cidrs b) (is_connected (links env (bc_name b)))) (bridges self).

Definition inbound_bridge_status (env : StreamEnv) (self : ProxyServer) : list BridgeInboundStatus :=
  isort (fun a b => bytes_le (in_endpoint_id a) (in_endpoint_id b))
    (map (fun i => mkInboundStatus (id_to_string i)
                     (bool_decide (is_Some (live_bridges env !! i))))
       (elements (allowed_bridge_servers self))).

Definition build_status_template (env : StreamEnv) (self : ProxyServer) : ServerStatusTemplate :=
  {| st_version := pkg_version;
     st_node_id := id_to_string (own_id self);
     st_routed_domains := routed_domains self;
     st_routed_cidrs := routed_cidrs self;
     st_host_aliases := sorted_host_aliases self;
     st_dns_forwards := server_dns_forwards self;
     st_bridges := outbound_bridge_status env self;
     st_inbound_bridges := inbound_bridge_status env self;
     st_blocklist_path := path (live_blocklist env);
     st_blocked_client_count := blocked_client_count (live_blocklist env);
     st_conflicted_server_count := conflicted_server_count (live_blocklist env) |}.

Definition bridge_for (self : ProxyServer) (t : Target) : option BridgeUpstreamConfig :=
  List.find (fun b => allows (bc_routed_set b) t) (bridges self).

Definition serve_reserved (env : StreamEnv) (self : ProxyServer) (is_status : bool) : PIO () :=
  _ ← (if is_status then
         _ ← write_tunnel_success;
         request_head ← on_stream (read_reserved_request_head (head_reads env) []);
         let '(status_line, content_type, body) :=
           render_status (build_status_template env self)
             (status_format_for_reserved_request request_head) in
         write_http_payload status_line content_type body
       else
         let '(status_line, content_type, body) := render_reserved_404 in
         write_http_response status_line content_type body);
  on_stream (drain_reserved_request (drain_reads env) 0).

(** A reply that ends the stream without anything having been dialed. *)
Definition refuse (rep : byte) : PIO () := _ ← on_stream (write_reply rep); flush.

(** The request forwarded on the bridge's stream. *)
Definition write_bridge_request (name : bytes) (s : Stream) (t : Target) : PIO () := fun c =>
  match write_request t s with
  | (Ok _, _) => emit (BridgeRequested name t) c
  | (Err e, _) => (Err e, c)
  end.

Definition route_to_bridge (env : StreamEnv) (b : BridgeUpstreamConfig) (t : Target) : PIO () :=
  match links env (bc_name b) with
  | LinkDown => refuse REP_HOST_UNREACHABLE
  | LinkOpenFails _ => refuse REP_HOST_UNREACHABLE
  | LinkUp s =>
      _ ← emit (BridgeOpened (bc_name b));
      _ ← write_bridge_request (bc_name b) s t;
      emit Piped
  end.

(** The three ways a stream is served, once its request is read. *)
Definition serve_routed (env : StreamEnv) (self : ProxyServer) (from_bridge : bool)
    (requested : Target) : PIO () :=
  if negb (allows (routed_set self) requested) then refuse REP_NOT_ALLOWED
  else match (if from_bridge then None else bridge_for self requested) with
       | Some b => route_to_bridge env b requested
       | None =>
           connect_and_pipe (expired env) (apply_alias requested (host_aliases self))
             (dns_forwarder self)
       end.

Definition serve_requested (env : StreamEnv) (self : ProxyServer) (from_bridge : bool)
    (requested : Target) : PIO () :=
  match requested with
  | Domain host port =>
      if is_reserved_host host then
        if is_localhost_host host
        then connect_and_pipe (expired env) (Domain (str "localhost") port) (dns_forwarder self)
        else serve_reserved env self (is_status_host host)
      else serve_routed env self from_bridge requested
  | Ip _ => serve_routed env self from_bridge requested
  end.

Definition handle_socks_stream (env : StreamEnv) (self : ProxyServer) (from_bridge : bool) : PIO () :=
  requested ← on_stream read_request;
  serve_requested env self from_bridge requested.
End handler.
