(* ===== verification/ServerStreamProofs.v ===== *)
(** * Theorems on tunneled streams

    Alias resolution and its independence of the map's iteration order, the
    whitelist as a safety property of everything a stream handler does, the
    single hop of bridged streams, and the bounds of the reserved requests. *)

From S2P Require Import Prelude RustStr Net Stream Signaling RoutedSet DnsForward Dial.
From S2P Require Import Blocklist Registry Server ServerStream.

(** ** Aliases *)

Definition distinct_keys (aliases : list (bytes * bytes)) : Prop := NoDup (map fst aliases).

Lemma alias_get_Some aliases key v :
  distinct_keys aliases -> alias_get aliases key = Some v <-> (key, v) ∈ aliases.
Proof.
  unfold distinct_keys. induction aliases as [|[k w] aliases IH]; simpl; intros Hd.
  - split; [done|]. by intros ?%not_elem_of_nil.
  - apply NoDup_cons in Hd as [Hk Hd]. rewrite elem_of_cons.
    case_bool_decide as Heq; [subst|rewrite IH by done; naive_solver].
    split; [intros [= ->]; by left|]. intros [[= ->]|Hin]; [done|].
    destruct Hk. apply list_elem_of_fmap. by exists (key, v).
Qed.

Lemma alias_get_None aliases key :
  alias_get aliases key = None <-> key ∉ map fst aliases.
Proof.
  induction aliases as [|[k w] aliases IH]; simpl.
  - split; [by intros _ ?%not_elem_of_nil|done].
  - rewrite not_elem_of_cons. case_bool_decide; [naive_solver|]. rewrite IH. naive_solver.
Qed.

(** The wildcard entry of [suffix] with value [v] matches [host]. *)
Definition wildcard_match (aliases : list (bytes * bytes)) (host suffix v : bytes) : Prop :=
  (str "*." ++ suffix, v) ∈ aliases /\ exists label, host = label ++ x2e :: suffix.

Lemma wildcard_hits_elem aliases host n v :
  (n, v) ∈ wildcard_hits aliases host
  <-> exists suffix, wildcard_match aliases host suffix v /\ n = Z.of_nat (length suffix).
Proof.
  unfold wildcard_hits, wildcard_match. rewrite list_elem_of_omap. split.
  - intros ([k w] & Hin & Hb). simpl in Hb.
    destruct (strip_prefix (str "*.") k) as [sfx|] eqn:Hs; simpl in Hb; [|done].
    apply strip_prefix_Some in Hs as ->.
    destruct (ends_with host (x2e :: sfx)) eqn:He; [|done]. injection Hb as <- <-.
    apply ends_with_true in He. eauto.
  - intros (sfx & [Hin Hl] & ->). eexists. split; [exact Hin|]. simpl.
    rewrite (proj2 (strip_prefix_Some (str "*.") _ sfx) eq_refl). simpl.
    by rewrite (proj2 (ends_with_true host (x2e :: sfx))).
Qed.

Lemma max_by_len_acc hits best :
  match fold_left keep_longer hits best with
  | None => best = None /\ hits = []
  | Some m => (Some m = best \/ m ∈ hits)
      /\ (forall h, h ∈ hits -> h.1 <= m.1) /\ (forall b, best = Some b -> b.1 <= m.1)
  end.
Proof.
  revert best. induction hits as [|h hits IH]; intros best; simpl.
  - destruct best as [b|]; [|done]. split; [by left|]. split; [by intros ? ?%not_elem_of_nil|].
    by intros ? [= <-].
  - specialize (IH (keep_longer best h)).
    destruct (fold_left _ hits _) as [m|]; unfold keep_longer in IH.
    + destruct IH as (Hin & Hle & Hb).
      assert (h.1 <= m.1 /\ (forall b, best = Some b -> b.1 <= m.1)
              /\ (Some m = best \/ m ∈ h :: hits)) as (Hh & Hbest & Hm).
      { destruct best as [b|]; [destruct (Z.leb_spec b.1 h.1)|];
          [specialize (Hb h eq_refl)|specialize (Hb b eq_refl)|specialize (Hb h eq_refl)];
          (split; [lia|]); (split; [intros ? [= <-]; lia || done|]); rewrite elem_of_cons;
          naive_solver. }
      split; [done|]. split; [|done]. intros h' [->|Hh']%elem_of_cons; [done|auto].
    + destruct IH as [Hn _]. destruct best as [b|]; [destruct (b.1 <=? h.1)|]; done.
Qed.

Lemma max_by_len_spec hits :
  match max_by_len hits with
  | None => hits = []
  | Some m => m ∈ hits /\ forall h, h ∈ hits -> h.1 <= m.1
  end.
Proof.
  pose proof (max_by_len_acc hits None) as Hm. unfold max_by_len.
  destruct (fold_left _ hits None); naive_solver.
Qed.

(** Suffixes of one host that are equally long are equal. *)
Lemma wildcard_unique aliases host s1 s2 v1 v2 :
  distinct_keys aliases -> wildcard_match aliases host s1 v1 -> wildcard_match aliases host s2 v2 ->
  length s1 = length s2 -> v1 = v2.
Proof.
  intros Hd [H1 [l1 ->]] [H2 [l2 Hl]] Hlen.
  apply suffix_same_length in Hl as [_ Hs]; [|simpl; lia]. injection Hs as ->.
  apply alias_get_Some in H1, H2; try done. congruence.
Qed.

Lemma resolve_alias_spec aliases host :
  distinct_keys aliases ->
  let h := to_ascii_lowercase host in
  match resolve_alias aliases host with
  | Some v => (h, v) ∈ aliases
      \/ ((h ∉ map fst aliases) /\ exists s, wildcard_match aliases h s v
           /\ forall s' v', wildcard_match aliases h s' v' -> (length s' <= length s)%nat)
  | None => (h ∉ map fst aliases) /\ forall s v, ~ wildcard_match aliases h s v
  end.
Proof.
  intros Hd h. unfold resolve_alias. fold h.
  destruct (alias_get aliases h) as [v|] eqn:Hg; [left; by apply alias_get_Some|].
  apply alias_get_None in Hg.
  pose proof (max_by_len_spec (wildcard_hits aliases h)) as Hm.
  destruct (max_by_len _) as [[n v]|]; simpl.
  - destruct Hm as [(s & Hs & ->)%wildcard_hits_elem Hmax]. right. split; [done|].
    exists s. split; [done|]. intros s' v' Hw.
    specialize (Hmax (Z.of_nat (length s'), v')). simpl in Hmax.
    rewrite wildcard_hits_elem in Hmax. specialize (Hmax ltac:(eauto)). lia.
  - split; [done|]. intros s v Hw.
    assert ((Z.of_nat (length s), v) ∈ wildcard_hits aliases h) as Hin
      by (apply wildcard_hits_elem; eauto).
    rewrite Hm in Hin. by apply not_elem_of_nil in Hin.
Qed.

(** Alias precedence: an exact alias always wins; otherwise the longest
    matching wildcard (subdomains only, label boundary, any letter case of the
    host) decides; without either, the host is left alone. *)
Theorem alias_precedence aliases host :
  distinct_keys aliases ->
  let h := to_ascii_lowercase host in
  match resolve_alias aliases host with
  | Some v => (h, v) ∈ aliases
      \/ ((h ∉ map fst aliases) /\ exists s, wildcard_match aliases h s v
           /\ forall s' v', wildcard_match aliases h s' v' -> (length s' <= length s)%nat)
  | None => (h ∉ map fst aliases) /\ forall s v, ~ wildcard_match aliases h s v
  end.
Proof. apply resolve_alias_spec. Qed.

Lemma wildcard_match_perm l l' h s v :
  l ≡ₚ l' -> wildcard_match l h s v <-> wildcard_match l' h s v.
Proof. intros Hp. unfold wildcard_match. by rewrite Hp. Qed.

(** The rewrite does not depend on the iteration order of the alias map. *)
Theorem alias_order_independent l l' host :
  l ≡ₚ l' -> distinct_keys l -> resolve_alias l host = resolve_alias l' host.
Proof.
  intros Hp Hd.
  assert (Hd' : distinct_keys l') by (unfold distinct_keys in *; by rewrite <- Hp).
  pose proof (resolve_alias_spec l host Hd) as H1.
  pose proof (resolve_alias_spec l' host Hd') as H2. cbv zeta in *.
  set (h := to_ascii_lowercase host) in *.
  assert (Hkeys : h ∈ map fst l <-> h ∈ map fst l') by (by rewrite Hp).
  assert (Hexact : forall v, (h, v) ∈ l -> h ∈ map fst l).
  { intros v Hv. apply list_elem_of_fmap. by exists (h, v). }
  destruct (resolve_alias l host) as [v|], (resolve_alias l' host) as [v'|]; [|exfalso..|done].
  - f_equal. destruct H1 as [H1|(Hn1 & s & Hs & Hmax)], H2 as [H2|(Hn2 & s' & Hs' & Hmax')].
    + rewrite <- Hp in H2. apply alias_get_Some in H1, H2; try done. congruence.
    + apply Hexact in H1. tauto.
    + rewrite <- Hp in H2. apply Hexact in H2. tauto.
    + rewrite <- (wildcard_match_perm l l') in Hs' by done.
      eapply (wildcard_unique l h s s'); [done..|].
      apply Nat.le_antisymm; [apply (Hmax' s v); by rewrite <- (wildcard_match_perm l l')|].
      by apply (Hmax s' v').
  - destruct H2 as [Hn2 Hw2]. destruct H1 as [H1%Hexact|(_ & s & Hs & _)]; [tauto|].
    rewrite (wildcard_match_perm l l') in Hs by done. by apply (Hw2 s v).
  - destruct H1 as [Hn1 Hw1]. destruct H2 as [H2|(_ & s & Hs & _)].
    + rewrite <- Hp in H2. apply Hexact in H2. tauto.
    + rewrite <- (wildcard_match_perm l l') in Hs by done. by apply (Hw1 s v').
Qed.

Lemma alias_precedence_witness :
  let al := [(str "*.web.internal", str "10.0.0.1"); (str "*.a.web.internal", str "10.0.0.2")] in
  let h := str "x.a.web.internal" in
  resolve_alias al (str "X.a.Web.internal") = Some (str "10.0.0.2")
  /\ match resolve_alias al h with
  | Some v => (to_ascii_lowercase h, v) ∈ al
      \/ ((to_ascii_lowercase h ∉ map fst al) /\ exists s, wildcard_match al (to_ascii_lowercase h) s v
           /\ forall s' v', wildcard_match al (to_ascii_lowercase h) s' v' -> (length s' <= length s)%nat)
  | None => (to_ascii_lowercase h ∉ map fst al) /\ forall s v, ~ wildcard_match al (to_ascii_lowercase h) s v
  end.
Proof.
  intros al h. split; [by vm_compute|].
  apply (alias_precedence al h). apply (bool_decide_unpack _). by vm_compute.
Defined.

Lemma alias_order_independent_witness :
  let a := (str "*.b.c", str "10.0.0.1") in let b := (str "*.c", str "10.0.0.2") in
  resolve_alias [a; b] (str "x.b.c") = resolve_alias [b; a] (str "x.b.c").
Proof.
  intros a b. apply alias_order_independent; [apply Permutation_swap|].
  apply (bool_decide_unpack _). by vm_compute.
Defined.

(** ** What a handler emits *)

Definition quiet (e : Event) : Prop := e = Flushed.

Section safety.
Context {ID : Identity} {NA : IpNetworkApi} {RA : ResolverApi} {NE : NetEnv} {RN : Render}.

Lemma flush_quiet : emits quiet flush.
Proof. unfold flush. by emit_tac. Qed.
#[local] Hint Resolve flush_quiet : emits.

Lemma refuse_quiet rep : emits quiet (refuse rep).
Proof. unfold refuse. emit_tac. Qed.

Lemma write_tunnel_success_quiet : emits quiet write_tunnel_success.
Proof. unfold write_tunnel_success. emit_tac. Qed.

Lemma write_http_payload_quiet a b c : emits quiet (write_http_payload a b c).
Proof. unfold write_http_payload. emit_tac. Qed.
#[local] Hint Resolve refuse_quiet write_tunnel_success_quiet write_http_payload_quiet : emits.

Lemma serve_reserved_quiet env self b : emits quiet (serve_reserved env self b).
Proof.
  unfold serve_reserved. apply emits_bind; [|intro; emit_tac]. destruct b.
  - emit_tac. destruct (render_status _ _) as [[? ?] ?]. emit_tac.
  - destruct render_reserved_404 as [[? ?] ?]. unfold write_http_response. emit_tac.
Qed.

Lemma connect_and_pipe_emits ex t fw :
  emits (fun e => e ∈ dial_plan t fw \/ e = Flushed \/ e = Piped) (connect_and_pipe ex t fw).
Proof.
  unfold connect_and_pipe. apply emits_bind.
  - apply emits_attempt, emits_deadline. eapply emits_mono; [|apply dial_target_emits]. auto.
  - intros [tcp|e]; emit_tac; unfold flush; emit_tac; auto.
Qed.

Lemma route_to_bridge_emits env b t :
  emits (fun e => e = Flushed \/ e = Piped \/ e = BridgeOpened (bc_name b)
                  \/ e = BridgeRequested (bc_name b) t) (route_to_bridge env b t).
Proof.
  unfold route_to_bridge. destruct (links env (bc_name b)) as [|why|s].
  1,2: eapply emits_mono; [|apply refuse_quiet]; intros e ->; auto.
  emit_tac; [auto| |auto]. intros c. unfold write_bridge_request.
  destruct (write_request t s) as [[u|e] s']; simpl.
  - eexists. split; [reflexivity|]. constructor; [auto|constructor].
  - exists []. by rewrite app_nil_r.
Qed.

(** What the handler of a stream that requested [t] may do. *)
Definition reserved_target (t : Target) : bool :=
  match t with Domain host _ => is_reserved_host host | Ip _ => false end.

Definition loopback_request (t : Target) (port : Z) : Prop :=
  exists host, t = Domain host port /\ is_localhost_host host = true.

Definition permitted (self : ProxyServer) (from_bridge : bool) (t : Target) (e : Event) : Prop :=
  e = Flushed
  \/ (exists port, loopback_request t port
       /\ (e ∈ map Connecting (loopback_addrs port) \/ e = Piped))
  \/ (reserved_target t = false /\ allows (routed_set self) t = true
      /\ ((e = Piped)
          \/ ((from_bridge = true \/ bridge_for self t = None)
              /\ e ∈ dial_plan (apply_alias t (host_aliases self)) (dns_forwarder self))
          \/ (from_bridge = false
              /\ exists b, bridge_for self t = Some b
                   /\ (e = BridgeOpened (bc_name b) \/ e = BridgeRequested (bc_name b) t)))).

Lemma localhost_plan port fw :
  dial_plan (Domain (str "localhost") port) fw = map Connecting (loopback_addrs port).
Proof. reflexivity. Qed.

Lemma serve_routed_permitted env self fb t :
  reserved_target t = false -> emits (permitted self fb t) (serve_routed env self fb t).
Proof.
  intros Hres. unfold serve_routed.
  destruct (allows (routed_set self) t) eqn:Hal; simpl.
  2:{ eapply emits_mono; [|apply refuse_quiet]. by left. }
  destruct (if fb then None else bridge_for self t) as [b|] eqn:Hb.
  - eapply emits_mono; [|apply route_to_bridge_emits]. intros e He. unfold permitted.
    destruct fb; [done|]. destruct He as [->|[->|He]]; [by left|right; right; eauto|].
    right; right. repeat split; try done. right; right. split; [done|]. eauto.
  - eapply emits_mono; [|apply connect_and_pipe_emits]. intros e [He|[->| ->]]; unfold permitted.
    + right; right. repeat split; try done. right; left. split; [|done].
      destruct fb; [by left|by right].
    + by left.
    + right; right. eauto.
Qed.

Lemma serve_requested_permitted env self fb t :
  emits (permitted self fb t) (serve_requested env self fb t).
Proof.
  unfold serve_requested. destruct t as [sa|host port]; [by apply serve_routed_permitted|].
  destruct (is_reserved_host host) eqn:Hr; [|by apply serve_routed_permitted].
  destruct (is_localhost_host host) eqn:Hl.
  - eapply emits_mono; [|apply connect_and_pipe_emits].
    rewrite localhost_plan. intros e [He|[->| ->]]; unfold permitted, loopback_request; eauto 8.
  - eapply emits_mono; [|apply serve_reserved_quiet]. by left.
Qed.

Lemma handle_socks_stream_log env self fb c :
  exists evs, log (handle_socks_stream env self fb c).2 = log c ++ evs
    /\ match (read_request (stream c)).1 with
       | Ok t => Forall (permitted self fb t) evs
       | Err _ => evs = []
       end.
Proof.
  unfold handle_socks_stream, mbind, M_bind, on_stream.
  destruct (read_request (stream c)) as [[t|e] s]; simpl.
  - apply (serve_requested_permitted env self fb t (mkConn s (log c))).
  - exists []. by rewrite app_nil_r.
Qed.

(** C1. The whitelist is a safety property of the whole stream handler: if a
    stream makes the server look up a name, connect, pipe, or use a bridge, then
    it carried a well-formed request for a target that the routed set allows
    (or for the server's own loopback name, and then only the two loopback
    addresses are connected to); what is dialed is the plan of the aliased
    target, what is bridged is the requested target verbatim on the first
    bridge whose rules match, and a stream that does not decode does nothing. *)
Theorem stream_whitelist_enforced env self fb c :
  exists evs, log (handle_socks_stream env self fb c).2 = log c ++ evs
    /\ match (read_request (stream c)).1 with
       | Ok t => Forall (permitted self fb t) evs
       | Err _ => evs = []
       end.
Proof. apply handle_socks_stream_log. Qed.

(** A bridge action. *)
Definition uses_bridge (e : Event) : bool :=
  match e with BridgeOpened _ | BridgeRequested _ _ => true | _ => false end.

Lemma connecting_no_bridge e l : e ∈ map Connecting l -> uses_bridge e = false.
Proof. rewrite list_elem_of_fmap. by intros (? & -> & _). Qed.

Lemma dial_plan_no_bridge t fw e : e ∈ dial_plan t fw -> uses_bridge e = false.
Proof.
  unfold dial_plan. destruct (loopback_port t), t as [sa|host port];
    rewrite ?elem_of_cons; intros He; try by eapply connecting_no_bridge.
  - destruct He as [->|He]; [done|]. by apply not_elem_of_nil in He.
  - destruct He as [->|He]; [done|]. by eapply connecting_no_bridge.
Qed.

(** Single hop: a stream that arrived over a bridge never uses a bridge
    again, so bridged servers cannot forward in a loop. *)
Theorem bridged_streams_never_rebridge env self c :
  exists evs, log (handle_socks_stream env self true c).2 = log c ++ evs
    /\ Forall (fun e => uses_bridge e = false) evs.
Proof.
  destruct (handle_socks_stream_log env self true c) as (evs & Hl & Hp). exists evs.
  split; [done|]. destruct (read_request (stream c)).1 as [t|e]; [|subst; constructor].
  eapply Forall_impl; [exact Hp|].
  intros e [->|[(port & _ & [He| ->])|(_ & _ & [->|[[_ He]|[He _]]])]]; try done.
  - by eapply connecting_no_bridge.
  - by eapply dial_plan_no_bridge.
Qed.

(** A request off the whitelist is answered by exactly the "not allowed"
    reply, and nothing else happens. *)
Theorem off_list_refused env self fb c t s :
  read_request (stream c) = (Ok t, s) -> tx_err s = None ->
  reserved_target t = false -> allows (routed_set self) t = false ->
  handle_socks_stream env self fb c
  = (Ok tt, mkConn (with_tx s (tx s ++ [STREAM_VERSION; REP_NOT_ALLOWED])) (log c ++ [Flushed])).
Proof.
  intros Hreq Htx Hres Hal. unfold handle_socks_stream, mbind, M_bind, on_stream. rewrite Hreq.
  assert (serve_requested env self fb t (mkConn s (log c))
          = serve_routed env self fb t (mkConn s (log c))) as ->.
  { unfold serve_requested. destruct t; [done|]. simpl in Hres. by rewrite Hres. }
  unfold serve_routed. rewrite Hal. cbn [negb].
  unfold refuse, mbind, M_bind, on_stream, write_reply. cbn [stream].
  by rewrite write_all_ok by done.
Qed.
End safety.

(** ** Bounds of the reserved requests *)

Lemma read_head_acc reads head0 s :
  (length head0 <= RESERVED_REQUEST_HEAD_LIMIT)%nat ->
  exists more s', read_reserved_request_head reads head0 s = (Ok (head0 ++ more), s')
    /\ rx s = more ++ rx s' /\ tx s' = tx s
    /\ (length (head0 ++ more) <= RESERVED_REQUEST_HEAD_LIMIT)%nat.
Proof.
  revert head0 s. induction reads as [|n reads IH]; intros head0 s Hlen; cbn [read_reserved_request_head].
  - exists [], s. rewrite app_nil_r. by case_bool_decide.
  - case_bool_decide as Hlt; [|exists [], s; by rewrite app_nil_r].
    set (m := Nat.min n _). case_bool_decide as Hm; [exists [], s; by rewrite app_nil_r|].
    assert (Hbound : (m <= RESERVED_REQUEST_HEAD_LIMIT - length head0)%nat
                     /\ (m <= length (rx s))%nat) by (unfold m; lia).
    assert (Hlen' : (length (head0 ++ take m (rx s)) <= RESERVED_REQUEST_HEAD_LIMIT)%nat).
    { rewrite length_app, length_take. lia. }
    destruct (has_head_end _).
    + exists (take m (rx s)), (with_rx s (drop m (rx s))). simpl. by rewrite take_drop.
    + destruct (IH _ (with_rx s (drop m (rx s))) Hlen') as (more & s' & Hrun & Hrx & Htx & Hl).
      exists (take m (rx s) ++ more), s'. cbn [rx with_rx] in Hrx.
      rewrite Hrun, <- !app_assoc, <- Hrx, take_drop. rewrite <- app_assoc in Hl. done.
Qed.

(** The head of a reserved request is read without consuming anything else
    and never grows past 64 KiB, whatever the peer sends and however its bytes
    are chunked. *)
Theorem reserved_head_bounded reads s :
  exists head s', read_reserved_request_head reads [] s = (Ok head, s')
    /\ rx s = head ++ rx s' /\ tx s' = tx s
    /\ Z.of_nat (length head) <= 64 * 1024.
Proof.
  destruct (read_head_acc reads [] s) as (head & s' & Hrun & Hrx & Htx & Hl); [simpl; lia|].
  exists head, s'. repeat split; try done. cbn [app] in Hl.
  unfold RESERVED_REQUEST_HEAD_LIMIT in Hl. lia.
Qed.

Lemma off_list_refused_witness :
  let NE := ref_net [] [] in
  let RN := Build_Render (fun _ => Ok []) (fun _ => Ok []) (fun _ => Ok []) (Ok []) [] in
  let env := @mkStreamEnv RefIdentity None (fun _ => LinkDown) [] []
               (mkBlockList [] BlockListData_default) ∅ in
  let req := request_frame (Domain (str "example.com") 443) in
  @handle_socks_stream RefIdentity RefNetwork RefResolver NE RN env ref_server false
    (mkConn (open_stream req) [])
  = (Ok tt, mkConn (with_tx (open_stream []) [STREAM_VERSION; REP_NOT_ALLOWED]) [Flushed]).
Proof.
  intros NE RN env req.
  apply (@off_list_refused RefIdentity RefNetwork RefResolver NE RN env ref_server false
           (mkConn (open_stream req) []) (Domain (str "example.com") 443) (open_stream []));
    vm_compute; reflexivity.
Defined.
