(* ===== verification/Startup.v ===== *)
(** * Server start-up ([server.rs]: [prepare])

    The validation between the loaded configuration and a bound server: every
    check in the order of the source, each failure a constructor of
    [PrepareError]. The theorems say what a server that gets past it is known to
    satisfy, and that a self-blocked identity does not. *)

From S2P Require Import Prelude RustStr Net Stream Signaling RoutedSet DnsForward Blocklist Registry.
From S2P Require Import Server ServerProofs.

(** Relay configuration and the size of a key set: iroh and flexaccess. *)
Class StartupApi `{Identity} := {
  RelayConfig : Type;
  from_urls_with_token : list bytes -> option bytes -> result bytes RelayConfig;
  custom_urls : RelayConfig -> list bytes;
  keys_is_empty : AuthorizedKeys -> bool;
}.

Section startup.
Context {ID : Identity} {NA : IpNetworkApi} {RA : ResolverApi} {SA : StartupApi}.
Context `{Json BlockListData}.

Record BridgeConfig : Type := mkBridgeEntry {
  endpoint_id : bytes;
  bridge_domains : list bytes;
  bridge_cidrs : list bytes;
}.

(** The secret key stands for the endpoint id it determines. *)
Record ServerOptions : Type := mkOptions {
  secret_key : EndpointId;
  opt_authorized_keys : AuthorizedKeys;
  quick_client : option EndpointId;
  first_client : bool;
  opt_relay_urls : list bytes;
  relay_auth_token : option bytes;
  opt_host_aliases : list (bytes * bytes);
  opt_routed_domains : list bytes;
  opt_routed_cidrs : list bytes;
  opt_dns_forwards : list (bytes * list bytes);
  opt_bridges : list (bytes * BridgeConfig);
  opt_allowed_bridge_servers : list bytes;
  blocklist_file : bytes;
}.

Inductive PrepareError : Type :=
| NoAuthorizedKeys
| BlocklistUnreadable (e : io_error)
| SelfBlocked (own : EndpointId)
| InvalidRoutedSet (e : RuleError)
| InvalidDnsForwards (e : DnsError)
| DnsSuffixNotCovered (suffix : bytes)
| InvalidAllowedBridge (raw : bytes)
| OwnIdAllowed (own : EndpointId)
| InvalidRelays (why : bytes)
| InvalidBridgeId (name raw : bytes)
| BridgeToSelf (name : bytes)
| InvalidBridgeRules (name : bytes) (e : RuleError)
| UnreachableBridgeRule (name : bytes) (e : RuleError).

Abbreviation R := (result PrepareError).

Fixpoint check_coverage (rs : RoutedSet) (suffixes : list bytes) : R () :=
  match suffixes with
  | [] => Ok tt
  | s :: suffixes' =>
      if negb (covers_suffix rs s) then Err (DnsSuffixNotCovered s)
      else check_coverage rs suffixes'
  end.

Definition validate_dns_forwards_coverage (forwarder : DnsForwarder) (rs : RoutedSet) : R () :=
  check_coverage rs (suffixes forwarder).

(** [collect] into a [HashSet], stopping at the first entry that does not parse. *)
Fixpoint parse_allowed (raws : list bytes) : R (gset EndpointId) :=
  match raws with
  | [] => Ok ∅
  | raw :: raws' =>
      i ← ok_or (id_parse raw) (InvalidAllowedBridge raw);
      rest ← parse_allowed raws';
      Ok ({[i]} ∪ rest)
  end.

Definition prepare_bridge (own : EndpointId) (rs : RoutedSet) (relays : list bytes) (name : bytes)
    (b : BridgeConfig) : R BridgeUpstreamConfig :=
  i ← ok_or (id_parse (endpoint_id b)) (InvalidBridgeId name (endpoint_id b));
  if bool_decide (i = own) then Err (BridgeToSelf name)
  else
  brs ← map_err (InvalidBridgeRules name) (RoutedSet_new (bridge_domains b) (bridge_cidrs b));
  _ ← map_err (UnreachableBridgeRule name)
        (validate_rules_reachable rs (bridge_domains b) (bridge_cidrs b));
  Ok {| bc_name := name; bc_endpoint_id := i; bc_relay_urls := relays; bc_routed_set := brs;
        bc_domains := bridge_domains b; bc_cidrs := bridge_cidrs b |}.

Fixpoint prepare_bridges (own : EndpointId) (rs : RoutedSet) (relays : list bytes)
    (bs : list (bytes * BridgeConfig)) : R (list BridgeUpstreamConfig) :=
  match bs with
  | [] => Ok []
  | (name, b) :: bs' =>
      c ← prepare_bridge own rs relays name b;
      rest ← prepare_bridges own rs relays bs';
      Ok (c :: rest)
  end.

Record PreparedServer : Type := mkPrepared {
  ps_own_id : EndpointId;
  ps_server : ProxyServer;
  ps_blocklist : BlockList;       (* part of the server's state *)
  ps_relay_config : RelayConfig;
  ps_allowlists : EndpointAllowlists;
}.

(** [content] is what reading the blocklist file gives, [nonce] the process nonce
    [ProxyServer::new] draws. *)
Definition prepare (content : result io_error bytes) (nonce : Z) (opts : ServerOptions)
  : R PreparedServer :=
  if keys_is_empty (opt_authorized_keys opts) && bool_decide (quick_client opts = None)
  then Err NoAuthorizedKeys
  else
  let own := secret_key opts in
  bl ← map_err BlocklistUnreadable (load (blocklist_file opts) content);
  if is_server_conflicted bl (id_to_string own) then Err (SelfBlocked own)
  else
  rs ← map_err InvalidRoutedSet (RoutedSet_new (opt_routed_domains opts) (opt_routed_cidrs opts));
  fwd ← map_err InvalidDnsForwards (DnsForwarder_new (opt_dns_forwards opts));
  _ ← match fwd with Some f => validate_dns_forwards_coverage f rs | None => Ok tt end;
  allowed ← parse_allowed (opt_allowed_bridge_servers opts);
  if bool_decide (own ∈ allowed) then Err (OwnIdAllowed own)
  else
  relays ← map_err InvalidRelays (from_urls_with_token (opt_relay_urls opts) (relay_auth_token opts));
  bridges ← prepare_bridges own rs (custom_urls relays) (opt_bridges opts);
  let allowlists := {| bridge_servers := allowed;
                       quick_clients := from_option (fun i => {[i]}) ∅ (quick_client opts) |} in
  let server := ProxyServer_new nonce
    {| pp_own_id := own; pp_authorized_keys := opt_authorized_keys opts;
       pp_allowed_bridge_servers := allowed; pp_host_aliases := opt_host_aliases opts;
       pp_routed_set := rs; pp_routed_domains := opt_routed_domains opts;
       pp_routed_cidrs := opt_routed_cidrs opts; pp_dns_forwarder := fwd; pp_bridges := bridges;
       pp_first_client := first_client opts |} in
  Ok (mkPrepared own server bl relays allowlists).

(** ** What a prepared server satisfies *)

Record well_configured (self : ProxyServer) (al : EndpointAllowlists) : Prop := mkWellConfigured {
  wc_rules : RoutedSet_new (routed_domains self) (routed_cidrs self) = Ok (routed_set self);
  wc_dns : forall f s, dns_forwarder self = Some f -> s ∈ suffixes f ->
    covers_suffix (routed_set self) s = true;
  wc_no_self_in : own_id self ∉ bridge_servers al;
  wc_allowed : bridge_servers al = allowed_bridge_servers self;
  wc_bridges : Forall (fun b =>
      bc_endpoint_id b <> own_id self
      /\ RoutedSet_new (bc_domains b) (bc_cidrs b) = Ok (bc_routed_set b)
      /\ validate_rules_reachable (routed_set self) (bc_domains b) (bc_cidrs b) = Ok tt)
    (bridges self);
  wc_bridges_sorted : StronglySorted (le_rel bridge_name_le) (bridges self);
}.

Lemma check_coverage_Ok rs l u :
  check_coverage rs l = Ok u -> forall s, s ∈ l -> covers_suffix rs s = true.
Proof.
  induction l as [|x l IH]; simpl; [set_solver|].
  destruct (covers_suffix rs x) eqn:Hx; simpl; [|done]. intros Hok s [->|Hs]%elem_of_cons; [done|].
  by apply IH.
Qed.

Lemma prepare_bridge_Ok own rs relays name b c :
  prepare_bridge own rs relays name b = Ok c ->
  bc_name c = name
  /\ bc_endpoint_id c <> own
  /\ RoutedSet_new (bc_domains c) (bc_cidrs c) = Ok (bc_routed_set c)
  /\ validate_rules_reachable rs (bc_domains c) (bc_cidrs c) = Ok tt.
Proof.
  unfold prepare_bridge. destruct (id_parse (endpoint_id b)) as [i|]; [simpl|done].
  case_bool_decide as Hi; [done|].
  destruct (RoutedSet_new _ _) as [brs|e] eqn:Hrs; [simpl|done].
  destruct (validate_rules_reachable _ _ _) as [[]|e] eqn:Hv; [|done].
  by intros [= <-].
Qed.

Lemma prepare_bridges_Ok own rs relays bs cs :
  prepare_bridges own rs relays bs = Ok cs ->
  map bc_name cs = map fst bs
  /\ Forall (fun c => bc_endpoint_id c <> own
       /\ RoutedSet_new (bc_domains c) (bc_cidrs c) = Ok (bc_routed_set c)
       /\ validate_rules_reachable rs (bc_domains c) (bc_cidrs c) = Ok tt) cs.
Proof.
  revert cs. induction bs as [|[name b] bs IH]; intros cs; simpl.
  { by intros [= <-]. }
  destruct (prepare_bridge own rs relays name b) as [c|e] eqn:Hc; [simpl|done].
  destruct (prepare_bridges own rs relays bs) as [rest|e]; [simpl|done]. intros [= <-].
  apply prepare_bridge_Ok in Hc as (<- & Hc). destruct (IH rest eq_refl) as [IHn IHc].
  split; [simpl; by rewrite IHn|]. by constructor.
Qed.

(** A run of [prepare] that succeeds took every branch. *)
Lemma prepare_inv content nonce opts ps :
  prepare content nonce opts = Ok ps ->
  exists bl rs fwd allowed relays bs,
    load (blocklist_file opts) content = Ok bl
    /\ is_server_conflicted bl (id_to_string (secret_key opts)) = false
    /\ RoutedSet_new (opt_routed_domains opts) (opt_routed_cidrs opts) = Ok rs
    /\ DnsForwarder_new (opt_dns_forwards opts) = Ok fwd
    /\ (forall f s, fwd = Some f -> s ∈ suffixes f -> covers_suffix rs s = true)
    /\ (secret_key opts ∉ allowed)
    /\ prepare_bridges (secret_key opts) rs (custom_urls relays) (opt_bridges opts) = Ok bs
    /\ ps = mkPrepared (secret_key opts)
         (ProxyServer_new nonce
            (mkParams (secret_key opts) (opt_authorized_keys opts) allowed (opt_host_aliases opts) rs
               (opt_routed_domains opts) (opt_routed_cidrs opts) fwd bs (first_client opts)))
         bl relays
         (mkAllowlists allowed (from_option (fun i => {[i]}) ∅ (quick_client opts)))
    /\ (keys_is_empty (opt_authorized_keys opts) = true -> quick_client opts <> None).
Proof.
  unfold prepare. destruct (_ && _) eqn:Hk; [done|].
  destruct (load _ _) as [bl|e]; unfold mbind, result_bind at 1; cbn [map_err]; [|done].
  destruct (is_server_conflicted _ _) eqn:Hc; [done|].
  destruct (RoutedSet_new _ _) as [rs|e] eqn:Hrs; unfold mbind, result_bind at 1; cbn [map_err]; [|done].
  destruct (DnsForwarder_new _) as [fwd|e] eqn:Hf; unfold mbind, result_bind at 1; cbn [map_err]; [|done].
  destruct (match fwd with Some f => _ | None => _ end) as [u|e] eqn:Hcov;
    unfold mbind, result_bind at 1; [|done].
  destruct (parse_allowed _) as [allowed|e]; unfold mbind, result_bind at 1; [|done].
  destruct (bool_decide (_ ∈ allowed)) eqn:Hown; [done|]. apply bool_decide_eq_false in Hown.
  destruct (from_urls_with_token _ _) as [relays|e]; unfold mbind, result_bind at 1; cbn [map_err]; [|done].
  destruct (prepare_bridges _ _ _ _) as [bs|e] eqn:Hbs; unfold mbind, result_bind at 1; [|done].
  intros [= <-]. exists bl, rs, fwd, allowed, relays, bs. repeat split; try done.
  - intros f s -> Hs. by apply (check_coverage_Ok rs (suffixes f) u).
  - intros He Hq. rewrite He, Hq in Hk. done.
Qed.

Lemma bridges_name_sorted bs : StronglySorted (le_rel bridge_name_le) (isort bridge_name_le bs).
Proof.
  apply isort_sorted.
  - intros x y. apply bytes_le_total.
  - intros x y z. apply bytes_le_trans.
Qed.

(** What start-up guarantees: a server that [prepare] accepts enforces exactly
    the routed set it pushes to clients, forwards DNS only for suffixes that set
    covers, bridges only to other servers and only by rules that set reaches,
    admits no connection of its own id as a bridge, and admits over the quick
    protocol exactly the configured client (nobody when there is none); and it
    has some credential to accept clients by. *)
Theorem prepare_well_configured content nonce opts ps :
  prepare content nonce opts = Ok ps ->
  well_configured (ps_server ps) (ps_allowlists ps)
  /\ is_server_conflicted (ps_blocklist ps) (id_to_string (own_id (ps_server ps))) = false
  /\ (forall i, after_handshake (ps_allowlists ps) SideServer QUICK_ALPN i = Accept
               <-> quick_client opts = Some i)
  /\ (keys_is_empty (authorized_keys (ps_server ps)) = true -> exists i, quick_client opts = Some i).
Proof.
  intros (bl & rs & fwd & allowed & relays & bs & _ & Hc & Hrs & _ & Hcov & Hown & Hbs & -> & Hk)%prepare_inv.
  apply prepare_bridges_Ok in Hbs as [_ Hbs]. simpl. split; [|split; [done|split]].
  - split; try done; simpl; [|apply bridges_name_sorted]. by rewrite isort_perm.
  - intros i. unfold after_handshake, gate. rewrite (bool_decide_false (QUICK_ALPN = BRIDGE_ALPN)) by by vm_compute.
    rewrite (bool_decide_true (QUICK_ALPN = QUICK_ALPN)) by done. simpl.
    destruct (quick_client opts) as [q|]; simpl; case_bool_decide as Hi; set_solver.
  - intros He. specialize (Hk He). destruct (quick_client opts) as [q|]; [by exists q|done].
Qed.

(** ** Restarting a self-blocked server *)

Context `{Json Hello, Json HelloResponse, Json BridgeHello, Json ControlMsg}.
Context `{!JsonLaws BlockListData (fun _ => True)}.

(** C12. A self-block survives a restart: once an authenticated client's
    duplicate-server advisory has been handled (and the blocklist could be
    written), the server is stopping, and every later start with the same
    identity and blocklist file is refused, whatever the rest of its
    configuration. *)
Theorem self_block_survives_restart env self conn s hello st nonce opts :
  wf_blocklist (blocklist st) -> faults env = no_faults ->
  auth_ok self conn hello = true ->
  is_client_blocked (blocklist st) (id_to_string (remote_id conn)) = false ->
  is_server_conflicted (blocklist st) (id_to_string (own_id self)) = false ->
  duplicate_server_observed hello = true ->
  let st' := (handle_client env self conn s hello st).2 in
  shutdown st' = true
  /\ (secret_key opts = own_id self -> blocklist_file opts = path (blocklist st) ->
      (keys_is_empty (opt_authorized_keys opts) = false \/ quick_client opts <> None) ->
      prepare (read_to_string (fs st') (blocklist_file opts) None) nonce opts
      = Err (SelfBlocked (own_id self))).
Proof.
  intros Hwf Hf Ha Hb Hnew Hd st'.
  destruct (self_block_is_durable env self conn s hello st Hwf Ha Hb Hd) as (Hsd & _ & Hload).
  split; [done|]. intros Hid Hfile Hkeys. destruct (Hload Hf Hnew) as (bl & Hbl & Hconf).
  unfold prepare. rewrite Hid, Hfile. fold st' in Hbl. rewrite Hbl. cbn [map_err].
  destruct (keys_is_empty _), (quick_client opts); destruct Hkeys; try done; simpl; by rewrite Hconf.
Qed.
End startup.

(** ** Witnesses *)

Section witnesses.
Import RefJson.
#[local] Existing Instances RefIdentity RefResolver.

(** Relay URLs kept as they are; an empty list is the empty key set. *)
#[local] Instance RefStartup : StartupApi := {|
  RelayConfig := list bytes;
  from_urls_with_token urls _ := Ok urls;
  custom_urls c := c;
  keys_is_empty (l : @AuthorizedKeys RefIdentity) := bool_decide (l = []);
|}.

(** Server 100 routing one zone, with one bridge, to server 200, for a part of it. *)
Definition ref_options : ServerOptions :=
  {| secret_key := 100; opt_authorized_keys := [5]; quick_client := None; first_client := false;
     opt_relay_urls := []; relay_auth_token := None; opt_host_aliases := [];
     opt_routed_domains := [str "*.corp.example"]; opt_routed_cidrs := []; opt_dns_forwards := [];
     opt_bridges := [(str "east", mkBridgeEntry (print_number 200) [str "*.east.corp.example"] [])];
     opt_allowed_bridge_servers := [print_number 200]; blocklist_file := str "bl.json" |}.

Definition no_file : result io_error bytes :=
  Err (mkIoError NotFound None (str "No such file or directory")).

Lemma prepare_well_configured_witness :
  exists ps, prepare no_file 1 ref_options = Ok ps
    /\ well_configured (ps_server ps) (ps_allowlists ps).
Proof.
  eexists. split; [reflexivity|].
  by apply (prepare_well_configured no_file 1 ref_options).
Defined.

Lemma self_block_survives_restart_witness :
  let st' := (handle_client ref_env ref_server (ref_conn 7) 0 (ref_hello 5 7 1 true) (ref_state [])).2 in
  prepare (read_to_string (fs st') (blocklist_file ref_options) None) 2 ref_options
  = Err (SelfBlocked (100 : EndpointId)).
Proof.
  apply (self_block_survives_restart (JsonLaws0 := reference_json_laws BlockListData _)
           ref_env ref_server (ref_conn 7) 0 (ref_hello 5 7 1 true) (ref_state []) 2 ref_options);
    [by split; constructor | reflexivity | by vm_compute | by vm_compute | by vm_compute
    | reflexivity | reflexivity | reflexivity | by left].
Defined.
End witnesses.
