(* ===== verification/Client.v ===== *)
(** * The client's connection manager ([proxy/client.rs])

    Backoff, the rebuild schedule, the duplicate-server tracker, the handshake,
    and the reconnect loop [manage_connection], one iteration at a time. What an
    iteration meets (clock, jitter, connect outcome, server bytes, session end,
    wake-ups) is its [IterEnv]. Every write to the state the accept loops read is
    logged in [trace], in program order, so that what they can observe at any
    moment is a prefix of it. *)

From S2P Require Import Prelude RustStr Net Stream Signaling RoutedSet DnsForward Blocklist Registry.
From S2P Require Import Server.

(** ** Constants: seconds, milliseconds, counts *)

Definition RECONNECT_BACKOFF_MAX_SECS : Z := 60.
Definition REBUILD_ENDPOINT_ATTEMPTS : Z := 3.
Definition REBUILD_ENDPOINT_MIN_INTERVAL : Z := 30 * 60 * 1000.
Definition RECONNECT_JITTER_MAX_MS : Z := 500.
Definition CLIENT_CONNECT_TIMEOUT_SECS : Z := 30.
Definition U32_MAX : Z := 2 ^ 32 - 1.

(** Milliseconds before the [attempt]-th (1-based) retry; [jitter] is the random
    draw. *)
Definition calculate_backoff (jitter attempt : Z) : Z :=
  let shift := Z.min (Z.max 0 (attempt - 1)) 16 in
  let secs := Z.min (Z.shiftl 1 shift) RECONNECT_BACKOFF_MAX_SECS in
  secs * 1000 + jitter.

Definition rebuild_due (now attempt : Z) (last_rebuild : option Z) : bool :=
  (REBUILD_ENDPOINT_ATTEMPTS <=? attempt)
  && match last_rebuild with
     | None => true
     | Some t => REBUILD_ENDPOINT_MIN_INTERVAL <=? now - t
     end.

(** ** Observed server nonces *)

Record ServerNonceTracker : Type := mkTracker { history : list Z; last : option Z }.

Definition tracker_default : ServerNonceTracker := mkTracker [] None.

(** The tracker and the latched flag; the result says whether this observation
    newly latched it. *)
Definition observe_server_nonce (n : Z) (st : ServerNonceTracker * bool)
  : bool * (ServerNonceTracker * bool) :=
  let '(t, flag) := st in
  match last t with
  | Some l =>
      if l =? n then (false, (t, flag))
      else if bool_decide (n ∈ history t)
      then (negb flag, (mkTracker (history t) (Some n), true))
      else (false, (mkTracker (history t ++ [n]) (Some n), flag))
  | None => (false, (mkTracker (history t ++ [n]) (Some n), flag))
  end.

(** The texts of [ProxyError]'s [Display]. *)
Definition error_display (e : ProxyError) : bytes :=
  match e with
  | Network e => str "Network error: " ++ text e
  | Config m => str "Configuration error: " ++ m
  | Signaling m => str "Signaling error: " ++ m
  | AuthenticationFailed m => str "Authentication failed: " ++ m
  | ConnectionLost m => str "Connection lost: " ++ m
  | DuplicateServerId m => str "Duplicate server identity: " ++ m
  end.

Record ReconnectStatus : Type := mkReconnect {
  failed_attempts : Z;
  last_error : option bytes;
  next_attempt_at : option Z;
}.

Definition ReconnectStatus_default : ReconnectStatus := mkReconnect 0 None None.

Record TunnelRoutes : Type := mkTunnelRoutes {
  connected : bool;
  domains : list bytes;
  tr_cidrs : list bytes;
  tr_host_aliases : list (bytes * bytes);
  tr_dns_forwards : list (bytes * list bytes);
  tr_bridges : list BridgeSummary;
}.

Definition TunnelRoutes_default : TunnelRoutes := mkTunnelRoutes false [] [] [] [] [].

(** ** The client *)

(** Client keys and relay URLs: flexaccess and iroh. *)
Class ClientKeyApi `{Identity} := {
  ClientKey : Type;
  key_public_str : ClientKey -> bytes;
  key_sign : ClientKey -> bytes -> EndpointId -> bytes;
  relay_url_ok : bytes -> bool;
}.

(** A key's printed public part parses, and its signatures verify under it. *)
Class ClientKeyLaws `{CK : ClientKeyApi} :=
  key_sign_verifies : forall k, exists pk, key_parse (key_public_str k) = Some pk
    /\ forall ctx i, verify_signature pk ctx i (key_sign k ctx i) = true.

Section client.
Context {ID : Identity} {NA : IpNetworkApi} {CK : ClientKeyApi}.

Inductive ClientAuth : Type :=
| Key (k : ClientKey)
| QuickAllowlisted.

Record ClientConfig : Type := mkClientConfig {
  server_node_id : bytes;
  cfg_auth : ClientAuth;
  socks_listen : option SocketAddr;
  http_listen : option SocketAddr;
  relay_urls : list bytes;
  cfg_relay_auth_token : option bytes;
  auto_reconnect : bool;
  max_reconnect_attempts : option Z;
}.

(** A write to the state shared with the accept loops. *)
Inductive Publish : Type :=
| PubPolicy (rs : RoutedSet)
| PubConn (c : option Z).

Record ClientState : Type := mkClient {
  tracker : ServerNonceTracker;
  duplicate_server : bool;
  routes : TunnelRoutes;
  reconnect : ReconnectStatus;
  network_available : bool;
  background : bool;
  attempt : Z;                  (* consecutive failed attempts *)
  last_rebuild : option Z;
  path_returned : bool;
  rebuilds : list Z;            (* when the endpoint was rebuilt *)
  nudges : list Z;              (* when it was told of a network change *)
  trace : list Publish;
}.

Definition set_attempt st a := mkClient (tracker st) (duplicate_server st) (routes st)
  (reconnect st) (network_available st) (background st) a (last_rebuild st) (path_returned st)
  (rebuilds st) (nudges st) (trace st).
Definition set_reconnect_status st r := mkClient (tracker st) (duplicate_server st) (routes st) r
  (network_available st) (background st) (attempt st) (last_rebuild st) (path_returned st)
  (rebuilds st) (nudges st) (trace st).
Definition set_tracker st t f := mkClient t f (routes st) (reconnect st) (network_available st)
  (background st) (attempt st) (last_rebuild st) (path_returned st) (rebuilds st) (nudges st) (trace st).
Definition set_routes st r := mkClient (tracker st) (duplicate_server st) r (reconnect st)
  (network_available st) (background st) (attempt st) (last_rebuild st) (path_returned st)
  (rebuilds st) (nudges st) (trace st).
Definition set_last_rebuild st l rb := mkClient (tracker st) (duplicate_server st) (routes st)
  (reconnect st) (network_available st) (background st) (attempt st) l (path_returned st) rb
  (nudges st) (trace st).
Definition set_path_returned st b := mkClient (tracker st) (duplicate_server st) (routes st)
  (reconnect st) (network_available st) (background st) (attempt st) (last_rebuild st) b
  (rebuilds st) (nudges st) (trace st).
Definition add_nudge st t := mkClient (tracker st) (duplicate_server st) (routes st)
  (reconnect st) (network_available st) (background st) (attempt st) (last_rebuild st)
  (path_returned st) (rebuilds st) (nudges st ++ [t]) (trace st).
Definition publish st p := mkClient (tracker st) (duplicate_server st) (routes st) (reconnect st)
  (network_available st) (background st) (attempt st) (last_rebuild st) (path_returned st)
  (rebuilds st) (nudges st) (trace st ++ [p]).

Definition set_background st b := mkClient (tracker st) (duplicate_server st) (routes st)
  (reconnect st) (network_available st) b (attempt st) (last_rebuild st) (path_returned st)
  (rebuilds st) (nudges st) (trace st).
Definition set_network_available st b := mkClient (tracker st) (duplicate_server st) (routes st)
  (reconnect st) b (background st) (attempt st) (last_rebuild st) (path_returned st)
  (rebuilds st) (nudges st) (trace st).

Definition set_connected (st : ClientState) (b : bool) : ClientState :=
  let r := routes st in
  set_routes st (mkTunnelRoutes b (domains r) (tr_cidrs r) (tr_host_aliases r) (tr_dns_forwards r)
                   (tr_bridges r)).

(** [ProxyClient::new] and the locals of [manage_connection]. *)
Definition ProxyClient_new : ClientState :=
  {| tracker := tracker_default; duplicate_server := false; routes := TunnelRoutes_default;
     reconnect := ReconnectStatus_default; network_available := true; background := false;
     attempt := 0; last_rebuild := None; path_returned := false; rebuilds := []; nudges := [];
     trace := [] |}.

(** ** Failures and waiting *)

Definition handle_failure (cfg : ClientConfig) (now jitter : Z) (e : ProxyError) (st : ClientState)
  : result ProxyError Z * ClientState :=
  if negb (auto_reconnect cfg) || negb (is_recoverable e) then (Err e, st)
  else
    let a := attempt st + 1 in
    let st := set_attempt st a in
    let giving_up := match max_reconnect_attempts cfg with Some max => max <? a | None => false end in
    if giving_up then (Err e, st)
    else
      let backoff := calculate_backoff jitter a in
      (Ok backoff, set_reconnect_status st (mkReconnect a (Some (error_display e)) (Some (now + backoff)))).

Definition reset_backoff (now : Z) (st : ClientState) : ClientState :=
  let st := set_attempt st 0 in
  set_reconnect_status st (mkReconnect (failed_attempts (reconnect st)) (last_error (reconnect st)) (Some now)).

(** How a backoff ends: the sleep runs out, the network path is lost, or the
    app is foregrounded (which only matters to an app that was backgrounded). *)
Inductive Wake : Type := Slept | PathLost | Foregrounded.

Definition wait_backoff (now : Z) (wake : Wake) (st : ClientState) : bool * ClientState :=
  if negb (network_available st) then (true, reset_backoff now st)
  else match wake with
       | Slept => (false, st)
       | PathLost => (true, reset_backoff now st)
       | Foregrounded => if background st then (true, reset_backoff now st) else (false, st)
       end.

(** ** Establishing a connection *)

Fixpoint check_relay_urls (urls : list bytes) : result ProxyError () :=
  match urls with
  | [] => Ok tt
  | u :: urls' => if relay_url_ok u then check_relay_urls urls'
                  else Err (Config (str "Invalid relay URL: " ++ u))
  end.

Definition resolve_server_addr (cfg : ClientConfig) : result ProxyError EndpointId :=
  server_id ← ok_or (id_parse (server_node_id cfg))
                (Config (str "Invalid server node ID: " ++ server_node_id cfg));
  _ ← check_relay_urls (relay_urls cfg);
  Ok server_id.

Definition client_alpn (cfg : ClientConfig) : bytes :=
  match cfg_auth cfg with
  | Key _ => ALPN
  | QuickAllowlisted => QUICK_ALPN
  end.

(** [Endpoint::connect] to an id with a protocol name, under the deadline:
    [None] is the timeout. *)
Abbreviation Connector := (EndpointId -> bytes -> option (result bytes Z)).

Definition connect_with_timeout (connect : Connector) (server_id : EndpointId) (alpn : bytes)
  : result ProxyError Z :=
  match connect server_id alpn with
  | None => Err (Signaling (str "timed out connecting to server after "
                            ++ dec CLIENT_CONNECT_TIMEOUT_SECS ++ str "s"))
  | Some (Err e) => Err (Signaling (str "Failed to connect to server: " ++ e))
  | Some (Ok c) => Ok c
  end.

Definition hello_auth (cfg : ClientConfig) (own : EndpointId) : option ClientAuthPayload :=
  match cfg_auth cfg with
  | Key k => Some {| public_key := key_public_str k; auth_endpoint_id := id_to_string own;
                     signature := key_sign k AUTH_CONTEXT own |}
  | QuickAllowlisted => None
  end.

(** What the handshake meets: the stream it opens, and whether the response
    comes in time. *)
Record HandshakeEnv : Type := mkHsEnv {
  own_endpoint : EndpointId;
  opened : result bytes Stream;
  response_in_time : bool;
}.

Section handshake.
Context `{Json Hello, Json HelloResponse, Json ControlMsg}.
Context (rule_text : RuleError -> bytes).   (* the printed configuration error *)

Abbreviation CM := (M (ClientState * Stream) ProxyError).

Definition on_control {A} (m : IO A) : CM A := fun '(st, s) =>
  let '(r, s') := m s in (map_err Network r, (st, s')).

Definition the_hello (cfg : ClientConfig) (instance_nonce : Z) (own : EndpointId)
    (st : ClientState) : Hello :=
  let h := Hello_new (hello_auth cfg own) instance_nonce in
  mkHello (hello_version h) (auth h) (client_instance_nonce h) (duplicate_server st).

Definition observe (n : Z) : CM bool := fun '(st, s) =>
  let '(newly, (t, f)) := observe_server_nonce n (tracker st, duplicate_server st) in
  (Ok newly, (set_tracker st t f, s)).

Definition publish_routes (r : HelloResponse) : CM () := fun '(st, s) =>
  (Ok tt, (set_routes st (mkTunnelRoutes true (Signaling.routed_domains r) (Signaling.routed_cidrs r)
             (Signaling.host_aliases r) (Signaling.dns_forwards r) (Signaling.bridges r)), s)).

(** The response of the server: version, nonce, verdict, routed set. *)
Definition accept_response (payload : bytes) : CM RoutedSet :=
  response ← lift (map_err Network (decode_hello_response payload));
  newly_flagged_duplicate ← observe (Signaling.server_instance_nonce response);
  if negb (accepted response)
  then fail (AuthenticationFailed (default (str "unknown") (reject_reason response)))
  else if (newly_flagged_duplicate : bool)
  then fail (ConnectionLost
         (str "duplicate server id detected; reconnecting to advise the server to self-block"))
  else
  rs ← lift (map_err (fun e => Signaling (str "server pushed an invalid routed set: " ++ rule_text e))
               (RoutedSet_new (Signaling.routed_domains response) (Signaling.routed_cidrs response)));
  _ ← publish_routes response;
  mret rs.

Definition handshake_on (cfg : ClientConfig) (instance_nonce : Z) (own : EndpointId)
    (in_time : bool) : CM RoutedSet := fun '(st, s) =>
  (payload ← lift (map_err Network (encode_hello (the_hello cfg instance_nonce own st)));
   _ ← on_control (write_message payload);
   response ← (if in_time then on_control (read_message MAX_HANDSHAKE_SIZE)
               else fail (Signaling (str "timed out waiting for server handshake response")));
   accept_response response) (st, s).

Definition handshake (cfg : ClientConfig) (instance_nonce : Z) (env : HandshakeEnv)
    (st : ClientState) : result ProxyError RoutedSet * ClientState :=
  match opened env with
  | Err e => (Err (Signaling (str "Failed to open handshake stream: " ++ e)), st)
  | Ok s =>
      let '(r, (st', _)) := handshake_on cfg instance_nonce (own_endpoint env) (response_in_time env)
                              (st, s) in (r, st')
  end.

Definition establish (cfg : ClientConfig) (instance_nonce : Z)
    (connect : Connector) (env : HandshakeEnv) (st : ClientState)
  : result ProxyError (Z * RoutedSet) * ClientState :=
  match resolve_server_addr cfg with
  | Err e => (Err e, st)
  | Ok server_id =>
      match connect_with_timeout connect server_id (client_alpn cfg) with
      | Err e => (Err e, st)
      | Ok c =>
          let '(r, st') := handshake cfg instance_nonce env st in
          ((rs ← r; Ok (c, rs)), st')
      end
  end.

(** ** The reconnect loop *)

Record IterEnv : Type := mkIter {
  it_now : Z;                             (* when the iteration starts *)
  it_connect : EndpointId -> bytes -> option (result bytes Z);
  it_handshake : HandshakeEnv;
  it_session : result ProxyError ();      (* how [maintain] ends *)
  it_jitter : Z;
  it_fail_now : Z;                        (* when the failure is handled *)
  it_wake : Wake;
  it_wake_now : Z;
  it_network : bool;                      (* the reported path at the failure *)
  it_background : bool;
}.

(** What the embedder has reported by the time a failure is handled. *)
Definition sense (env : IterEnv) (st : ClientState) : ClientState :=
  set_network_available (set_background st (it_background env)) (it_network env).

(** A failure: end the session with [Some], or wait and go round again. *)
Definition retry_or_end (cfg : ClientConfig) (env : IterEnv) (e : ProxyError) (st : ClientState)
  : option (result ProxyError ()) * ClientState :=
  match handle_failure cfg (it_fail_now env) (it_jitter env) e (sense env st) with
  | (Err fatal, st') => (Some (Err fatal), st')
  | (Ok _, st') =>
      let '(returned, st'') := wait_backoff (it_wake_now env) (it_wake env) st' in
      (None, set_path_returned st'' returned)
  end.

(** The escalation before an attempt: a rebuild (its failure only logs), or the
    rebind nudge [Endpoint::network_change] when retrying. *)
Definition escalate (now : Z) (st : ClientState) : ClientState :=
  if rebuild_due now (attempt st) (last_rebuild st)
  then set_last_rebuild st (Some now) (rebuilds st ++ [now])
  else if (0 <? attempt st) || path_returned st then add_nudge st now
  else st.

Definition manage_step (cfg : ClientConfig) (instance_nonce : Z) (env : IterEnv) (st : ClientState)
  : option (result ProxyError ()) * ClientState :=
  let st := publish (set_connected st false) (PubConn None) in
  let st := escalate (it_now env) st in
  match establish cfg instance_nonce (it_connect env) (it_handshake env) st with
  | (Err e, st) => retry_or_end cfg env e st
  | (Ok (c, rs), st) =>
      let st := set_reconnect_status (set_last_rebuild (set_attempt st 0) None (rebuilds st))
                  ReconnectStatus_default in
      let st := publish (publish st (PubPolicy rs)) (PubConn (Some c)) in
      let st := publish (set_connected st false) (PubConn None) in
      match it_session env with
      | Err e => retry_or_end cfg env e st
      | Ok _ => (Some (Ok tt), st)
      end
  end.

(** The loop over the iterations its environment gives it. *)
Fixpoint manage_connection (cfg : ClientConfig) (instance_nonce : Z) (envs : list IterEnv)
    (st : ClientState) : option (result ProxyError ()) * ClientState :=
  match envs with
  | [] => (None, st)
  | env :: envs' =>
      match manage_step cfg instance_nonce env st with
      | (Some r, st') => (Some r, st')
      | (None, st') => manage_connection cfg instance_nonce envs' st'
      end
  end.

(** ** The client's heartbeat loop *)

(** The [Debug] text of a control message. *)
Definition debug_control (m : ControlMsg) : bytes :=
  match m with
  | Heartbeat n => str "Heartbeat { seq: " ++ dec n ++ str " }"
  | HeartbeatAck n => str "HeartbeatAck { seq: " ++ dec n ++ str " }"
  end.

Definition heartbeat_interval (is_background : bool) : Z :=
  if is_background then HEARTBEAT_INTERVAL_IDLE else HEARTBEAT_INTERVAL.

(** The wait for the next beat: [now] is when the wait (re)starts, [background] the
    current mode, [flips] the changes of mode to come. The result is when the
    beat is sent and the cadence that was waited for. *)
Fixpoint wait_beat (last_beat now : Z) (background : bool) (flips : list (Z * bool)) : Z * Z :=
  let interval := heartbeat_interval background in
  let fire := Z.max now (last_beat + interval) in
  match flips with
  | [] => (fire, interval)
  | (t, mode) :: flips' =>
      if fire <=? t then (fire, interval) else wait_beat last_beat t mode flips'
  end.

Definition check_ack (n : Z) (m : ControlMsg) : result ProxyError () :=
  let wrong := Err (ConnectionLost (str "expected HeartbeatAck(" ++ dec n ++ str "), got "
                                    ++ debug_control m)) in
  match m with
  | HeartbeatAck a => if a =? n then Ok tt else wrong
  | Heartbeat _ => wrong
  end.

(** One beat; [ack_in_time] is false when the acknowledgement misses the
    liveness window of the cadence. *)
Definition client_heartbeat_step (seq : Z) (ack_in_time : bool) : M Stream ProxyError Z :=
  let seq := (seq + 1) mod 2 ^ 64 in
  payload ← lift (map_err Network (encode_control (Heartbeat seq)));
  _ ← map_error Network (write_message payload);
  reply ← (if ack_in_time
           then map_error (fun e => ConnectionLost (str "control stream closed: " ++ text e))
                  (read_message MAX_CONTROL_MSG_SIZE)
           else fail (ConnectionLost (str "heartbeat ack timed out")));
  msg ← lift (map_err Network (decode_control reply));
  _ ← lift (check_ack seq msg);
  mret seq.

(** The loop over its beats; it has no way to end but an error. *)
Fixpoint client_heartbeat_loop (seq : Z) (acks : list bool) : M Stream ProxyError Z :=
  match acks with
  | [] => mret seq
  | in_time :: acks' =>
      seq ← client_heartbeat_step seq in_time;
      client_heartbeat_loop seq acks'
  end.
End handshake.
End client.

(** ** Reference client: the reference identities' keys *)

Definition RefClientKey : @ClientKeyApi RefIdentity := {|
  ClientKey := Z : Type;
  key_public_str := print_number;
  key_sign k ctx (i : @EndpointId RefIdentity) := ref_sign k ctx i;
  relay_url_ok u := negb (bool_decide (u = []));
|}.

#[export] Instance RefClientKeyLaws : @ClientKeyLaws RefIdentity RefClientKey.
Proof.
  intros k. exists (k : Z). split.
  - cbn. unfold read_number, print_number. by rewrite bytes_positive_bytes, decode_encode.
  - intros ctx i. by apply bool_decide_eq_true.
Qed.

(** A client of server 100 with key [k] and [max] retries. *)
Definition ref_config (k : Z) (max : option Z) : @ClientConfig RefIdentity RefClientKey :=
  @mkClientConfig RefIdentity RefClientKey (print_number 100) (@Key RefIdentity RefClientKey k)
    None None [] None true max.

(** An iteration that times out at [now], its backoff ended by [wake]. *)
Definition ref_timeout (now : Z) (wake : Wake) (bg : bool) : @IterEnv RefIdentity :=
  @mkIter RefIdentity now (fun _ _ => None) (@mkHsEnv RefIdentity 7 (Ok (open_stream [])) true) (Ok tt) 0 now wake
    now true bg.
