(* ===== verification/ClientProofs.v ===== *)
(** * Theorems on the client's connection manager *)

From S2P Require Import Prelude RustStr Net Stream Signaling RoutedSet DnsForward Blocklist Registry.
From S2P Require Import Server Client.

(** ** Backoff *)

Lemma backoff_secs a :
  Z.min (Z.shiftl 1 (Z.min (Z.max 0 (a - 1)) 16)) RECONNECT_BACKOFF_MAX_SECS
  = if a <=? 6 then 2 ^ Z.max 0 (a - 1) else 60.
Proof.
  rewrite Z.shiftl_mul_pow2, Z.mul_1_l by lia. unfold RECONNECT_BACKOFF_MAX_SECS.
  destruct (Z.leb_spec a 6) as [Ha|Ha].
  - replace (Z.min (Z.max 0 (a - 1)) 16) with (Z.max 0 (a - 1)) by lia.
    pose proof (Z.pow_le_mono_r 2 (Z.max 0 (a - 1)) 5). lia.
  - pose proof (Z.pow_le_mono_r 2 6 (Z.min (Z.max 0 (a - 1)) 16)). lia.
Qed.

(** Backoff: a retry waits at least one second and at most the cap plus the
    jitter bound, the wait doubles with each of the first attempts and never
    decreases with the attempt number, for every value of the 32-bit counter. *)
Theorem backoff_bounds jitter attempt :
  0 <= attempt <= U32_MAX -> 0 <= jitter <= RECONNECT_JITTER_MAX_MS ->
  1000 <= calculate_backoff jitter attempt <= 60500
  /\ (attempt < U32_MAX -> calculate_backoff jitter attempt <= calculate_backoff jitter (attempt + 1))
  /\ (1 <= attempt <= 5 ->
      calculate_backoff 0 (attempt + 1) = 2 * calculate_backoff 0 attempt)
  /\ (7 <= attempt -> calculate_backoff 0 attempt = 60000).
Proof.
  unfold calculate_backoff, RECONNECT_JITTER_MAX_MS. intros Ha Hj. rewrite !backoff_secs.
  assert (Hp : forall a, 0 <= a -> a <= 6 -> 1 <= 2 ^ Z.max 0 (a - 1) <= 32).
  { intros a Ha0 Ha6. pose proof (Z.pow_le_mono_r 2 0 (Z.max 0 (a - 1))).
    pose proof (Z.pow_le_mono_r 2 (Z.max 0 (a - 1)) 5). lia. }
  assert (Hs : forall a, 1 <= a -> 2 ^ Z.max 0 (a + 1 - 1) = 2 * 2 ^ Z.max 0 (a - 1)).
  { intros a Ha1. rewrite <- Z.pow_succ_r by lia. f_equal. lia. }
  repeat split.
  - destruct (Z.leb_spec attempt 6); [specialize (Hp attempt)|]; lia.
  - destruct (Z.leb_spec attempt 6); [specialize (Hp attempt)|]; lia.
  - intros _. destruct (Z.leb_spec attempt 6), (Z.leb_spec (attempt + 1) 6); try lia.
    + pose proof (Z.pow_le_mono_r 2 (Z.max 0 (attempt - 1)) (Z.max 0 (attempt + 1 - 1))). lia.
    + specialize (Hp attempt). lia.
  - intros H1. destruct (Z.leb_spec attempt 6), (Z.leb_spec (attempt + 1) 6); try lia.
    rewrite (Hs attempt); lia.
  - intros H7. destruct (Z.leb_spec attempt 6); lia.
Qed.

Lemma backoff_bounds_witness : 1000 <= calculate_backoff 250 4 <= 60500.
Proof.
  apply (backoff_bounds 250 4); [unfold U32_MAX; lia | unfold RECONNECT_JITTER_MAX_MS; lia].
Defined.

(** ** The nonce tracker *)

Definition observe_all (ns : list Z) : ServerNonceTracker * bool :=
  fold_left (fun st n => (observe_server_nonce n st).2) ns (tracker_default, false).

(** A nonce is seen again after a different one. *)
Definition reappears (ns : list Z) : Prop :=
  exists a b p q r, a <> b /\ ns = p ++ a :: q ++ b :: r /\ a ∈ r.

Lemma observe_all_snoc ns n :
  observe_all (ns ++ [n]) = (observe_server_nonce n (observe_all ns)).2.
Proof. unfold observe_all. by rewrite fold_left_app. Qed.

Definition last_nonce (ns : list Z) : option Z := List.last (map Some ns) None.

Lemma last_nonce_snoc ns n : last_nonce (ns ++ [n]) = Some n.
Proof. unfold last_nonce. rewrite map_app. apply List.last_last. Qed.

Lemma tracker_inv ns :
  let '(t, _) := observe_all ns in
  Client.last t = last_nonce ns /\ forall n, n ∈ history t <-> n ∈ ns.
Proof.
  induction ns as [|n ns IH] using rev_ind; [split; [done|set_solver]|].
  rewrite observe_all_snoc, last_nonce_snoc.
  destruct (observe_all ns) as [t f]. destruct IH as [Hlast Hhist].
  unfold observe_server_nonce. destruct (Client.last t) as [l|] eqn:Hl.
  - destruct (Z.eqb_spec l n) as [->|Hne]; simpl.
    + split; [done|]. intros m. rewrite Hhist, elem_of_app, list_elem_of_singleton.
      split; [by left|]. intros [?| ->]; [done|].
      destruct ns as [|x ns] using rev_ind; [done|].
      rewrite last_nonce_snoc in Hlast. injection Hlast as ->. set_solver.
    + case_bool_decide as Hin; simpl; (split; [done|]); intros m; set_solver.
  - simpl. split; [done|]. intros m. set_solver.
Qed.

Lemma reappears_snoc ns n :
  reappears (ns ++ [n])
  <-> reappears ns \/ (n ∈ ns /\ exists l, last_nonce ns = Some l /\ l <> n).
Proof.
  split.
  - intros (a & b & p & q & r & Hab & Heq & Har).
    destruct r as [|x r _] using rev_ind; [by apply not_elem_of_nil in Har|].
    rewrite !app_comm_cons, !app_assoc in Heq. apply app_inj_tail in Heq as [-> ->].
    rewrite <- ?app_assoc. simpl.
    apply elem_of_app in Har as [Har|Har%list_elem_of_singleton].
    { left. exists a, b, p, q, r. split; [done|]. split; [by list_simplifier|done]. }
    subst x. destruct r as [|l r _] using rev_ind.
    + right. split; [set_solver|]. exists b.
      by rewrite !app_comm_cons, !app_assoc, last_nonce_snoc.
    + destruct (decide (l = a)) as [->|Hla].
      * left. exists a, b, p, q, (r ++ [a]).
        split; [done|]. split; [by list_simplifier|set_solver].
      * right. split; [set_solver|]. exists l. split; [|done].
        by rewrite !app_comm_cons, !app_assoc, last_nonce_snoc.
  - intros [(a & b & p & q & r & Hab & -> & Har)|[Hin (l & Hl & Hne)]].
    + exists a, b, p, q, (r ++ [n]).
      split; [done|]. split; [by list_simplifier|set_solver].
    + destruct ns as [|x ns _] using rev_ind; [done|].
      rewrite last_nonce_snoc in Hl. injection Hl as ->.
      apply elem_of_app in Hin as [Hin|Hin%list_elem_of_singleton]; [|done].
      apply list_elem_of_split in Hin as (p & q & ->).
      exists n, l, p, q, [n].
      split; [done|]. split; [by list_simplifier|set_solver].
Qed.

Lemma tracker_flag ns : (observe_all ns).2 = true <-> reappears ns.
Proof.
  induction ns as [|n ns IH] using rev_ind.
  - split; [done|]. intros (a & b & p & q & r & _ & Heq & _). by destruct p.
  - rewrite observe_all_snoc, reappears_snoc, <- IH.
    pose proof (tracker_inv ns) as Hinv. destruct (observe_all ns) as [t f].
    destruct Hinv as [Hlast Hhist]. rewrite <- Hlast, <- Hhist. simpl.
    destruct (Client.last t) as [l|]; [|naive_solver].
    destruct (Z.eqb_spec l n) as [->|Hne]; simpl; [naive_solver|].
    case_bool_decide; naive_solver.
Qed.

(** Duplicate-server detection is exact: after any sequence of handshakes
    the flag is latched if and only if some server nonce was seen again after a
    different one; in particular a single server that restarts any number of
    times, never reusing a nonce, is never accused. *)
Theorem duplicate_server_detection ns :
  ((observe_all ns).2 = true <-> reappears ns)
  /\ (NoDup ns -> (observe_all ns).2 = false).
Proof.
  split; [apply tracker_flag|]. intros Hnd. apply not_true_iff_false. rewrite tracker_flag.
  intros (a & b & p & q & r & Hab & -> & Har).
  apply NoDup_app in Hnd as (_ & _ & Hnd). apply NoDup_cons in Hnd as [Hn _]. set_solver.
Qed.

(** ** The reconnect loop *)

Section loop.
Context {ID : Identity} {NA : IpNetworkApi} {CK : ClientKeyApi}.
Context `{Json Hello, Json HelloResponse, Json ControlMsg}.
Context (rule_text : RuleError -> bytes).
Context (cfg : ClientConfig) (instance_nonce : Z).

Abbreviation step := (manage_step rule_text cfg instance_nonce).
Abbreviation run := (manage_connection rule_text cfg instance_nonce).
Abbreviation est := (establish rule_text cfg instance_nonce).

(** The part of the state the handshake does not touch. *)
Definition same_manager (st st' : ClientState) : Prop :=
  attempt st' = attempt st /\ last_rebuild st' = last_rebuild st
  /\ rebuilds st' = rebuilds st /\ trace st' = trace st.

Lemma observe_run n st s :
  exists newly t f, observe n (st, s) = (Ok newly, (set_tracker st t f, s)).
Proof.
  unfold observe. destruct (observe_server_nonce n (tracker st, duplicate_server st)) as [newly [t f]].
  by exists newly, t, f.
Qed.

Lemma accept_response_manager p st s :
  same_manager st (accept_response rule_text p (st, s)).2.1.
Proof.
  unfold accept_response, mbind, M_bind, lift.
  destruct (decode_hello_response p) as [r|e]; cbn [map_err]; [|done].
  destruct (observe_run (Signaling.server_instance_nonce r) st s) as (newly & t & f & ->).
  destruct (negb (accepted r)); [done|]. destruct newly; [done|].
  by destruct (RoutedSet_new _ _).
Qed.

Lemma handshake_manager env st :
  same_manager st (handshake rule_text cfg instance_nonce env st).2.
Proof.
  unfold handshake. destruct (opened env) as [s|e]; [|done].
  unfold handshake_on, mbind, M_bind, lift. simpl.
  destruct (encode_hello _) as [payload|e]; simpl; [|done].
  unfold on_control. destruct (write_message payload s) as [[u|e] s1]; simpl; [|done].
  destruct (response_in_time env); [|done].
  destruct (read_message MAX_HANDSHAKE_SIZE s1) as [[p|e] s2]; simpl; [|done].
  pose proof (accept_response_manager p st s2) as Ha.
  by destruct (accept_response rule_text p (st, s2)) as [r [st' s3]].
Qed.

Lemma establish_manager conn env st : same_manager st (est conn env st).2.
Proof.
  unfold establish. destruct (resolve_server_addr cfg); [|done].
  destruct (connect_with_timeout conn); [|done].
  pose proof (handshake_manager env st) as Hh.
  by destruct (handshake rule_text cfg instance_nonce env st).
Qed.

Lemma retry_or_end_fields env e st :
  let st' := (retry_or_end cfg env e st).2 in
  last_rebuild st' = last_rebuild st /\ rebuilds st' = rebuilds st /\ trace st' = trace st.
Proof.
  unfold retry_or_end, handle_failure. destruct (_ || _); [done|].
  destruct (match max_reconnect_attempts cfg with Some _ => _ | None => _ end); [done|].
  unfold wait_backoff. destruct (negb _); [done|].
  destruct (it_wake env); try done. by destruct (background _).
Qed.

Lemma escalate_fields now st :
  trace (escalate now st) = trace st /\ attempt (escalate now st) = attempt st.
Proof. unfold escalate. destruct rebuild_due; [done|]. by destruct (_ || _). Qed.

(** ** What the accept loops can see *)

Definition see (v : option RoutedSet * option Z) (p : Publish) : option RoutedSet * option Z :=
  match p with PubPolicy rs => (Some rs, v.2) | PubConn c => (v.1, c) end.

Definition visible (tr : list Publish) : option RoutedSet * option Z := fold_left see tr (None, None).

Definition fail_closed (tr : list Publish) : Prop :=
  forall pre, pre `prefix_of` tr -> is_Some (visible pre).2 -> is_Some (visible pre).1.

Lemma visible_snoc tr p : visible (tr ++ [p]) = see (visible tr) p.
Proof. unfold visible. by rewrite fold_left_app. Qed.

Lemma fail_closed_snoc tr p :
  fail_closed tr -> (is_Some (see (visible tr) p).2 -> is_Some (see (visible tr) p).1) ->
  fail_closed (tr ++ [p]).
Proof.
  intros Htr Hp pre [k Hk]. destruct k as [|x k _] using rev_ind.
  - rewrite app_nil_r in Hk. subst pre. by rewrite visible_snoc.
  - rewrite app_assoc in Hk. apply app_inj_tail in Hk as [-> _]. apply Htr. by exists k.
Qed.

Lemma fail_closed_no_conn tr : fail_closed tr -> fail_closed (tr ++ [PubConn None]).
Proof. intros Htr. apply fail_closed_snoc; [done|]. by intros [? [=]]. Qed.

(** One iteration publishes a lost connection, and then possibly a policy, the
    connection and its loss. *)
Lemma step_trace env st :
  trace (step env st).2 = trace st ++ [PubConn None]
  \/ exists c rs, trace (step env st).2
       = trace st ++ [PubConn None; PubPolicy rs; PubConn (Some c); PubConn None].
Proof.
  unfold manage_step.
  set (st1 := escalate (it_now env) _).
  assert (Ht1 : trace st1 = trace st ++ [PubConn None]) by exact (proj1 (escalate_fields _ _)).
  pose proof (establish_manager (it_connect env) (it_handshake env) st1) as (_ & _ & _ & Ht2).
  destruct (est (it_connect env) (it_handshake env) st1) as [[[c rs]|e] st2]; simpl in Ht2.
  - right. exists c, rs.
    assert (Heq : forall x : option (result ProxyError ()) * ClientState,
      trace x.2 = ((trace st2 ++ [PubPolicy rs]) ++ [PubConn (Some c)]) ++ [PubConn None] ->
      trace x.2 = trace st ++ [PubConn None; PubPolicy rs; PubConn (Some c); PubConn None]).
    { intros x ->. rewrite Ht2, Ht1. by list_simplifier. }
    apply Heq. destruct (it_session env) as [u|e]; [done|].
    by destruct (retry_or_end_fields env e (publish (set_connected (publish (publish
      (set_reconnect_status (set_last_rebuild (set_attempt st2 0) None (rebuilds st2))
         ReconnectStatus_default) (PubPolicy rs)) (PubConn (Some c))) false) (PubConn None)))
      as (_ & _ & ->).
  - left. destruct (retry_or_end_fields env e st2) as (_ & _ & ->). by rewrite Ht2, Ht1.
Qed.

Lemma run_fail_closed envs st :
  fail_closed (trace st) -> fail_closed (trace (run envs st).2).
Proof.
  revert st. induction envs as [|env envs IH]; intros st Hst; simpl; [done|].
  assert (Hstep : fail_closed (trace (step env st).2)).
  { destruct (step_trace env st) as [->|(c & rs & ->)]; [by apply fail_closed_no_conn|].
    apply fail_closed_no_conn in Hst.
    change ([PubConn None; PubPolicy rs; PubConn (Some c); PubConn None])
      with ([PubConn None] ++ [PubPolicy rs] ++ [PubConn (Some c)] ++ [PubConn None]).
    rewrite !app_assoc. apply fail_closed_no_conn.
    apply fail_closed_snoc; [apply fail_closed_snoc; [done|]|]; [by eexists|].
    rewrite visible_snoc. by eexists. }
  destruct (step env st) as [[r|] st']; [done|]. by apply IH.
Qed.

Lemma run_disconnected envs st :
  (visible (trace st)).2 = None -> (visible (trace (run envs st).2)).2 = None.
Proof.
  revert st. induction envs as [|env envs IH]; intros st Hst; simpl; [done|].
  assert (Hstep : (visible (trace (step env st).2)).2 = None).
  { destruct (step_trace env st) as [->|(c & rs & ->)]; unfold visible; by rewrite fold_left_app. }
  destruct (step env st) as [[r|] st']; [done|]. by apply IH.
Qed.

(** C9. Fail closed: at every moment of every run of the connection manager, an
    accept loop that sees a live connection also sees a route policy (the policy
    is published before the connection); between sessions, during every backoff
    and after the manager has returned, no connection is visible. *)
Theorem policy_before_connection envs :
  fail_closed (trace (run envs ProxyClient_new).2)
  /\ (visible (trace (run envs ProxyClient_new).2)).2 = None.
Proof.
  split; [|by apply run_disconnected].
  apply run_fail_closed. intros pre Hpre. apply prefix_nil_inv in Hpre as ->. by intros [? [=]].
Qed.

(** ** Outages *)

(** The server cannot be reached in this iteration. *)
Definition unreachable (env : IterEnv) : Prop :=
  forall server_id alpn,
    match it_connect env server_id alpn with Some (Ok _) => False | _ => True end.

Lemma unreachable_establish env st :
  unreachable env ->
  exists e, est (it_connect env) (it_handshake env) st = (Err e, st)
    /\ (is_ok (resolve_server_addr cfg) = true -> is_recoverable e = true).
Proof.
  unfold unreachable, establish. intros Hu.
  destruct (resolve_server_addr cfg) as [i|e]; [|by eexists].
  unfold connect_with_timeout. specialize (Hu i (client_alpn cfg)).
  destruct (it_connect env i (client_alpn cfg)) as [[c|e]|]; [done|by eexists..].
Qed.

Lemma unreachable_step env st :
  unreachable env ->
  exists e, step env st
      = retry_or_end cfg env e (escalate (it_now env) (publish (set_connected st false) (PubConn None)))
    /\ (is_ok (resolve_server_addr cfg) = true -> is_recoverable e = true).
Proof.
  intros Hu. unfold manage_step.
  destruct (unreachable_establish env
    (escalate (it_now env) (publish (set_connected st false) (PubConn None))) Hu) as (e & -> & He).
  by exists e.
Qed.

Definition last_of (l : list Z) : option Z := last_nonce l.

(** Consecutive rebuilds are at least the minimum interval apart. *)
Definition spaced (l : list Z) : Prop :=
  forall p a b q, l = p ++ a :: b :: q -> REBUILD_ENDPOINT_MIN_INTERVAL <= b - a.

Lemma spaced_snoc l b :
  spaced l -> (forall a, last_of l = Some a -> REBUILD_ENDPOINT_MIN_INTERVAL <= b - a) ->
  spaced (l ++ [b]).
Proof.
  intros Hl Hb p a c q Heq. destruct q as [|x q _] using rev_ind.
  - change (a :: [c]) with ([a] ++ [c]) in Heq. rewrite app_assoc in Heq.
    apply app_inj_tail in Heq as [-> ->]. apply Hb. apply last_nonce_snoc.
  - rewrite !app_comm_cons, app_assoc in Heq. apply app_inj_tail in Heq as [-> _].
    by eapply Hl.
Qed.

Definition rebuild_inv (st : ClientState) : Prop :=
  last_rebuild st = last_of (rebuilds st) /\ spaced (rebuilds st).

Lemma escalate_inv now st : rebuild_inv st -> rebuild_inv (escalate now st).
Proof.
  intros [Hl Hs]. unfold escalate. destruct (rebuild_due _ _ _) eqn:Hd; [|by destruct (_ || _)].
  split; simpl; [by rewrite (last_nonce_snoc (rebuilds st))|].
  apply spaced_snoc; [done|]. intros a Ha. rewrite Hl, Ha in Hd.
  unfold rebuild_due in Hd. lia.
Qed.

Lemma outage_rebuild_inv envs st :
  Forall unreachable envs -> rebuild_inv st -> rebuild_inv (run envs st).2.
Proof.
  intros Hall. revert st. induction Hall as [|env envs Hu _ IH]; intros st Hst; simpl; [done|].
  assert (Hinv : rebuild_inv (step env st).2).
  { destruct (unreachable_step env st Hu) as (e & -> & _).
    unfold rebuild_inv.
    set (st1 := escalate (it_now env) (publish (set_connected st false) (PubConn None))).
    destruct (retry_or_end_fields env e st1) as (-> & -> & _).
    by apply escalate_inv. }
  destruct (step env st) as [[r|] st']; [done|]. by apply IH.
Qed.

(** The endpoint is rebuilt sparingly: within an outage of any length, and
    whatever wakes the loop, consecutive rebuilds are at least thirty minutes
    apart, and none happens before three consecutive failed attempts. *)
Theorem rebuild_schedule envs st :
  Forall unreachable envs -> rebuilds st = [] -> last_rebuild st = None ->
  spaced (rebuilds (run envs st).2)
  /\ forall now st', rebuilds (escalate now st') <> rebuilds st' -> REBUILD_ENDPOINT_ATTEMPTS <= attempt st'.
Proof.
  intros Hall Hr Hl. split.
  - apply outage_rebuild_inv; [done|]. split; [by rewrite Hl, Hr|].
    intros p a b q Heq. rewrite Hr in Heq. by destruct p.
  - intros now st' Hne. unfold escalate in Hne. destruct (rebuild_due _ _ _) eqn:Hd; [|by destruct (_ || _)].
    unfold rebuild_due in Hd. lia.
Qed.

(** ** The retry cap *)

(** An iteration whose backoff is slept out with the network up. *)
Definition undisturbed_wait (env : IterEnv) : Prop := it_network env = true /\ it_wake env = Slept.

Lemma failing_step env st m :
  auto_reconnect cfg = true -> max_reconnect_attempts cfg = Some m ->
  is_ok (resolve_server_addr cfg) = true ->
  unreachable env -> undisturbed_wait env ->
  if attempt st + 1 <=? m
  then exists st', step env st = (None, st') /\ attempt st' = attempt st + 1
  else exists e st', step env st = (Some (Err e), st') /\ attempt st' = attempt st + 1.
Proof.
  intros Hauto Hmax Haddr Hu [Hnet Hwake].
  destruct (unreachable_step env st Hu) as (e & -> & Hrec). specialize (Hrec Haddr).
  set (st1 := escalate (it_now env) (publish (set_connected st false) (PubConn None))).
  assert (Ha : attempt st1 = attempt st) by exact (proj2 (escalate_fields _ _)).
  unfold retry_or_end, handle_failure. rewrite Hauto, Hrec, Hmax. cbn [negb orb].
  cbn [attempt sense set_background set_network_available]. rewrite Ha.
  destruct (Z.leb_spec (attempt st + 1) m).
  - rewrite (proj2 (Z.ltb_ge m (attempt st + 1))) by lia.
    unfold wait_backoff. simpl. rewrite Hnet, Hwake. simpl. by eexists.
  - rewrite (proj2 (Z.ltb_lt m (attempt st + 1))) by lia. by eexists _, _.
Qed.

Lemma capped_run envs st m :
  auto_reconnect cfg = true -> max_reconnect_attempts cfg = Some m ->
  is_ok (resolve_server_addr cfg) = true ->
  Forall unreachable envs -> Forall undisturbed_wait envs ->
  if attempt st + Z.of_nat (length envs) <=? m
  then exists st', run envs st = (None, st') /\ attempt st' = attempt st + Z.of_nat (length envs)
  else attempt st <= m -> exists e st', run envs st = (Some (Err e), st') /\ attempt st' = m + 1.
Proof.
  intros Hauto Hmax Haddr Hu Hw. revert st Hw.
  induction Hu as [|env envs Hu _ IH]; intros st Hw.
  - simpl. rewrite Z.add_0_r. destruct (Z.leb_spec (attempt st) m); [by exists st|lia].
  - apply Forall_cons in Hw as [Hw1 Hw]. cbn [length manage_connection]. rewrite Nat2Z.inj_succ.
    pose proof (failing_step env st m Hauto Hmax Haddr Hu Hw1) as Hstep.
    destruct (Z.leb_spec (attempt st + 1) m).
    + destruct Hstep as (st1 & -> & Ha). specialize (IH st1 Hw). rewrite Ha in IH.
      replace (attempt st + Z.succ (Z.of_nat (length envs)))
        with (attempt st + 1 + Z.of_nat (length envs)) by lia.
      destruct (Z.leb_spec (attempt st + 1 + Z.of_nat (length envs)) m); [done|].
      intros _. apply IH. lia.
    + destruct Hstep as (e & st1 & -> & Ha).
      rewrite (proj2 (Z.leb_gt (attempt st + Z.succ (Z.of_nat (length envs))) m)) by lia.
      intros Hle. exists e, st1. split; [done|]. lia.
Qed.

(** C37. The retry cap: against an unreachable server, with auto-reconnect on and
    a cap of [m] retries, and nothing waking the backoffs early, the session is
    still retrying after any [n <= m] failures and ends with the error at failure
    [m + 1]. *)
Theorem retry_cap envs m :
  auto_reconnect cfg = true -> max_reconnect_attempts cfg = Some m -> 0 <= m ->
  is_ok (resolve_server_addr cfg) = true ->
  Forall unreachable envs -> Forall undisturbed_wait envs ->
  (Z.of_nat (length envs) <= m -> (run envs ProxyClient_new).1 = None)
  /\ (m < Z.of_nat (length envs) ->
      exists e, (run envs ProxyClient_new).1 = Some (Err e)
        /\ attempt (run envs ProxyClient_new).2 = m + 1).
Proof.
  intros Hauto Hmax Hm Haddr Hu Hw.
  pose proof (capped_run envs ProxyClient_new m Hauto Hmax Haddr Hu Hw) as Hc.
  cbn [attempt ProxyClient_new] in Hc. rewrite Z.add_0_l in Hc.
  destruct (Z.leb_spec (Z.of_nat (length envs)) m) as [Hle|Hgt]; split; intros Hx; try lia.
  - by destruct Hc as (st' & -> & _).
  - destruct (Hc Hm) as (e & st' & -> & Ha). by exists e.
Qed.

(** The cap counts failures since the last wake-up, not since the last
    success: a backgrounded app that is foregrounded during every backoff
    retries forever, whatever the cap (of at least one retry). *)
Theorem cap_reset_by_wakes envs st m :
  auto_reconnect cfg = true -> max_reconnect_attempts cfg = Some m -> 1 <= m ->
  is_ok (resolve_server_addr cfg) = true -> attempt st = 0 ->
  Forall (fun env => unreachable env /\ it_network env = true
            /\ it_background env = true /\ it_wake env = Foregrounded) envs ->
  (run envs st).1 = None.
Proof.
  intros Hauto Hmax Hm Haddr Hst Hall. revert st Hst.
  induction Hall as [|env envs (Hu & Hnet & Hbg & Hwake) _ IH]; intros st Hst; simpl; [done|].
  destruct (unreachable_step env st Hu) as (e & -> & Hrec). specialize (Hrec Haddr).
  set (st1 := escalate (it_now env) (publish (set_connected st false) (PubConn None))).
  assert (Ha : attempt st1 = 0) by (rewrite <- Hst; exact (proj2 (escalate_fields _ _))).
  unfold retry_or_end, handle_failure. rewrite Hauto, Hrec, Hmax. cbn [negb orb].
  cbn [attempt sense set_background set_network_available]. rewrite Ha, (proj2 (Z.ltb_ge m (0 + 1))) by lia.
  unfold wait_backoff. simpl. rewrite Hnet, Hwake, Hbg. simpl. by apply IH.
Qed.

(** A permanent failure ends the session at once: whatever the reconnect
    settings, an error that is not recoverable (a rejected credential, a bad
    configuration) is returned without counting an attempt or waiting. *)
Theorem permanent_failure_is_final env e st :
  is_recoverable e = false -> (retry_or_end cfg env e st).1 = Some (Err e)
  /\ attempt (retry_or_end cfg env e st).2 = attempt st.
Proof.
  intros He. unfold retry_or_end, handle_failure. rewrite He, orb_true_r. done.
Qed.

(** ** Every retry refreshes the endpoint *)

Definition refreshes (st : ClientState) : nat := length (rebuilds st) + length (nudges st).

Lemma retry_marks env e st st' :
  0 <= attempt st -> retry_or_end cfg env e st = (None, st') ->
  0 <= attempt st' /\ (0 <? attempt st') || path_returned st' = true.
Proof.
  unfold retry_or_end, handle_failure. intros Hst. destruct (_ || _); [done|].
  destruct (match max_reconnect_attempts cfg with Some _ => _ | None => _ end); [done|].
  unfold wait_backoff. cbn [sense set_background set_network_available set_attempt attempt network_available background set_reconnect_status].
  destruct (negb (it_network env)); [by intros [= <-]|].
  assert (Hpos : (0 <? attempt st + 1) = true) by lia.
  destruct (it_wake env), (it_background env); intros [= <-]; simpl; rewrite ?Hpos;
    (split; [lia|done]).
Qed.

Lemma step_attempt_nonneg env st st' :
  0 <= attempt st -> step env st = (None, st') ->
  0 <= attempt st' /\ (0 <? attempt st') || path_returned st' = true.
Proof.
  unfold manage_step. set (st1 := escalate (it_now env) _). intros Hst.
  assert (Ha1 : attempt st1 = attempt st) by exact (proj2 (escalate_fields _ _)).
  pose proof (establish_manager (it_connect env) (it_handshake env) st1) as (Ha2 & _).
  destruct (est (it_connect env) (it_handshake env) st1) as [[[c rs]|e] st2]; simpl in Ha2.
  - destruct (it_session env) as [u|e]; [done|]. by apply retry_marks.
  - apply retry_marks. lia.
Qed.

Lemma run_attempt_marks env envs st st' :
  0 <= attempt st -> run (env :: envs) st = (None, st') ->
  (0 <? attempt st') || path_returned st' = true.
Proof.
  revert env st. induction envs as [|env' envs IH]; intros env st Hst Hrun; simpl in Hrun.
  - destruct (step env st) as [[r|] st1] eqn:Hs; [done|]. injection Hrun as <-.
    by apply (step_attempt_nonneg env st).
  - destruct (step env st) as [[r|] st1] eqn:Hs; [done|].
    apply (IH env' st1); [|done]. by apply (step_attempt_nonneg env st).
Qed.

(** Dead sockets are never retried on blindly: after any run that has not
    ended the session, however its last wait was cut short, the next attempt is
    preceded by exactly one endpoint rebuild or rebind nudge, while the very
    first attempt of a session is preceded by neither. *)
Theorem retries_refresh_endpoint env envs st now :
  run (env :: envs) ProxyClient_new = (None, st) ->
  refreshes (escalate now st) = S (refreshes st)
  /\ refreshes (escalate now ProxyClient_new) = 0%nat.
Proof.
  intros Hrun. apply run_attempt_marks in Hrun; [|done]. split; [|done].
  unfold escalate, refreshes. destruct (rebuild_due _ _ _); simpl.
  - rewrite length_app. simpl. lia.
  - rewrite Hrun. simpl. rewrite length_app. simpl. lia.
Qed.
End loop.

(** ** Heartbeats *)

Lemma wait_beat_range last_beat now bg flips :
  now <= last_beat + HEARTBEAT_INTERVAL_IDLE ->
  let '(fire, interval) := wait_beat last_beat now bg flips in
  last_beat + HEARTBEAT_INTERVAL <= last_beat + interval <= fire
  /\ fire <= last_beat + HEARTBEAT_INTERVAL_IDLE.
Proof.
  revert now bg. induction flips as [|[t mode] flips IH]; intros now bg Hnow; cbn [wait_beat].
  - unfold heartbeat_interval, HEARTBEAT_INTERVAL_IDLE, HEARTBEAT_INTERVAL in *. destruct bg; lia.
  - destruct (Z.leb_spec (Z.max now (last_beat + heartbeat_interval bg)) t).
    + unfold heartbeat_interval, HEARTBEAT_INTERVAL_IDLE, HEARTBEAT_INTERVAL in *. destruct bg; lia.
    + apply IH. unfold heartbeat_interval, HEARTBEAT_INTERVAL_IDLE, HEARTBEAT_INTERVAL in *.
      destruct bg; lia.
Qed.

(** The cadence keeps a live client alive: however the app moves between
    foreground and background, a beat is sent no sooner than the fast interval
    and no later than the idle interval after the last one, and even two beats
    lost in a row leave the next one inside the window after which the server
    declares the connection dead; one lost beat never lets the QUIC idle timeout
    expire. *)
Theorem heartbeat_cadence last_beat bg flips :
  let '(fire, interval) := wait_beat last_beat last_beat bg flips in
  last_beat + HEARTBEAT_INTERVAL <= fire <= last_beat + HEARTBEAT_INTERVAL_IDLE
  /\ last_beat + interval <= fire
  /\ 3 * (fire - last_beat) + LIVENESS_GRACE <= LIVENESS_WINDOW
  /\ 2 * (fire - last_beat) < QUIC_IDLE_TIMEOUT.
Proof.
  assert (Hle : last_beat <= last_beat + HEARTBEAT_INTERVAL_IDLE)
    by (unfold HEARTBEAT_INTERVAL_IDLE; lia).
  pose proof (wait_beat_range last_beat last_beat bg flips Hle) as Hr.
  destruct (wait_beat last_beat last_beat bg flips) as [fire interval].
  change LIVENESS_WINDOW with 183000.
  unfold QUIC_IDLE_TIMEOUT, LIVENESS_GRACE, HEARTBEAT_INTERVAL_IDLE, HEARTBEAT_INTERVAL in *. lia.
Qed.

Section heartbeat.
Context {EndpointId : Type} `{Countable EndpointId}.
Context `{Json ControlMsg, !JsonLaws ControlMsg wf_control}.

Lemma control_roundtrip m :
  wf_control m -> exists data, encode_control m = Ok data /\ decode_control data = Ok m.
Proof.
  intros Hwf. destruct (json_roundtrip m Hwf) as (data & Hto & Hfrom). exists data.
  unfold encode_control, decode_control. by rewrite Hto, Hfrom.
Qed.

(** The encoded message fits a control frame. *)
Definition control_fits (m : ControlMsg) : Prop :=
  forall data, encode_control m = Ok data -> Z.of_nat (length data) <= MAX_CONTROL_MSG_SIZE.

Lemma control_frame m s :
  wf_control m -> control_fits m -> tx_err s = None ->
  exists data, encode_control m = Ok data /\ decode_control data = Ok m
    /\ write_message data s = (Ok tt, with_tx s (tx s ++ message_frame data))
    /\ forall r rest, rx r = message_frame data ++ rest ->
       read_message MAX_CONTROL_MSG_SIZE r = (Ok data, with_rx r rest).
Proof.
  intros Hwf Hfit Htx. destruct (control_roundtrip m Hwf) as (data & He & Hd).
  specialize (Hfit data He). assert (Hlt : Z.of_nat (length data) < 2 ^ 32).
  { unfold MAX_CONTROL_MSG_SIZE in Hfit. lia. }
  exists data. split; [done|]. split; [done|]. split; [by apply write_message_frame|].
  intros r rest Hr. rewrite (read_message_frame data _ r rest) by done.
  by rewrite (proj2 (Z.leb_le _ _)).
Qed.

(** A beat against a scripted answer. *)
Lemma client_beat seq m answer cs rest :
  let next := (seq + 1) mod 2 ^ 64 in
  control_fits (Heartbeat next) -> tx_err cs = None ->
  decode_control answer = Ok m ->
  (forall r rest, rx r = message_frame answer ++ rest ->
     read_message MAX_CONTROL_MSG_SIZE r = (Ok answer, with_rx r rest)) ->
  exists beat, encode_control (Heartbeat next) = Ok beat
    /\ client_heartbeat_step seq true (with_rx cs (message_frame answer ++ rest))
       = (_ ← check_ack next m; Ok next,
          with_rx (with_tx cs (tx cs ++ message_frame beat)) rest).
Proof.
  intros next Hfit Hcs Hdm Hrm.
  assert (Hnext : 0 <= next < 2 ^ 64) by (apply Z.mod_pos_bound; lia).
  destruct (control_frame (Heartbeat next) (with_rx cs (message_frame answer ++ rest)))
    as (beat & Heb & _ & Hwb & _); [done..|].
  exists beat. split; [done|]. unfold client_heartbeat_step. fold next.
  erewrite bind_Ok by (unfold lift; by rewrite Heb).
  erewrite bind_Ok by (unfold map_error; by rewrite Hwb).
  erewrite bind_Ok by (unfold map_error; by rewrite (Hrm _ rest)).
  erewrite bind_Ok by (unfold lift; by rewrite Hdm).
  unfold mbind, M_bind, lift. by destruct (check_ack next m).
Qed.

(** C38. Heartbeats run in lockstep: the beat a client sends decodes at the server
    to the next sequence number, refreshes that connection's liveness and is
    answered by one frame; reading that answer, the client moves on to exactly
    that sequence number; and any other answer (a stale or a future
    acknowledgement, a heartbeat) ends the client's session with a recoverable
    error. *)
Theorem heartbeat_lockstep seq now (entry : option (EndpointId * Z)) (reg : gmap EndpointId (gmap Z ConnEntry)) cs ss rest :
  let next := (seq + 1) mod 2 ^ 64 in
  control_fits (Heartbeat next) -> control_fits (HeartbeatAck next) ->
  tx_err cs = None -> tx_err ss = None ->
  exists beat ack,
    server_heartbeat_step entry now
      (Some (read_message MAX_CONTROL_MSG_SIZE (open_stream (message_frame beat))).1) (reg, ss)
    = (Ok tt, (match entry with Some (i, c) => refresh now i c reg | None => reg end,
               with_tx ss (tx ss ++ message_frame ack)))
    /\ client_heartbeat_step seq true (with_rx cs (message_frame ack ++ rest))
       = (Ok next, with_rx (with_tx cs (tx cs ++ message_frame beat)) rest)
    /\ forall m, m <> HeartbeatAck next -> wf_control m -> control_fits m ->
       exists other e, encode_control m = Ok other
         /\ (client_heartbeat_step seq true (with_rx cs (message_frame other ++ rest))).1 = Err e
         /\ is_recoverable e = true.
Proof.
  intros next Hfb Hfa Hcs Hss.
  assert (Hnext : 0 <= next < 2 ^ 64) by (apply Z.mod_pos_bound; lia).
  destruct (control_frame (Heartbeat next) ss) as (beat & Heb & Hdb & _ & Hrb); [done..|].
  destruct (control_frame (HeartbeatAck next) ss) as (ack & Hea & Hda & Hwa & Hra); [done..|].
  exists beat, ack. split; [|split].
  - rewrite (Hrb _ []) by by rewrite app_nil_r. cbn [fst server_heartbeat_step].
    erewrite bind_Ok by (unfold lift; by rewrite Hdb).
    unfold answer_heartbeat. rewrite Hea. cbn [snd]. by rewrite Hwa.
  - destruct (client_beat seq (HeartbeatAck next) ack cs rest Hfb Hcs Hda Hra) as (beat' & Heb' & ->).
    fold next in Heb'. rewrite Heb in Heb'. injection Heb' as <-. simpl. by rewrite Z.eqb_refl.
  - intros m Hm Hwf Hfit.
    destruct (control_frame m ss Hwf Hfit Hss) as (other & Heo & Hdo & _ & Hro).
    destruct (client_beat seq m other cs rest Hfb Hcs Hdo Hro) as (beat' & _ & Hc).
    fold next in Hc. unfold check_ack in Hc. destruct m as [n|n].
    + eexists other, _. rewrite Hc. done.
    + destruct (Z.eqb_spec n next) as [->|]; [done|]. eexists other, _. rewrite Hc. done.
Qed.
End heartbeat.

(** ** Witnesses *)

#[local] Existing Instances RefIdentity RefClientKey.
Import RefJson.

Definition some_text (e : RuleError) : bytes := str "bad rule".

Abbreviation ref_run k max := (manage_connection some_text (ref_config k max) 1).

Lemma rebuild_schedule_witness :
  spaced (rebuilds (ref_run 5 None (map (fun n => ref_timeout (600000 * n) Slept false)
                                     [0; 1; 2; 3; 4; 5; 6; 7]) ProxyClient_new).2)
  /\ rebuilds (ref_run 5 None (map (fun n => ref_timeout (600000 * n) Slept false)
                                     [0; 1; 2; 3; 4; 5; 6; 7]) ProxyClient_new).2
     = [1800000; 3600000].
Proof.
  split; [|reflexivity].
  apply (rebuild_schedule some_text (ref_config 5 None) 1); [|reflexivity..].
  by repeat constructor.
Defined.

Lemma retry_cap_witness :
  exists e, (ref_run 5 (Some 2) (replicate 3 (ref_timeout 0 Slept false)) ProxyClient_new).1
            = Some (Err e).
Proof.
  destruct (retry_cap some_text (ref_config 5 (Some 2)) 1 (replicate 3 (ref_timeout 0 Slept false)) 2)
    as [_ Hend]; [reflexivity | reflexivity | lia | reflexivity | by repeat constructor.. |].
  destruct Hend as (e & He & _); [simpl; lia|]. by exists e.
Defined.

Lemma cap_reset_by_wakes_witness :
  (ref_run 5 (Some 1) (replicate 9 (ref_timeout 0 Foregrounded true)) ProxyClient_new).1 = None.
Proof.
  apply (cap_reset_by_wakes some_text (ref_config 5 (Some 1)) 1 _ _ 1);
    [reflexivity | reflexivity | lia | reflexivity | reflexivity | by repeat constructor].
Defined.

Lemma permanent_failure_is_final_witness :
  (retry_or_end (ref_config 5 None) (ref_timeout 0 Slept false)
     (AuthenticationFailed (str "revoked")) ProxyClient_new).1
  = Some (Err (AuthenticationFailed (str "revoked"))).
Proof.
  apply (permanent_failure_is_final (ref_config 5 None) (ref_timeout 0 Slept false)
           (AuthenticationFailed (str "revoked")) ProxyClient_new). reflexivity.
Defined.

Lemma retries_refresh_endpoint_witness :
  let st := (ref_run 5 None [ref_timeout 0 PathLost false] ProxyClient_new).2 in
  refreshes (escalate 9 st) = 1%nat.
Proof.
  intros st.
  apply (retries_refresh_endpoint some_text (ref_config 5 None) 1 (ref_timeout 0 PathLost false)
           [] st 9). reflexivity.
Defined.

Lemma heartbeat_lockstep_witness :
  exists ack, (client_heartbeat_step 6 true (open_stream (message_frame ack ++ []))).1 = Ok 7.
Proof.
  destruct (@heartbeat_lockstep Z _ _ json_control (reference_json_laws ControlMsg wf_control)
    6 50 (Some (3, 0)) ∅ (open_stream []) (open_stream []) [])
    as (beat & ack & _ & Hc & _); [| | reflexivity | reflexivity |].
  1-2: intros data [= <-]; vm_compute; discriminate.
  exists ack. change (open_stream (message_frame ack ++ []))
    with (with_rx (open_stream []) (message_frame ack ++ [])).
  by rewrite Hc.
Defined.
