(* ===== verification/EndToEnd.v ===== *)
(** * The two ends together

    The bytes the client's handshake ([proxy/client.rs]) writes, fed to the
    server's connection handler ([proxy/server.rs]), and the bytes the handler
    answers, fed back to the client: an authorized client is accepted and splits
    its traffic exactly as the server enforces it, and a client that has seen two
    servers under one id stops the server it reaches. *)

From S2P Require Import Prelude RustStr Net Stream Signaling RoutedSet DnsForward Blocklist Registry.
From S2P Require Import Server ServerProofs Client.

Section agreement.
Context {ID : Identity} {IL : IdentityLaws} {NA : IpNetworkApi} {RA : ResolverApi}.
Context {CK : ClientKeyApi} {CL : ClientKeyLaws}.
Context `{Json Hello, !JsonLaws Hello wf_hello}.
Context `{Json HelloResponse, !JsonLaws HelloResponse wf_response}.
Context `{Json BridgeHello, Json ControlMsg, Json BlockListData}.
Context (rule_text : RuleError -> bytes).
Context (cfg : ClientConfig) (instance_nonce : Z).

(** A message that a handshake frame can carry. *)
Definition fits_handshake (data : bytes) : Prop := Z.of_nat (length data) <= MAX_HANDSHAKE_SIZE.

(** ** The client's side *)

(** What the client writes first, and what it does with the answer. *)
Lemma handshake_exchange own cst s p q rest :
  encode_hello (the_hello cfg instance_nonce own cst) = Ok p ->
  fits_handshake p -> fits_handshake q -> tx_err s = None -> rx s = message_frame q ++ rest ->
  handshake_on rule_text cfg instance_nonce own true (cst, s)
  = accept_response rule_text q
      (cst, with_rx (with_tx s (tx s ++ message_frame p)) rest).
Proof.
  intros Hp Hfp Hfq Htx Hrx. unfold fits_handshake, MAX_HANDSHAKE_SIZE in *.
  unfold handshake_on. erewrite bind_Ok by (unfold lift; by rewrite Hp).
  erewrite bind_Ok by (unfold on_control; by rewrite write_message_frame by (done || lia)).
  erewrite bind_Ok; [done|]. unfold on_control.
  rewrite (read_message_frame q _ _ rest) by (done || lia).
  by rewrite (proj2 (Z.leb_le _ _)) by (unfold MAX_HANDSHAKE_SIZE; lia).
Qed.

Lemma accept_response_accepted q r rs cst s :
  decode_hello_response q = Ok r -> accepted r = true ->
  (observe_server_nonce (Signaling.server_instance_nonce r) (tracker cst, duplicate_server cst)).1
    = false ->
  RoutedSet_new (Signaling.routed_domains r) (Signaling.routed_cidrs r) = Ok rs ->
  exists cst', accept_response rule_text q (cst, s) = (Ok rs, (cst', s))
    /\ connected (routes cst') = true
    /\ domains (routes cst') = Signaling.routed_domains r
    /\ tr_cidrs (routes cst') = Signaling.routed_cidrs r.
Proof.
  intros Hd Ha Ho Hrs. unfold accept_response.
  erewrite bind_Ok by (unfold lift; by rewrite Hd).
  unfold observe. unfold mbind at 1, M_bind at 1.
  destruct (observe_server_nonce _ _) as [newly [t f]]. simpl in Ho. subst newly.
  rewrite Ha. cbn [negb]. erewrite bind_Ok by (unfold lift; by rewrite Hrs).
  eexists. split; [done|]. by repeat split.
Qed.

Lemma newly_flagged n t f t' f' :
  observe_server_nonce n (t, f) = (true, (t', f')) -> f' = true.
Proof.
  unfold observe_server_nonce. destruct (Client.last t) as [l|]; [|done].
  destruct (l =? n); [done|]. by case_bool_decide; intros [=].
Qed.

(** An accepting response with no routes at all is accepted by the client: only
    reserved names are then tunneled. *)
Theorem empty_routes_accepted q n cst s :
  decode_hello_response q = Ok (HelloResponse_accepted n no_routes) ->
  (observe_server_nonce n (tracker cst, duplicate_server cst)).1 = false ->
  (accept_response rule_text q (cst, s)).1 = Ok RoutedSet_default.
Proof.
  intros Hd Ho.
  destruct (accept_response_accepted q _ RoutedSet_default cst s Hd eq_refl Ho eq_refl)
    as (cst' & Hacc & _).
  by rewrite Hacc.
Qed.

(** ** The server's side *)

Lemma handle_connection_client env self conn st p hello rest :
  handshake_in env = HsStream -> alpn conn <> BRIDGE_ALPN ->
  rx (ctrl st) = message_frame p ++ rest -> fits_handshake p -> decode_hello p = Ok hello ->
  handle_connection env self (Ok conn) st
  = handle_client env self conn (next_conn_seq st) hello
      (with_ctrl (with_next_seq st) (with_rx (ctrl st) rest)).
Proof.
  intros Hin Halpn Hrx Hfit Hdec. unfold fits_handshake, MAX_HANDSHAKE_SIZE in Hfit.
  unfold handle_connection. erewrite bind_Ok by done. erewrite bind_Ok by done.
  erewrite bind_Ok by done. unfold read_handshake. rewrite Hin.
  erewrite bind_Ok.
  2:{ unfold on_ctrl. simpl. rewrite (read_message_frame p _ _ rest) by (done || lia).
      by rewrite (proj2 (Z.leb_le _ _)) by (unfold MAX_HANDSHAKE_SIZE; lia). }
  rewrite bool_decide_false by done. by erewrite bind_Ok by (unfold lift; by rewrite Hdec).
Qed.

Lemma write_message_extends data s :
  tx_err s = None ->
  exists more, tx (write_message data s).2 = tx s ++ more /\ tx_err (write_message data s).2 = None.
Proof.
  intros Htx. unfold write_message. destruct (2 ^ 32 <=? _).
  - exists []. by rewrite app_nil_r.
  - unfold mbind, M_bind. rewrite write_all_ok by done. simpl.
    rewrite write_all_ok by done. simpl. rewrite <- app_assoc. by eexists.
Qed.

Lemma heartbeat_loop_extends ce reads (reg : gmap EndpointId (gmap Z ConnEntry)) s :
  tx_err s = None ->
  exists more, tx (server_heartbeat_loop ce reads (reg, s)).2.2 = tx s ++ more.
Proof.
  revert reg s. induction reads as [|[t inc] reads IH]; intros reg s Htx.
  { exists []. simpl. by rewrite app_nil_r. }
  cbn [server_heartbeat_loop]. unfold mbind, M_bind at 1.
  assert (Hstep : exists more, tx (server_heartbeat_step ce t inc (reg, s)).2.2 = tx s ++ more
            /\ tx_err (server_heartbeat_step ce t inc (reg, s)).2.2 = None).
  { unfold server_heartbeat_step. destruct inc as [[payload|e]|];
      [|exists []; by rewrite app_nil_r..].
    unfold mbind, M_bind, lift. destruct (decode_control payload) as [[n|n]|e]; simpl;
      [|exists []; by rewrite app_nil_r..].
    unfold answer_heartbeat. destruct (encode_control _) as [ack|e]; simpl;
      [|exists []; by rewrite app_nil_r].
    pose proof (write_message_extends ack s Htx) as Hw.
    by destruct (write_message ack s) as [r s']. }
  destruct (server_heartbeat_step ce t inc (reg, s)) as [[u|e] [reg1 s1]];
    destruct Hstep as (more & Hm & He); simpl in *; [|by exists more].
  destruct (IH reg1 s1 He) as (more' & ->). rewrite Hm, <- app_assoc. by eexists.
Qed.

(** An accepted client is sent the accepting response, and only then anything
    else. *)
Lemma serve_client_writes env self conn s st q :
  encode_hello_response (HelloResponse_accepted (server_instance_nonce self) (accepted_routes self))
    = Ok q ->
  fits_handshake q -> tx_err (ctrl st) = None ->
  exists more, tx (ctrl (serve_client env self conn s st).2) = tx (ctrl st) ++ message_frame q ++ more.
Proof.
  intros Hq Hfit Htx. unfold fits_handshake, MAX_HANDSHAKE_SIZE in Hfit. unfold serve_client.
  erewrite bind_Ok.
  2:{ unfold send_response. erewrite bind_Ok by (unfold lift; by rewrite Hq).
      unfold on_ctrl. by rewrite write_message_frame by (done || lia). }
  set (st1 := with_ctrl st _).
  assert (Hmid : exists st2, (if has_first_client self then upd with_notified else mret tt : M _ _ _) st1
                   = (@Ok ProxyError _ tt, st2) /\ ctrl st2 = ctrl st1 /\ registry st2 = registry st1).
  { destruct (has_first_client self); by eexists. }
  destruct Hmid as (st2 & Hmid & Hctrl & Hreg). erewrite bind_Ok by exact Hmid.
  unfold run_session. rewrite Hctrl, Hreg.
  destruct (heartbeat_loop_extends (Some (remote_id conn, s)) (session env) (registry st1) (ctrl st1))
    as (more & Hm); [done|].
  destruct (server_heartbeat_loop _ _ _) as [r [reg sm]]. simpl in *.
  exists more. by rewrite Hm, <- app_assoc.
Qed.

(** ** The conditions under which a session is expected to come up *)

Record authorized_session (env : ConnEnv) (self : ProxyServer) (conn : Connection) (k : ClientKey)
    (cst : ClientState) (st : SrvState) : Prop := mkAuthorized {
  as_key : cfg_auth cfg = Key k;
  as_alpn : alpn conn = client_alpn cfg;
  as_authorized : forall pk, key_parse (key_public_str k) = Some pk ->
    keys_contain (authorized_keys self) pk = true;
  as_unblocked : is_client_blocked (blocklist st) (id_to_string (remote_id conn)) = false;
  as_sole_process : forall s e, entry (registry st) (remote_id conn) s = Some e ->
    live (now env) e -> nonce e = instance_nonce;
  as_rules : RoutedSet_new (routed_domains self) (routed_cidrs self) = Ok (routed_set self);
  as_stream : handshake_in env = HsStream;
  as_hello : wf_hello (the_hello cfg instance_nonce (remote_id conn) cst);
  as_hello_fits : forall p, encode_hello (the_hello cfg instance_nonce (remote_id conn) cst) = Ok p ->
    fits_handshake p;
  as_server_tx : tx_err (ctrl st) = None;
}.

Lemma authorized_auth_ok env self conn k cst st :
  authorized_session env self conn k cst st ->
  auth_ok self conn (the_hello cfg instance_nonce (remote_id conn) cst) = true.
Proof.
  intros Has. unfold auth_ok, the_hello. simpl. unfold hello_auth. rewrite (as_key _ _ _ _ _ _ Has).
  apply orb_true_iff. right. apply verify_client_auth_spec. simpl. split; [apply id_parse_print|].
  destruct (key_sign_verifies k) as (pk & Hpk & Hv). exists pk. split; [done|].
  split; [by apply (as_authorized _ _ _ _ _ _ Has)|]. apply Hv.
Qed.

Lemma authorized_not_bridge env self conn k cst st :
  authorized_session env self conn k cst st -> alpn conn <> BRIDGE_ALPN.
Proof.
  intros Has. rewrite (as_alpn _ _ _ _ _ _ Has). unfold client_alpn.
  rewrite (as_key _ _ _ _ _ _ Has). by vm_compute.
Qed.

Lemma hello_encodes own cst :
  wf_hello (the_hello cfg instance_nonce own cst) ->
  exists p, encode_hello (the_hello cfg instance_nonce own cst) = Ok p
    /\ decode_hello p = Ok (the_hello cfg instance_nonce own cst).
Proof.
  intros Hwf. destruct (hello_roundtrip_cases _ Hwf) as (p & He & Hd). by exists p.
Qed.

Lemma admitted_client_writes env self conn k cst st s0 q :
  authorized_session env self conn k cst st -> duplicate_server cst = false ->
  encode_hello_response (HelloResponse_accepted (server_instance_nonce self) (accepted_routes self))
    = Ok q ->
  fits_handshake q ->
  exists more,
    tx (ctrl (handle_client env self conn (next_conn_seq st)
                (the_hello cfg instance_nonce (remote_id conn) cst)
                (with_ctrl (with_next_seq st) (with_rx (ctrl st) s0))).2)
    = tx (ctrl st) ++ message_frame q ++ more.
Proof.
  intros Has Hdup Hq Hfit. unfold handle_client. erewrite bind_Ok by done. simpl.
  rewrite (authorized_auth_ok _ _ _ _ _ _ Has), (as_unblocked _ _ _ _ _ _ Has).
  cbn [negb orb the_hello duplicate_server_observed]. rewrite Hdup.
  set (st1 := with_ctrl _ _).
  pose proof (try_register_spec (now env) (remote_id conn) (next_conn_seq st) instance_nonce
     (handle conn) (client_key_of conn (the_hello cfg instance_nonce (remote_id conn) cst))
     (registry st1)) as Hreg.
  unfold register. unfold mbind at 1, M_bind at 1.
  cbn [the_hello client_instance_nonce Hello_new] in *.
  destruct (try_register _ _ _ _ _ _ _) as [r reg]. destruct Hreg as [Hok _].
  rewrite (proj2 Hok) by apply Has. unfold guarded.
  destruct (serve_client_writes env self conn (next_conn_seq st) (with_registry st1 reg) q Hq Hfit)
    as (more & Hm); [apply Has|].
  destruct (serve_client env self conn _ _) as [r' st'] eqn:Heq. simpl in *. by exists more.
Qed.

(** C3. The handshake connects the two ends: for a client whose key the server
    lists, whose id is not blocked and has no live connection of another process,
    the bytes the client writes make the server send an accepting response, and
    that response makes the client come up with exactly the routed set the server
    enforces, so that the client tunnels a target if and only if the server
    would forward it. *)
Theorem handshake_end_to_end env self conn k cst st s rest :
  authorized_session env self conn k cst st ->
  duplicate_server cst = false ->
  (observe_server_nonce (server_instance_nonce self) (tracker cst, false)).1 = false ->
  let response := HelloResponse_accepted (server_instance_nonce self) (accepted_routes self) in
  wf_response response -> (forall q, encode_hello_response response = Ok q -> fits_handshake q) ->
  tx_err s = None ->
  exists p q,
    encode_hello (the_hello cfg instance_nonce (remote_id conn) cst) = Ok p
    /\ (rx (ctrl st) = message_frame p ++ rest ->
        exists more, tx (ctrl (handle_connection env self (Ok conn) st).2)
                     = tx (ctrl st) ++ message_frame q ++ more)
    /\ forall more, exists cst' s',
       handshake_on rule_text cfg instance_nonce (remote_id conn) true
         (cst, with_rx s (message_frame q ++ more)) = (Ok (routed_set self), (cst', s'))
       /\ tx s' = tx s ++ message_frame p /\ rx s' = more
       /\ connected (routes cst') = true
       /\ domains (routes cst') = routed_domains self /\ tr_cidrs (routes cst') = routed_cidrs self.
Proof.
  intros Has Hdup Hobs response Hwf Hfits Htx.
  destruct (hello_encodes (remote_id conn) cst (as_hello _ _ _ _ _ _ Has)) as (p & Hp & Hdp).
  pose proof (as_hello_fits _ _ _ _ _ _ Has p Hp) as Hfp.
  destruct (response_roundtrip_cases response Hwf) as (q & Hq & Hdq). specialize (Hfits q Hq).
  exists p, q. split; [done|]. split.
  - intros Hrx. rewrite (handle_connection_client env self conn st p _ rest) by
      (done || apply Has || by eapply authorized_not_bridge).
    by apply (admitted_client_writes env self conn k cst st).
  - intros more.
    set (s1 := with_rx s (message_frame q ++ more)).
    pose proof (handshake_exchange (remote_id conn) cst s1 p q more Hp Hfp Hfits Htx eq_refl) as Hex.
    destruct (accept_response_accepted q response (routed_set self) cst
      (with_rx (with_tx s1 (tx s1 ++ message_frame p)) more))
      as (cst' & Hacc & Hroutes); [done|done|by rewrite Hdup|apply Has|].
    eexists cst', _. split; [rewrite Hex; exact Hacc|]. by repeat split; try apply Hroutes.
Qed.

(** ** A server whose id is shared *)

(** C11. A duplicated server identity is shut down: when the nonce in an accepting
    response reappears after another one, the client gives up that connection
    with an error it retries, and the first authorized connection it makes from
    the state it is then in makes the server it reaches record itself as
    conflicted and stop. *)
Theorem duplicate_server_shut_down env self conn k cst st s q r rest p :
  decode_hello_response q = Ok r -> accepted r = true ->
  (observe_server_nonce (Signaling.server_instance_nonce r) (tracker cst, duplicate_server cst)).1
    = true ->
  let '(res, (cst', _)) := accept_response rule_text q (cst, s) in
  (exists e, res = Err e /\ is_recoverable e = true)
  /\ (authorized_session env self conn k cst' st -> wf_blocklist (blocklist st) ->
      encode_hello (the_hello cfg instance_nonce (remote_id conn) cst') = Ok p ->
      rx (ctrl st) = message_frame p ++ rest ->
      let st' := (handle_connection env self (Ok conn) st).2 in
      shutdown st' = true
      /\ is_server_conflicted (blocklist st') (id_to_string (own_id self)) = true).
Proof.
  intros Hd Ha Ho. unfold accept_response. erewrite bind_Ok by (unfold lift; by rewrite Hd).
  unfold observe. unfold mbind at 1, M_bind at 1.
  destruct (observe_server_nonce _ _) as [newly [t f]] eqn:Hobs. simpl in Ho. subst newly.
  rewrite Ha. cbn [negb fail]. split; [by eexists|].
  apply newly_flagged in Hobs as ->. intros Has Hwf Hp Hrx.
  destruct (hello_encodes (remote_id conn) _ (as_hello _ _ _ _ _ _ Has)) as (p' & Hp' & Hdp).
  rewrite Hp in Hp'. injection Hp' as <-.
  rewrite (handle_connection_client env self conn st p _ rest) by
    (done || (by eapply authorized_not_bridge) || by apply Has).
  rewrite authenticated_flow by
    (done || by apply (authorized_auth_ok _ _ _ _ _ _ Has) || by apply Has).
  set (st1 := with_ctrl _ _).
  destruct (self_block_effect env self (advisory_reason conn) st1 Hwf) as (Hok & Hsd & _ & _ & Hc & _).
  destruct (stop_as_duplicate_state env self conn st1 Hok) as (Hbl & _ & Hsd2).
  cbv zeta. by rewrite Hsd2, Hbl.
Qed.
End agreement.

(** ** Witnesses *)

Section witnesses.
Import RefJson.
#[local] Existing Instances RefIdentity RefResolver RefClientKey.

(** Server 100, accepting key 5 and routing one zone. *)
Definition ref_zone : RoutedSet := mkRoutedSet ∅ [str ".corp.example"] [] false.

Definition ref_tunnel_server : ProxyServer :=
  @mkServer RefIdentity RefNetwork RefResolver 100 4242 [5] ∅ [] [] ref_zone
    [str "*.corp.example"] [] None false.

Definition bad_rule (e : RuleError) : bytes := str "bad rule".

Definition ref_client_config : ClientConfig := ref_config 5 None.

Lemma encoded_fits (e : result io_error bytes) p :
  e = Ok p -> match e with Ok d => Z.of_nat (length d) <=? MAX_HANDSHAKE_SIZE | Err _ => false end = true ->
  fits_handshake p.
Proof. intros -> Hle. by apply Z.leb_le. Qed.

Lemma ref_authorized cst rxs :
  authorized_session ref_client_config 9 ref_env ref_tunnel_server (ref_conn 7) 5 cst (ref_state rxs).
Proof.
  split; try reflexivity.
  - intros pk. simpl. unfold print_number, read_number.
    rewrite bytes_positive_bytes, decode_encode. intros [= <-]. reflexivity.
  - intros s e. unfold entry. simpl. by rewrite lookup_empty.
  - split; [by vm_compute|]. split; [by vm_compute|]. by repeat split; vm_compute.
  - intros p Hp. unfold the_hello in Hp.
    eapply encoded_fits; [exact Hp|]. by destruct (duplicate_server cst); vm_compute.
Qed.

Definition ref_accepting : HelloResponse := HelloResponse_accepted 4242 (accepted_routes ref_tunnel_server).

Lemma ref_accepting_wf : wf_response ref_accepting.
Proof.
  unfold wf_response, wf_u16, wf_strings. repeat split; try by vm_compute.
  all: by repeat constructor.
Qed.

Lemma handshake_end_to_end_witness :
  exists q, forall more, exists cst' s',
    handshake_on bad_rule ref_client_config 9 7 true
      (ProxyClient_new, open_stream (message_frame q ++ more)) = (Ok ref_zone, (cst', s')).
Proof.
  destruct (handshake_end_to_end (JsonLaws0 := reference_json_laws Hello wf_hello)
     (JsonLaws1 := reference_json_laws HelloResponse wf_response)
     bad_rule ref_client_config 9 ref_env ref_tunnel_server (ref_conn 7) 5 ProxyClient_new
     (ref_state []) (open_stream []) []) as (p & q & _ & _ & Hc).
  - apply ref_authorized.
  - reflexivity.
  - reflexivity.
  - apply ref_accepting_wf.
  - intros q Hq. eapply encoded_fits; [exact Hq|]. by vm_compute.
  - reflexivity.
  - exists q. intros more. destruct (Hc more) as (cst' & s' & Heq & _). by exists cst', s'.
Defined.

(** A client that saw nonce 4242, then 1, is answered by 4242 again. *)
Definition ref_suspicious : ClientState :=
  set_tracker ProxyClient_new (mkTracker [4242; 1] (Some 1)) false.

Definition ref_flagged : ClientState :=
  set_tracker ProxyClient_new (mkTracker [4242; 1] (Some 4242)) true.

Definition ref_advisory : bytes :=
  match encode_hello (the_hello ref_client_config 9 7 ref_flagged) with Ok p => p | Err _ => [] end.

Lemma duplicate_server_shut_down_witness :
  let st := ref_state (message_frame ref_advisory ++ []) in
  shutdown (handle_connection ref_env ref_tunnel_server (Ok (ref_conn 7)) st).2 = true.
Proof.
  destruct (reference_json_laws HelloResponse wf_response ref_accepting) as (q & Hto & Hfrom).
  { apply ref_accepting_wf. }
  assert (Hd : decode_hello_response q = Ok ref_accepting)
    by (unfold decode_hello_response, json_response; rewrite Hfrom; reflexivity).
  pose proof (duplicate_server_shut_down (JsonLaws0 := reference_json_laws Hello wf_hello)
     bad_rule ref_client_config 9 ref_env ref_tunnel_server (ref_conn 7) 5 ref_suspicious
     (ref_state (message_frame ref_advisory ++ [])) (open_stream []) q ref_accepting [] ref_advisory
     Hd eq_refl eq_refl) as Hs.
  assert (Hacc : exists e, accept_response bad_rule q (ref_suspicious, open_stream [])
                           = (Err e, (ref_flagged, open_stream []))).
  { unfold accept_response. erewrite bind_Ok by (unfold lift; by rewrite Hd). by eexists. }
  destruct Hacc as [e Hacc]. rewrite Hacc in Hs. destruct Hs as [_ Hs].
  assert (Hp : encode_hello (the_hello ref_client_config 9 (remote_id (ref_conn 7)) ref_flagged)
               = Ok ref_advisory) by (vm_compute; reflexivity).
  assert (Hwf : wf_blocklist (blocklist (ref_state (message_frame ref_advisory ++ []))))
    by (by split; constructor).
  exact (proj1 (Hs (ref_authorized _ _) Hwf Hp eq_refl)).
Defined.
End witnesses.
