(* ===== verification/Bridge.v ===== *)
(** * The outbound bridge ([proxy/bridge.rs])

    One persistent upstream connection to another server: its handshake, and the
    loop that re-establishes it for as long as the server runs. What an iteration
    meets is its [BridgeIter]; the published connection, the waits and the
    endpoint nudges are logged. *)

From S2P Require Import Prelude RustStr Net Stream Signaling RoutedSet DnsForward Blocklist Registry.
From S2P Require Import Server Client ClientProofs EndToEnd.

Section bridge.
Context {ID : Identity} {NA : IpNetworkApi} {RA : ResolverApi}.
Context `{Json Hello, Json HelloResponse, Json BridgeHello, Json ControlMsg, Json BlockListData}.

Abbreviation BM := (M Stream ProxyError).

(** The bridge's handshake on the stream it opened. *)
Definition bridge_handshake (in_time : bool) : BM () :=
  payload ← lift (map_err Network (encode_bridge_hello BridgeHello_new));
  _ ← map_error Network (write_message payload);
  data ← (if in_time then map_error Network (read_message MAX_HANDSHAKE_SIZE)
          else fail (Signaling (str "timed out waiting for target-server handshake response")));
  response ← lift (map_err Network (decode_hello_response data));
  if negb (accepted response)
  then fail (AuthenticationFailed (default (str "unknown") (reject_reason response)))
  else mret tt.

Record BridgeIter : Type := mkBridgeIter {
  bi_jitter : Z;
  bi_connect : EndpointId -> bytes -> option (result bytes Z);
  bi_opened : result bytes Stream;
  bi_in_time : bool;
}.

Definition bridge_establish (cfg : BridgeUpstreamConfig) (env : BridgeIter) : result ProxyError Z :=
  c ← connect_with_timeout (bi_connect env) (bc_endpoint_id cfg) BRIDGE_ALPN;
  s ← map_err (fun e => Signaling (str "Failed to open handshake stream: " ++ e)) (bi_opened env);
  _ ← (bridge_handshake (bi_in_time env) s).1;
  Ok c.

Record BridgeState : Type := mkBridgeState {
  b_attempt : Z;
  b_conn : list (option Z);   (* the values the shared handle has taken *)
  b_waits : list Z;           (* the backoffs slept, in milliseconds *)
  b_nudges : nat;             (* calls of [Endpoint::network_change] *)
}.

(** The state at the head of the loop of [BridgeUpstream::run]. *)
Definition bridge_start : BridgeState := mkBridgeState 0 [None] [] 0.

Definition saturating_add_u32 (a b : Z) : Z := Z.min (a + b) U32_MAX.

Definition bridge_step (cfg : BridgeUpstreamConfig) (env : BridgeIter) (st : BridgeState)
  : BridgeState :=
  let st := if 0 <? b_attempt st
            then mkBridgeState (b_attempt st) (b_conn st)
                   (b_waits st ++ [calculate_backoff (bi_jitter env) (b_attempt st)])
                   (S (b_nudges st))
            else st in
  match bridge_establish cfg env with
  | Err _ => mkBridgeState (saturating_add_u32 (b_attempt st) 1) (b_conn st) (b_waits st) (b_nudges st)
  | Ok c => mkBridgeState 1 (b_conn st ++ [Some c; None]) (b_waits st) (b_nudges st)
  end.

Definition bridge_run (cfg : BridgeUpstreamConfig) (envs : list BridgeIter) (st : BridgeState)
  : BridgeState := fold_left (fun st env => bridge_step cfg env st) envs st.

(** ** The loop *)

(** Every published connection is withdrawn before anything else is published. *)
Inductive up_and_down : list (option Z) -> Prop :=
| ud_start : up_and_down [None]
| ud_session tr c : up_and_down tr -> up_and_down (tr ++ [Some c; None]).

Definition bridge_inv (st : BridgeState) : Prop :=
  0 <= b_attempt st <= U32_MAX
  /\ up_and_down (b_conn st)
  /\ Forall (fun w => 1000 <= w <= 60500) (b_waits st)
  /\ b_nudges st = length (b_waits st).

Lemma backoff_range jitter a :
  0 <= a -> 0 <= jitter <= RECONNECT_JITTER_MAX_MS -> 1000 <= calculate_backoff jitter a <= 60500.
Proof.
  intros Ha Hj. unfold calculate_backoff, RECONNECT_JITTER_MAX_MS in *. rewrite backoff_secs.
  destruct (Z.leb_spec a 6); [|lia].
  pose proof (Z.pow_le_mono_r 2 0 (Z.max 0 (a - 1))).
  pose proof (Z.pow_le_mono_r 2 (Z.max 0 (a - 1)) 5). lia.
Qed.

Lemma bridge_step_inv cfg env st :
  0 <= bi_jitter env <= RECONNECT_JITTER_MAX_MS -> bridge_inv st ->
  bridge_inv (bridge_step cfg env st) /\ 1 <= b_attempt (bridge_step cfg env st)
  /\ length (b_waits (bridge_step cfg env st))
     = (length (b_waits st) + if (0 <? b_attempt st)%Z then 1 else 0)%nat.
Proof.
  intros Hj (Ha & Hud & Hw & Hn). unfold bridge_step.
  set (st1 := if 0 <? b_attempt st then _ else st).
  assert (Hst1 : bridge_inv st1 /\ length (b_waits st1)
            = (length (b_waits st) + if (0 <? b_attempt st)%Z then 1 else 0)%nat).
  { unfold st1. destruct (0 <? b_attempt st); [|by split; [|lia]].
    split; [|simpl; by rewrite length_app]. repeat split; simpl; try done; try lia.
    - apply Forall_app. split; [done|]. constructor; [|constructor]. by apply backoff_range; [lia|].
    - rewrite length_app. simpl. lia. }
  destruct Hst1 as [(Ha1 & Hud1 & Hw1 & Hn1) Hlen].
  destruct (bridge_establish cfg env) as [c|e]; unfold bridge_inv; simpl.
  - repeat split; try done. by constructor.
  - unfold saturating_add_u32, U32_MAX in *. repeat split; try done; lia.
Qed.

(** A bridge is kept up for the life of the server: over any number of
    iterations and whatever the other server does (rejections included), the loop
    goes on; every iteration but the first is preceded by exactly one backoff, of
    one second to a minute plus jitter, and one endpoint nudge; and a connection
    is visible to stream routing only while its session lasts. *)
Theorem bridge_loop_persists cfg envs :
  Forall (fun env => 0 <= bi_jitter env <= RECONNECT_JITTER_MAX_MS) envs ->
  let st := bridge_run cfg envs bridge_start in
  bridge_inv st /\ length (b_waits st) = (length envs - 1)%nat
  /\ (envs <> [] -> 1 <= b_attempt st).
Proof.
  intros Hall. cbv zeta. induction envs as [|env envs IH] using rev_ind.
  { split; [|done]. repeat split; simpl; try done. constructor. }
  apply Forall_app in Hall as [Hall Henv]. apply Forall_cons in Henv as [Henv _].
  destruct (IH Hall) as (Hinv & Hlen & Hpos).
  unfold bridge_run in *. rewrite fold_left_app. cbn [fold_left].
  destruct (bridge_step_inv cfg env _ Henv Hinv) as (Hinv' & Hpos' & Hlen').
  split; [done|]. split; [|done]. rewrite Hlen', Hlen, length_app. cbn [length].
  destruct envs as [|env0 envs]; [done|].
  rewrite (proj2 (Z.ltb_lt 0 _)) by (specialize (Hpos ltac:(done)); lia). simpl. lia.
Qed.

(** ** The handshake with the other server *)

Context `{!JsonLaws BridgeHello (fun h => wf_u16 (bridge_version h))}.
Context `{!JsonLaws HelloResponse wf_response}.

Lemma bridge_hello_encodes :
  exists p, encode_bridge_hello BridgeHello_new = Ok p /\ decode_bridge_hello p = Ok BridgeHello_new.
Proof.
  assert (Hwf : wf_u16 (bridge_version BridgeHello_new)) by by vm_compute.
  destruct (json_roundtrip BridgeHello_new Hwf) as (p & Hto & Hfrom). exists p.
  unfold encode_bridge_hello, decode_bridge_hello. rewrite Hto, Hfrom. by split.
Qed.

Lemma handle_connection_bridge env self conn st p rest :
  handshake_in env = HsStream -> alpn conn = BRIDGE_ALPN ->
  rx (ctrl st) = message_frame p ++ rest -> fits_handshake p ->
  decode_bridge_hello p = Ok BridgeHello_new ->
  handle_connection env self (Ok conn) st
  = handle_bridge env self conn (next_conn_seq st)
      (with_ctrl (with_next_seq st) (with_rx (ctrl st) rest)).
Proof.
  intros Hin Halpn Hrx Hfit Hdec. unfold fits_handshake, MAX_HANDSHAKE_SIZE in Hfit.
  unfold handle_connection. erewrite bind_Ok by done. erewrite bind_Ok by done.
  erewrite bind_Ok by done. unfold read_handshake. rewrite Hin. erewrite bind_Ok.
  2:{ unfold on_ctrl. simpl. rewrite (read_message_frame p _ _ rest) by (done || lia).
      by rewrite (proj2 (Z.leb_le _ _)) by (unfold MAX_HANDSHAKE_SIZE; lia). }
  rewrite bool_decide_true by done. by erewrite bind_Ok by (unfold lift; by rewrite Hdec).
Qed.

Lemma handle_bridge_writes env self conn s st q :
  encode_hello_response (HelloResponse_accepted (server_instance_nonce self) no_routes) = Ok q ->
  fits_handshake q -> tx_err (ctrl st) = None ->
  exists more, tx (ctrl (handle_bridge env self conn s st).2) = tx (ctrl st) ++ message_frame q ++ more.
Proof.
  intros Hq Hfit Htx. unfold fits_handshake, MAX_HANDSHAKE_SIZE in Hfit. unfold handle_bridge.
  erewrite bind_Ok by done. unfold guarded. erewrite bind_Ok.
  2:{ unfold send_response. erewrite bind_Ok by (unfold lift; by rewrite Hq).
      unfold on_ctrl. by rewrite write_message_frame by (done || lia). }
  set (st1 := with_ctrl _ _). unfold run_session.
  destruct (heartbeat_loop_extends None (session env) (registry st1) (ctrl st1)) as (more & Hm); [done|].
  destruct (server_heartbeat_loop _ _ _) as [r [reg sm]]. simpl in *.
  exists more. by rewrite Hm, <- app_assoc.
Qed.

(** A bridge comes up between two servers: over a connection of the bridge
    protocol (which the target's allowlist admitted), the bytes the bridge writes
    make the target accept it, without any client credential, and the target's
    answer completes the bridge's handshake. *)
Theorem bridge_handshake_end_to_end env self conn st s rest :
  handshake_in env = HsStream -> alpn conn = BRIDGE_ALPN -> tx_err (ctrl st) = None ->
  tx_err s = None ->
  let response := HelloResponse_accepted (server_instance_nonce self) no_routes in
  wf_response response ->
  (forall q, encode_hello_response response = Ok q -> fits_handshake q) ->
  (forall p, encode_bridge_hello BridgeHello_new = Ok p -> fits_handshake p) ->
  exists p q,
    encode_bridge_hello BridgeHello_new = Ok p
    /\ (rx (ctrl st) = message_frame p ++ rest ->
        exists more, tx (ctrl (handle_connection env self (Ok conn) st).2)
                     = tx (ctrl st) ++ message_frame q ++ more)
    /\ forall more, bridge_handshake true (with_rx s (message_frame q ++ more))
                    = (Ok tt, with_rx (with_tx s (tx s ++ message_frame p)) more).
Proof.
  intros Hin Halpn Hst Hs response Hwf Hfq Hfp.
  destruct bridge_hello_encodes as (p & Hp & Hdp). specialize (Hfp p Hp).
  destruct (response_roundtrip_cases response Hwf) as (q & Hq & Hdq). specialize (Hfq q Hq).
  exists p, q. split; [done|]. split.
  - intros Hrx. rewrite (handle_connection_bridge env self conn st p rest) by done.
    destruct (handle_bridge_writes env self conn (next_conn_seq st)
      (with_ctrl (with_next_seq st) (with_rx (ctrl st) rest)) q Hq Hfq Hst) as (more & Hm).
    by exists more.
  - intros more. unfold fits_handshake, MAX_HANDSHAKE_SIZE in *. unfold bridge_handshake.
    erewrite bind_Ok by (unfold lift; by rewrite Hp).
    erewrite bind_Ok by (unfold map_error; by rewrite write_message_frame by (done || lia)).
    erewrite bind_Ok.
    2:{ unfold map_error. rewrite (read_message_frame q _ _ more) by (done || lia).
        by rewrite (proj2 (Z.leb_le _ _)) by (unfold MAX_HANDSHAKE_SIZE; lia). }
    by erewrite bind_Ok by (unfold lift; by rewrite Hdq).
Qed.
End bridge.

(** ** Witnesses *)

Section witnesses.
Import RefJson.
#[local] Existing Instances RefIdentity RefResolver.

Definition ref_bridge : BridgeUpstreamConfig :=
  mkBridgeConfig (str "east") (200 : EndpointId) [] RoutedSet_default [] [].

Definition ref_down (jitter : Z) : BridgeIter :=
  mkBridgeIter jitter (fun (_ : EndpointId) _ => None) (Err (str "closed")) true.

Lemma bridge_loop_persists_witness :
  length (b_waits (bridge_run ref_bridge [ref_down 0; ref_down 500; ref_down 7] bridge_start)) = 2%nat.
Proof.
  apply (bridge_loop_persists ref_bridge [ref_down 0; ref_down 500; ref_down 7]).
  repeat constructor; unfold RECONNECT_JITTER_MAX_MS; simpl; lia.
Defined.

Definition ref_bridge_conn : Connection := mkConnection BRIDGE_ALPN (200 : EndpointId) 1.

Lemma bridge_handshake_end_to_end_witness :
  exists q, forall more, (bridge_handshake true (open_stream (message_frame q ++ more))).1 = Ok tt.
Proof.
  destruct (bridge_handshake_end_to_end
     (JsonLaws0 := reference_json_laws BridgeHello _)
     (JsonLaws1 := reference_json_laws HelloResponse wf_response)
     ref_env ref_server ref_bridge_conn (ref_state []) (open_stream []) [])
    as (p & q & _ & _ & Hq).
  - reflexivity.
  - reflexivity.
  - reflexivity.
  - reflexivity.
  - unfold wf_response, wf_u16, wf_strings. repeat split; try by vm_compute.
    all: by repeat constructor.
  - intros q Hq. eapply encoded_fits; [exact Hq|]. by vm_compute.
  - intros p Hp. eapply encoded_fits; [exact Hp|]. by vm_compute.
  - exists q. intros more. exact (f_equal fst (Hq more)).
Defined.
End witnesses.
