(* ===== verification/Accept.v ===== *)
(** * The client's accept loops ([proxy/client.rs])

    The failure policy of the local listeners ([AcceptRetry]) and the loops
    themselves as a state machine: an accept result, a finished connection, a
    request entering or leaving its hold for the tunnel, the close signal. The
    TCP and the Unix loops differ only in how they rebind, which is an input
    ([Rebind]), and in that a Unix listener without a path returns instead
    ([unix_step]). The classification is that of the Unix build. *)

From S2P Require Import Prelude RustStr Stream.

Definition ACCEPT_RETRY_DELAY : Z := 250.
Definition REBIND_AFTER_CONSECUTIVE_ABORTS : Z := 4.
Definition MAX_ACTIVE_LOCAL_CONNS : Z := 256.
Definition MAX_HELD_CONNS : Z := 64.

Definition EMFILE : Z := 24.
Definition ENFILE : Z := 23.

Inductive AcceptFailure : Type := ResourcePressure | Aborted | Broken.

#[export] Instance AcceptFailure_eq_dec : EqDecision AcceptFailure.
Proof. solve_decision. Defined.

Definition classify_accept_error (e : io_error) : AcceptFailure :=
  if bool_decide (raw_os_error e = Some EMFILE) || bool_decide (raw_os_error e = Some ENFILE)
  then ResourcePressure
  else match kind e with
       | ConnectionAborted | ConnectionReset | Interrupted => Aborted
       | _ => Broken
       end.

Inductive AcceptOutcome : Type := RebindNow | RetrySame.

Record AcceptRetry : Type := mkRetry { consecutive_failures : Z; consecutive_aborts : Z }.

Definition AcceptRetry_new : AcceptRetry := mkRetry 0 0.

Definition record_success (r : AcceptRetry) : AcceptRetry :=
  mkRetry (if 0 <? consecutive_failures r then 0 else consecutive_failures r) 0.

Definition record_error (e : io_error) (r : AcceptRetry) : AcceptOutcome * AcceptRetry :=
  let failure := classify_accept_error e in
  let aborts := match failure with Aborted => consecutive_aborts r + 1 | _ => 0 end in
  let r := mkRetry (consecutive_failures r) aborts in
  (if bool_decide (failure = Broken) || (REBIND_AFTER_CONSECUTIVE_ABORTS <=? aborts)
   then RebindNow else RetrySame, r).

Definition record_rebind (r : AcceptRetry) : AcceptRetry := mkRetry 0 0.

(** Counting the failure; the log line and the pause touch nothing else. *)
Definition wait_retry (r : AcceptRetry) : AcceptRetry :=
  mkRetry (consecutive_failures r + 1) (consecutive_aborts r).

(** Two attempts to bind a replacement: the first outcome, and the second, which
    is only tried if the first failed. *)
Record Rebind : Type := mkRebind { first_bind : result io_error (); second_bind : result io_error () }.

Definition rebind_listener (b : Rebind) : result ProxyError () :=
  match first_bind b with
  | Ok _ => Ok tt
  | Err _ => map_err Network (second_bind b)
  end.

(** ** The loop *)

(** Where the loop is: accepting, holding an accepted connection that waits for a
    permit, parked with its listener closed, or returned. *)
Inductive LoopPhase : Type :=
| Accepting
| AwaitingPermit
| Parked
| Returned (e : ProxyError).

Record LoopState : Type := mkLoop {
  phase : LoopPhase;
  retry : AcceptRetry;
  active : Z;        (* connections being handled, each with a permit *)
  held : Z;          (* those of them parked in a hold for the tunnel *)
}.

Definition loop_init : LoopState := mkLoop Accepting AcceptRetry_new 0 0.

Inductive LoopEvent : Type :=
| AcceptOk
| AcceptErr (e : io_error) (b : Rebind)
| ConnDone
| HoldRequested
| HoldDone
| CloseSignal.

Definition spawn (st : LoopState) : LoopState :=
  mkLoop Accepting (retry st) (active st + 1) (held st).

Definition on_accept (st : LoopState) : LoopState :=
  let st := mkLoop AwaitingPermit (record_success (retry st)) (active st) (held st) in
  if active st <? MAX_ACTIVE_LOCAL_CONNS then spawn st else st.

Definition on_accept_error (e : io_error) (b : Rebind) (st : LoopState) : LoopState :=
  let '(outcome, r) := record_error e (retry st) in
  match outcome with
  | RebindNow =>
      match rebind_listener b with
      | Ok _ => mkLoop Accepting (record_rebind r) (active st) (held st)
      | Err e => mkLoop (Returned e) r (active st) (held st)
      end
  | RetrySame => mkLoop Accepting (wait_retry r) (active st) (held st)
  end.

(** A connection that ends gives its permit back, first to the connection that
    waits for one. *)
Definition on_conn_done (st : LoopState) : LoopState :=
  let st := mkLoop (phase st) (retry st) (active st - 1) (held st) in
  match phase st with AwaitingPermit => spawn st | _ => st end.

(** [holds.try_acquire()]: at the cap the request is not held. *)
Definition on_hold (st : LoopState) : LoopState :=
  if held st <? MAX_HELD_CONNS then mkLoop (phase st) (retry st) (active st) (held st + 1) else st.

Inductive loop_step : LoopState -> LoopEvent -> LoopState -> Prop :=
| step_accept st : phase st = Accepting -> loop_step st AcceptOk (on_accept st)
| step_error st e b : phase st = Accepting -> loop_step st (AcceptErr e b) (on_accept_error e b st)
| step_done st : held st < active st -> loop_step st ConnDone (on_conn_done st)
| step_hold st : held st < active st -> loop_step st HoldRequested (on_hold st)
| step_unhold st : 0 < held st ->
    loop_step st HoldDone (mkLoop (phase st) (retry st) (active st) (held st - 1))
| step_close st : phase st = Accepting \/ phase st = AwaitingPermit ->
    loop_step st CloseSignal (mkLoop Parked (retry st) (active st) (held st)).

Inductive loop_run : LoopState -> list LoopEvent -> LoopState -> Prop :=
| run_nil st : loop_run st [] st
| run_snoc st evs st1 ev st2 :
    loop_run st evs st1 -> loop_step st1 ev st2 -> loop_run st (evs ++ [ev]) st2.

(** ** The Unix loop *)

(** The socket file is removed before each of the two binds. *)
Definition rebind_unix_listener (b : Rebind) : result ProxyError () :=
  match first_bind b with
  | Ok _ => Ok tt
  | Err _ => map_err Network (second_bind b)
  end.

Definition on_unix_error (path : option bytes) (e : io_error) (b : Rebind) (st : LoopState) : LoopState :=
  let '(outcome, r) := record_error e (retry st) in
  match outcome with
  | RebindNow =>
      match path with
      | None => mkLoop (Returned (Network e)) r (active st) (held st)
      | Some _ =>
          match rebind_unix_listener b with
          | Ok _ => mkLoop Accepting (record_rebind r) (active st) (held st)
          | Err e => mkLoop (Returned e) r (active st) (held st)
          end
      end
  | RetrySame => mkLoop Accepting (wait_retry r) (active st) (held st)
  end.

(** One step of [accept_loop_unix] and its connections; [None] where it cannot happen. *)
Definition unix_step (path : option bytes) (st : LoopState) (ev : LoopEvent) : option LoopState :=
  match ev, phase st with
  | AcceptOk, Accepting => Some (on_accept st)
  | AcceptErr e b, Accepting => Some (on_unix_error path e b st)
  | ConnDone, _ => if held st <? active st then Some (on_conn_done st) else None
  | HoldRequested, _ => if held st <? active st then Some (on_hold st) else None
  | HoldDone, _ => if 0 <? held st then Some (mkLoop (phase st) (retry st) (active st) (held st - 1)) else None
  | CloseSignal, (Accepting | AwaitingPermit) => Some (mkLoop Parked (retry st) (active st) (held st))
  | _, _ => None
  end.

(** A Unix listener with a path has exactly the steps of the TCP one. *)
Lemma unix_loop_agrees path st ev st' : unix_step (Some path) st ev = Some st' <-> loop_step st ev st'.
Proof.
  split.
  - unfold unix_step. destruct ev; destruct (phase st) eqn:Hp; try done;
      try (destruct (Z.ltb_spec (held st) (active st)); [|done]);
      try (destruct (Z.ltb_spec 0 (held st)); [|done]); intros [= <-]; rewrite <- ?Hp;
      (apply step_accept || apply (step_error st) || apply step_done || apply step_hold || apply step_unhold
       || apply step_close); auto.
  - intros [st0 Hp|st0 e b Hp|st0 Hlt|st0 Hlt|st0 Hlt|st0 Hp]; unfold unix_step; rewrite ?Hp; [done|done| | | |].
    1-3: by rewrite (proj2 (Z.ltb_lt _ _)) by done.
    by destruct Hp as [->| ->].
Qed.

(** ** Invariants *)

Record loop_inv (st : LoopState) : Prop := mkLoopInv {
  inv_active : 0 <= held st <= active st;
  inv_cap : active st <= MAX_ACTIVE_LOCAL_CONNS;
  inv_holds : held st <= MAX_HELD_CONNS;
  inv_waiting : phase st = AwaitingPermit -> active st = MAX_ACTIVE_LOCAL_CONNS;
  inv_aborts : (forall e, phase st <> Returned e) ->
    0 <= consecutive_aborts (retry st) < REBIND_AFTER_CONSECUTIVE_ABORTS;
}.

Ltac loop_consts :=
  unfold MAX_ACTIVE_LOCAL_CONNS, MAX_HELD_CONNS, REBIND_AFTER_CONSECUTIVE_ABORTS in *.

Lemma record_error_aborts e r r' :
  0 <= consecutive_aborts r < REBIND_AFTER_CONSECUTIVE_ABORTS ->
  record_error e r = (RetrySame, r') ->
  0 <= consecutive_aborts r' < REBIND_AFTER_CONSECUTIVE_ABORTS.
Proof.
  unfold record_error. intros Hr. destruct (_ || _) eqn:Hc; [done|]. intros [= <-].
  apply orb_false_iff in Hc as [_ Hc]. apply Z.leb_gt in Hc. loop_consts. simpl.
  destruct (classify_accept_error e); simpl in *; lia.
Qed.

Lemma on_accept_inv st : phase st = Accepting -> loop_inv st -> loop_inv (on_accept st).
Proof.
  intros Hp [Ha Hc Hh _ Hr]. unfold on_accept. simpl.
  destruct (Z.ltb_spec (active st) MAX_ACTIVE_LOCAL_CONNS); loop_consts;
    split; simpl; try lia; try done; loop_consts; intros; lia.
Qed.

Lemma on_error_inv e b st :
  phase st = Accepting -> loop_inv st -> loop_inv (on_accept_error e b st).
Proof.
  intros Hp [Ha Hc Hh _ Hr]. unfold on_accept_error.
  assert (Hab : 0 <= consecutive_aborts (retry st) < REBIND_AFTER_CONSECUTIVE_ABORTS)
    by (apply Hr; intros x; by rewrite Hp).
  destruct (record_error e (retry st)) as [[|] r] eqn:He.
  - destruct (rebind_listener b) as [u|err]; split; simpl; try done; loop_consts; try lia.
    intros Hx. by destruct (Hx err).
  - split; simpl; try done. intros _. by eapply record_error_aborts.
Qed.

Lemma loop_step_inv st ev st' : loop_step st ev st' -> loop_inv st -> loop_inv st'.
Proof.
  intros [st0 Hp|st0 e b Hp|st0 Hlt|st0 Hlt|st0 Hh|st0 Hp] Hinv.
  - by apply on_accept_inv.
  - by apply on_error_inv.
  - destruct Hinv as [Ha Hc Hhd Hw Hr]. unfold on_conn_done. simpl.
    destruct (phase st0) eqn:Hph; split; simpl in *; loop_consts; try done; try lia.
    all: intros _; apply Hr; done.
  - unfold on_hold. destruct (Z.ltb_spec (held st0) MAX_HELD_CONNS); [|done].
    destruct Hinv as [Ha Hc Hhd Hw Hr]. split; simpl; try done; lia.
  - destruct Hinv as [Ha Hc Hhd Hw Hr]. split; simpl; try done; loop_consts; lia.
  - destruct Hinv as [Ha Hc Hhd Hw Hr]. split; simpl; try done. intros _. apply Hr.
    intros e. by destruct Hp as [->| ->].
Qed.

Lemma loop_run_inv evs st : loop_run loop_init evs st -> loop_inv st.
Proof.
  intros Hrun. remember loop_init as st0 eqn:Heq. induction Hrun as [|st evs st1 ev st2 _ IH Hs].
  - subst. split; simpl; loop_consts; try done; lia.
  - by apply (loop_step_inv st1 ev), IH.
Qed.

(** Once its listener is closed on request, the loop accepts nothing more. *)
Lemma parked_absorbing st ev st' :
  loop_step st ev st' -> phase st = Parked -> phase st' = Parked /\ active st' <= active st.
Proof.
  intros [st0 Hp|st0 e b Hp|st0 Hlt|st0 Hlt|st0 Hh|st0 Hp] Hpk; try congruence; simpl.
  - unfold on_conn_done. simpl. rewrite Hpk. simpl. split; [done|lia].
  - unfold on_hold. destruct (_ <? _); simpl; split; [done|lia|done|lia].
  - split; [done|lia].
  - split; [done|lia].
Qed.

(** The loop has returned because a listener could not be bound again. *)
Definition rebind_failed (ev : LoopEvent) (e : ProxyError) : Prop :=
  exists err b e1 e2, ev = AcceptErr err b /\ first_bind b = Err e1 /\ second_bind b = Err e2
    /\ e = Network e2 /\ classify_accept_error err <> ResourcePressure.

Lemma step_returns st ev st' e :
  loop_step st ev st' -> phase st' = Returned e -> phase st = Returned e \/ rebind_failed ev e.
Proof.
  intros [st0 Hp|st0 err b Hp|st0 Hlt|st0 Hlt|st0 Hh|st0 Hp]; simpl.
  - unfold on_accept. simpl. by destruct (_ <? _).
  - unfold on_accept_error. destruct (record_error err (retry st0)) as [[|] r] eqn:Hr; [|done].
    unfold rebind_listener. destruct (first_bind b) as [u|e1] eqn:H1; [done|].
    destruct (second_bind b) as [u|e2] eqn:H2; [done|]. simpl. intros [= <-]. right.
    exists err, b, e1, e2. repeat split; try done. intros Hc. unfold record_error in Hr.
    by rewrite Hc in Hr.
  - unfold on_conn_done. simpl. destruct (phase st0); simpl; try done. by left.
  - unfold on_hold. destruct (_ <? _); simpl; by left.
  - by left.
  - done.
Qed.

(** The accept loops: in every reachable state at most 256 connections are
    handled and at most 64 of them are parked waiting for the tunnel, so that
    held requests never take the permits direct traffic needs; an accepted
    connection waits only when every permit is taken; and a loop returns (ending
    the client) only when an accept failed for a reason other than exhausted
    descriptors and two attempts to bind a replacement listener failed too. *)
Theorem accept_loop_bounded evs st :
  loop_run loop_init evs st ->
  0 <= held st <= active st /\ active st <= MAX_ACTIVE_LOCAL_CONNS /\ held st <= MAX_HELD_CONNS
  /\ (phase st = AwaitingPermit -> active st = MAX_ACTIVE_LOCAL_CONNS)
  /\ (forall e, phase st = Returned e -> exists ev, ev ∈ evs /\ rebind_failed ev e).
Proof.
  intros Hrun. destruct (loop_run_inv evs st Hrun) as [Ha Hc Hh Hw _].
  split; [done|]. split; [done|]. split; [done|]. split; [done|].
  remember loop_init as st0 eqn:Heq. clear Ha Hc Hh Hw.
  induction Hrun as [|st evs st1 ev st2 _ IH Hs]; intros e He; [by subst|].
  destruct (step_returns _ _ _ _ Hs He) as [He'|Hf].
  - destruct (IH Heq e He') as (ev' & Hin & Hf). exists ev'. split; [|done]. set_solver.
  - exists ev. split; [set_solver|done].
Qed.

(** The rebind policy: exhausted descriptors never rebind; a broken listener
    is rebound at once; an aborted accept is retried until it is the fourth in a
    row (an accepted connection, exhausted descriptors or a rebind start the
    count again), and then the listener is rebound. *)
Theorem accept_rebind_policy evs st e b :
  loop_run loop_init evs st -> phase st = Accepting ->
  let st' := on_accept_error e b st in
  let rebinds := match rebind_listener b with Ok _ => Accepting | Err err => Returned err end in
  match classify_accept_error e with
  | ResourcePressure => phase st' = Accepting /\ consecutive_aborts (retry st') = 0
      /\ consecutive_failures (retry st') = consecutive_failures (retry st) + 1
  | Broken => phase st' = rebinds
  | Aborted =>
      if consecutive_aborts (retry st) =? 3 then phase st' = rebinds
      else phase st' = Accepting
           /\ consecutive_aborts (retry st') = consecutive_aborts (retry st) + 1
  end.
Proof.
  intros Hrun Hp. pose proof (loop_run_inv evs st Hrun) as Hinv.
  assert (Hab : 0 <= consecutive_aborts (retry st) < REBIND_AFTER_CONSECUTIVE_ABORTS)
    by (apply Hinv; intros x; by rewrite Hp).
  cbv zeta. unfold on_accept_error, record_error. loop_consts.
  destruct (classify_accept_error e); simpl; [done| |by destruct (rebind_listener b)].
  destruct (Z.eqb_spec (consecutive_aborts (retry st)) 3) as [->|Hne]; simpl.
  - by destruct (rebind_listener b).
  - by rewrite (proj2 (Z.leb_gt 4 (consecutive_aborts (retry st) + 1))) by lia.
Qed.

(** ** Witnesses *)

Definition ref_aborted : io_error := mkIoError ConnectionAborted None (str "aborted").
Definition ref_emfile : io_error := mkIoError (Uncategorized 24) (Some 24) (str "too many open files").
Definition ref_no_bind : Rebind := mkRebind (Err ref_aborted) (Err ref_aborted).

Lemma accept_loop_bounded_witness :
  loop_run loop_init [AcceptOk; HoldRequested] (mkLoop Accepting AcceptRetry_new 1 1)
  /\ 0 <= 1 <= 1.
Proof.
  assert (Hrun : loop_run loop_init ([AcceptOk] ++ [HoldRequested])
                   (mkLoop Accepting AcceptRetry_new 1 1)).
  { apply (run_snoc _ _ (mkLoop Accepting AcceptRetry_new 1 0)).
    - apply (run_snoc _ [] loop_init); [constructor|]. by apply (step_accept loop_init).
    - by apply (step_hold (mkLoop Accepting AcceptRetry_new 1 0)). }
  split; [exact Hrun|]. apply (accept_loop_bounded _ _ Hrun).
Defined.

Lemma accept_rebind_policy_witness :
  phase (on_accept_error ref_emfile ref_no_bind loop_init) = Accepting.
Proof.
  apply (accept_rebind_policy [] loop_init ref_emfile ref_no_bind); [constructor|reflexivity].
Defined.
