(* ===== verification/ClientRun.v ===== *)
(** * A client session's task ([proxy/client.rs]: [ProxyClient::run] and its variants)

    One task with several futures: the connection manager ([Client]) and an accept loop per
    front end ([Accept]); the first that ends ends the session and drops the others. *)

From S2P Require Import Prelude RustStr Stream Accept.

Inductive FrontEnd : Type := FSocks | FHttp | FUnix.

Record State : Type := mkState {
  socks : option LoopState;
  http : option LoopState;
  unix : option LoopState;
  ended : option (result ProxyError ());
}.

Definition loop_of (s : State) (fe : FrontEnd) : option LoopState :=
  match fe with FSocks => socks s | FHttp => http s | FUnix => unix s end.

Definition put_loop (fe : FrontEnd) (l : LoopState) (s : State) : State :=
  match fe with
  | FSocks => mkState (Some l) (http s) (unix s) (ended s)
  | FHttp => mkState (socks s) (Some l) (unix s) (ended s)
  | FUnix => mkState (socks s) (http s) (Some l) (ended s)
  end.

(** The first future that ends drops the others with their listeners. *)
Definition end_with (r : result ProxyError ()) : State := mkState None None None (Some r).

(** An enabled front end: its listener, whose address is read for the log. *)
Definition Listener : Type := result io_error ().

Definition local_addr (l : option Listener) : result ProxyError () :=
  match l with Some (Err e) => Err (Network e) | _ => Ok tt end.

Definition accept_from (l : option Listener) : option LoopState :=
  match l with Some _ => Some loop_init | None => None end.

Definition run_with_optional_listeners_ext (l_socks l_http l_unix : option Listener) : State :=
  match (_ ← local_addr l_socks; _ ← local_addr l_http; local_addr l_unix) with
  | Err e => end_with (Err e)
  | Ok _ => mkState (accept_from l_socks) (accept_from l_http) (accept_from l_unix) None
  end.

Definition run_with_optional_listeners (l_socks l_http : option Listener) : State :=
  run_with_optional_listeners_ext l_socks l_http None.

Definition run_with_listeners (l_socks : Listener) (l_http : option Listener) : State :=
  run_with_optional_listeners (Some l_socks) l_http.

(** [run]: what binding each configured address gives. *)
Definition run (bind_socks bind_http : option (result io_error Listener)) : State :=
  let bound b := match b with
                 | Some (Ok l) => Ok (Some l)
                 | Some (Err e) => Err (Network e)
                 | None => Ok None
                 end in
  match bound bind_socks with
  | Err e => end_with (Err e)
  | Ok s => match bound bind_http with
            | Err e => end_with (Err e)
            | Ok h => run_with_optional_listeners s h
            end
  end.

Inductive Event : Type :=
| LoopEv (fe : FrontEnd) (ev : LoopEvent)
| ManagerEnds (r : result ProxyError ()).

Definition after_loop (fe : FrontEnd) (l : LoopState) (s : State) : State :=
  match phase l with Returned e => end_with (Err e) | _ => put_loop fe l s end.

Inductive step : State -> Event -> State -> Prop :=
| step_loop s fe l ev l' :
    ended s = None -> loop_of s fe = Some l -> loop_step l ev l' -> step s (LoopEv fe ev) (after_loop fe l' s)
| step_manager s r : ended s = None -> step s (ManagerEnds r) (end_with r).

Inductive steps : State -> list Event -> State -> Prop :=
| steps_nil s : steps s [] s
| steps_snoc s evs s1 ev s2 : steps s evs s1 -> step s1 ev s2 -> steps s (evs ++ [ev]) s2.

Lemma step_ends s ev s' r :
  step s ev s' -> (forall fe l e, loop_of s fe = Some l -> phase l <> Returned e) -> ended s' = Some r ->
  ev = ManagerEnds r \/ exists fe ev' e, ev = LoopEv fe ev' /\ is_Some (loop_of s fe) /\ r = Err e /\ rebind_failed ev' e.
Proof.
  intros [s0 fe l ev0 l' Hn Hl Hs|s0 r0 Hn] Hlive He; [|left; by injection He as <-].
  right. unfold after_loop in He.
  assert (Hp : exists e, phase l' = Returned e /\ r = Err e).
  { destruct (phase l') eqn:E; try (destruct fe; cbn in He; congruence). injection He as <-. by eexists. }
  destruct Hp as (e & Hp & ->). exists fe, ev0, e. split; [done|]. rewrite Hl. split; [by eexists|]. split; [done|].
  destruct (step_returns l ev0 l' e Hs Hp) as [Hr|?]; [|done]. by destruct (Hlive fe l e Hl).
Qed.

Lemma after_loop_live fe l s :
  (forall fe' l' e, loop_of s fe' = Some l' -> phase l' <> Returned e) ->
  forall fe' l' e, loop_of (after_loop fe l s) fe' = Some l' -> phase l' <> Returned e.
Proof.
  intros Hlive fe' l' e. unfold after_loop. destruct (phase l) eqn:E; [..|by destruct fe'].
  all: destruct fe, fe'; cbn; try apply (Hlive FSocks); try apply (Hlive FHttp); try apply (Hlive FUnix).
  all: intros [= <-]; congruence.
Qed.

(** No loop that returned is left running, and front ends stay the enabled ones. *)
Lemma steps_live s evs s' :
  steps s evs s' -> (forall fe l e, loop_of s fe = Some l -> phase l <> Returned e) ->
  (forall fe l e, loop_of s' fe = Some l -> phase l <> Returned e)
  /\ (forall fe, is_Some (loop_of s' fe) -> is_Some (loop_of s fe)).
Proof.
  induction 1 as [s|s evs s1 ev s2 _ IH Hs]; intros Hlive; [done|]. destruct (IH Hlive) as [Hl Hi].
  destruct Hs as [s0 fe l ev l' Hn Hlo Hst|s0 r Hn].
  - split; [by apply after_loop_live|]. intros fe' Hfe. apply Hi. unfold after_loop in Hfe.
    destruct (phase l'); [..|by destruct fe', Hfe].
    all: destruct fe, fe'; cbn in *; try done; by rewrite Hlo.
  - split; [by intros []|]. by intros [] [].
Qed.

Lemma start_live a b c fe l e :
  loop_of (run_with_optional_listeners_ext a b c) fe = Some l -> phase l <> Returned e.
Proof.
  unfold run_with_optional_listeners_ext. destruct (_ ← _; _) as [u|e']; [|by destruct fe].
  destruct fe, a, b, c; cbn; intros [= <-]; done.
Qed.

(** The session outlives its front ends: whatever the listeners go through (closed on
    request, saturated, failing accepts, rebinds), a session that started ends only with
    its connection manager's result, or with the error of an enabled front end whose
    listener broke and could not be bound again twice. *)
Theorem session_outlives_front_ends (l_socks l_http l_unix : option Listener) (evs : list Event) (s : State)
    (r : result ProxyError ()) :
  let s0 := run_with_optional_listeners_ext l_socks l_http l_unix in
  ended s0 = None -> steps s0 evs s -> ended s = Some r ->
  ManagerEnds r ∈ evs
  \/ exists fe ev e, LoopEv fe ev ∈ evs /\ is_Some (loop_of s0 fe) /\ r = Err e /\ rebind_failed ev e.
Proof.
  intros s0 H0 Hrun. pose proof (start_live l_socks l_http l_unix : forall fe l e, loop_of s0 fe = Some l -> phase l <> Returned e) as Hlive.
  clearbody s0. induction Hrun as [s|s evs s1 ev s2 Hrun IH Hs]; intros He; [congruence|].
  destruct (ended s1) as [r1|] eqn:E1.
  - destruct Hs; congruence.
  - destruct (steps_live _ _ _ Hrun Hlive) as [Hl1 Hi1].
    destruct (step_ends s1 ev s2 r Hs Hl1 He) as [->|(fe & ev' & e & -> & Hfe & -> & Hf)].
    + left. set_solver.
    + right. exists fe, ev', e. split_and!; [set_solver|by apply Hi1|done|done].
Qed.

Definition ref_steps : list Event := [LoopEv FSocks CloseSignal; ManagerEnds (Err (ConnectionLost (str "gone")))].

Lemma session_outlives_front_ends_witness :
  exists s, steps (run_with_optional_listeners_ext (Some (Ok tt)) None None) ref_steps s
    /\ (ManagerEnds (Err (ConnectionLost (str "gone"))) ∈ ref_steps
        \/ exists fe ev e, LoopEv fe ev ∈ ref_steps
             /\ is_Some (loop_of (run_with_optional_listeners_ext (Some (Ok tt)) None None) fe)
             /\ (Err (ConnectionLost (str "gone")) : result ProxyError ()) = Err e /\ rebind_failed ev e).
Proof.
  assert (Hs : steps (run_with_optional_listeners_ext (Some (Ok tt)) None None) ref_steps
                 (end_with (Err (ConnectionLost (str "gone"))))).
  { apply (steps_snoc _ [LoopEv FSocks CloseSignal]
      (after_loop FSocks (mkLoop Parked AcceptRetry_new 0 0) (run_with_optional_listeners_ext (Some (Ok tt)) None None))).
    - apply (steps_snoc _ [] (run_with_optional_listeners_ext (Some (Ok tt)) None None)); [constructor|].
      apply (step_loop _ FSocks loop_init CloseSignal (mkLoop Parked AcceptRetry_new 0 0)); [done|done|].
      apply (step_close loop_init). by left.
    - by apply step_manager. }
  eexists. split; [exact Hs|].
  exact (session_outlives_front_ends (Some (Ok tt)) None None ref_steps _ (Err (ConnectionLost (str "gone")))
    eq_refl Hs eq_refl).
Defined.
