(* ===== verification/ServerRun.v ===== *)
(** * The server's accept loop ([proxy/server.rs]: [ProxyServer::run]; [server.rs]: [serve])

    A permit per connection, the shutdown a handler can notify, the bridge tasks the loop
    owns and the home-relay failover beside it. Of a connection handler ([Server]) the loop
    sees the permit it gives back and the notification. *)

From S2P Require Import Prelude RustStr Stream.

Definition MAX_CONCURRENT_CONNECTIONS : nat := 1024.

(** Where the loop is: waiting for a permit, in the [select!] with one in hand, or done. *)
Inductive Phase : Type :=
| WantPermit
| Selecting
| Done (r : result ProxyError ()).

Record State : Type := mkState {
  phase : Phase;
  permits : nat;
  handlers : gset nat;          (* connections being handled, each with a permit *)
  next_conn : nat;
  notified : bool;              (* the stored permit of the shutdown [Notify] *)
  bridges_running : bool;       (* the [JoinSet] of bridge tasks, aborted with the loop *)
}.

Definition start : State := mkState WantPermit MAX_CONCURRENT_CONNECTIONS ∅ 0 false true.

Definition finish (r : result ProxyError ()) (s : State) : State :=
  mkState (Done r) (permits s) (handlers s) (next_conn s) (notified s) false.

Definition duplicate_error : ProxyError :=
  DuplicateServerId (str "server id detected as a duplicate; recorded in the blocklist and stopping").

Inductive Event : Type :=
| Permit                     (* [acquire_owned] *)
| Incoming                   (* [endpoint.accept] *)
| EndpointClosed
| Notified
| SelfBlock (c : nat)        (* [self_block] in a handler *)
| HandlerEnds (c : nat)
| FailoverEnds               (* the other branch of [serve] *).

(** [None]: not possible where the loop stands. *)
Definition step (s : State) (ev : Event) : option State :=
  match ev, phase s with
  | Permit, WantPermit =>
      match permits s with
      | O => None
      | S n => Some (mkState Selecting n (handlers s) (next_conn s) (notified s) (bridges_running s))
      end
  | Incoming, Selecting =>
      Some (mkState WantPermit (permits s) ({[next_conn s]} ∪ handlers s) (S (next_conn s)) (notified s)
              (bridges_running s))
  | EndpointClosed, Selecting => Some (finish (Ok tt) s)
  | Notified, Selecting =>
      if notified s
      then Some (finish (Err duplicate_error)
                   (mkState (phase s) (permits s) (handlers s) (next_conn s) false (bridges_running s)))
      else None
  | SelfBlock c, _ =>
      if bool_decide (c ∈ handlers s)
      then Some (mkState (phase s) (permits s) (handlers s) (next_conn s) true (bridges_running s))
      else None
  | HandlerEnds c, _ =>
      if bool_decide (c ∈ handlers s)
      then Some (mkState (phase s) (S (permits s)) (handlers s ∖ {[c]}) (next_conn s) (notified s)
                   (bridges_running s))
      else None
  | FailoverEnds, (WantPermit | Selecting) => Some (finish (Ok tt) s)
  | _, _ => None
  end.

Definition exec (s : State) (ev : Event) : State := default s (step s ev).

Definition run (evs : list Event) : State := foldl exec start evs.

(** One pass of the loop as the scheduler may decide it. [waiting]: a connection is
    waiting to be accepted; [shutdown]: which branch the [select!] takes when both are
    ready ([select!] polls its branches in a random order). A loop that waits for a permit
    gets the next one a handler gives back. *)
Definition pass_events (s : State) (choice : bool * bool) : list Event :=
  let '(waiting, shutdown) := choice in
  match phase s with
  | WantPermit =>
      (if bool_decide (permits s = 0)%nat then HandlerEnds <$> take 1 (elements (handlers s)) else [])
      ++ [Permit]
  | _ => []
  end
  ++ if notified s && (negb waiting || shutdown) then [Notified]
     else if waiting then [Incoming] else [].

Definition pass (s : State) (choice : bool * bool) : State := foldl exec s (pass_events s choice).

Definition passes (s : State) (choices : list (bool * bool)) : State := foldl pass s choices.

(** ** The cap and the shutdown *)

Definition in_hand (p : Phase) : nat := match p with Selecting => 1 | _ => 0 end.

Definition is_done (p : Phase) : bool := match p with Done _ => true | _ => false end.

Record inv (blocked : bool) (s : State) : Prop := {
  inv_permits : (permits s + size (handlers s) + in_hand (phase s) <= MAX_CONCURRENT_CONNECTIONS)%nat
                /\ (is_done (phase s) = false ->
                    permits s + size (handlers s) + in_hand (phase s) = MAX_CONCURRENT_CONNECTIONS)%nat;
  inv_fresh : forall c, c ∈ handlers s -> (c < next_conn s)%nat;
  inv_notified : is_done (phase s) = false -> notified s = blocked;
  inv_bridges : bridges_running s = negb (is_done (phase s));
}.

(** Whether the event is a self-block that happens. *)
Definition blocks (s : State) (ev : Event) : bool :=
  match ev with SelfBlock c => bool_decide (c ∈ handlers s) | _ => false end.

Lemma size_remove (X : gset nat) c : c ∈ X -> (S (size (X ∖ {[c]})) = size X)%nat.
Proof.
  intros Hc. rewrite size_difference, size_singleton by set_solver.
  assert (size X <> 0)%nat; [|lia]. intros ?%size_empty_inv. set_solver.
Qed.

Lemma step_inv b s ev s' : inv b s -> step s ev = Some s' -> inv (b || blocks s ev) s'.
Proof.
  intros [[Hle Heq] Hf Hn Hb] Hs. destruct s as [ph pm hs nx nt br]; cbn in *. subst br.
  destruct ev as [| | | |c|c|].
  - destruct ph; [|done..]. destruct pm as [|pm]; simplify_eq/=. rewrite orb_false_r.
    specialize (Heq eq_refl). split; cbn; auto. split; [|intros _]; lia.
  - destruct ph; simplify_eq/=. rewrite orb_false_r. specialize (Heq eq_refl). split; cbn; auto.
    + rewrite size_union, size_singleton; [split; [|intros _]; lia|].
      apply disjoint_singleton_l. intros ?%Hf. lia.
    + intros c [->%elem_of_singleton|?%Hf]%elem_of_union; lia.
  - destruct ph; simplify_eq/=. rewrite orb_false_r. split; cbn; auto. split; [lia|done].
  - destruct ph, nt; simplify_eq/=. rewrite orb_false_r. split; cbn; auto; [split; [lia|done]|done].
  - assert (Hs' : (if bool_decide (c ∈ hs) then Some (mkState ph pm hs nx true (negb (is_done ph))) else None)
      = Some s') by (by destruct ph). cbn. case_bool_decide; simplify_eq.
    split; cbn; auto. by rewrite orb_true_r.
  - assert (Hs' : (if bool_decide (c ∈ hs) then Some (mkState ph (S pm) (hs ∖ {[c]}) nx nt (negb (is_done ph)))
      else None) = Some s') by (by destruct ph). case_bool_decide as Hc; simplify_eq.
    pose proof (size_remove hs c Hc). cbn. rewrite orb_false_r. split; cbn; auto; [|set_solver].
    split; [lia|]. intros E. specialize (Heq E). lia.
  - destruct ph; simplify_eq/=; rewrite orb_false_r; split; cbn; auto; split; try done; lia.
Qed.

(** Whether a handler has self-blocked the server over a run. *)
Definition self_blocked (evs : list Event) : bool :=
  (foldl (fun sb ev => (default sb.1 (step sb.1 ev), sb.2 || blocks sb.1 ev)) (start, false) evs).2.

Lemma serve_inv_run evs : inv (self_blocked evs) (run evs).
Proof.
  unfold self_blocked, run.
  assert (H : forall s b, inv b s ->
    let '(s', b') := foldl (fun sb ev => (default sb.1 (step sb.1 ev), sb.2 || blocks sb.1 ev)) (s, b) evs in
    s' = foldl exec s evs /\ inv b' s').
  { induction evs as [|ev evs IH]; intros s b Hs; [done|]. cbn. unfold exec at 2. apply IH.
    destruct (step s ev) as [s'|] eqn:E; cbn; [by apply step_inv|].
    assert (blocks s ev = false) as ->; [|by rewrite orb_false_r].
    destruct ev; try done. cbn in *. by destruct (phase s); case_bool_decide. }
  specialize (H start false). destruct (foldl _ (start, false) evs) as [s' b'].
  destruct H as [<- ?]; [|done]. by split.
Qed.

Lemma done_is_duplicate evs e :
  phase (run evs) = Done (Err e) -> e = duplicate_error /\ self_blocked evs = true.
Proof.
  induction evs as [|ev evs IH] using rev_ind; [done|].
  unfold run, self_blocked. rewrite !foldl_app. cbn. unfold exec at 1. fold (run evs). fold (self_blocked evs).
  pose proof (serve_inv_run evs) as [_ _ Hn _].
  assert (Hmono : self_blocked evs = true -> self_blocked evs || blocks (foldl (fun sb ev =>
    (default sb.1 (step sb.1 ev), sb.2 || blocks sb.1 ev)) (start, false) evs).1 ev = true) by (by intros ->).
  destruct (step (run evs) ev) as [s'|] eqn:E; cbn; [|intros Hp; destruct (IH Hp); auto].
  intros Hp. destruct (run evs) as [ph pm hs nx nt br]; cbn in *.
  destruct ev, ph; cbn in E; repeat case_match; simplify_eq/=; try (destruct (IH eq_refl); auto).
  split; [done|]. apply Hmono. by rewrite <- Hn.
Qed.

Lemma self_blocked_app evs more : self_blocked evs = true -> self_blocked (evs ++ more) = true.
Proof.
  unfold self_blocked. rewrite foldl_app. generalize (foldl (fun sb ev =>
    (default sb.1 (step sb.1 ev), sb.2 || blocks sb.1 ev)) (start, false) evs).
  induction more as [|ev more IH]; intros [s b]; [done|]. cbn. intros ->. by apply IH.
Qed.

(** A notified loop that has not ended and can get a permit. *)
Record stopping (s : State) : Prop := {
  st_notified : notified s = true;
  st_running : is_done (phase s) = false;
  st_permit : permits s = 0%nat -> phase s = WantPermit -> handlers s <> ∅;
}.

Lemma run_stopping evs :
  self_blocked evs = true -> is_done (phase (run evs)) = false -> stopping (run evs).
Proof.
  intros Hblk Hd. pose proof (serve_inv_run evs) as [[_ Heq] _ Hn _]. specialize (Heq Hd).
  split; [by rewrite Hn|done|]. intros Hz Hw E. by rewrite E, size_empty, Hz, Hw in Heq.
Qed.

(** The pass has its permit in hand and still owes the choice of a branch. *)
Lemma pass_permit s choice : stopping s -> exists s1,
  pass s choice = foldl exec s1 (if negb choice.1 || choice.2 then [Notified] else [Incoming])
  /\ phase s1 = Selecting /\ notified s1 = true /\ next_conn s1 = next_conn s.
Proof.
  destruct s as [ph pm hs nx nt br], choice as [w c]. intros [Hn Hd Hh]. cbn in *. subst nt.
  unfold pass. destruct ph as [| |r]; [| |done].
  - unfold pass_events. cbn [phase permits handlers notified]. case_bool_decide as Hz.
    + subst pm. specialize (Hh eq_refl eq_refl). destruct (elements hs) as [|x l] eqn:Hx.
      { by apply elements_empty_inv, leibniz_equiv in Hx. }
      assert (x ∈ hs) as Hin by (apply elem_of_elements; rewrite Hx; set_solver).
      exists (mkState Selecting 0 (hs ∖ {[x]}) nx true br). split; [|done]. cbn.
      unfold exec at 1 2. cbn. rewrite bool_decide_eq_true_2 by done. cbn. by destruct w, c.
    + destruct pm as [|pm]; [done|]. exists (mkState Selecting pm hs nx true br). split; [|done]. cbn.
      by destruct w, c.
  - exists (mkState Selecting pm hs nx true br). split; [|done]. unfold pass_events. cbn. by destruct w, c.
Qed.

Lemma pass_ends s w c : stopping s -> negb w || c = true ->
  phase (pass s (w, c)) = Done (Err duplicate_error) /\ next_conn (pass s (w, c)) = next_conn s.
Proof.
  intros Hs Hc. destruct (pass_permit s (w, c) Hs) as (s1 & -> & Hp & Hn & <-). cbn [fst snd].
  rewrite Hc. destruct s1; cbn in *; subst. done.
Qed.

Lemma pass_accepts s : stopping s ->
  stopping (pass s (true, false)) /\ next_conn (pass s (true, false)) = S (next_conn s).
Proof.
  intros Hs. destruct (pass_permit s (true, false) Hs) as (s1 & -> & Hp & Hn & <-). cbn [fst snd negb orb].
  destruct s1; cbn in *; subst. split; [|done]. split; cbn; [done|done|set_solver].
Qed.

Lemma passes_lost s lost : stopping s -> Forall (eq (true, false)) lost ->
  stopping (passes s lost) /\ next_conn (passes s lost) = (next_conn s + length lost)%nat.
Proof.
  unfold passes. intros Hs Hl. revert s Hs. induction Hl as [|x l <- _ IH]; intros s Hs; cbn [foldl length].
  { split; [done|lia]. }
  destruct (pass_accepts s Hs) as [Hs1 Hx]. destruct (IH _ Hs1) as [? ->]. split; [done|]. rewrite Hx. lia.
Qed.

(** A loop that has to stop: the shutdown is ready in every [select!], a permit comes with
    the next handler that ends, and the passes end it at the first one in which no
    connection waits or the [select!] takes the shutdown, having accepted exactly one
    connection for each pass before that. *)
Definition ends_when_chosen (s : State) : Prop :=
  notified s = true
  /\ (phase s = Selecting -> exists s', step s Notified = Some s' /\ phase s' = Done (Err duplicate_error))
  /\ (phase s = WantPermit -> permits s = 0%nat ->
        handlers s <> ∅ /\ forall c, c ∈ handlers s ->
          exists s1 s2, step s (HandlerEnds c) = Some s1 /\ step s1 Permit = Some s2)
  /\ forall lost waiting shutdown, Forall (eq (true, false)) lost -> negb waiting || shutdown = true ->
        let s' := passes s (lost ++ [(waiting, shutdown)]) in
        phase s' = Done (Err duplicate_error) /\ next_conn s' = (next_conn s + length lost)%nat.

Lemma stopping_ends s : stopping s -> ends_when_chosen s.
Proof.
  intros Hs. split_and!; [apply Hs| | |].
  - destruct Hs as [Hn _ _]. destruct s; cbn in *. intros ->. subst. by eexists.
  - intros Hw Hz. split; [by apply Hs|]. intros c Hc. destruct s as [ph pm hs nx nt br]; cbn in *. subst.
    rewrite bool_decide_eq_true_2 by done. do 2 eexists. split; [done|]. done.
  - intros lost w c Hl Hc s'. subst s'. unfold passes. rewrite foldl_app. cbn.
    destruct (passes_lost s lost Hs Hl) as [Hs1 <-]. by apply pass_ends.
Qed.

(** C39. A flood of connections runs at most 1024 handlers, and the bridge tasks run exactly
    as long as the loop. A self-block is never lost: whatever happens after a handler has
    recorded the duplicate, the loop is over or the shutdown stays ready, and a loop that
    waits for a permit gets the next one a handler gives back. The [select!] is not biased:
    with a connection waiting it may take that instead, so the loop ends with the duplicate
    error at the first pass in which no connection waits or the shutdown is taken, after
    accepting exactly one connection for each pass before. It never ends with that error
    otherwise. *)
Theorem self_block_ends_run (evs : list Event) :
  let s := run evs in
  (size (handlers s) <= MAX_CONCURRENT_CONNECTIONS)%nat
  /\ bridges_running s = negb (is_done (phase s))
  /\ (self_blocked evs = true -> forall more, let s' := run (evs ++ more) in
        is_done (phase s') = true \/ ends_when_chosen s')
  /\ (forall e, phase s = Done (Err e) -> e = duplicate_error /\ self_blocked evs = true).
Proof.
  intros s. pose proof (serve_inv_run evs : inv _ s) as [[Hle Heq] Hf Hn Hb].
  split_and!; [lia|done| |apply done_is_duplicate].
  intros Hblk more. cbv zeta. destruct (is_done (phase (run (evs ++ more)))) eqn:Ed; [by left|].
  right. by apply stopping_ends, run_stopping; [apply self_blocked_app|].
Qed.

(** A full house: the self-blocking handler's end lets the loop see the shutdown. *)
Example saturated_self_block :
  let full := concat (replicate MAX_CONCURRENT_CONNECTIONS [Permit; Incoming]) in
  let s := run (full ++ [Permit; SelfBlock 3; Notified; HandlerEnds 3; Permit; Notified]) in
  phase s = Done (Err duplicate_error) /\ size (handlers s) = 1023%nat.
Proof. vm_compute. done. Qed.

(** Two connections win their pass after the self-block, then none waits. *)
Example self_block_after_two :
  let s := run [Permit; Incoming; SelfBlock 0] in
  let s' := passes s [(true, false); (true, false); (false, false)] in
  phase s' = Done (Err duplicate_error) /\ next_conn s = 1%nat /\ next_conn s' = 3%nat.
Proof. vm_compute. done. Qed.
