(* ===== verification/LocalConn.v ===== *)
(** * Local connections of the client ([proxy/client.rs])

    What happens to one connection an application makes to the client's local
    proxy: the front-end protocols ([LocalProto]), the bounded waits for the route
    policy and for the tunnel, the split between tunneled and direct targets, and
    the exchange with the server. The handler runs on the same [Conn] as the
    server's (the application's stream and the log of outward actions); what it
    observes of the connection manager is a [LocalEnv]. *)

From S2P Require Import Prelude RustStr Net Stream Signaling Socks5 RoutedSet DnsForward Dial.
From S2P Require Import Blocklist Registry Server Client ClientProofs Http.

(** ** Front ends *)

Record LocalRequest : Type := mkLocalRequest {
  target : Target;
  upstream_preamble : option bytes;
}.

Class LocalProto := {
  lp_read_request : IO LocalRequest;
  lp_reply : byte -> IO ();
}.

Definition socks5_read_request : IO LocalRequest :=
  _ ← negotiate_method;
  t ← read_connect_request;
  mret (mkLocalRequest t None).

Definition Socks5Proto : LocalProto := {|
  lp_read_request := socks5_read_request;
  lp_reply := Socks5.write_reply;
|}.

Definition http_read_request (debug : bytes -> bytes) : IO LocalRequest :=
  req ← Http.read_request debug;
  mret (match req with
        | Connect t => mkLocalRequest t None
        | ForwardReq t head => mkLocalRequest t (Some head)
        end).

Definition HttpProto (debug : bytes -> bytes) : LocalProto := {|
  lp_read_request := http_read_request debug;
  lp_reply := Http.write_reply;
|}.

(** ** Waiting for the connection manager *)

(** What a wait for the tunnel observes: the connection at the subscription,
    whether a hold slot was free, the connection at the re-check, and the first
    connection published before the hold ran out. *)
Record TunnelView : Type := mkView {
  at_subscribe : option Z;
  hold_free : bool;
  at_recheck : option Z;
  within_hold : option Z;
}.

Definition wait_for_tunnel (v : TunnelView) : option Z :=
  match at_subscribe v with
  | Some conn => Some conn
  | None => if hold_free v then within_hold v else at_recheck v
  end.

Section local.
Context {NA : IpNetworkApi} {RA : ResolverApi} {NE : NetEnv}.

(** [known] and [after]: the policy before and after the wait. *)
Definition wait_for_route_policy (known : option RoutedSet) (v : TunnelView)
    (after : option RoutedSet) : option RoutedSet :=
  match known with
  | Some rs => Some rs
  | None => match wait_for_tunnel v with
            | None => None
            | Some _ => after
            end
  end.

Record LocalEnv : Type := mkLocalEnv {
  request_in_time : bool;               (* the local handshake beat its deadline *)
  policy_known : option RoutedSet;
  policy_view : TunnelView;
  policy_after : option RoutedSet;
  tunnel_view : TunnelView;
  open_bi : Z -> result io_error Stream;  (* a stream on the given connection *)
  open_expired : option nat;            (* the deadline of opening the tunnel *)
  direct_expired : option nat;          (* the deadline of a direct dial *)
  direct_write : result io_error ();    (* writing a head to a dialed target *)
}.

(** ** The handler *)

Section handler.
Context {LP : LocalProto}.

(** [let _ = proto.reply(..)]: a failure to answer is ignored. *)
Definition try_reply (rep : byte) : PIO () :=
  _ ← Dial.attempt (on_stream (lp_reply rep)); mret tt.

Definition direct_timed_out : io_error := mkIoError TimedOut None (str "deadline has elapsed").

Definition direct_connect (env : LocalEnv) (t : Target) (preamble : option bytes) : PIO () :=
  dialed ← Dial.attempt (with_deadline (direct_expired env) direct_timed_out (dial_target t None));
  match direct_expired env, dialed with
  | Some _, _ => try_reply REP_HOST_UNREACHABLE
  | None, Err e => try_reply (map_io_err e)
  | None, Ok _ =>
      _ ← match preamble with
          | None => on_stream (lp_reply REP_SUCCESS)
          | Some head => _ ← lift (direct_write env); emit (HeadSent head)
          end;
      emit Piped
  end.

(** The request and the reply on the stream just opened. *)
Definition exchange (conn : Z) (t : Target) (s : Stream) : PIO (Stream * byte) := fun c =>
  match write_request t s with
  | (Err e, _) => (Err e, c)
  | (Ok _, s1) =>
      let '(r, s2) := read_reply s1 in
      ((rep ← r; Ok (s2, rep)), mkConn (stream c) (log c ++ [TunnelRequested conn t]))
  end.

Definition open_tunnel (env : LocalEnv) (conn : Z) (t : Target) : PIO (Stream * byte) :=
  s ← lift (open_bi env conn);
  _ ← emit (TunnelOpened conn);
  exchange conn t s.

(** Begin the exchange after a success reply of the server. *)
Definition send_head (s : Stream) (head : bytes) : PIO () :=
  match (write_all head s).1 with
  | Ok _ => emit (HeadSent head)
  | Err e => _ ← try_reply REP_GENERAL_FAILURE; fail e
  end.

Definition tunnel_timed_out : io_error :=
  io_other (str "timed out opening tunnel / awaiting server reply").

Definition tunnel_connect (env : LocalEnv) (conn : Z) (t : Target) (preamble : option bytes)
  : PIO () :=
  opened ← Dial.attempt (with_deadline (open_expired env) tunnel_timed_out (open_tunnel env conn t));
  match opened with
  | Err e => _ ← try_reply REP_GENERAL_FAILURE; fail e
  | Ok (s, rep) =>
      if negb (bool_decide (rep = REP_SUCCESS)) then on_stream (lp_reply rep)
      else
      _ ← match preamble with
          | None => on_stream (lp_reply rep)
          | Some head => send_head s head
          end;
      emit Piped
  end.

Definition is_reserved_target (t : Target) : bool :=
  match t with Domain host _ => is_reserved_host host | Ip _ => false end.

Definition handle_local_conn (env : LocalEnv) : PIO () :=
  req ← (if request_in_time env then on_stream lp_read_request
         else fail (io_other (str "timed out during local proxy handshake")));
  match wait_for_route_policy (policy_known env) (policy_view env) (policy_after env) with
  | None => try_reply REP_GENERAL_FAILURE
  | Some rs =>
      if negb (is_reserved_target (target req)) && negb (allows rs (target req))
      then direct_connect env (target req) (upstream_preamble req)
      else match wait_for_tunnel (tunnel_view env) with
           | None => try_reply REP_NET_UNREACHABLE
           | Some conn => tunnel_connect env conn (target req) (upstream_preamble req)
           end
  end.

(** [ServerForwarder::connect] on the shared connection: no local policy is
    consulted, the server's whitelist decides. *)
Definition server_forwarder_connect (env : LocalEnv) (current : option Z) (t : Target)
  : PIO Stream :=
  conn ← lift (ok_or current (io_other (str "tunnel is not connected")));
  opened ← with_deadline (open_expired env)
             (io_other (str "timed out opening server-direct forward")) (open_tunnel env conn t);
  if negb (bool_decide (opened.2 = REP_SUCCESS))
  then fail (io_other (str "server rejected target: " ++ describe_reply opened.2))
  else mret opened.1.

(** ** What a local connection can cause *)

Lemma try_reply_emits ok rep : emits ok (try_reply rep).
Proof. unfold try_reply. apply emits_bind; [apply emits_attempt|]; eauto with emits. Qed.
#[local] Hint Resolve try_reply_emits : emits.

Lemma direct_connect_emits env t pre :
  emits (fun e => e ∈ dial_plan t None \/ e = Piped \/ exists h, pre = Some h /\ e = HeadSent h)
    (direct_connect env t pre).
Proof.
  unfold direct_connect. apply emits_bind.
  - apply emits_attempt, emits_deadline. eapply emits_mono; [|apply dial_target_emits]. auto.
  - intros dialed. destruct (direct_expired env); [eauto with emits|].
    destruct dialed as [tcp|e]; [|eauto with emits].
    destruct pre as [h|]; emit_tac; eauto.
Qed.

Lemma open_tunnel_emits env conn t :
  emits (fun e => e = TunnelOpened conn \/ e = TunnelRequested conn t) (open_tunnel env conn t).
Proof.
  unfold open_tunnel. emit_tac. intros c. unfold exchange.
  destruct (write_request t _) as [[u|e] s1]; [|exists []; by rewrite app_nil_r].
  destruct (read_reply s1) as [r s2]. simpl. eexists. split; [reflexivity|].
  by repeat constructor; right.
Qed.

Lemma tunnel_connect_emits env conn t pre :
  emits (fun e => e = TunnelOpened conn \/ e = TunnelRequested conn t \/ e = Piped
                  \/ exists h, pre = Some h /\ e = HeadSent h)
    (tunnel_connect env conn t pre).
Proof.
  unfold tunnel_connect. apply emits_bind.
  - apply emits_attempt, emits_deadline. eapply emits_mono; [|apply open_tunnel_emits]. naive_solver.
  - intros [[s rep]|e]; [|emit_tac]. destruct (negb _); [eauto with emits|].
    destruct pre as [h|]; [unfold send_head; destruct (write_all h s).1|]; emit_tac; eauto 8.
Qed.

(** What the handler of a request may do, given the policy and the connection its
    waits ended with. *)
Definition permitted_local (env : LocalEnv) (req : LocalRequest) (e : Event) : Prop :=
  exists rs,
    wait_for_route_policy (policy_known env) (policy_view env) (policy_after env) = Some rs
    /\ ((is_reserved_target (target req) = false /\ allows rs (target req) = false
         /\ e ∈ dial_plan (target req) None)
        \/ ((is_reserved_target (target req) = true \/ allows rs (target req) = true)
            /\ exists conn, wait_for_tunnel (tunnel_view env) = Some conn
                 /\ (e = TunnelOpened conn \/ e = TunnelRequested conn (target req)))
        \/ e = Piped
        \/ exists h, upstream_preamble req = Some h /\ e = HeadSent h).

(** C2. Split tunneling never leaks: whatever a local connection makes the client
    do follows the route policy in force. A target is dialed (or looked up in
    the device's DNS) directly only if a policy is known that does not route it
    and it is not a reserved name; a target the policy routes, and every
    reserved name, is only ever requested, as it is, over the tunnel; and as long
    as no policy is known nothing at all is done on the request's behalf. *)
Theorem split_tunnel_never_leaks env c :
  exists evs, log (handle_local_conn env c).2 = log c ++ evs
    /\ Forall (fun e => exists req s, lp_read_request (stream c) = (Ok req, s)
                 /\ permitted_local env req e) evs.
Proof.
  unfold handle_local_conn, mbind, M_bind at 1.
  destruct (request_in_time env); [|exists []; by rewrite app_nil_r].
  unfold on_stream. destruct (lp_read_request (stream c)) as [[req|e] s1];
    [|exists []; by rewrite app_nil_r]. set (c1 := mkConn s1 (log c)).
  assert (Hgen : forall (m : PIO ()) (P : Event -> Prop), emits P m ->
    (forall e, P e -> permitted_local env req e) ->
    exists evs, log (m c1).2 = log c ++ evs
      /\ Forall (fun e => exists req0 s, (@Ok io_error LocalRequest req, s1) = (Ok req0, s)
                           /\ permitted_local env req0 e) evs).
  { intros m P Hm HP. destruct (Hm c1) as (evs & Hl & Ho). exists evs. split; [done|].
    eapply Forall_impl; [exact Ho|]. intros e He. exists req, s1. eauto. }
  destruct (wait_for_route_policy _ _ _) as [rs|] eqn:Hrs.
  2:{ apply (Hgen _ (fun _ => False)); [apply try_reply_emits|done]. }
  unfold permitted_local in *. rewrite Hrs in *.
  destruct (is_reserved_target (target req)) eqn:Hres, (allows rs (target req)) eqn:Hal; simpl.
  4:{ eapply Hgen; [apply direct_connect_emits|]. intros e He. exists rs. split; [done|].
      destruct He as [He|[->|He]]; [|by auto..]. by left. }
  all: destruct (wait_for_tunnel _) as [conn|] eqn:Hw;
    [|apply (Hgen _ (fun _ => False)); [apply try_reply_emits|done]].
  all: eapply Hgen; [apply tunnel_connect_emits|]; intros e He; exists rs; split; [done|].
  all: destruct He as [He|[He|[->|He]]]; [right; left; split; [by auto|exists conn; by auto]..
                                          |by auto|by auto].
Qed.

(** ** Replies *)

(** A front end answers with one frame per reply code. *)
Class LocalProtoLaws := {
  frame_of : byte -> bytes;
  reply_writes : forall rep, lp_reply rep = write_all (frame_of rep);
}.

Section replies.
Context {LL : LocalProtoLaws}.

Lemma reply_run rep c :
  tx_err (stream c) = None ->
  on_stream (lp_reply rep) c
  = (Ok tt, mkConn (with_tx (stream c) (tx (stream c) ++ frame_of rep)) (log c)).
Proof. intros Htx. unfold on_stream. by rewrite reply_writes, write_all_ok. Qed.

Lemma try_reply_run rep c :
  tx_err (stream c) = None ->
  try_reply rep c
  = (Ok tt, mkConn (with_tx (stream c) (tx (stream c) ++ frame_of rep)) (log c)).
Proof.
  intros Htx. unfold try_reply, Dial.attempt, mbind, M_bind. by rewrite reply_run.
Qed.

(** An action that says nothing to the application and does not start the pipe. *)
Definition silent {A} (m : PIO A) : Prop :=
  forall c, exists evs, (m c).2 = mkConn (stream c) (log c ++ evs) /\ Piped ∉ evs.

Lemma silent_deadline {A} ex e (m : PIO A) : silent m -> silent (with_deadline ex e m).
Proof.
  intros Hm c. destruct (Hm c) as (evs & Hl & Hp).
  destruct (deadline_log ex e m c evs Hl) as (evs' & [k ->] & ->). exists evs'.
  rewrite elem_of_app in Hp. tauto.
Qed.

Lemma dial_plan_no_pipe t fw : Piped ∉ dial_plan t fw.
Proof.
  assert (Hmap : forall l, Piped ∉ map Connecting l).
  { intros l Hin%list_elem_of_In%in_map_iff. by destruct Hin as (sa & [=] & _). }
  unfold dial_plan. destruct (loopback_port t); [apply Hmap|].
  destruct t; [set_solver|]. rewrite elem_of_cons. intros [[=]|Hin]. by apply Hmap in Hin.
Qed.

Lemma silent_dial t fw : silent (dial_target t fw).
Proof.
  intros c. destruct (dial_target_log t fw c) as (evs & [k Hk] & ->). exists evs. split; [done|].
  pose proof (dial_plan_no_pipe t fw) as Hn. rewrite Hk, elem_of_app in Hn. tauto.
Qed.

Lemma silent_open_tunnel env conn t : silent (open_tunnel env conn t).
Proof.
  intros c. unfold open_tunnel, mbind, M_bind, lift. destruct (open_bi env conn) as [s|e].
  2:{ exists []. rewrite app_nil_r. split; [by destruct c|set_solver]. }
  unfold emit, exchange. destruct (write_request t s) as [[u|e] s1]; simpl.
  - destruct (read_reply s1). simpl. rewrite <- app_assoc. eexists. split; [done|set_solver].
  - eexists. split; [done|set_solver].
Qed.

(** The application's view of a finished exchange that started in [c]. *)
Definition answered_once (c c' : Conn) : Prop :=
  exists rep evs,
    c' = mkConn (with_tx (stream c) (tx (stream c) ++ frame_of rep)) (log c ++ evs)
    /\ (rep = REP_SUCCESS <-> Piped ∈ evs).

Lemma answered_refusal rep c evs :
  rep <> REP_SUCCESS -> Piped ∉ evs ->
  answered_once c (mkConn (with_tx (stream c) (tx (stream c) ++ frame_of rep)) (log c ++ evs)).
Proof. intros Hr Hp. exists rep, evs. split; [done|]. naive_solver. Qed.

Lemma answered_success c evs :
  answered_once c (mkConn (with_tx (stream c) (tx (stream c) ++ frame_of REP_SUCCESS))
                     (log c ++ evs ++ [Piped])).
Proof. exists REP_SUCCESS, (evs ++ [Piped]). split; [done|]. set_solver. Qed.

Lemma direct_answers env t c :
  tx_err (stream c) = None -> answered_once c (direct_connect env t None c).2.
Proof.
  intros Htx. unfold direct_connect, Dial.attempt. unfold mbind at 1, M_bind at 1.
  destruct (silent_deadline (direct_expired env) direct_timed_out _ (silent_dial t None) c)
    as (evs & Hl & Hp).
  destruct (with_deadline _ _ _ c) as [r c1]. simpl in Hl. subst c1.
  destruct (direct_expired env) as [n|].
  { rewrite try_reply_run by done. by apply (answered_refusal _ c evs). }
  destruct r as [tcp|e].
  - unfold mbind, M_bind. rewrite reply_run by done. simpl. rewrite <- app_assoc.
    apply (answered_success c evs).
  - rewrite try_reply_run by done. apply (answered_refusal _ c evs); [|done].
    unfold map_io_err. by destruct (kind e).
Qed.

Lemma tunnel_answers env conn t c :
  tx_err (stream c) = None -> answered_once c (tunnel_connect env conn t None c).2.
Proof.
  intros Htx. unfold tunnel_connect, Dial.attempt. unfold mbind at 1, M_bind at 1.
  destruct (silent_deadline (open_expired env) tunnel_timed_out _ (silent_open_tunnel env conn t) c)
    as (evs & Hl & Hp).
  destruct (with_deadline _ _ _ c) as [r c1]. simpl in Hl. subst c1.
  destruct r as [[s rep]|e].
  - case_bool_decide as Hrep; simpl.
    + subst rep. unfold mbind, M_bind. rewrite reply_run by done. simpl. rewrite <- app_assoc.
      apply (answered_success c evs).
    + rewrite reply_run by done. by apply (answered_refusal _ c evs).
  - unfold mbind, M_bind. rewrite try_reply_run by done. simpl. by apply (answered_refusal _ c evs).
Qed.

(** C10. Every tunnel request gets exactly one answer: when the application's
    request parses to a pure tunnel (SOCKS5, HTTP CONNECT) and its stream accepts
    writes, the handler writes one reply frame and nothing else, whatever the
    policy, the tunnel, the server or the network do, and the frame says success
    if and only if bytes are then piped. *)
Theorem local_request_answered_once env c req s :
  request_in_time env = true -> lp_read_request (stream c) = (Ok req, s) ->
  upstream_preamble req = None -> tx_err s = None ->
  answered_once (mkConn s (log c)) (handle_local_conn env c).2.
Proof.
  intros Hin Hreq Hpre Htx. unfold handle_local_conn. rewrite Hin. unfold mbind at 1, M_bind at 1.
  unfold on_stream. rewrite Hreq, Hpre.
  assert (Hrefuse : forall rep, rep <> REP_SUCCESS ->
    answered_once (mkConn s (log c)) (try_reply rep (mkConn s (log c))).2).
  { intros rep Hrep. rewrite try_reply_run by done.
    pose proof (answered_refusal rep (mkConn s (log c)) [] Hrep) as Ha. simpl in *.
    rewrite app_nil_r in Ha. apply Ha. set_solver. }
  destruct (wait_for_route_policy _ _ _) as [rs|]; [|by apply Hrefuse].
  destruct (_ && _); [by apply direct_answers|].
  destruct (wait_for_tunnel _) as [conn|]; [by apply tunnel_answers|by apply Hrefuse].
Qed.
End replies.

(** On the direct path a plain-HTTP forward whose head cannot be written is dropped
    without an answer (the tunneled path answers it with a failure). *)
Theorem direct_head_failure_unanswered env t head tcp e c :
  direct_expired env = None -> direct_write env = Err e ->
  (dial_target t None c).1 = Ok tcp ->
  exists evs, direct_connect env t (Some head) c = (Err e, mkConn (stream c) (log c ++ evs)).
Proof.
  intros Hex Hw Hd. unfold direct_connect, Dial.attempt, with_deadline. rewrite Hex.
  unfold mbind, M_bind. destruct (dial_target_log t None c) as (evs & _ & Hl).
  destruct (dial_target t None c) as [r c1]. simpl in *. subst r c1.
  unfold lift. rewrite Hw. by exists evs.
Qed.
End handler.
End local.

#[export] Instance Socks5ProtoLaws : @LocalProtoLaws Socks5Proto.
Proof. exists reply_frame. by intros rep. Defined.

#[export] Instance HttpProtoLaws debug : @LocalProtoLaws (HttpProto debug).
Proof. exists http_reply_frame. by intros rep. Defined.

(** ** The waits against the connection manager *)

Section waits.
Context {ID : Identity} {NA : IpNetworkApi} {CK : ClientKeyApi}.
Context `{Json Hello, Json HelloResponse, Json ControlMsg}.
Context (rule_text : RuleError -> bytes) (cfg : ClientConfig) (instance_nonce : Z).

Lemma policy_retained p1 p2 :
  p1 `prefix_of` p2 -> is_Some (visible p1).1 -> is_Some (visible p2).1.
Proof.
  intros [k ->] Hp. unfold visible. rewrite fold_left_app. fold (visible p1).
  revert Hp. generalize (visible p1). induction k as [|[rs|o] k IH]; intros v Hv; simpl;
    [done|apply IH; by eexists|by apply IH].
Qed.

(** A held request is refused only for want of a tunnel: take any run of the
    connection manager and any three moments of it, the arrival of a request, a
    moment at which a connection was visible, and the re-reading of the policy;
    a request whose wait ended with that connection always gets a route policy.
    So the general-failure answer means that no tunnel came up in time. *)
Theorem held_request_learns_policy envs arrival seen reread v conn :
  arrival `prefix_of` seen -> seen `prefix_of` reread ->
  reread `prefix_of` trace (manage_connection rule_text cfg instance_nonce envs ProxyClient_new).2 ->
  (visible seen).2 = Some conn -> wait_for_tunnel v = Some conn ->
  is_Some (wait_for_route_policy (visible arrival).1 v (visible reread).1).
Proof.
  intros Hp1 Hp2 Hp3 Hseen Hw. unfold wait_for_route_policy. rewrite Hw.
  destruct (visible arrival).1 as [rs|]; [by eexists|].
  apply (policy_retained seen); [done|].
  assert (Hfc : fail_closed (trace (manage_connection rule_text cfg instance_nonce envs ProxyClient_new).2)).
  { apply run_fail_closed. intros pre Hpre. apply prefix_nil_inv in Hpre as ->. by intros [? [=]]. }
  apply Hfc; [by etransitivity|by eexists].
Qed.
End waits.

(** ** Witnesses *)

Section witnesses.
Import RefJson.
#[local] Existing Instances RefIdentity RefResolver RefClientKey Socks5Proto.

Definition no_tunnel : TunnelView := mkView None true None None.

(** An off-list request, with a policy known and the network unreachable. *)
Definition ref_local_env (rs : RoutedSet) : LocalEnv :=
  mkLocalEnv true (Some rs) no_tunnel (Some rs) no_tunnel (fun _ => Err early_eof) None None (Ok tt).

(** A SOCKS5 greeting and a CONNECT to 10.1.2.3:80. *)
Definition ref_socks_request : bytes :=
  [x05; x01; x00; x05; x01; x00; x01; x0a; x01; x02; x03; x00; x50].

Lemma local_request_answered_once_witness :
  let _ : NetEnv := {| Tcp := (); tcp_connect _ := Ok tt; lookup_host _ _ := Err early_eof |} in
  let s := mkStream [] None [x05; x00] None in
  answered_once (mkConn s []) (handle_local_conn (ref_local_env RoutedSet_default)
                                 (mkConn (open_stream ref_socks_request) [])).2.
Proof.
  intros NE s.
  apply (local_request_answered_once (ref_local_env RoutedSet_default)
    (mkConn (open_stream ref_socks_request) [])
    (mkLocalRequest (Ip (SockV4 (10 * 2 ^ 24 + 1 * 2 ^ 16 + 2 * 2 ^ 8 + 3) 80)) None) s);
    [reflexivity | by vm_compute | reflexivity | reflexivity].
Defined.

Definition ref_published : list Publish :=
  [PubConn None; PubPolicy RoutedSet_default; PubConn (Some 3); PubConn None].

(** One iteration that connects (as connection 3) and then loses the session. *)
Definition ref_session_env (response : bytes) : IterEnv :=
  mkIter 0 (fun _ _ => Some (Ok 3))
    (mkHsEnv (7 : EndpointId) (Ok (open_stream (message_frame response))) true)
    (Err (ConnectionLost (str "gone"))) 0 0 Slept 0 true false.

Definition ref_answer : bytes :=
  match encode_hello_response (HelloResponse_accepted 4242 no_routes) with Ok p => p | Err _ => [] end.

Lemma held_request_learns_policy_witness :
  is_Some (wait_for_route_policy (visible []).1 (mkView None true None (Some 3))
             (visible (NA := RefNetwork) ref_published).1).
Proof.
  apply (held_request_learns_policy (fun _ => []) (ref_config 5 None) 9
           [ref_session_env ref_answer] [] (take 3 ref_published) ref_published _ 3).
  - apply prefix_nil.
  - by exists [PubConn None].
  - exists []. reflexivity.
  - reflexivity.
  - reflexivity.
Defined.
End witnesses.
