(* ===== verification/Forward.v ===== *)
(** * Server-direct port forwards ([proxy/forward.rs])

    One forward is a task ([run_forward]) that owns two listener tasks, one per
    loopback stack ([run_stack]), and relays the connections they accept. It is
    modelled as a state machine, [ForwardRun], whose events are what the operating
    system and the peers decide: the outcome of a bind or of an accept, the end of
    a relay, the death of a listener task. [ForwardManager] owns the forwards by id;
    its [runs] are the tasks the runtime holds, so that a leaked listener would be
    visible. Log lines, and the [warned_saturated] flag that only guards one, are
    left out. *)

From S2P Require Import Prelude RustStr Net Stream Signaling Socks5 RoutedSet DnsForward Dial.
From S2P Require Import Blocklist Registry Server Client ClientProofs Http LocalConn Accept.

(** ** Data *)

Record ForwardSpec : Type := mkSpec {
  spec_id : bytes;
  spec_local_port : Z;
  spec_target : Target;
}.

#[export] Instance ForwardSpec_eq_dec : EqDecision ForwardSpec.
Proof. solve_decision. Defined.

Inductive ForwardState : Type :=
| Starting
| Listening
| Failed (reason : bytes).

#[export] Instance ForwardState_eq_dec : EqDecision ForwardState.
Proof. solve_decision. Defined.

Record ForwardStatus : Type := mkStatus {
  st_id : bytes;
  st_state : ForwardState;
  st_active : Z;
  st_last_conn_error : option bytes;
}.

(** The index into the array of the two stacks. *)
Inductive Stack : Type := STACK_V4 | STACK_V6.

#[export] Instance Stack_eq_dec : EqDecision Stack.
Proof. solve_decision. Defined.

Record StackHealth : Type := mkHealth {
  health_is_up : bool;
  health_error : option (ErrorKind * bytes);
}.

Definition health_default : StackHealth := mkHealth false None.
Definition health_up : StackHealth := mkHealth true None.
Definition health_down (e : io_error) : StackHealth := mkHealth false (Some (kind e, text e)).

Record ForwardShared : Type := mkShared {
  sh_port : Z;
  sh_state : ForwardState;
  sh_stacks : Stack -> StackHealth;
  sh_active : Z;
  sh_last_conn_error : option bytes;
}.

Definition ForwardShared_new (port : Z) : ForwardShared :=
  mkShared port Starting (fun _ => health_default) 0 None.

Definition stack_list (stacks : Stack -> StackHealth) : list StackHealth :=
  [stacks STACK_V4; stacks STACK_V6].

Definition is_addr_in_use (h : StackHealth) : bool :=
  match health_error h with Some (AddrInUse, _) => true | _ => false end.

(** The forward's state, folded from the health of its stacks. The [None] branch
    of the last match is the [unwrap] of an error that is present. *)
Definition fold_state (port : Z) (stacks : Stack -> StackHealth) : ForwardState :=
  if existsb health_is_up (stack_list stacks) then Listening
  else if forallb (fun h => bool_decide (is_Some (health_error h))) (stack_list stacks) then
    Failed (if existsb is_addr_in_use (stack_list stacks)
            then str "port " ++ dec port ++ str " is in use"
            else match health_error (stacks STACK_V4) with
                 | Some (_, msg) => msg
                 | None => []
                 end)
  else Starting.

Definition set_stack (sh : ForwardShared) (i : Stack) (h : StackHealth) : ForwardShared :=
  let stacks := fun j => if decide (j = i) then h else sh_stacks sh j in
  mkShared (sh_port sh) (fold_state (sh_port sh) stacks) stacks (sh_active sh)
    (sh_last_conn_error sh).

(** ** Rebind backoff, in milliseconds *)

Definition FORWARD_REBIND_BASE_BACKOFF : Z := 250.
Definition FORWARD_REBIND_MAX_BACKOFF : Z := 5000.
Definition U32_MAX : Z := 4294967295.

Definition rebind_backoff (attempt : Z) : Z :=
  Z.min (FORWARD_REBIND_BASE_BACKOFF * Z.shiftl 1 (Z.min attempt 5)) FORWARD_REBIND_MAX_BACKOFF.

Definition MAX_ACTIVE_RELAYS_PER_FORWARD : Z := 128.

(** ** One forward's tasks *)

(** Where a listener task is: about to try the [attempt]-th bind, accepting,
    sending the accepted connection [c] to the relay loop, or gone. *)
Inductive StackPhase : Type :=
| Binding (attempt : Z)
| StackAccepting
| Sending (c : Z)
| StackEnded (reaped : bool).

Record StackTask : Type := mkStack { s_phase : StackPhase; s_retry : AcceptRetry }.

Definition run_stack_init : StackTask := mkStack (Binding 0) AcceptRetry_new.

(** Where the relay loop is: in its [select!], waiting for a permit for the
    connection it took, or returned. *)
Inductive RelayLoop : Type :=
| Receiving
| WaitingPermit (c : Z)
| ForwardReturned.

#[export] Instance RelayLoop_eq_dec : EqDecision RelayLoop.
Proof. solve_decision. Defined.

(** A spawned relay holds its permit from the start and counts itself active when
    it first runs. *)
Record Relay : Type := mkRelay { relay_conn : Z; relay_started : bool }.

Record ForwardRun : Type := mkRun {
  run_spec : ForwardSpec;
  run_shared : ForwardShared;
  run_stacks : Stack -> StackTask;
  run_queue : list Z;                (* the channel of accepted connections *)
  run_loop : RelayLoop;
  run_relays : list Relay;
}.

Definition run_forward_init (spec : ForwardSpec) : ForwardRun :=
  mkRun spec (ForwardShared_new (spec_local_port spec)) (fun _ => run_stack_init) [] Receiving [].

Definition CHANNEL_CAPACITY : nat := 1.

Definition with_stack (run : ForwardRun) (i : Stack) (t : StackTask) (sh : ForwardShared)
  : ForwardRun :=
  mkRun (run_spec run) sh (fun j => if decide (j = i) then t else run_stacks run j)
    (run_queue run) (run_loop run) (run_relays run).

(** [TcpListener::bind] returned. *)
Definition on_bind (i : Stack) (r : result io_error ()) (run : ForwardRun) : option ForwardRun :=
  let t := run_stacks run i in
  match s_phase t with
  | Binding attempt =>
      Some (match r with
            | Err e => with_stack run i (mkStack (Binding (Z.min (attempt + 1) U32_MAX)) (s_retry t))
                         (set_stack (run_shared run) i (health_down e))
            | Ok _ => with_stack run i (mkStack StackAccepting (record_rebind (s_retry t)))
                        (set_stack (run_shared run) i health_up)
            end)
  | _ => None
  end.

(** [listener.accept()] returned. *)
Definition on_stack_accept (i : Stack) (r : result io_error Z) (run : ForwardRun)
  : option ForwardRun :=
  let t := run_stacks run i in
  match s_phase t with
  | StackAccepting =>
      Some (match r with
            | Ok c => with_stack run i (mkStack (Sending c) (record_success (s_retry t)))
                        (run_shared run)
            | Err e =>
                let '(outcome, retry) := record_error e (s_retry t) in
                match outcome with
                | RebindNow => with_stack run i (mkStack (Binding 0) retry)
                                 (set_stack (run_shared run) i (health_down e))
                | RetrySame => with_stack run i (mkStack StackAccepting (wait_retry retry))
                                 (run_shared run)
                end
            end)
  | _ => None
  end.

(** [accepted.send(inbound)] found room in the channel. *)
Definition on_send (i : Stack) (run : ForwardRun) : option ForwardRun :=
  let t := run_stacks run i in
  match s_phase t with
  | Sending c =>
      if decide (length (run_queue run) < CHANNEL_CAPACITY)%nat
      then Some (mkRun (run_spec run) (run_shared run)
             (fun j => if decide (j = i) then mkStack StackAccepting (s_retry t)
                       else run_stacks run j)
             (run_queue run ++ [c]) (run_loop run) (run_relays run))
      else None
  | _ => None
  end.

Definition started_count (rs : list Relay) : Z :=
  Z.of_nat (length (filter (fun r => relay_started r = true) rs)).

(** The forward task returned: its listener tasks and relays are dropped with it,
    and the guards of the dropped relays take themselves off the count. *)
Definition forward_return (run : ForwardRun) : ForwardRun :=
  let sh := run_shared run in
  mkRun (run_spec run)
    (mkShared (sh_port sh) (sh_state sh) (sh_stacks sh)
       (sh_active sh - started_count (run_relays run))
       (sh_last_conn_error sh))
    (run_stacks run) [] ForwardReturned [].

Definition stack_gone (t : StackTask) : bool :=
  match s_phase t with StackEnded _ => true | _ => false end.

(** [accepted_rx.recv()] returned: a connection, or [None] when the channel is
    empty and both senders are gone. *)
Definition on_recv (run : ForwardRun) : option ForwardRun :=
  match run_loop run with
  | Receiving =>
      match run_queue run with
      | c :: q => Some (mkRun (run_spec run) (run_shared run) (run_stacks run) q
                          (WaitingPermit c) (run_relays run))
      | [] => if stack_gone (run_stacks run STACK_V4) && stack_gone (run_stacks run STACK_V6)
              then Some (forward_return run) else None
      end
  | _ => None
  end.

(** [acquire_owned()] returned: a permit is free. *)
Definition on_permit (run : ForwardRun) : option ForwardRun :=
  match run_loop run with
  | WaitingPermit c =>
      if Z.of_nat (length (run_relays run)) <? MAX_ACTIVE_RELAYS_PER_FORWARD
      then Some (mkRun (run_spec run) (run_shared run) (run_stacks run) (run_queue run) Receiving
                  (run_relays run ++ [mkRelay c false]))
      else None
  | _ => None
  end.

Definition add_active (n : Z) (sh : ForwardShared) : ForwardShared :=
  mkShared (sh_port sh) (sh_state sh) (sh_stacks sh) (sh_active sh + n) (sh_last_conn_error sh).

Definition with_relays (run : ForwardRun) (sh : ForwardShared) (rs : list Relay) : ForwardRun :=
  mkRun (run_spec run) sh (run_stacks run) (run_queue run) (run_loop run) rs.

(** The [n]-th relay task runs for the first time: [ActiveGuard::new]. *)
Definition on_relay_start (n : nat) (run : ForwardRun) : option ForwardRun :=
  match run_relays run !! n with
  | Some (mkRelay c false) =>
      Some (with_relays run (add_active 1 (run_shared run)) (<[n := mkRelay c true]> (run_relays run)))
  | _ => None
  end.

(** The [n]-th relay ends: the error slot, then the guard, then the permit. *)
Definition on_relay_end (n : nat) (r : result bytes ()) (run : ForwardRun) : option ForwardRun :=
  match run_relays run !! n with
  | Some (mkRelay _ true) =>
      let sh := run_shared run in
      let sh := mkShared (sh_port sh) (sh_state sh) (sh_stacks sh) (sh_active sh)
                  (match r with Ok _ => None | Err e => Some e end) in
      Some (with_relays run (add_active (-1) sh) (delete n (run_relays run)))
  | _ => None
  end.

(** A listener task died (it panicked): what it was sending is dropped. *)
Definition on_stack_death (i : Stack) (run : ForwardRun) : option ForwardRun :=
  let t := run_stacks run i in
  if stack_gone t then None
  else Some (with_stack run i (mkStack (StackEnded false) (s_retry t)) (run_shared run)).

Definition stack_label (i : Stack) : bytes :=
  match i with STACK_V4 => str "IPv4" | STACK_V6 => str "IPv6" end.

(** The supervision arm of the [select!]: an ended listener task is reaped and
    its stack marked down. *)
Definition on_supervise (i : Stack) (detail : bytes) (run : ForwardRun) : option ForwardRun :=
  let t := run_stacks run i in
  match run_loop run, s_phase t with
  | Receiving, StackEnded false =>
      Some (with_stack run i (mkStack (StackEnded true) (s_retry t))
             (set_stack (run_shared run) i
                (health_down (io_other (stack_label i ++ str " listener task " ++ detail)))))
  | _, _ => None
  end.

Inductive ForwardEvent : Type :=
| BindDone (i : Stack) (r : result io_error ())
| StackAccept (i : Stack) (r : result io_error Z)
| SendDone (i : Stack)
| RecvDone
| PermitDone
| RelayStart (n : nat)
| RelayEnd (n : nat) (r : result bytes ())
| StackDeath (i : Stack)
| Supervise (i : Stack) (detail : bytes).

Definition forward_step (ev : ForwardEvent) (run : ForwardRun) : option ForwardRun :=
  match run_loop run with
  | ForwardReturned => None
  | _ => match ev with
         | BindDone i r => on_bind i r run
         | StackAccept i r => on_stack_accept i r run
         | SendDone i => on_send i run
         | RecvDone => on_recv run
         | PermitDone => on_permit run
         | RelayStart n => on_relay_start n run
         | RelayEnd n r => on_relay_end n r run
         | StackDeath i => on_stack_death i run
         | Supervise i detail => on_supervise i detail run
         end
  end.

(** An event that cannot happen in a state leaves it alone. *)
Definition forward_exec (ev : ForwardEvent) (run : ForwardRun) : ForwardRun :=
  default run (forward_step ev run).

Definition forward_run (evs : list ForwardEvent) (run : ForwardRun) : ForwardRun :=
  foldl (fun run ev => forward_exec ev run) run evs.

(** [ServerForwarder::relay]: [copied] is how splicing the two streams ends. *)
Definition forwarder_relay {NA : IpNetworkApi} (env : LocalEnv) (current : option Z)
    (t : Target) (copied : result io_error ()) : PIO () :=
  _ ← server_forwarder_connect env current t;
  _ ← emit Piped;
  lift copied.

(** ** The manager *)

Record ForwardTask : Type := mkTask { task_spec : ForwardSpec; task_handle : Z }.

Record ForwardManager : Type := mkManager {
  tasks : gmap bytes ForwardTask;
  runs : gmap Z ForwardRun;      (* the runtime's tasks, by handle *)
  next_handle : Z;
}.

(** Collecting into a map keeps the last spec of an id. *)
Definition desired_of (forwards : list ForwardSpec) : gmap bytes ForwardSpec :=
  foldl (fun m f => <[spec_id f := f]> m) ∅ forwards.

Definition keeps (desired : gmap bytes ForwardSpec) (id : bytes) (task : ForwardTask) : Prop :=
  desired !! id = Some (task_spec task).

#[export] Instance keeps_dec desired id task : Decision (keeps desired id task).
Proof. unfold keeps. apply _. Defined.

(** The runtime handles of a table of tasks. *)
Definition handles (ts : gmap bytes ForwardTask) : list Z := task_handle <$> (map_to_list ts).*2.

(** [tasks.retain]: the tasks that are not wanted as they are get aborted. *)
Definition retain_tasks (desired : gmap bytes ForwardSpec) (m : ForwardManager) : ForwardManager :=
  let kept := filter (fun '(id, t) => keeps desired id t) (tasks m) in
  let aborted := filter (fun '(id, t) => ~ keeps desired id t) (tasks m) in
  mkManager kept
    (filter (fun '(h, _) => h ∉ handles aborted) (runs m))
    (next_handle m).

Definition spawn_forward (m : ForwardManager) (spec : ForwardSpec) : ForwardManager :=
  match tasks m !! spec_id spec with
  | Some _ => m
  | None => mkManager (<[spec_id spec := mkTask spec (next_handle m)]> (tasks m))
              (<[next_handle m := run_forward_init spec]> (runs m)) (next_handle m + 1)
  end.

Definition manager_apply (m : ForwardManager) (forwards : list ForwardSpec) : ForwardManager :=
  foldl spawn_forward (retain_tasks (desired_of forwards) m) forwards.

Definition manager_new (forwards : list ForwardSpec) : ForwardManager :=
  manager_apply (mkManager ∅ ∅ 0) forwards.

Definition status_of (m : ForwardManager) (id : bytes) (task : ForwardTask)
  : option ForwardStatus :=
  run ← runs m !! task_handle task;
  let sh := run_shared run in
  Some (mkStatus id (sh_state sh) (sh_active sh) (sh_last_conn_error sh)).

Definition statuses (m : ForwardManager) : list ForwardStatus :=
  omap (fun '(id, t) => status_of m id t) (map_to_list (tasks m)).

(** [Drop]: every listener is aborted. *)
Definition manager_drop (m : ForwardManager) : ForwardManager :=
  mkManager ∅
    (filter (fun '(h, _) => h ∉ handles (tasks m)) (runs m))
    (next_handle m).

(** A task of the runtime makes a step of its own. *)
Definition task_event (h : Z) (ev : ForwardEvent) (m : ForwardManager) : ForwardManager :=
  mkManager (tasks m) (alter (forward_exec ev) h (runs m)) (next_handle m).

Inductive ManagerEvent : Type :=
| Apply (forwards : list ForwardSpec)
| TaskEvent (h : Z) (ev : ForwardEvent).

Definition manager_exec (m : ForwardManager) (ev : ManagerEvent) : ForwardManager :=
  match ev with
  | Apply forwards => manager_apply m forwards
  | TaskEvent h ev => task_event h ev m
  end.

(** Everything that can happen to a manager after [ForwardManager::new]. *)
Definition manager_run (forwards : list ForwardSpec) (evs : list ManagerEvent) : ForwardManager :=
  foldl manager_exec (manager_new forwards) evs.
