(* ===== verification/ForwardProofs.v ===== *)
(** * Port forwards: what holds of every run

    Invariants of one forward over all orders of binds, accepts, relays and
    listener deaths ([run_inv]), the fate of the connections it accepts, and the
    reconciliation of the manager's tasks with the wanted list ([mgr_inv]). *)

From S2P Require Import Prelude RustStr Net Stream Signaling Socks5 RoutedSet DnsForward Dial.
From S2P Require Import Blocklist Registry Server Client ClientProofs Http LocalConn Accept Forward.

(** ** One forward *)

Definition listening (t : StackTask) : bool :=
  match s_phase t with StackAccepting | Sending _ => true | _ => false end.

(** What the recorded health of a stack says of its task. *)
Definition health_ok (t : StackTask) (h : StackHealth) : Prop :=
  match s_phase t with
  | Binding a => health_is_up h = false /\ 0 <= a <= U32_MAX
  | StackAccepting | Sending _ => h = health_up
  | StackEnded true => health_is_up h = false
  | StackEnded false => True
  end.

Record run_inv (run : ForwardRun) : Prop := mkRunInv {
  ri_port : sh_port (run_shared run) = spec_local_port (run_spec run);
  ri_fold : sh_state (run_shared run) = fold_state (sh_port (run_shared run)) (sh_stacks (run_shared run));
  ri_health : forall i, health_ok (run_stacks run i) (sh_stacks (run_shared run) i);
  ri_active : sh_active (run_shared run) = started_count (run_relays run);
  ri_cap : Z.of_nat (length (run_relays run)) <= MAX_ACTIVE_RELAYS_PER_FORWARD;
  ri_queue : (length (run_queue run) <= CHANNEL_CAPACITY)%nat;
}.

Ltac run_inv_tac :=
  split; simpl; eauto; intros;
  repeat match goal with |- context[decide (?a = ?b)] => destruct (decide (a = b)); subst end; eauto.

Lemma init_inv spec : run_inv (run_forward_init spec).
Proof. split; try done; simpl; unfold health_ok, U32_MAX; simpl; intros; lia. Qed.

Lemma set_stack_inv run i t h :
  run_inv run -> health_ok t h -> run_inv (with_stack run i t (set_stack (run_shared run) i h)).
Proof. intros [Hp Hf Hh Ha Hc Hq] Ht. run_inv_tac. Qed.

(** A step that leaves the health records alone. *)
Lemma with_stack_inv run i t :
  run_inv run -> health_ok t (sh_stacks (run_shared run) i) ->
  run_inv (with_stack run i t (run_shared run)).
Proof. intros [Hp Hf Hh Ha Hc Hq] Ht. run_inv_tac. Qed.

Lemma on_bind_inv i r run run' : on_bind i r run = Some run' -> run_inv run -> run_inv run'.
Proof.
  unfold on_bind. intros Hs Hinv. destruct (s_phase (run_stacks run i)) eqn:Hp; simplify_eq.
  assert (Ha : 0 <= attempt <= U32_MAX)
    by (pose proof (ri_health run Hinv i) as H; unfold health_ok in H; rewrite Hp in H; apply H).
  destruct r as [[]|e]; apply set_stack_inv; try done.
  unfold health_ok. simpl. split; [done|]. unfold U32_MAX in *. lia.
Qed.

Lemma on_stack_accept_inv i r run run' :
  on_stack_accept i r run = Some run' -> run_inv run -> run_inv run'.
Proof.
  unfold on_stack_accept. intros Hs Hinv. destruct (s_phase (run_stacks run i)) eqn:Hp; simplify_eq.
  pose proof (ri_health run Hinv i) as Hh. unfold health_ok in Hh. rewrite Hp in Hh.
  destruct r as [c|e]; [by apply with_stack_inv|].
  destruct (record_error e (s_retry (run_stacks run i))) as [[|] retry].
  - apply set_stack_inv; [done|]. unfold health_ok, U32_MAX. simpl. split; [done|lia].
  - by apply with_stack_inv.
Qed.

Lemma on_send_inv i run run' : on_send i run = Some run' -> run_inv run -> run_inv run'.
Proof.
  unfold on_send. intros Hs [Hp Hf Hh Ha Hc Hq]. pose proof (Hh i) as Hi. unfold health_ok in Hi.
  destruct (s_phase (run_stacks run i)) eqn:Hph; try done.
  destruct (decide (length (run_queue run) < CHANNEL_CAPACITY)%nat) as [Hlt|]; simplify_eq.
  split; simpl; try done.
  - intros j. destruct (decide (j = i)) as [->|]; [done|apply Hh].
  - rewrite length_app. simpl. unfold CHANNEL_CAPACITY in *. lia.
Qed.

Lemma started_insert rs n c :
  rs !! n = Some (mkRelay c false) ->
  started_count (<[n := mkRelay c true]> rs) = started_count rs + 1.
Proof.
  intros Hn. apply take_drop_middle in Hn as Heq. unfold started_count.
  assert (Hlt : (n < length rs)%nat) by (by eapply lookup_lt_Some).
  rewrite insert_take_drop by done. rewrite <- Heq at 3.
  rewrite !filter_app, !filter_cons, !length_app. simpl.
  destruct (decide (true = true)); [|done]. destruct (decide (false = true)); [done|]. simpl. lia.
Qed.

Lemma started_delete rs n c :
  rs !! n = Some (mkRelay c true) -> started_count (delete n rs) = started_count rs - 1.
Proof.
  intros Hn. apply take_drop_middle in Hn as Heq. unfold started_count.
  rewrite delete_take_drop. rewrite <- Heq at 3.
  rewrite !filter_app, !filter_cons, !length_app.
  simpl. destruct (decide (true = true)); [|done]. simpl. lia.
Qed.

Lemma started_bound rs : 0 <= started_count rs <= Z.of_nat (length rs).
Proof.
  unfold started_count. split; [lia|].
  pose proof (length_filter (fun r => relay_started r = true) rs). lia.
Qed.

Lemma on_recv_inv run run' : on_recv run = Some run' -> run_inv run -> run_inv run'.
Proof.
  unfold on_recv. intros Hs [Hp Hf Hh Ha Hc Hq]. destruct (run_loop run); try done.
  destruct (run_queue run) as [|c q].
  - destruct (_ && _); simplify_eq. split; simpl; try done. by rewrite Ha, Z.sub_diag.
  - simplify_eq. split; simpl in *; try done. lia.
Qed.

Lemma on_permit_inv run run' : on_permit run = Some run' -> run_inv run -> run_inv run'.
Proof.
  unfold on_permit. intros Hs [Hp Hf Hh Ha Hc Hq]. destruct (run_loop run); try done.
  destruct (Z.ltb_spec (Z.of_nat (length (run_relays run))) MAX_ACTIVE_RELAYS_PER_FORWARD);
    simplify_eq. split; simpl; try done.
  - rewrite Ha. unfold started_count. rewrite filter_app. simpl. by rewrite app_nil_r.
  - rewrite length_app. simpl. lia.
Qed.

Lemma on_relay_start_inv n run run' : on_relay_start n run = Some run' -> run_inv run -> run_inv run'.
Proof.
  unfold on_relay_start. intros Hs [Hp Hf Hh Ha Hc Hq].
  destruct (run_relays run !! n) as [[c [|]]|] eqn:Hn; simplify_eq. split; simpl; try done.
  - rewrite (started_insert _ _ c) by done. lia.
  - by rewrite length_insert.
Qed.

Lemma on_relay_end_inv n r run run' : on_relay_end n r run = Some run' -> run_inv run -> run_inv run'.
Proof.
  unfold on_relay_end. intros Hs [Hp Hf Hh Ha Hc Hq].
  destruct (run_relays run !! n) as [[c [|]]|] eqn:Hn; simplify_eq. split; simpl; try done.
  - rewrite (started_delete _ _ c) by done. lia.
  - rewrite length_delete by eauto. lia.
Qed.

Lemma on_stack_death_inv i run run' : on_stack_death i run = Some run' -> run_inv run -> run_inv run'.
Proof.
  unfold on_stack_death. intros Hs Hinv. destruct (stack_gone _); simplify_eq.
  by apply with_stack_inv.
Qed.

Lemma on_supervise_inv i d run run' : on_supervise i d run = Some run' -> run_inv run -> run_inv run'.
Proof.
  unfold on_supervise. intros Hs Hinv.
  destruct (run_loop run), (s_phase (run_stacks run i)) as [| | |[|]]; simplify_eq.
  by apply set_stack_inv.
Qed.

Create HintDb fwd.
#[export] Hint Resolve on_bind_inv on_stack_accept_inv on_send_inv on_recv_inv on_permit_inv
  on_relay_start_inv on_relay_end_inv on_stack_death_inv on_supervise_inv : fwd.

Lemma forward_step_inv ev run run' : forward_step ev run = Some run' -> run_inv run -> run_inv run'.
Proof.
  unfold forward_step. intros Hs. destruct (run_loop run), ev; eauto with fwd; done.
Qed.

Lemma forward_exec_inv ev run : run_inv run -> run_inv (forward_exec ev run).
Proof.
  intros Hinv. unfold forward_exec. destruct (forward_step ev run) as [run'|] eqn:Hs; [|done].
  by eapply forward_step_inv.
Qed.

Lemma forward_run_snoc evs ev run :
  forward_run (evs ++ [ev]) run = forward_exec ev (forward_run evs run).
Proof. unfold forward_run. by rewrite foldl_app. Qed.

Lemma forward_run_inv evs spec : run_inv (forward_run evs (run_forward_init spec)).
Proof.
  induction evs as [|ev evs IH] using rev_ind; [apply init_inv|].
  rewrite forward_run_snoc. by apply forward_exec_inv.
Qed.

(** ** The connections a forward accepts *)

Definition sending (t : StackTask) : list Z :=
  match s_phase t with Sending c => [c] | _ => [] end.

Definition waiting (l : RelayLoop) : list Z :=
  match l with WaitingPermit c => [c] | _ => [] end.

(** The accepted connections a forward still has, in the order it handles them. *)
Definition in_flight (run : ForwardRun) : list Z :=
  (relay_conn <$> run_relays run) ++ waiting (run_loop run) ++ run_queue run
  ++ sending (run_stacks run STACK_V4) ++ sending (run_stacks run STACK_V6).

(** What an event adds to the connections, relays to the end, or drops. *)
Definition took (ev : ForwardEvent) (run : ForwardRun) : list Z :=
  match ev, forward_step ev run with StackAccept _ (Ok c), Some _ => [c] | _, _ => [] end.

Definition relayed (ev : ForwardEvent) (run : ForwardRun) : list Z :=
  match ev, forward_step ev run with
  | RelayEnd n _, Some _ => relay_conn <$> option_list (run_relays run !! n)
  | _, _ => []
  end.

Definition dropped (ev : ForwardEvent) (run : ForwardRun) : list Z :=
  match ev, forward_step ev run with
  | StackDeath i, Some _ => sending (run_stacks run i)
  | RecvDone, Some run' =>
      if decide (run_loop run' = ForwardReturned) then relay_conn <$> run_relays run else []
  | _, _ => []
  end.

Fixpoint along (f : ForwardEvent -> ForwardRun -> list Z) (evs : list ForwardEvent)
    (run : ForwardRun) : list Z :=
  match evs with
  | [] => []
  | ev :: evs => f ev run ++ along f evs (forward_exec ev run)
  end.

Lemma along_snoc f evs ev run :
  along f (evs ++ [ev]) run = along f evs run ++ f ev (forward_run evs run).
Proof.
  revert run. induction evs as [|e evs IH]; intros run; simpl; [by rewrite app_nil_r|].
  rewrite IH, (assoc_L (++)). done.
Qed.

Ltac perm_solve := rewrite ?app_nil_r, ?app_nil_l; solve_Permutation.

(** A listener task moves: its connections are where they were, up to order. *)
Lemma sending_moved run i t :
  in_flight (with_stack run i t (run_shared run)) ++ sending (run_stacks run i)
  ≡ₚ in_flight run ++ sending t.
Proof. unfold in_flight. destruct i; simpl; solve_Permutation. Qed.

Lemma in_flight_shared run i t sh sh' :
  in_flight (with_stack run i t sh) = in_flight (with_stack run i t sh').
Proof. done. Qed.

Lemma sending_idle run i t sh :
  sending (run_stacks run i) = sending t -> in_flight (with_stack run i t sh) ≡ₚ in_flight run.
Proof.
  intros He. pose proof (sending_moved run i t) as Hm. rewrite He in Hm.
  rewrite (in_flight_shared run i t sh (run_shared run)). by apply (inj (.++ sending t)).
Qed.

Lemma relays_insert (rs : list Relay) n c b :
  rs !! n = Some (mkRelay c b) -> relay_conn <$> <[n := mkRelay c true]> rs = relay_conn <$> rs.
Proof.
  intros Hn. rewrite list_fmap_insert. apply list_insert_id. by rewrite list_lookup_fmap, Hn.
Qed.

Lemma relays_delete (rs : list Relay) n r :
  rs !! n = Some r -> (relay_conn <$> delete n rs) ++ [relay_conn r] ≡ₚ relay_conn <$> rs.
Proof.
  intros Hn. rewrite <- (take_drop_middle rs n r Hn) at 2. rewrite delete_take_drop.
  rewrite !fmap_app. simpl. solve_Permutation.
Qed.

Lemma bind_flight i r run run' : on_bind i r run = Some run' -> in_flight run' ≡ₚ in_flight run.
Proof.
  unfold on_bind. destruct (s_phase (run_stacks run i)) eqn:Hp; try done. intros [= <-].
  destruct r; apply sending_idle; unfold sending; by rewrite Hp.
Qed.

Lemma accept_flight i r run run' :
  on_stack_accept i r run = Some run' ->
  in_flight run' ≡ₚ in_flight run ++ match r with Ok c => [c] | Err _ => [] end.
Proof.
  unfold on_stack_accept. destruct (s_phase (run_stacks run i)) eqn:Hp; try done.
  intros Hs. apply (inj Some) in Hs as <-.
  assert (Hi : sending (run_stacks run i) = []) by (unfold sending; by rewrite Hp).
  destruct r as [c|e].
  - pose proof (sending_moved run i (mkStack (Sending c) (record_success (s_retry (run_stacks run i)))))
      as Hm. by rewrite Hi, app_nil_r in Hm.
  - rewrite app_nil_r. destruct (record_error e (s_retry (run_stacks run i))) as [[|] retry]; by apply sending_idle.
Qed.

Lemma send_flight i run run' : on_send i run = Some run' -> in_flight run' ≡ₚ in_flight run.
Proof.
  unfold on_send, in_flight. destruct (s_phase (run_stacks run i)) eqn:Hp; try done.
  destruct (decide _); [|done]. intros [= <-].
  assert (Hi : sending (run_stacks run i) = [c]) by (unfold sending; by rewrite Hp).
  destruct i; simpl; rewrite Hi; unfold sending at 1; simpl; perm_solve.
Qed.

Lemma recv_flight run run' :
  on_recv run = Some run' ->
  in_flight run' ++ (if decide (run_loop run' = ForwardReturned)
                     then relay_conn <$> run_relays run else [])
  ≡ₚ in_flight run.
Proof.
  unfold on_recv, in_flight. destruct (run_loop run) eqn:Hl; try done.
  destruct (run_queue run) as [|c q].
  - destruct (stack_gone _ && stack_gone _); [|done]. intros [= <-]. simpl. perm_solve.
  - intros [= <-]. simpl. perm_solve.
Qed.

Lemma permit_flight run run' : on_permit run = Some run' -> in_flight run' ≡ₚ in_flight run.
Proof.
  unfold on_permit, in_flight. destruct (run_loop run) eqn:Hl; try done.
  destruct (_ <? _); [|done]. intros [= <-]. simpl. rewrite fmap_app. simpl. perm_solve.
Qed.

Lemma start_flight n run run' : on_relay_start n run = Some run' -> in_flight run' ≡ₚ in_flight run.
Proof.
  unfold on_relay_start, in_flight. destruct (run_relays run !! n) as [[c [|]]|] eqn:Hn; try done.
  intros [= <-]. simpl. by rewrite (relays_insert _ _ c false).
Qed.

Lemma end_flight n r run run' :
  on_relay_end n r run = Some run' ->
  in_flight run' ++ (relay_conn <$> option_list (run_relays run !! n)) ≡ₚ in_flight run.
Proof.
  unfold on_relay_end, in_flight. destruct (run_relays run !! n) as [[c [|]]|] eqn:Hn; try done.
  intros [= <-]. simpl. rewrite <- (relays_delete _ _ _ Hn). simpl. solve_Permutation.
Qed.

Lemma death_flight i run run' :
  on_stack_death i run = Some run' -> in_flight run' ++ sending (run_stacks run i) ≡ₚ in_flight run.
Proof.
  unfold on_stack_death. destruct (stack_gone _); [done|]. intros [= <-].
  rewrite sending_moved. by rewrite app_nil_r.
Qed.

Lemma supervise_flight i d run run' :
  on_supervise i d run = Some run' -> in_flight run' ≡ₚ in_flight run.
Proof.
  unfold on_supervise.
  destruct (run_loop run), (s_phase (run_stacks run i)) as [| | |[|]] eqn:Hp; try done.
  intros [= <-]. apply sending_idle. unfold sending. by rewrite Hp.
Qed.

#[export] Hint Resolve bind_flight accept_flight send_flight recv_flight permit_flight start_flight
  end_flight death_flight supervise_flight : fwd.

Lemma step_accounts ev run :
  in_flight (forward_exec ev run) ++ relayed ev run ++ dropped ev run
  ≡ₚ in_flight run ++ took ev run.
Proof.
  unfold forward_exec, relayed, dropped, took.
  destruct ev as [i r|i [c|e]|i| | |n|n r|i|i d];
    (destruct (forward_step _ run) as [run'|] eqn:Hs; simpl; rewrite ?app_nil_r; [|reflexivity]);
    unfold forward_step in Hs; destruct (run_loop run) eqn:Hl; try done; eauto with fwd;
    apply accept_flight in Hs; by rewrite ?app_nil_r in Hs.
Qed.

Lemma accounts evs run :
  in_flight (forward_run evs run) ++ along relayed evs run ++ along dropped evs run
  ≡ₚ in_flight run ++ along took evs run.
Proof.
  induction evs as [|ev evs IH] using rev_ind; [simpl; by rewrite !app_nil_r|].
  rewrite forward_run_snoc, !along_snoc. pose proof (step_accounts ev (forward_run evs run)) as Hs.
  rewrite (assoc_L (++) (in_flight run)), <- IH.
  transitivity ((in_flight (forward_exec ev (forward_run evs run)) ++ relayed ev (forward_run evs run)
    ++ dropped ev (forward_run evs run)) ++ along relayed evs run ++ along dropped evs run);
    [solve_Permutation|]. rewrite Hs. solve_Permutation.
Qed.

(** Listener tasks end only by dying. *)
Definition no_deaths (evs : list ForwardEvent) : Prop := forall i, StackDeath i ∉ evs.

Lemma step_gone ev run run' j :
  (forall i, ev <> StackDeath i) -> forward_step ev run = Some run' ->
  (forall i, stack_gone (run_stacks run i) = false) -> stack_gone (run_stacks run' j) = false.
Proof.
  intros Hev Hs Hg. pose proof (Hg j) as Hj. unfold forward_step in Hs.
  destruct (run_loop run) eqn:Hl; try done; destruct ev as [i r|i r|i| | |n|n r|i|i d];
    try (by destruct (Hev i)).
  all: unfold on_bind, on_stack_accept, on_send, on_recv, on_permit, on_relay_start, on_relay_end,
    on_supervise in Hs; rewrite ?Hl, ?Hg in Hs; simpl in Hs.
  all: repeat (case_match; simplify_eq); try done; simpl.
  all: try (destruct (decide (j = i)); done).
  all: pose proof (Hg i) as Hi; unfold stack_gone in Hi; by case_match.
Qed.

Lemma run_gone evs spec i :
  no_deaths evs -> stack_gone (run_stacks (forward_run evs (run_forward_init spec)) i) = false.
Proof.
  revert i. induction evs as [|ev evs IH] using rev_ind; intros i Hn; [done|].
  rewrite forward_run_snoc. unfold forward_exec.
  destruct (forward_step ev _) as [run'|] eqn:Hs; simpl.
  - apply (step_gone _ _ _ i) in Hs; [done|intros j ->; apply (Hn j); set_solver|].
    intros j. apply IH. intros k. specialize (Hn k). set_solver.
  - apply IH. intros k. specialize (Hn k). set_solver.
Qed.

Lemma run_not_returned evs spec :
  no_deaths evs -> run_loop (forward_run evs (run_forward_init spec)) <> ForwardReturned.
Proof.
  induction evs as [|ev evs IH] using rev_ind; intros Hn; [done|].
  assert (Hn' : no_deaths evs) by (intros i; specialize (Hn i); set_solver).
  pose proof (fun i => run_gone evs spec i Hn') as Hg. specialize (IH Hn').
  rewrite forward_run_snoc. unfold forward_exec.
  destruct (forward_step ev _) as [run'|] eqn:Hs; simpl; [|done].
  unfold forward_step in Hs. destruct (run_loop (forward_run evs _)) eqn:Hl; try done;
    destruct ev; unfold on_bind, on_stack_accept, on_send, on_recv, on_permit, on_relay_start,
      on_relay_end, on_stack_death, on_supervise in Hs; rewrite ?Hl, ?Hg in Hs; simpl in Hs;
    repeat (case_match; simplify_eq); simplify_eq; simpl; congruence.
Qed.

Lemma dropped_nil ev run :
  (forall i, ev <> StackDeath i) -> (forall i, stack_gone (run_stacks run i) = false) ->
  dropped ev run = [].
Proof.
  intros Hev Hg. unfold dropped. destruct ev as [i r|i [c|e]|i| | |n|n r|i|i d]; try done;
    [|by destruct (Hev i)].
  destruct (forward_step RecvDone run) as [run'|] eqn:Hs; [|done].
  destruct (decide _) as [Hr|]; [|done]. unfold forward_step, on_recv in Hs.
  rewrite !Hg in Hs. simpl in Hs. destruct (run_loop run); try done.
  destruct (run_queue run); [done|]. by simplify_eq.
Qed.

Lemma along_dropped evs spec : no_deaths evs -> along dropped evs (run_forward_init spec) = [].
Proof.
  induction evs as [|ev evs IH] using rev_ind; intros Hn; [done|]. rewrite along_snoc.
  assert (Hn' : no_deaths evs) by (intros i; specialize (Hn i); set_solver).
  rewrite IH, dropped_nil by (done || (intros i; by apply run_gone) || intros i ->; apply (Hn i); set_solver).
  done.
Qed.

Lemma in_flight_bound run :
  run_inv run -> Z.of_nat (length (in_flight run)) <= MAX_ACTIVE_RELAYS_PER_FORWARD + 4.
Proof.
  intros [_ _ _ _ Hc Hq]. unfold in_flight. rewrite !length_app, length_fmap.
  assert (Hs : forall t, (length (sending t) <= 1)%nat)
    by (intros t; unfold sending; case_match; simpl; lia).
  assert (Hw : (length (waiting (run_loop run)) <= 1)%nat) by (destruct (run_loop run); simpl; lia).
  pose proof (Hs (run_stacks run STACK_V4)). pose proof (Hs (run_stacks run STACK_V6)).
  unfold CHANNEL_CAPACITY in Hq. lia.
Qed.

(** C27. Whatever binds, accepts, relay ends and listener deaths a forward goes
    through, and in whatever order: every connection it accepted is, exactly once,
    relayed to its end, still in the forward's hands, or dropped; none is dropped
    unless a listener task died; and the forward never relays more than 128 at once
    nor holds more than four beyond them. *)
Theorem forward_loses_no_connection spec evs :
  let run := forward_run evs (run_forward_init spec) in
  along took evs (run_forward_init spec)
    ≡ₚ in_flight run ++ along relayed evs (run_forward_init spec)
                     ++ along dropped evs (run_forward_init spec)
  /\ (no_deaths evs -> along dropped evs (run_forward_init spec) = [])
  /\ Z.of_nat (length (run_relays run)) <= MAX_ACTIVE_RELAYS_PER_FORWARD
  /\ Z.of_nat (length (in_flight run)) <= MAX_ACTIVE_RELAYS_PER_FORWARD + 4.
Proof.
  intros run. pose proof (forward_run_inv evs spec) as Hinv.
  split; [symmetry; apply accounts|]. split; [apply along_dropped|]. split; [apply Hinv|].
  by apply in_flight_bound.
Qed.

(** ** The reported status *)

Lemma fold_listening port stacks :
  fold_state port stacks = Listening <-> exists i, health_is_up (stacks i) = true.
Proof.
  unfold fold_state, stack_list. simpl. split.
  - destruct (health_is_up (stacks STACK_V4)) eqn:H4; [by eauto|].
    destruct (health_is_up (stacks STACK_V6)) eqn:H6; [by eauto|]. simpl. by case_match.
  - intros [[|] ->]; simpl; [done|]. by rewrite orb_true_r.
Qed.

Lemma fold_failed port stacks reason :
  fold_state port stacks = Failed reason ->
  exists k4 m4 k6 m6, health_error (stacks STACK_V4) = Some (k4, m4)
    /\ health_error (stacks STACK_V6) = Some (k6, m6)
    /\ (forall i, health_is_up (stacks i) = false)
    /\ reason = if bool_decide (k4 = AddrInUse) || bool_decide (k6 = AddrInUse)
                then str "port " ++ dec port ++ str " is in use" else m4.
Proof.
  unfold fold_state, stack_list, is_addr_in_use. simpl.
  destruct (health_is_up (stacks STACK_V4)) eqn:H4; [done|].
  destruct (health_is_up (stacks STACK_V6)) eqn:H6; [done|]. simpl.
  destruct (health_error (stacks STACK_V4)) as [[k4 m4]|]; [|done].
  destruct (health_error (stacks STACK_V6)) as [[k6 m6]|]; simpl; [|done].
  intros [= <-]. exists k4, m4, k6, m6. split; [done|]. split; [done|].
  split; [by intros [|]|]. by destruct k4, k6.
Qed.

(** The state reports the listeners: [Listening] exactly when one of the two
    stacks accepts connections (or has died and is not reaped yet), [Failed] only
    when neither does, with the port-in-use text exactly when that is why one of
    them is down; and the active count is the number of running relays. *)
Lemma status_of_run run :
  run_inv run ->
  let sh := run_shared run in
  (sh_state sh = Listening ->
     exists i, listening (run_stacks run i) = true \/ s_phase (run_stacks run i) = StackEnded false)
  /\ ((exists i, listening (run_stacks run i) = true) -> sh_state sh = Listening)
  /\ 0 <= sh_active sh <= MAX_ACTIVE_RELAYS_PER_FORWARD.
Proof.
  intros [Hp Hf Hh Ha Hc _]. simpl. rewrite Hf. split; [|split].
  - intros [i Hi]%fold_listening. exists i. specialize (Hh i). unfold health_ok, listening in *.
    destruct (s_phase (run_stacks run i)) as [a| |c|[|]]; intuition congruence.
  - intros [i Hi]. apply fold_listening. exists i. specialize (Hh i). unfold health_ok, listening in *.
    destruct (s_phase (run_stacks run i)) as [a| |c|[|]]; try done; by rewrite Hh.
  - pose proof (started_bound (run_relays run)). lia.
Qed.

(** The status of a forward is true of its listeners, over all runs without a
    listener panic: it says [Listening] exactly when at least one loopback stack
    accepts connections, and [Failed] only when both are down, naming the port as
    in use exactly when that is why one of them is down (otherwise the IPv4
    error); the active count is the number of relays that run, at most 128. *)
Theorem forward_status_truthful spec evs :
  no_deaths evs ->
  let run := forward_run evs (run_forward_init spec) in
  let sh := run_shared run in
  (sh_state sh = Listening <-> exists i, listening (run_stacks run i) = true)
  /\ (forall reason, sh_state sh = Failed reason ->
        (forall i, listening (run_stacks run i) = false)
        /\ exists k4 m4 k6 m6, health_error (sh_stacks sh STACK_V4) = Some (k4, m4)
             /\ health_error (sh_stacks sh STACK_V6) = Some (k6, m6)
             /\ reason = if bool_decide (k4 = AddrInUse) || bool_decide (k6 = AddrInUse)
                         then str "port " ++ dec (spec_local_port (run_spec run)) ++ str " is in use"
                         else m4)
  /\ sh_active sh = started_count (run_relays run)
  /\ 0 <= sh_active sh <= MAX_ACTIVE_RELAYS_PER_FORWARD.
Proof.
  intros Hn run sh. pose proof (forward_run_inv evs spec) as Hinv.
  destruct (status_of_run _ Hinv) as (Hl & Hr & Hb). fold run in Hl, Hr, Hb. split; [split|split; [|split]]; try done.
  - intros [i [Hi|Hi]]%Hl; [by eauto|]. pose proof (run_gone evs spec i Hn) as Hg.
    unfold stack_gone in Hg. fold run in Hi, Hg. by rewrite Hi in Hg.
  - intros reason Hf. subst sh. split.
    + intros i. destruct (listening (run_stacks run i)) eqn:Hi; [|done].
      rewrite Hr in Hf by eauto. done.
    + pose proof (ri_fold _ Hinv) as Hs. fold run in Hs. rewrite Hf in Hs. symmetry in Hs.
      apply fold_failed in Hs as (k4 & m4 & k6 & m6 & H4 & H6 & _ & ->).
      exists k4, m4, k6, m6. pose proof (ri_port _ Hinv) as Hport. fold run in Hport.
      by rewrite Hport.
  - apply Hinv.
Qed.

Lemma rebind_backoff_bounds attempt :
  0 <= attempt -> FORWARD_REBIND_BASE_BACKOFF <= rebind_backoff attempt <= FORWARD_REBIND_MAX_BACKOFF.
Proof.
  intros Ha. unfold rebind_backoff, FORWARD_REBIND_BASE_BACKOFF, FORWARD_REBIND_MAX_BACKOFF.
  rewrite Z.shiftl_mul_pow2, Z.mul_1_l by lia.
  pose proof (Z.pow_le_mono_r 2 0 (Z.min attempt 5)) as H. lia.
Qed.

(** A forward never gives up: after any run without a listener panic, each
    stack accepts connections, or hands one over, or is about to try to bind
    again after a pause of between a quarter of a second and five seconds; and
    whatever the earlier failures, the next bind that succeeds makes the forward
    [Listening], with a clean retry state. *)
Theorem forward_reclaims spec evs i :
  no_deaths evs ->
  let run := forward_run evs (run_forward_init spec) in
  match s_phase (run_stacks run i) with
  | StackEnded _ => False
  | StackAccepting | Sending _ => sh_state (run_shared run) = Listening
  | Binding attempt =>
      FORWARD_REBIND_BASE_BACKOFF <= rebind_backoff attempt <= FORWARD_REBIND_MAX_BACKOFF
      /\ exists run', forward_step (BindDone i (Ok tt)) run = Some run'
           /\ s_phase (run_stacks run' i) = StackAccepting
           /\ s_retry (run_stacks run' i) = AcceptRetry_new
           /\ sh_state (run_shared run') = Listening
  end.
Proof.
  intros Hn run. pose proof (forward_run_inv evs spec) as Hinv.
  pose proof (run_not_returned evs spec Hn) as Hl. fold run in Hl.
  pose proof (run_gone evs spec i Hn) as Hg. destruct (status_of_run _ Hinv) as (_ & Hr & _).
  pose proof (ri_health _ Hinv i) as Hh. fold run in Hinv, Hg, Hr, Hh.
  unfold stack_gone, health_ok, listening in *.
  destruct (s_phase (run_stacks run i)) as [a| |c|] eqn:Hp; try done;
    try (apply Hr; exists i; by rewrite Hp).
  split; [apply rebind_backoff_bounds; lia|].
  eexists. split; [|split; [|split]].
  - unfold forward_step, on_bind. rewrite Hp. by destruct (run_loop run).
  - simpl. by rewrite decide_True.
  - simpl. by rewrite decide_True.
  - simpl. apply fold_listening. exists i. by rewrite decide_True.
Qed.

(** ** Reconciliation *)

Lemma elem_of_handles h ts :
  h ∈ handles ts <-> exists id t, ts !! id = Some t /\ task_handle t = h.
Proof.
  unfold handles. rewrite list_elem_of_fmap. split.
  - intros (t & -> & ([id t'] & -> & Hin)%list_elem_of_fmap).
    apply elem_of_map_to_list in Hin. eauto.
  - intros (id & t & Ht & <-). exists t. split; [done|]. apply list_elem_of_fmap.
    exists (id, t). split; [done|]. by apply elem_of_map_to_list.
Qed.

(** The manager's table and the runtime agree: each task of the table is a run of
    its own spec, no two share a run, and no run is outside the table. *)
Record mgr_inv (m : ForwardManager) : Prop := mkMgrInv {
  mi_id : forall id t, tasks m !! id = Some t -> spec_id (task_spec t) = id;
  mi_fresh : forall id t, tasks m !! id = Some t -> task_handle t < next_handle m;
  mi_run : forall id t, tasks m !! id = Some t ->
    exists evs, runs m !! task_handle t = Some (forward_run evs (run_forward_init (task_spec t)));
  mi_inj : forall id id' t t', tasks m !! id = Some t -> tasks m !! id' = Some t' ->
    task_handle t = task_handle t' -> id = id';
  mi_live : forall h run, runs m !! h = Some run ->
    exists id t, tasks m !! id = Some t /\ task_handle t = h;
}.

Lemma empty_mgr_inv : mgr_inv (mkManager ∅ ∅ 0).
Proof. by split. Qed.

Lemma task_event_inv h ev m : mgr_inv m -> mgr_inv (task_event h ev m).
Proof.
  intros [Hid Hf Hr Hi Hl]. split; simpl; eauto.
  - intros id t Ht. destruct (Hr id t Ht) as [evs He]. destruct (decide (h = task_handle t)) as [->|Hne].
    + exists (evs ++ [ev]). by rewrite lookup_alter_eq, He, forward_run_snoc.
    + exists evs. by rewrite lookup_alter_ne.
  - intros h' run Hrun. destruct (runs m !! h') as [run0|] eqn:H0; [by apply (Hl h' run0)|].
    destruct (decide (h = h')) as [->|Hne].
    + by rewrite lookup_alter_eq, H0 in Hrun.
    + by rewrite lookup_alter_ne, H0 in Hrun.
Qed.

Lemma retain_lookup desired m id :
  tasks (retain_tasks desired m) !! id
  = t ← tasks m !! id; if decide (keeps desired id t) then Some t else None.
Proof.
  simpl. rewrite map_lookup_filter. destruct (tasks m !! id) as [t|]; simpl; [|done].
  destruct (decide (keeps desired id t)) as [Hk|Hk]; [by rewrite option_guard_True|by rewrite option_guard_False].
Qed.

Lemma retain_task desired m id t :
  tasks (retain_tasks desired m) !! id = Some t <-> tasks m !! id = Some t /\ keeps desired id t.
Proof.
  rewrite retain_lookup. destruct (tasks m !! id) as [t'|]; simpl; [|naive_solver].
  destruct (decide (keeps desired id t')); naive_solver.
Qed.

Lemma aborted_handle desired m h :
  h ∈ handles (filter (fun '(id, t) => ~ keeps desired id t) (tasks m))
  <-> exists id t, tasks m !! id = Some t /\ ~ keeps desired id t /\ task_handle t = h.
Proof.
  rewrite elem_of_handles. split; intros (id & t & H); exists id, t.
  - destruct H as [H <-]. apply map_lookup_filter_Some in H. naive_solver.
  - split; [|naive_solver]. apply map_lookup_filter_Some. naive_solver.
Qed.

(** A run stays exactly when the task it belongs to does. *)
Lemma retain_run_kept desired m id t :
  mgr_inv m -> tasks m !! id = Some t -> keeps desired id t ->
  runs (retain_tasks desired m) !! task_handle t = runs m !! task_handle t.
Proof.
  intros Hm Ht Hk. simpl. rewrite map_lookup_filter.
  destruct (runs m !! task_handle t) as [run|] eqn:Hr; simpl; [|done].
  rewrite option_guard_True; [done|]. rewrite aborted_handle. intros (id' & t' & Ht' & Hn & He).
  assert (id' = id) as -> by (by eapply mi_inj). by simplify_eq.
Qed.

Lemma retain_run_aborted desired m id t :
  tasks m !! id = Some t -> ~ keeps desired id t ->
  runs (retain_tasks desired m) !! task_handle t = None.
Proof.
  intros Ht Hn. apply map_lookup_filter_None. right. intros run _ Hin. apply Hin, aborted_handle. eauto.
Qed.

Lemma retain_inv desired m : mgr_inv m -> mgr_inv (retain_tasks desired m).
Proof.
  intros Hm. pose proof Hm as [Hid Hf Hr Hi Hl]. split.
  - intros id t [Ht _]%retain_task. by apply Hid.
  - intros id t [Ht _]%retain_task. by eapply Hf.
  - intros id t [Ht Hk]%retain_task. rewrite (retain_run_kept _ _ id) by done. by eapply Hr.
  - intros id id' t t' [Ht _]%retain_task [Ht' _]%retain_task. by eapply Hi.
  - intros h run Hrun. apply map_lookup_filter_Some in Hrun as [Hrun Hn].
    destruct (Hl h run Hrun) as (id & t & Ht & <-). exists id, t. split; [|done].
    apply retain_task. split; [done|].
    destruct (decide (keeps desired id t)) as [|Hk]; [done|]. destruct Hn. apply aborted_handle. eauto.
Qed.

Lemma spawn_inv m spec : mgr_inv m -> mgr_inv (spawn_forward m spec).
Proof.
  intros Hm. pose proof Hm as [Hid Hf Hr Hi Hl]. unfold spawn_forward.
  destruct (tasks m !! spec_id spec) as [t0|] eqn:H0; [done|]. split; simpl.
  - intros id t [[<- <-]|[Hne Ht]]%lookup_insert_Some; eauto.
  - intros id t [[<- <-]|[Hne Ht]]%lookup_insert_Some; simpl; [lia|]. apply Hf in Ht. lia.
  - intros id t [[<- <-]|[Hne Ht]]%lookup_insert_Some; simpl.
    + exists []. by rewrite lookup_insert_eq.
    + rewrite lookup_insert_ne by (apply Hf in Ht; lia). eauto.
  - intros id id' t t' [[<- <-]|[Hne Ht]]%lookup_insert_Some [[<- <-]|[Hne' Ht']]%lookup_insert_Some;
      simpl; intros He; eauto; [apply Hf in Ht'|apply Hf in Ht]; lia.
  - intros h run [[<- <-]|[Hne Hrun]]%lookup_insert_Some.
    + exists (spec_id spec), (mkTask spec (next_handle m)). by rewrite lookup_insert_eq.
    + destruct (Hl h run Hrun) as (id & t & Ht & <-). exists id, t. split; [|done].
      rewrite lookup_insert_ne; [done|]. intros <-. by rewrite Ht in H0.
Qed.

Lemma spawns_inv l m : mgr_inv m -> mgr_inv (foldl spawn_forward m l).
Proof. revert m. induction l as [|f l IH]; intros m Hm; simpl; [done|]. by apply IH, spawn_inv. Qed.

Lemma apply_inv m l : mgr_inv m -> mgr_inv (manager_apply m l).
Proof. intros Hm. by apply spawns_inv, retain_inv. Qed.

Lemma manager_run_inv l evs : mgr_inv (manager_run l evs).
Proof.
  unfold manager_run, manager_new. generalize (apply_inv _ l empty_mgr_inv).
  generalize (manager_apply (mkManager ∅ ∅ 0) l). induction evs as [|ev evs IH]; intros m Hm; simpl; [done|].
  apply IH. destruct ev; simpl; [by apply apply_inv|by apply task_event_inv].
Qed.

(** What spawning the wanted list adds and leaves alone. *)
Lemma spawns_kept l m id t :
  tasks m !! id = Some t -> tasks (foldl spawn_forward m l) !! id = Some t.
Proof.
  revert m. induction l as [|f l IH]; intros m Ht; simpl; [done|]. apply IH.
  unfold spawn_forward. destruct (tasks m !! spec_id f) eqn:Hf; [done|]. simpl.
  rewrite lookup_insert_ne; [done|]. intros <-. by rewrite Ht in Hf.
Qed.

Lemma spawns_run_kept l m h run :
  h < next_handle m -> runs m !! h = run -> runs (foldl spawn_forward m l) !! h = run.
Proof.
  revert m. induction l as [|f l IH]; intros m Hh Hr; simpl; [done|].
  unfold spawn_forward. destruct (tasks m !! spec_id f) eqn:Hf; [by apply IH|].
  apply IH; simpl; [lia|]. rewrite lookup_insert_ne by lia. done.
Qed.

Lemma spawns_dom l m id :
  is_Some (tasks (foldl spawn_forward m l) !! id)
  <-> is_Some (tasks m !! id) \/ id ∈ spec_id <$> l.
Proof.
  revert m. induction l as [|f l IH]; intros m; simpl; [set_solver|].
  rewrite IH. unfold spawn_forward. rewrite elem_of_cons.
  destruct (tasks m !! spec_id f) eqn:Hf; simpl.
  - split; [naive_solver|]. intros [|[->|]]; eauto.
  - rewrite lookup_insert_is_Some. destruct (decide (spec_id f = id)); naive_solver.
Qed.

Lemma spawns_next l m : next_handle m <= next_handle (foldl spawn_forward m l).
Proof.
  revert m. induction l as [|f l IH]; intros m; simpl; [lia|]. etransitivity; [|apply IH].
  unfold spawn_forward. case_match; simpl; lia.
Qed.

Lemma spawns_first l1 f l2 m :
  tasks m !! spec_id f = None -> (spec_id f ∉ spec_id <$> l1) ->
  exists h, tasks (foldl spawn_forward m (l1 ++ f :: l2)) !! spec_id f = Some (mkTask f h)
    /\ next_handle m <= h.
Proof.
  intros Hn Hl. rewrite foldl_app. simpl. set (m1 := foldl spawn_forward m l1).
  assert (H1 : tasks m1 !! spec_id f = None).
  { apply eq_None_not_Some. intros [Hs|Hin]%spawns_dom; [|done]. rewrite Hn in Hs. by destruct Hs. }
  exists (next_handle m1). split; [|apply spawns_next].
  apply spawns_kept. unfold spawn_forward. rewrite H1. simpl. by rewrite lookup_insert_eq.
Qed.

Lemma desired_snoc l f : desired_of (l ++ [f]) = <[spec_id f := f]> (desired_of l).
Proof. unfold desired_of. by rewrite foldl_app. Qed.

Lemma desired_sound l id f : desired_of l !! id = Some f -> f ∈ l /\ spec_id f = id.
Proof.
  induction l as [|g l IH] using rev_ind; [done|]. rewrite desired_snoc, lookup_insert_Some.
  set_solver.
Qed.

Lemma desired_NoDup l f :
  NoDup (spec_id <$> l) -> f ∈ l -> desired_of l !! spec_id f = Some f.
Proof.
  induction l as [|g l IH] using rev_ind; [set_solver|]. rewrite desired_snoc, fmap_app, NoDup_app.
  intros (Hl & Hd & _) [Hin|Heq%list_elem_of_singleton]%elem_of_app; [|by subst; rewrite lookup_insert_eq].
  rewrite lookup_insert_ne; [by apply IH|]. intros He. apply (Hd (spec_id f)); [set_solver|].
  rewrite <- He. set_solver.
Qed.

(** The table after [apply], for a list with distinct ids. *)
Lemma apply_lookup m l f :
  mgr_inv m -> NoDup (spec_id <$> l) -> f ∈ l ->
  exists h, tasks (manager_apply m l) !! spec_id f = Some (mkTask f h)
    /\ (tasks m !! spec_id f = Some (mkTask f h) \/ next_handle m <= h).
Proof.
  intros Hm Hd Hin. unfold manager_apply. set (m0 := retain_tasks (desired_of l) m).
  destruct (tasks m0 !! spec_id f) as [[s h]|] eqn:H0.
  - pose proof H0 as [Ht Hk]%retain_task. unfold keeps in Hk. rewrite desired_NoDup in Hk by done.
    simplify_eq. simpl in *. exists h. split; [by apply spawns_kept|by left].
  - apply list_elem_of_split in Hin as (l1 & l2 & Hl).
    assert (Hn : spec_id f ∉ spec_id <$> l1).
    { rewrite Hl, fmap_app, NoDup_app in Hd. destruct Hd as (_ & Hd & _). intros Hx.
      apply (Hd _ Hx). set_solver. }
    destruct (spawns_first l1 f l2 m0 H0 Hn) as (h & Hh & Hge). rewrite <- Hl in Hh. exists h. auto.
Qed.

Lemma apply_dom m l id :
  mgr_inv m -> NoDup (spec_id <$> l) ->
  is_Some (tasks (manager_apply m l) !! id) <-> id ∈ spec_id <$> l.
Proof.
  intros Hm Hd. unfold manager_apply. rewrite spawns_dom. split; [|auto].
  intros [[t Ht]|Hin]; [|done]. apply retain_task in Ht as [Ht Hk].
  apply desired_sound in Hk as [Hin <-]. set_solver.
Qed.

Lemma apply_run_kept m l id t :
  mgr_inv m -> NoDup (spec_id <$> l) -> tasks m !! id = Some t -> task_spec t ∈ l ->
  tasks (manager_apply m l) !! id = Some t
  /\ runs (manager_apply m l) !! task_handle t = runs m !! task_handle t.
Proof.
  intros Hm Hd Ht Hin. pose proof (mi_id m Hm id t Ht) as Hid.
  assert (Hk : keeps (desired_of l) id t) by (unfold keeps; rewrite <- Hid; by apply desired_NoDup).
  split; [by apply spawns_kept, retain_task|].
  apply spawns_run_kept; [by apply (mi_fresh m Hm id)|by apply (retain_run_kept _ _ id)].
Qed.

Lemma apply_run_aborted m l id t :
  mgr_inv m -> tasks m !! id = Some t -> (task_spec t ∉ l) ->
  runs (manager_apply m l) !! task_handle t = None.
Proof.
  intros Hm Ht Hin. apply spawns_run_kept; [by apply (mi_fresh m Hm id)|].
  apply (retain_run_aborted _ _ id); [done|]. intros [Hin' _]%desired_sound. done.
Qed.

(** Reconciliation: after any history of a manager, applying a list with
    distinct ids leaves exactly the wanted forwards running, one listener task
    each, on the wanted spec, and no task of the runtime besides them; a forward
    whose spec is unchanged keeps the very task it had (its connections are not
    disturbed), every other task is stopped. *)
Theorem apply_reconciles wanted0 evs l :
  let m := manager_run wanted0 evs in
  let m' := manager_apply m l in
  NoDup (spec_id <$> l) ->
  (forall id, is_Some (tasks m' !! id) <-> id ∈ spec_id <$> l)
  /\ (forall f, f ∈ l -> exists h evs', tasks m' !! spec_id f = Some (mkTask f h)
        /\ runs m' !! h = Some (forward_run evs' (run_forward_init f)))
  /\ (forall h run, runs m' !! h = Some run ->
        exists f, f ∈ l /\ tasks m' !! spec_id f = Some (mkTask f h))
  /\ (forall id t, tasks m !! id = Some t -> task_spec t ∈ l ->
        tasks m' !! id = Some t /\ runs m' !! task_handle t = runs m !! task_handle t)
  /\ (forall id t, tasks m !! id = Some t -> (task_spec t ∉ l) ->
        runs m' !! task_handle t = None).
Proof.
  intros m m' Hd. pose proof (manager_run_inv wanted0 evs) as Hm. fold m in Hm.
  pose proof (apply_inv m l Hm) as Hm'. fold m' in Hm'.
  split; [intros id; by apply apply_dom|]. split; [|split; [|split]].
  - intros f Hf. destruct (apply_lookup m l f Hm Hd Hf) as (h & Hh & _).
    destruct (mi_run m' Hm' _ _ Hh) as [evs' He]. exists h, evs'. done.
  - intros h run Hr. destruct (mi_live m' Hm' h run Hr) as (id & t & Ht & <-).
    assert (Hin : id ∈ spec_id <$> l) by (apply (apply_dom m); eauto).
    apply list_elem_of_fmap in Hin as (f & -> & Hf).
    destruct (apply_lookup m l f Hm Hd Hf) as (h & Hh & _). exists f. split; [done|].
    fold m' in Hh. by simplify_eq.
  - intros id t Ht Hin. by apply apply_run_kept.
  - intros id t Ht Hin. by apply (apply_run_aborted _ _ id).
Qed.

(** Applying the same list again changes nothing. *)
Theorem apply_idempotent wanted0 evs l :
  let m := manager_apply (manager_run wanted0 evs) l in
  NoDup (spec_id <$> l) ->
  tasks (manager_apply m l) = tasks m /\ runs (manager_apply m l) = runs m.
Proof.
  intros m Hd. pose proof (apply_inv _ l (manager_run_inv wanted0 evs)) as Hm. fold m in Hm.
  assert (Hall : forall id t, tasks m !! id = Some t -> task_spec t ∈ l).
  { intros id t Ht. assert (Hin : id ∈ spec_id <$> l)
      by (apply (apply_dom (manager_run wanted0 evs)); eauto using manager_run_inv).
    apply list_elem_of_fmap in Hin as (f & -> & Hf).
    destruct (apply_lookup _ l f (manager_run_inv wanted0 evs) Hd Hf) as (h & Hh & _).
    fold m in Hh. by simplify_eq. }
  assert (Htasks : tasks (manager_apply m l) = tasks m).
  { apply map_eq. intros id. destruct (tasks m !! id) as [t|] eqn:Ht.
    - by apply apply_run_kept; eauto.
    - apply eq_None_not_Some. intros Hs. apply apply_dom in Hs; [|done..].
      apply (apply_dom (manager_run wanted0 evs)) in Hs; [|apply manager_run_inv|done].
      fold m in Hs. rewrite Ht in Hs. by destruct Hs. }
  split; [done|]. apply map_eq. intros h. destruct (runs m !! h) as [run|] eqn:Hr.
  - destruct (mi_live m Hm h run Hr) as (id & t & Ht & <-). rewrite <- Hr.
    apply (apply_run_kept m l id t); eauto.
  - apply eq_None_not_Some. intros [run Hs].
    destruct (mi_live _ (apply_inv m l Hm) h run Hs) as (id & t & Ht & <-).
    rewrite Htasks in Ht. destruct (apply_run_kept m l id t) as [_ He]; eauto. congruence.
Qed.

(** Dropping the manager stops every task. *)
Theorem drop_stops_everything wanted0 evs :
  runs (manager_drop (manager_run wanted0 evs)) = ∅.
Proof.
  pose proof (manager_run_inv wanted0 evs) as Hm. apply map_empty. intros h.
  apply map_lookup_filter_None. right. intros run Hr Hn. apply Hn, elem_of_handles.
  by eapply mi_live.
Qed.

(** Two specs with one id: the table of wanted specs keeps the last, the loop
    that spawns keeps the first, so that every [apply] of such a list stops the
    forward it started before and starts it again on the same spec, dropping the
    connections it relays. *)
Theorem duplicate_ids_restart wanted0 evs a b h :
  let m := manager_run wanted0 evs in
  let m' := manager_apply m [a; b] in
  spec_id a = spec_id b -> a <> b -> tasks m !! spec_id a = Some (mkTask a h) ->
  runs m' !! h = None /\ exists h', h < h' /\ tasks m' !! spec_id a = Some (mkTask a h').
Proof.
  intros m m' Hid Hne Ht. pose proof (manager_run_inv wanted0 evs) as Hm. fold m in Hm.
  assert (Hk : ~ keeps (desired_of [a; b]) (spec_id a) (mkTask a h)).
  { unfold keeps, desired_of. simpl. rewrite Hid, lookup_insert_eq. by intros [= ->]. }
  pose proof (mi_fresh m Hm _ _ Ht) as Hf. simpl in Hf. split.
  - apply spawns_run_kept; [done|]. exact (retain_run_aborted _ _ _ _ Ht Hk).
  - destruct (spawns_first [] a [b] (retain_tasks (desired_of [a; b]) m)) as (h' & Hh' & Hge).
    + rewrite retain_lookup, Ht. simpl. by rewrite decide_False.
    + set_solver.
    + simpl in Hge. exists h'. split; [lia|exact Hh'].
Qed.

(** ** Witnesses *)

Definition ref_in_use : io_error := mkIoError AddrInUse (Some 98) (str "Address already in use").
Definition ref_dead : io_error := mkIoError InvalidInput (Some 22) (str "Invalid argument").
Definition ref_spec : ForwardSpec := mkSpec (str "f1") 8080 (Domain (str "db.internal") 5432).
Definition ref_spec2 : ForwardSpec := mkSpec (str "f2") 9090 (Domain (str "web.internal") 80).
Definition ref_spec' : ForwardSpec := mkSpec (str "f1") 8081 (Domain (str "db.internal") 5432).

(** A forward whose port is in use, and which later gets it. *)
Definition ref_evs : list ForwardEvent :=
  [BindDone STACK_V4 (Err ref_in_use); BindDone STACK_V6 (Err ref_in_use);
   BindDone STACK_V4 (Ok tt); StackAccept STACK_V4 (Ok 7); SendDone STACK_V4; RecvDone; PermitDone;
   RelayStart 0].

Lemma ref_no_deaths : no_deaths ref_evs.
Proof. intros i. unfold ref_evs. rewrite !not_elem_of_cons. repeat split; try done. apply not_elem_of_nil. Qed.

Lemma no_deaths_take n evs : no_deaths evs -> no_deaths (take n evs).
Proof. intros Hn i Hin. apply (Hn i). rewrite <- (take_drop n evs). set_solver. Qed.

Lemma forward_status_truthful_witness :
  sh_state (run_shared (forward_run (take 2 ref_evs) (run_forward_init ref_spec)))
    = Failed (str "port 8080 is in use")
  /\ sh_state (run_shared (forward_run (take 8 ref_evs) (run_forward_init ref_spec))) = Listening
  /\ 0 <= sh_active (run_shared (forward_run (take 8 ref_evs) (run_forward_init ref_spec))) <= 128.
Proof.
  split; [reflexivity|]. split; [reflexivity|].
  exact (proj2 (proj2 (proj2 (forward_status_truthful ref_spec (take 8 ref_evs) (no_deaths_take 8 _ ref_no_deaths))))).
Defined.

Lemma forward_loses_no_connection_witness :
  along took ref_evs (run_forward_init ref_spec) = [7]
  /\ along dropped ref_evs (run_forward_init ref_spec) = [].
Proof.
  split; [reflexivity|].
  exact (proj1 (proj2 (forward_loses_no_connection ref_spec ref_evs)) ref_no_deaths).
Defined.

Lemma forward_reclaims_witness :
  FORWARD_REBIND_BASE_BACKOFF <= rebind_backoff 1 <= FORWARD_REBIND_MAX_BACKOFF.
Proof. exact (proj1 (forward_reclaims ref_spec (take 2 ref_evs) STACK_V6 (no_deaths_take 2 _ ref_no_deaths))). Defined.

Lemma apply_reconciles_witness :
  tasks (manager_apply (manager_run [ref_spec] []) [ref_spec; ref_spec2]) !! str "f1"
    = Some (mkTask ref_spec 0)
  /\ runs (manager_apply (manager_run [ref_spec] []) [ref_spec; ref_spec2]) !! 1
     = Some (run_forward_init ref_spec2).
Proof.
  split; [|vm_compute; reflexivity].
  apply (apply_reconciles [ref_spec] [] [ref_spec; ref_spec2]).
  - vm_compute. repeat constructor; set_solver.
  - vm_compute. reflexivity.
  - set_solver.
Defined.

Lemma apply_idempotent_witness :
  tasks (manager_apply (manager_apply (manager_run [] []) [ref_spec; ref_spec2]) [ref_spec; ref_spec2])
  = tasks (manager_apply (manager_run [] []) [ref_spec; ref_spec2]).
Proof.
  apply (apply_idempotent [] [] [ref_spec; ref_spec2]). vm_compute. repeat constructor; set_solver.
Defined.

Lemma duplicate_ids_restart_witness :
  runs (manager_apply (manager_run [ref_spec] []) [ref_spec; ref_spec']) !! 0 = None.
Proof.
  apply (duplicate_ids_restart [ref_spec] [] ref_spec ref_spec'); [reflexivity|done|].
  vm_compute. reflexivity.
Defined.

(** If both listener tasks die, the relay loop may see its channel closed before
    it reaps them: it then returns, and the forward is reported as listening for
    ever although nothing listens. *)
Theorem unreaped_forward_reported_listening :
  exists evs, let run := forward_run evs (run_forward_init ref_spec) in
    run_loop run = ForwardReturned /\ sh_state (run_shared run) = Listening
    /\ (forall i, listening (run_stacks run i) = false)
    /\ forall ev, forward_step ev run = None.
Proof.
  exists [BindDone STACK_V4 (Ok tt); BindDone STACK_V6 (Ok tt); StackDeath STACK_V4;
          StackDeath STACK_V6; RecvDone].
  split; [reflexivity|]. split; [reflexivity|]. split; [by intros []|]. intros ev. reflexivity.
Qed.
