(* ===== verification/PortForwards.v ===== *)
(** * Port-forward definitions ([forwards.rs])

    The forwards a user configures, the rules their fields obey, and the façade
    over the listener manager that both clients drive: it hands over the enabled
    subset, and switches off the forwards whose listeners failed. The texts of the
    validation errors are those of the code. *)

From S2P Require Import Prelude RustStr Net Stream Signaling Socks5 RoutedSet DnsForward Dial.
From S2P Require Import Blocklist Registry Server Client ClientProofs Http LocalConn Accept Forward.
From S2P Require Import ForwardProofs.

Record PortForward : Type := mkPortForward {
  pf_id : bytes;
  pf_label : bytes;
  pf_local_port : Z;
  pf_remote_host : bytes;
  pf_remote_port : Z;
  pf_enabled : bool;        (* not persisted *)
}.

(** Bare IPv6 addresses get their brackets back. *)
Definition format_host_port (host : bytes) (port : Z) : bytes :=
  if contains ":"%byte host then str "[" ++ host ++ str "]:" ++ dec port
  else host ++ str ":" ++ dec port.

Definition local_endpoint (f : PortForward) : bytes := str "localhost:" ++ dec (pf_local_port f).
Definition remote_endpoint (f : PortForward) : bytes :=
  format_host_port (pf_remote_host f) (pf_remote_port f).

Definition display_name (f : PortForward) : bytes :=
  let label := trim (pf_label f) in
  if bool_decide (label = []) then remote_endpoint f else label.

Definition pf_spec (f : PortForward) : ForwardSpec :=
  mkSpec (pf_id f) (pf_local_port f) (Domain (pf_remote_host f) (pf_remote_port f)).

Definition enabled_specs (forwards : list PortForward) : list ForwardSpec :=
  pf_spec <$> filter (fun f => pf_enabled f = true) forwards.

(** The façade: [ForwardManager::new] and [apply] of [forwards.rs]. *)
Definition forwards_new (forwards : list PortForward) : ForwardManager :=
  manager_new (enabled_specs forwards).
Definition forwards_apply (m : ForwardManager) (forwards : list PortForward) : ForwardManager :=
  manager_apply m (enabled_specs forwards).

(** ** Validation *)

(** [chars().count()]: the bytes that do not continue a character. *)
Definition char_count (s : bytes) : Z :=
  Z.of_nat (length (filter (fun b => utf8_cont b = false) s)).

Definition MAX_LABEL_LEN : Z := 64.

Definition validate_label (input : bytes) : result bytes bytes :=
  let label := trim input in
  if MAX_LABEL_LEN <? char_count label then Err (str "Label must be 64 characters or fewer")
  else Ok label.

Definition parse_port (input what : bytes) : result bytes Z :=
  ok_or (p ← parse_u16 (trim input); if bool_decide (p = 0) then None else Some p)
    (what ++ str " must be 1-65535").

Definition label_char (b : byte) : bool :=
  is_ascii_alphanumeric b || bool_decide (b = "-"%byte) || bool_decide (b = "_"%byte).

Definition check_host_label (label : bytes) : result bytes () :=
  if bool_decide (label = []) then Err (str "Remote host has an empty label — check the dots")
  else if 63 <? Z.of_nat (length label) then
    Err (str "Remote host has a label longer than 63 characters")
  else if starts_with label (str "-") || ends_with label (str "-") then
    Err (str "Remote host labels can't start or end with a hyphen")
  else if negb (forallb label_char label) then
    Err (str "Remote host may only contain letters, digits, dots, hyphens and underscores")
  else Ok tt.

Fixpoint check_host_labels (labels : list bytes) : result bytes () :=
  match labels with
  | [] => Ok tt
  | label :: labels => _ ← check_host_label label; check_host_labels labels
  end.

Definition strip_brackets (host : bytes) : option bytes :=
  h ← strip_prefix (str "[") host; strip_suffix (str "]") h.

Definition validate_remote_host (input : bytes) : result bytes bytes :=
  let host := trim input in
  if bool_decide (host = []) then Err (str "Remote host is required")
  else
  let bare := default host (strip_brackets host) in
  match ip_from_str bare with
  | Some _ => Ok bare
  | None =>
      if 253 <? Z.of_nat (length host) then
        Err (str "Remote host is too long (253 characters max)")
      else
      _ ← check_host_labels (split "."%byte host);
      Ok host
  end.

(** ** Switching off failed forwards *)

(** [iter_mut().find(..)] and the assignment: the first enabled forward with the
    id is switched off; [None] when there is none. *)
Fixpoint disable_first (id : bytes) (forwards : list PortForward) : option (list PortForward) :=
  match forwards with
  | [] => None
  | f :: fs =>
      if bool_decide (pf_id f = id) && pf_enabled f
      then Some (mkPortForward (pf_id f) (pf_label f) (pf_local_port f) (pf_remote_host f)
                   (pf_remote_port f) false :: fs)
      else fs' ← disable_first id fs; Some (f :: fs')
  end.

Fixpoint disable_failed_forwards (forwards : list PortForward) (sts : list ForwardStatus)
  : list PortForward * list (bytes * bytes) :=
  match sts with
  | [] => (forwards, [])
  | st :: sts =>
      match st_state st with
      | Failed reason =>
          match disable_first (st_id st) forwards with
          | Some fs =>
              let '(fs, disabled) := disable_failed_forwards fs sts in
              (fs, (st_id st, reason) :: disabled)
          | None => disable_failed_forwards forwards sts
          end
      | _ => disable_failed_forwards forwards sts
      end
  end.

(** ** What validation guarantees *)

Lemma split_covers c s b : b ∈ s -> b = c \/ exists w, w ∈ split c s /\ b ∈ w.
Proof.
  induction s as [|a s IH]; [set_solver|]. simpl. intros [->|Hin]%elem_of_cons.
  - destruct (decide (a = c)) as [|Hne]; [by left|]. right.
    destruct (split c s); eexists; split; try apply list_elem_of_here; set_solver.
  - destruct (IH Hin) as [->|(w & Hw & Hb)]; [by left|]. right.
    destruct (decide (a = c)) as [|Hne]; [exists w; set_solver|].
    destruct (split c s) as [|p ps]; [set_solver|].
    apply elem_of_cons in Hw as [->|Hw]; [exists (a :: p); set_solver|exists w; set_solver].
Qed.

Lemma check_host_labels_ok labels :
  check_host_labels labels = Ok tt <-> Forall (fun l => check_host_label l = Ok tt) labels.
Proof.
  induction labels as [|l ls IH]; simpl; [by split|]. rewrite Forall_cons, <- IH.
  destruct (check_host_label l) as [[]|e]; simpl; [naive_solver|]. split; [done|]. naive_solver.
Qed.

Lemma check_host_label_chars l : check_host_label l = Ok tt -> l <> [] /\ forallb label_char l = true.
Proof.
  unfold check_host_label. destruct (bool_decide_reflect (l = [])); [done|].
  destruct (_ <? _); [done|]. destruct (_ || _); [done|]. by destruct (forallb label_char l).
Qed.

(** Facts about single bytes, by running through them. *)
Lemma label_char_graphic b : label_char b = true -> graphic b = true /\ u8 b < 128 /\ b <> "["%byte.
Proof. by destruct b. Qed.

Lemma ip_char_graphic b : ip_char b = true -> graphic b = true /\ u8 b < 128 /\ b <> "["%byte.
Proof. by destruct b. Qed.

Definition host_char (b : byte) : Prop := graphic b = true /\ u8 b < 128 /\ b <> "["%byte.

Lemma valid_host_chars h : check_host_labels (split "."%byte h) = Ok tt -> Forall host_char h.
Proof.
  rewrite check_host_labels_ok, Forall_forall. intros Hl. apply Forall_forall. intros b Hb.
  destruct (split_covers "."%byte h b Hb) as [->|(w & Hw & Hbw)]; [done|].
  apply Hl, check_host_label_chars in Hw as [_ Hw]. rewrite forallb_forall in Hw.
  apply label_char_graphic, Hw. by apply list_elem_of_In.
Qed.

Lemma ip_host_chars h ip : ip_from_str h = Some ip -> Forall host_char h.
Proof.
  intros [Hc _]%ip_literal_shape. rewrite forallb_forall in Hc. apply Forall_forall. intros b Hb.
  apply ip_char_graphic, Hc. by apply list_elem_of_In.
Qed.

Lemma host_chars_trim h : Forall host_char h -> trim h = h.
Proof.
  intros Hh. apply trim_graphic, forallb_forall. intros b Hb%list_elem_of_In.
  by eapply Forall_forall in Hh as [? _].
Qed.

Lemma host_chars_bare h : Forall host_char h -> default h (strip_brackets h) = h.
Proof.
  intros Hh. unfold strip_brackets. destruct (strip_prefix (str "[") h) as [r|] eqn:Hp; [|done].
  apply strip_prefix_Some in Hp. rewrite Hp in Hh. change (str "[" ++ r) with ("["%byte :: r) in Hh.
  apply Forall_cons in Hh as [(_ & _ & Hne) _]. by destruct Hne.
Qed.

Lemma validate_remote_host_shape input h :
  validate_remote_host input = Ok h ->
  Forall host_char h /\ Z.of_nat (length h) <= 253 /\ h <> [] /\ validate_remote_host h = Ok h.
Proof.
  unfold validate_remote_host at 1. set (host := trim input).
  destruct (bool_decide_reflect (host = [])) as [|Hne]; [done|].
  destruct (ip_from_str (default host (strip_brackets host))) as [ip|] eqn:Hip.
  - revert Hip. generalize (default host (strip_brackets host)). intros bare Hip [= <-].
    pose proof (ip_host_chars _ _ Hip) as Hc.
    pose proof (ip_literal_shape _ _ Hip) as (_ & Hlen & Hnil). split_and!; [done|lia|done|].
    unfold validate_remote_host. rewrite host_chars_trim, host_chars_bare, Hip by done.
    by rewrite bool_decide_eq_false_2.
  - destruct (Z.ltb_spec 253 (Z.of_nat (length host))); [done|].
    destruct (check_host_labels (split "."%byte host)) as [[]|e] eqn:Hl; [|done].
    intros [= <-]. pose proof (valid_host_chars _ Hl) as Hc.
    split_and!; [done|lia|done|]. unfold validate_remote_host.
    rewrite host_chars_trim, bool_decide_eq_false_2, Hip by done. rewrite Hl.
    by rewrite (proj2 (Z.ltb_ge 253 (Z.of_nat (length host)))).
Qed.

(** ** Switching off *)

Definition switched_off (f : PortForward) : PortForward :=
  mkPortForward (pf_id f) (pf_label f) (pf_local_port f) (pf_remote_host f) (pf_remote_port f) false.

(** The reason a list of statuses gives for the failure of [id]. *)
Fixpoint failed_reason (id : bytes) (sts : list ForwardStatus) : option bytes :=
  match sts with
  | [] => None
  | st :: sts => match st_state st with
                 | Failed reason => if decide (st_id st = id) then Some reason else failed_reason id sts
                 | _ => failed_reason id sts
                 end
  end.

Definition switch (id : bytes) (f : PortForward) : PortForward :=
  if decide (pf_id f = id) then switched_off f else f.

Definition switch_failed (sts : list ForwardStatus) (f : PortForward) : PortForward :=
  match failed_reason (pf_id f) sts with Some _ => switched_off f | None => f end.

Lemma switched_off_id f : pf_enabled f = false -> switched_off f = f.
Proof. destruct f. simpl. by intros ->. Qed.

Lemma switch_id_id id f : pf_id (switch id f) = pf_id f.
Proof. unfold switch. by case_match. Qed.

Lemma switch_fresh id (fs : list PortForward) : (id ∉ pf_id <$> fs) -> switch id <$> fs = fs.
Proof.
  induction fs as [|f fs IH]; [done|]. rewrite fmap_cons, not_elem_of_cons. intros [Hne Hn].
  rewrite fmap_cons, IH by done. unfold switch. by rewrite decide_False.
Qed.

Lemma disable_first_Some id fs fs' :
  NoDup (pf_id <$> fs) -> disable_first id fs = Some fs' ->
  fs' = switch id <$> fs /\ exists f, f ∈ fs /\ pf_id f = id /\ pf_enabled f = true.
Proof.
  revert fs'. induction fs as [|f fs IH]; intros fs' Hd; [done|].
  rewrite fmap_cons in Hd. apply NoDup_cons in Hd as [Hn Hd]. simpl.
  destruct (bool_decide_reflect (pf_id f = id)) as [He|Hne]; simpl.
  - destruct (pf_enabled f) eqn:Hen.
    + intros [= <-]. split; [|exists f; set_solver]. unfold switch. rewrite decide_True by done.
      f_equal. symmetry. apply switch_fresh. by rewrite <- He.
    + destruct (disable_first id fs) as [fs0|] eqn:H0; simpl; [|done].
      destruct (IH fs0 Hd eq_refl) as (_ & g & Hg & Hgid & _). destruct Hn. rewrite He, <- Hgid.
      by apply list_elem_of_fmap_2.
  - destruct (disable_first id fs) as [fs0|] eqn:H0; simpl; [|done]. intros [= <-].
    destruct (IH fs0 Hd eq_refl) as (-> & g & Hg & Hgid & Hge). split; [|exists g; set_solver].
    unfold switch at 2. by rewrite decide_False.
Qed.

Lemma disable_first_None id fs f :
  disable_first id fs = None -> f ∈ fs -> pf_id f = id -> pf_enabled f = false.
Proof.
  induction fs as [|g fs IH]; [set_solver|]. simpl.
  destruct (bool_decide_reflect (pf_id g = id)) as [He|Hne], (pf_enabled g) eqn:Hen; simpl; try done;
    (destruct (disable_first id fs); [done|]); intros _ [->|Hin]%elem_of_cons Hid; naive_solver.
Qed.

Lemma switch_None id fs : disable_first id fs = None -> switch id <$> fs = fs.
Proof.
  intros Hd. rewrite <- (list_fmap_id fs) at 2. apply list_fmap_ext. intros i f Hf.
  apply list_elem_of_lookup_2 in Hf. unfold switch. destruct (decide (pf_id f = id)); [|done].
  by apply switched_off_id, (disable_first_None id fs).
Qed.

Lemma failed_reason_fresh id sts : (id ∉ st_id <$> sts) -> failed_reason id sts = None.
Proof.
  induction sts as [|st sts IH]; [done|]. rewrite fmap_cons, not_elem_of_cons. intros [Hne Hn]. simpl.
  destruct (st_state st); try by apply IH. by rewrite decide_False by congruence; apply IH.
Qed.

(** One status more: its forward first, then those of the others. *)
Lemma switch_failed_cons st reason sts f :
  st_state st = Failed reason ->
  switch_failed (st :: sts) f = switch_failed sts (switch (st_id st) f).
Proof.
  intros Hs. unfold switch_failed, switch. simpl. rewrite Hs.
  destruct (decide (st_id st = pf_id f)) as [He|Hne].
  - rewrite decide_True by done. simpl. by case_match.
  - by rewrite decide_False by congruence.
Qed.

Lemma disable_failed_forwards_fst fs sts :
  NoDup (pf_id <$> fs) -> (disable_failed_forwards fs sts).1 = switch_failed sts <$> fs.
Proof.
  revert fs. induction sts as [|st sts IH]; intros fs Hd; simpl; [by rewrite list_fmap_id|].
  destruct (st_state st) as [| |reason] eqn:Hs.
  1-2: rewrite IH by done; apply list_fmap_ext; intros i f _; unfold switch_failed; simpl; by rewrite Hs.
  assert (Hall : switch_failed (st :: sts) <$> fs = switch_failed sts <$> (switch (st_id st) <$> fs)).
  { rewrite <- list_fmap_compose. apply list_fmap_ext. intros i f _. by eapply switch_failed_cons. }
  rewrite Hall. destruct (disable_first (st_id st) fs) as [fs'|] eqn:H0.
  - apply disable_first_Some in H0 as [-> _]; [|done].
    destruct (disable_failed_forwards _ sts) as [fs2 d] eqn:H2. simpl.
    rewrite <- IH; [by rewrite H2|]. rewrite <- list_fmap_compose.
    rewrite (list_fmap_ext _ pf_id); [done|]. intros i f _. apply switch_id_id.
  - rewrite switch_None by done. by apply IH.
Qed.

Lemma enabled_switch id f (fs : list PortForward) :
  f ∈ switch id <$> fs /\ pf_enabled f = true <-> f ∈ fs /\ pf_enabled f = true /\ pf_id f <> id.
Proof.
  rewrite list_elem_of_fmap. split.
  - intros [(g & -> & Hg) He]. revert He. unfold switch. by destruct (decide (pf_id g = id)).
  - intros (Hf & He & Hne). split; [|done]. exists f. unfold switch. by rewrite decide_False.
Qed.

Lemma disabled_reasons fs sts id reason :
  NoDup (pf_id <$> fs) ->
  (id, reason) ∈ (disable_failed_forwards fs sts).2 <->
  exists f, (f ∈ fs /\ pf_enabled f = true) /\ pf_id f = id /\ failed_reason id sts = Some reason.
Proof.
  revert fs. induction sts as [|st sts IH]; intros fs Hd; simpl; [set_solver|].
  destruct (st_state st) as [| |r0] eqn:Hs; [by apply IH..|].
  destruct (disable_first (st_id st) fs) as [fs'|] eqn:H0.
  - pose proof (disable_first_Some _ _ _ Hd H0) as (-> & g & Hg & Hgid & Hge).
    destruct (disable_failed_forwards _ sts) as [fs2 d] eqn:H2. simpl.
    assert (Hd' : NoDup (pf_id <$> (switch (st_id st) <$> fs))).
    { rewrite <- list_fmap_compose. rewrite (list_fmap_ext _ pf_id); [done|]. intros i f _.
      apply switch_id_id. }
    specialize (IH _ Hd'). rewrite H2 in IH. simpl in IH. rewrite elem_of_cons, IH.
    setoid_rewrite enabled_switch. destruct (decide (st_id st = id)) as [<-|Hne].
    + split; [intros [[= ->]|Hf]; [by exists g|naive_solver]|].
      intros (f & _ & _ & [= ->]). by left.
    + split; [intros [[= -> ->]|Hf]; [done|naive_solver]|]. intros (f & Hf & Hid & Hr). right.
      exists f. naive_solver.
  - rewrite (IH _ Hd). split; intros (f & [Hf He] & Hid & Hr); exists f.
    + destruct (decide (st_id st = id)) as [<-|]; [|done].
      by rewrite (disable_first_None _ _ f H0 Hf Hid) in He.
    + destruct (decide (st_id st = id)) as [<-|]; [|done].
      by rewrite (disable_first_None _ _ f H0 Hf Hid) in He.
Qed.

(** ** Statuses of the manager *)

Lemma statuses_elem m st :
  mgr_inv m ->
  st ∈ statuses m <-> exists t run, tasks m !! st_id st = Some t /\ runs m !! task_handle t = Some run
    /\ st = mkStatus (st_id st) (sh_state (run_shared run)) (sh_active (run_shared run))
              (sh_last_conn_error (run_shared run)).
Proof.
  intros Hm. unfold statuses. rewrite list_elem_of_omap. split.
  - intros ([id t] & Hin & Hst). apply elem_of_map_to_list in Hin. unfold status_of in Hst.
    destruct (runs m !! task_handle t) as [run|] eqn:Hr; simpl in Hst; [|done].
    apply (inj Some) in Hst as <-. simpl. eauto.
  - intros (t & run & Ht & Hr & Hst). exists (st_id st, t). split; [by apply elem_of_map_to_list|].
    unfold status_of. rewrite Hr. simpl. by rewrite <- Hst.
Qed.

Lemma failed_reason_elem id sts reason :
  failed_reason id sts = Some reason ->
  exists st, st ∈ sts /\ st_id st = id /\ st_state st = Failed reason.
Proof.
  induction sts as [|st sts IH]; [done|]. simpl.
  destruct (st_state st) as [| |r] eqn:Hs; try (intros H; destruct (IH H) as (st' & ? & ?); exists st'; set_solver).
  destruct (decide (st_id st = id)).
  - intros [= ->]. exists st. set_solver.
  - intros H. destruct (IH H) as (st' & ? & ?); exists st'; set_solver.
Qed.

Lemma elem_failed_reason st sts reason :
  st ∈ sts -> st_state st = Failed reason -> is_Some (failed_reason (st_id st) sts).
Proof.
  induction sts as [|s sts IH]; [set_solver|]. simpl. intros [->|Hin]%elem_of_cons Hs.
  - rewrite Hs. by rewrite decide_True.
  - destruct (st_state s); try by apply IH. case_decide; [done|]. by apply IH.
Qed.

(** The failure the manager reports for an id is that of the id's run. *)
Lemma failed_reason_run m id t run :
  mgr_inv m -> tasks m !! id = Some t -> runs m !! task_handle t = Some run ->
  forall reason, failed_reason id (statuses m) = Some reason <-> sh_state (run_shared run) = Failed reason.
Proof.
  intros Hm Ht Hr.
  assert (Hto : forall r, failed_reason id (statuses m) = Some r -> sh_state (run_shared run) = Failed r).
  { intros r (st & Hin & Hid & Hs)%failed_reason_elem. apply statuses_elem in Hin; [|done].
    destruct Hin as (t' & run' & Ht' & Hr' & Hst). rewrite Hid in Ht'. simplify_eq.
    rewrite Hst in Hs. done. }
  intros reason. split; [apply Hto|]. intros Hs.
  set (st := mkStatus id (sh_state (run_shared run)) (sh_active (run_shared run))
               (sh_last_conn_error (run_shared run))).
  assert (Hin : st ∈ statuses m) by (apply statuses_elem; [done|]; exists t, run; done).
  destruct (elem_failed_reason st (statuses m) reason Hin Hs) as [r Hr']. simpl in Hr'.
  rewrite Hr'. apply Hto in Hr'. congruence.
Qed.

Lemma enabled_specs_elem s fs :
  s ∈ enabled_specs fs <-> exists f, f ∈ fs /\ pf_enabled f = true /\ pf_spec f = s.
Proof.
  unfold enabled_specs. rewrite list_elem_of_fmap. setoid_rewrite list_elem_of_filter. naive_solver.
Qed.

Lemma enabled_specs_NoDup fs : NoDup (pf_id <$> fs) -> NoDup (spec_id <$> enabled_specs fs).
Proof.
  unfold enabled_specs. rewrite <- list_fmap_compose. change (spec_id ∘ pf_spec) with pf_id.
  intros Hd. eapply sublist_NoDup; [exact Hd|]. apply fmap_sublist, sublist_filter.
Qed.

Lemma switch_failed_id sts f : pf_id (switch_failed sts f) = pf_id f.
Proof. unfold switch_failed. by case_match. Qed.

Lemma switch_failed_NoDup sts fs :
  NoDup (pf_id <$> fs) -> NoDup (pf_id <$> (switch_failed sts <$> fs)).
Proof.
  intros Hd. rewrite <- list_fmap_compose. rewrite (list_fmap_ext _ pf_id); [done|]. intros i f _.
  apply switch_failed_id.
Qed.

Lemma failed_not_wanted m fs id t reason :
  mgr_inv m -> tasks m !! id = Some t -> failed_reason id (statuses m) = Some reason ->
  task_spec t ∉ enabled_specs (switch_failed (statuses m) <$> fs).
Proof.
  intros Hm Ht Hr (f' & Hf' & He & Hsp)%enabled_specs_elem.
  apply list_elem_of_fmap in Hf' as (f & -> & Hf).
  assert (Hid : pf_id f = id) by (rewrite <- (mi_id m Hm _ _ Ht), <- Hsp; by rewrite <- (switch_failed_id (statuses m))).
  unfold switch_failed in He. by rewrite Hid, Hr in He.
Qed.

Lemma healthy_still_wanted m fs id t :
  mgr_inv m -> tasks m !! id = Some t -> failed_reason id (statuses m) = None ->
  task_spec t ∈ enabled_specs fs -> task_spec t ∈ enabled_specs (switch_failed (statuses m) <$> fs).
Proof.
  intros Hm Ht Hr (f & Hf & He & Hsp)%enabled_specs_elem. apply enabled_specs_elem.
  assert (Hid : pf_id f = id) by (by rewrite <- (mi_id m Hm _ _ Ht), <- Hsp).
  exists f. split; [|done]. apply list_elem_of_fmap. exists f. split; [|done].
  unfold switch_failed. by rewrite Hid, Hr.
Qed.

(** One round of the clients' reaction to failed listeners, for forwards with
    distinct ids and a manager in any reachable state: a forward whose two
    listeners are down is switched off, its reason is reported and its tasks are
    stopped; every other forward keeps its setting, and one that still runs as
    configured keeps the very same task, untouched. *)
Theorem failed_forwards_switched_off wanted0 evs fs :
  let m := manager_run wanted0 evs in
  let fs' := (disable_failed_forwards fs (statuses m)).1 in
  let disabled := (disable_failed_forwards fs (statuses m)).2 in
  let m' := forwards_apply m fs' in
  NoDup (pf_id <$> fs) ->
  fs' = switch_failed (statuses m) <$> fs
  /\ forall id t run, tasks m !! id = Some t -> runs m !! task_handle t = Some run ->
     match sh_state (run_shared run) with
     | Failed reason =>
         runs m' !! task_handle t = None
         /\ (forall f, f ∈ fs -> pf_id f = id -> pf_enabled f = true -> (id, reason) ∈ disabled)
     | _ => (forall reason, (id, reason) ∉ disabled)
         /\ (task_spec t ∈ enabled_specs fs ->
             tasks m' !! id = Some t /\ runs m' !! task_handle t = Some run)
     end.
Proof.
  intros m fs' disabled m' Hd. pose proof (manager_run_inv wanted0 evs) as Hm. fold m in Hm.
  assert (Hfs : fs' = switch_failed (statuses m) <$> fs) by (by apply disable_failed_forwards_fst).
  split; [exact Hfs|]. intros id t run Ht Hr.
  pose proof (failed_reason_run m id t run Hm Ht Hr) as Hfr.
  assert (Hok : (forall r, sh_state (run_shared run) <> Failed r) ->
    (forall r, (id, r) ∉ disabled) /\ (task_spec t ∈ enabled_specs fs ->
      tasks m' !! id = Some t /\ runs m' !! task_handle t = Some run)).
  { intros Hn. assert (Hnone : failed_reason id (statuses m) = None).
    { apply eq_None_not_Some. intros [r He]. by apply Hfr, Hn in He. }
    split; [intros r (f & _ & _ & Hx)%disabled_reasons; [congruence|done]|]. intros Hin.
    rewrite <- Hr. unfold m', forwards_apply. rewrite Hfs. apply apply_run_kept; [done| |done|].
    - by apply enabled_specs_NoDup, switch_failed_NoDup.
    - by apply (healthy_still_wanted m fs id). }
  destruct (sh_state (run_shared run)) as [| |reason] eqn:Hs; [by apply Hok..|].
  assert (Hrs : failed_reason id (statuses m) = Some reason) by (by apply Hfr). split.
  - unfold m', forwards_apply. rewrite Hfs. apply (apply_run_aborted m _ id t); [done..|].
    by eapply failed_not_wanted.
  - intros f Hf Hid He. apply disabled_reasons; [done|]. eauto.
Qed.

(** A remote host and a port that the input rules accept make a forward the
    wire can carry: validating the stored host again gives the same host, the
    request for it can always be encoded, and the server decodes exactly the
    configured host and port. *)
Theorem validated_forward_encodable input text what host port f s r rest :
  validate_remote_host input = Ok host -> parse_port text what = Ok port ->
  pf_remote_host f = host -> pf_remote_port f = port -> tx_err s = None ->
  validate_remote_host host = Ok host /\ 1 <= port <= 65535
  /\ exists frame,
       write_request (spec_target (pf_spec f)) s = (Ok tt, with_tx s (tx s ++ frame))
       /\ (rx r = frame ++ rest ->
           Signaling.read_request r = (Ok (Domain host port), with_rx r rest)).
Proof.
  intros Hh Hp Hfh Hfp Htx. apply validate_remote_host_shape in Hh as (Hc & Hlen & _ & Hidem).
  unfold parse_port in Hp. destruct (parse_u16 (trim text)) as [p|] eqn:Hpp; [|done]. simpl in Hp.
  destruct (bool_decide_reflect (p = 0)); [done|]. cbn in Hp. injection Hp as <-.
  apply parse_u16_range in Hpp. split; [done|]. split; [lia|].
  assert (Hwf : wf_target (Domain host p)).
  { split; [|unfold wf_u16; lia]. apply utf8_valid_ascii. eapply Forall_impl; [exact Hc|].
    by intros b (_ & Hb & _). }
  unfold pf_spec. cbn [spec_target]. rewrite Hfh, Hfp. exists (request_frame (Domain host p)).
  split; [apply write_request_frame; simpl; [lia|done]|].
  intros Hr. by rewrite (read_request_frame (Domain host p) rest r); [|done|simpl; lia|done].
Qed.

(** ** Examples and witnesses *)

Definition ref_forward : PortForward :=
  mkPortForward (str "f1") [] 8080 (str "db.internal") 5432 true.

(** [Failed] is not only a failure to set up: a forward that listened and whose two
    listeners die in mid-session is reported as failed until one of them is bound
    again, and a client that polls it in between switches it off although the very
    next bind would have brought it back. *)
Theorem running_forward_switched_off :
  exists h evs, let m := manager_run [pf_spec ref_forward] (TaskEvent h <$> evs) in
    exists before run run', before `prefix_of` evs
    /\ runs (manager_run [pf_spec ref_forward] (TaskEvent h <$> before)) !! h = Some run
    /\ sh_state (run_shared run) = Listening
    /\ pf_enabled <$> (disable_failed_forwards [ref_forward] (statuses m)).1 = [false]
    /\ forward_run [BindDone STACK_V4 (Ok tt)] (default run (runs m !! h)) = run'
    /\ sh_state (run_shared run') = Listening.
Proof.
  exists 0, [BindDone STACK_V4 (Ok tt); BindDone STACK_V6 (Ok tt);
             StackAccept STACK_V4 (Err ref_dead); StackAccept STACK_V6 (Err ref_dead)]. intros m.
  exists [BindDone STACK_V4 (Ok tt); BindDone STACK_V6 (Ok tt)].
  eexists. eexists. split; [by eexists|]. split; [vm_compute; reflexivity|].
  split; [reflexivity|]. split; [vm_compute; reflexivity|]. split; reflexivity.
Qed.

Lemma failed_forwards_switched_off_witness :
  (disable_failed_forwards [ref_forward]
     (statuses (manager_run [pf_spec ref_forward] (TaskEvent 0 <$> take 2 ref_evs)))).1
  = [switched_off ref_forward]
  /\ runs (forwards_apply (manager_run [pf_spec ref_forward] (TaskEvent 0 <$> take 2 ref_evs))
       (disable_failed_forwards [ref_forward]
         (statuses (manager_run [pf_spec ref_forward] (TaskEvent 0 <$> take 2 ref_evs)))).1) !! 0
     = None.
Proof.
  destruct (failed_forwards_switched_off [pf_spec ref_forward] (TaskEvent 0 <$> take 2 ref_evs)
              [ref_forward]) as [_ Hall].
  - vm_compute. repeat constructor; set_solver.
  - split; [vm_compute; reflexivity|].
    exact (proj1 (Hall (str "f1") (mkTask (pf_spec ref_forward) 0)
      (forward_run (take 2 ref_evs) (run_forward_init (pf_spec ref_forward)))
      ltac:(vm_compute; reflexivity) ltac:(vm_compute; reflexivity))).
Defined.

Lemma validated_forward_encodable_witness :
  validate_remote_host (str "db.internal") = Ok (str "db.internal") /\ 1 <= 5432 <= 65535.
Proof.
  destruct (validated_forward_encodable (str " db.internal ") (str "5432") (str "Remote port")
    (str "db.internal") 5432 ref_forward (open_stream []) (open_stream []) []) as (Hv & Hp & _);
    [vm_compute; reflexivity..|]. exact (conj Hv Hp).
Defined.
