(* ===== verification/Config.v ===== *)
(** * Configuration files ([config.rs])

    The TOML schemas, locating and loading a file, and the merge of command line,
    file and defaults into the settings a server or client starts from. A
    [HashMap] is the list of its entries in iteration order, which the theorems
    leave arbitrary; [toml] is a parameter, as are the home directory and the file
    system. Paths are UTF-8, so that [to_string_lossy] is the identity. *)

From S2P Require Import Prelude RustStr Net Stream Signaling RoutedSet DnsForward Blocklist Registry.
From S2P Require Import Server ServerProofs ServerStream ServerStreamProofs Startup.

(** ** Schemas *)

Record ServerConfig : Type := mkServerConfig {
  sc_secret_file : option bytes;
  sc_authorized_keys_file : option bytes;
  sc_relay_urls : option (list bytes);
  sc_relay_auth_token : option bytes;
  sc_host_aliases : option (list (bytes * bytes));
  sc_routed_domains : option (list bytes);
  sc_routed_cidrs : option (list bytes);
  sc_dns_forwards : option (list (bytes * list bytes));
  sc_bridges : option (list (bytes * BridgeConfig));
  sc_allowed_bridge_servers : option (list bytes);
}.

Definition ServerConfig_default : ServerConfig :=
  mkServerConfig None None None None None None None None None None.

Record ForwardConfig : Type := mkForwardConfig {
  fc_label : bytes;
  fc_local_port : Z;
  fc_remote_host : bytes;
  fc_remote_port : Z;
}.

Record ClientConfig : Type := mkClientConfig {
  cc_server_node_id : option bytes;
  cc_name : option bytes;
  cc_socks_port : option Z;
  cc_http_port : option Z;
  cc_auth_key : option bytes;
  cc_auth_key_file : option bytes;
  cc_relay_urls : option (list bytes);
  cc_relay_auth_token : option bytes;
  cc_auto_reconnect : option bool;
  cc_max_reconnect_attempts : option Z;
  cc_forwards : option (list ForwardConfig);
}.

Definition ClientConfig_default : ClientConfig :=
  mkClientConfig None None None None None None None None None None None.

Record ResolvedServer : Type := mkResolvedServer {
  sv_secret_file : option bytes;
  sv_authorized_keys_file : option bytes;
  sv_relay_urls : list bytes;
  sv_relay_auth_token : option bytes;
  sv_host_aliases : list (bytes * bytes);
  sv_routed_domains : list bytes;
  sv_routed_cidrs : list bytes;
  sv_dns_forwards : list (bytes * list bytes);
  sv_bridges : list (bytes * BridgeConfig);
  sv_allowed_bridge_servers : list bytes;
  sv_blocklist_file : bytes;
}.

Record ResolvedClient : Type := mkResolvedClient {
  rc_server_node_id : option bytes;
  rc_name : option bytes;
  rc_socks_port : option Z;
  rc_http_port : option Z;
  rc_auth_key : option bytes;
  rc_auth_key_file : option bytes;
  rc_relay_urls : list bytes;
  rc_relay_auth_token : option bytes;
  rc_auto_reconnect : bool;
  rc_max_reconnect_attempts : option Z;
  rc_forwards : list ForwardConfig;
}.

Inductive ConfigError : Type :=
| NoDefaultDir
| ReadFailed (path : bytes) (e : io_error)
| ParseFailed (path : bytes) (why : bytes)
| DuplicateKey (what key : bytes)
| BadWildcard (what key : bytes)
| BadName (what key : bytes)
| ReservedAlias (key : bytes)
| BridgeNoRules (name : bytes)
| BridgesSameId (other name : bytes)
| NoHomeDir.

(** ** Paths *)

(** [Path::join] on Unix. *)
Definition path_join (base rest : bytes) : bytes :=
  if starts_with rest (str "/") then rest
  else if bool_decide (base = []) || ends_with base (str "/") then base ++ rest
  else base ++ str "/" ++ rest.

(** What the machine provides: the home directory, files, the TOML parser. *)
Class ConfigEnv := {
  home_dir : option bytes;
  read_to_string : bytes -> result io_error bytes;
  path_exists : bytes -> bool;
  toml_server : bytes -> result bytes ServerConfig;
  toml_client : bytes -> result bytes ClientConfig;
}.

Section config.
Context {CE : ConfigEnv}.

Definition expand_tilde (path : bytes) : bytes :=
  match strip_prefix (str "~/") path with
  | Some rest => match home_dir with Some home => path_join home rest | None => path end
  | None => if bool_decide (path = str "~") then default path home_dir else path
  end.

Definition default_config_path (file_name : bytes) : option bytes :=
  home ← home_dir;
  Some (path_join (path_join (path_join home (str ".config")) (str "flextunnel")) file_name).

Definition default_client_config_path : option bytes := default_config_path (str "client.toml").

Definition default_blocklist_path : option bytes :=
  home ← home_dir;
  Some (path_join (path_join (path_join home (str ".config")) (str "flextunnel"))
          (str "blocklist.json")).

Definition load_config {T} (from_str : bytes -> result bytes T) (path : bytes)
  : result ConfigError T :=
  content ← map_err (ReadFailed path) (read_to_string path);
  map_err (ParseFailed path) (from_str content).

Definition resolve_config_path (path : option bytes) (default_config : bool) (default_name : bytes)
  : result ConfigError (option bytes) :=
  match path with
  | Some p => Ok (Some (expand_tilde p))
  | None => if default_config
            then p ← ok_or (default_config_path default_name) NoDefaultDir; Ok (Some p)
            else Ok None
  end.

Definition load_server_config (path : option bytes) (default_config : bool)
  : result ConfigError (option ServerConfig) :=
  p ← resolve_config_path path default_config (str "server.toml");
  match p with
  | Some p => cfg ← load_config toml_server p; Ok (Some cfg)
  | None => Ok None
  end.

Definition load_client_config (path : option bytes) : result ConfigError (option ClientConfig) :=
  match path with
  | Some p => cfg ← load_config toml_client (expand_tilde p); Ok (Some cfg)
  | None =>
      match default_client_config_path with
      | Some p => if path_exists p then cfg ← load_config toml_client p; Ok (Some cfg) else Ok None
      | None => Ok None
      end
  end.

(** ** Merging *)

(** [Option::or]. *)
Definition opt_or {A} (a b : option A) : option A := match a with Some x => Some x | None => b end.

Fixpoint collect_from {V} (what : bytes) (out entries : list (bytes * V))
  : result ConfigError (list (bytes * V)) :=
  match entries with
  | [] => Ok out
  | (k, v) :: entries =>
      let key := to_ascii_lowercase k in
      if bool_decide (key ∈ out.*1) then Err (DuplicateKey what key)
      else collect_from what (out ++ [(key, v)]) entries
  end.

Definition collect_lowercased {V} (entries : list (bytes * V)) (what : bytes)
  : result ConfigError (list (bytes * V)) := collect_from what [] entries.

Definition validate_alias_key (key what : bytes) : result ConfigError () :=
  match strip_prefix (str "*.") key with
  | Some suffix =>
      if contains x2a suffix || existsb (fun l => bool_decide (l = [])) (split x2e suffix)
      then Err (BadWildcard what key) else Ok tt
  | None => if bool_decide (key = []) || contains x2a key then Err (BadName what key) else Ok tt
  end.

Fixpoint check_each {A} (f : A -> result ConfigError ()) (l : list A) : result ConfigError () :=
  match l with
  | [] => Ok tt
  | x :: l => _ ← f x; check_each f l
  end.

Definition check_not_reserved (key : bytes) : result ConfigError () :=
  if is_reserved_host key then Err (ReservedAlias key) else Ok tt.

(** The bridges in name order; [seen] maps an endpoint id to the name that uses it. *)
Fixpoint check_bridges (seen : gmap bytes bytes) (bs : list (bytes * BridgeConfig))
  : result ConfigError () :=
  match bs with
  | [] => Ok tt
  | (name, b) :: bs =>
      if bool_decide (bridge_domains b = []) && bool_decide (bridge_cidrs b = [])
      then Err (BridgeNoRules name)
      else match seen !! endpoint_id b with
           | Some other => Err (BridgesSameId other name)
           | None => check_bridges (<[endpoint_id b := name]> seen) bs
           end
  end.

Definition name_le (a b : bytes * BridgeConfig) : bool := bytes_le a.1 b.1.

Definition resolve_server (cli : ServerConfig) (file : option ServerConfig)
  : result ConfigError ResolvedServer :=
  let file := default ServerConfig_default file in
  aliases ← collect_lowercased (default [] (opt_or (sc_host_aliases cli) (sc_host_aliases file)))
              (str "host_aliases");
  forwards ← collect_lowercased (default [] (opt_or (sc_dns_forwards cli) (sc_dns_forwards file)))
               (str "dns_forwards");
  _ ← check_each (fun key => validate_alias_key key (str "host_aliases")) aliases.*1;
  _ ← check_each check_not_reserved aliases.*1;
  let bridges := default [] (opt_or (sc_bridges cli) (sc_bridges file)) in
  _ ← check_bridges ∅ (isort name_le bridges);
  blocklist ← ok_or default_blocklist_path NoHomeDir;
  Ok (mkResolvedServer
        (expand_tilde <$> opt_or (sc_secret_file cli) (sc_secret_file file))
        (expand_tilde <$> opt_or (sc_authorized_keys_file cli) (sc_authorized_keys_file file))
        (default [] (opt_or (sc_relay_urls cli) (sc_relay_urls file)))
        (opt_or (sc_relay_auth_token cli) (sc_relay_auth_token file))
        aliases
        (default [] (opt_or (sc_routed_domains cli) (sc_routed_domains file)))
        (default [] (opt_or (sc_routed_cidrs cli) (sc_routed_cidrs file)))
        forwards bridges
        (default [] (opt_or (sc_allowed_bridge_servers cli) (sc_allowed_bridge_servers file)))
        blocklist).

Definition resolve_client (cli : ClientConfig) (file : option ClientConfig) : ResolvedClient :=
  let file := default ClientConfig_default file in
  let '(key, key_file) :=
    if bool_decide (is_Some (cc_auth_key cli)) || bool_decide (is_Some (cc_auth_key_file cli))
    then (cc_auth_key cli, cc_auth_key_file cli)
    else (None, cc_auth_key_file file) in
  mkResolvedClient
    (opt_or (cc_server_node_id cli) (cc_server_node_id file))
    (opt_or (cc_name cli) (cc_name file))
    (opt_or (cc_socks_port cli) (cc_socks_port file))
    (opt_or (cc_http_port cli) (cc_http_port file))
    key (expand_tilde <$> key_file)
    (default [] (opt_or (cc_relay_urls cli) (cc_relay_urls file)))
    (opt_or (cc_relay_auth_token cli) (cc_relay_auth_token file))
    (default true (opt_or (cc_auto_reconnect cli) (cc_auto_reconnect file)))
    (opt_or (cc_max_reconnect_attempts cli) (cc_max_reconnect_attempts file))
    (default [] (opt_or (cc_forwards cli) (cc_forwards file))).

(** ** What the checks establish *)

Definition lower_entry {V} (e : bytes * V) : bytes * V := (to_ascii_lowercase e.1, e.2).

Lemma collect_from_Ok {V} what (entries out r : list (bytes * V)) :
  NoDup out.*1 ->
  collect_from what out entries = Ok r
  <-> r = out ++ (lower_entry <$> entries) /\ NoDup (out ++ (lower_entry <$> entries)).*1.
Proof.
  revert out. induction entries as [|[k v] entries IH]; intros out Hout; simpl.
  - rewrite app_nil_r. naive_solver.
  - destruct (bool_decide_reflect (to_ascii_lowercase k ∈ out.*1)) as [Hin|Hin].
    + split; [done|]. intros [_ Hd]. rewrite fmap_app, NoDup_app in Hd.
      destruct Hd as (_ & Hd & _). destruct (Hd _ Hin). set_solver.
    + rewrite IH.
      * by rewrite <- !app_assoc.
      * rewrite fmap_app, NoDup_app. split_and!; [done|set_solver|]. simpl. apply NoDup_singleton.
Qed.

Lemma collect_Ok {V} what (entries r : list (bytes * V)) :
  collect_lowercased entries what = Ok r
  <-> r = lower_entry <$> entries /\ NoDup (lower_entry <$> entries).*1.
Proof. unfold collect_lowercased. rewrite collect_from_Ok; [done|constructor]. Qed.

Lemma lower_keys {V} (entries : list (bytes * V)) k :
  k ∈ (lower_entry <$> entries).*1 -> to_ascii_lowercase k = k.
Proof.
  rewrite <- list_fmap_compose. intros (e & -> & _)%list_elem_of_fmap. simpl.
  apply to_ascii_lowercase_idem.
Qed.

Lemma check_each_Ok {A} (f : A -> result ConfigError ()) l :
  check_each f l = Ok tt <-> Forall (fun x => f x = Ok tt) l.
Proof.
  induction l as [|x l IH]; simpl; [by split|]. rewrite Forall_cons, <- IH.
  destruct (f x) as [[]|e]; simpl; naive_solver.
Qed.

Definition has_rules (b : BridgeConfig) : Prop := bridge_domains b <> [] \/ bridge_cidrs b <> [].

Lemma check_bridges_Ok seen bs :
  check_bridges seen bs = Ok tt <->
  Forall (fun nb => has_rules nb.2) bs /\ NoDup (endpoint_id <$> bs.*2)
  /\ (forall i, i ∈ endpoint_id <$> bs.*2 -> seen !! i = None).
Proof.
  revert seen. induction bs as [|[name b] bs IH]; intros seen; simpl.
  { split; [|done]. intros _. split_and!; [constructor|constructor|set_solver]. }
  rewrite Forall_cons, NoDup_cons. simpl. unfold has_rules at 1.
  destruct (bool_decide_reflect (bridge_domains b = [])), (bool_decide_reflect (bridge_cidrs b = []));
    simpl; try (split; [done|]; intros ([[|] _] & _); done).
  all: destruct (seen !! endpoint_id b) as [other|] eqn:Hs;
    [split; [done|]; intros (_ & _ & Hn); rewrite Hn in Hs by set_solver; done|].
  all: rewrite IH; split; intros (Hr & Hd & Hn).
  all: try (split_and!; [auto|done| |done|]; [intros Hin; specialize (Hn _ Hin);
      by rewrite lookup_insert_eq in Hn|]; intros i [->|Hi]%elem_of_cons; [done|];
      specialize (Hn i Hi); apply lookup_insert_None in Hn; naive_solver).
  all: destruct Hr as [_ Hr], Hd as [Hd Hd']; split_and!; [done..|];
    intros i Hi; apply lookup_insert_None; split; [apply Hn; set_solver|]; intros <-; done.
Qed.

(** An alias key is an exact name, or one leading wildcard label before a suffix
    with no empty label. *)
Definition alias_pattern (key : bytes) : Prop :=
  (key <> [] /\ x2a ∉ key)
  \/ exists suffix, key = str "*." ++ suffix /\ (x2a ∉ suffix) /\ ([] ∉ split x2e suffix).

Lemma validate_alias_key_Ok key what :
  validate_alias_key key what = Ok tt -> alias_pattern key.
Proof.
  unfold validate_alias_key, alias_pattern. destruct (strip_prefix (str "*.") key) as [s|] eqn:Hp.
  - apply strip_prefix_Some in Hp. destruct (contains x2a s) eqn:Hc; [done|].
    destruct (existsb _ _) eqn:He; [done|]. intros _. right. exists s. split; [done|].
    split; [by apply contains_false|]. intros Hin.
    assert (Ht : existsb (fun l => bool_decide (l = [])) (split x2e s) = true).
    { apply existsb_exists. exists []. split; [by apply list_elem_of_In|done]. }
    congruence.
  - destruct (bool_decide_reflect (key = [])); [done|]. destruct (contains x2a key) eqn:Hc; [done|].
    intros _. left. split; [done|]. by apply contains_false.
Qed.

(** The map-valued settings of a merge. *)
Definition merged_aliases (cli : ServerConfig) (file : option ServerConfig) :=
  default [] (opt_or (sc_host_aliases cli) (sc_host_aliases (default ServerConfig_default file))).
Definition merged_dns (cli : ServerConfig) (file : option ServerConfig) :=
  default [] (opt_or (sc_dns_forwards cli) (sc_dns_forwards (default ServerConfig_default file))).
Definition merged_bridges (cli : ServerConfig) (file : option ServerConfig) :=
  default [] (opt_or (sc_bridges cli) (sc_bridges (default ServerConfig_default file))).

(** What the checks demand of them. *)
Definition resolvable (aliases : list (bytes * bytes)) (dns : list (bytes * list bytes))
    (bridges : list (bytes * BridgeConfig)) : Prop :=
  NoDup (lower_entry <$> aliases).*1 /\ NoDup (lower_entry <$> dns).*1
  /\ Forall (fun k => validate_alias_key k (str "host_aliases") = Ok tt) (lower_entry <$> aliases).*1
  /\ Forall (fun k => check_not_reserved k = Ok tt) (lower_entry <$> aliases).*1
  /\ Forall (fun nb => has_rules nb.2) bridges /\ NoDup (endpoint_id <$> bridges.*2).

#[export] Instance resolvable_proper : Proper ((≡ₚ) ==> (≡ₚ) ==> (≡ₚ) ==> iff) resolvable.
Proof.
  intros a a' Ha d d' Hd b b' Hb. unfold resolvable. by rewrite Ha, Hd, Hb.
Qed.

(** [resolve_server] succeeds exactly on resolvable maps with a known home. *)
Lemma resolve_server_Ok cli file :
  is_ok (resolve_server cli file) = true <->
  resolvable (merged_aliases cli file) (merged_dns cli file) (merged_bridges cli file)
  /\ is_Some home_dir.
Proof.
  unfold resolve_server, resolvable, merged_aliases, merged_dns, merged_bridges.
  set (al := default [] (opt_or (sc_host_aliases cli) _)).
  set (dn := default [] (opt_or (sc_dns_forwards cli) _)).
  set (br := default [] (opt_or (sc_bridges cli) _)).
  assert (Hbr : check_bridges ∅ (isort name_le br) = Ok tt <->
    Forall (fun nb => has_rules nb.2) br /\ NoDup (endpoint_id <$> br.*2)).
  { rewrite check_bridges_Ok, (isort_perm name_le br). naive_solver. }
  pose proof (collect_Ok (str "host_aliases") al (lower_entry <$> al)) as Ha.
  pose proof (collect_Ok (str "dns_forwards") dn (lower_entry <$> dn)) as Hd.
  rewrite <- Hbr, <- !check_each_Ok. unfold default_blocklist_path.
  destruct (collect_lowercased al _) as [al'|e] eqn:Hal; simpl; [|naive_solver].
  apply collect_Ok in Hal as [-> Hal].
  destruct (collect_lowercased dn _) as [dn'|e] eqn:Hdn; simpl; [|naive_solver].
  apply collect_Ok in Hdn as [-> Hdn].
  destruct (check_each (fun k => validate_alias_key k _) _) as [[]|e]; simpl; [|naive_solver].
  destruct (check_each check_not_reserved _) as [[]|e]; simpl; [|naive_solver].
  destruct (check_bridges ∅ _) as [[]|e]; simpl; [|naive_solver].
  destruct home_dir; simpl; split; try done; naive_solver.
Qed.

(** What [resolve_server] computed before it succeeded. *)
Lemma resolve_server_inv cli file r :
  resolve_server cli file = Ok r ->
  sv_host_aliases r = lower_entry <$> merged_aliases cli file
  /\ sv_dns_forwards r = lower_entry <$> merged_dns cli file
  /\ sv_bridges r = merged_bridges cli file
  /\ default_blocklist_path = Some (sv_blocklist_file r).
Proof.
  unfold resolve_server, merged_aliases, merged_dns, merged_bridges. intros Hr.
  destruct (collect_lowercased _ (str "host_aliases")) as [al|] eqn:Ha; [|done]. simpl in Hr.
  destruct (collect_lowercased _ (str "dns_forwards")) as [dn|] eqn:Hd; [|done]. simpl in Hr.
  destruct (check_each (fun k => validate_alias_key k (str "host_aliases")) al.*1); [|done].
  simpl in Hr. destruct (check_each check_not_reserved al.*1); [|done].
  simpl in Hr. destruct (check_bridges ∅ _); [|done]. simpl in Hr.
  destruct default_blocklist_path as [bl|] eqn:Hbl; [|done]. simpl in Hr. injection Hr as <-. simpl.
  apply collect_Ok in Ha as [-> _]. by apply collect_Ok in Hd as [-> _].
Qed.

Lemma resolved_resolvable cli file r :
  resolve_server cli file = Ok r ->
  resolvable (merged_aliases cli file) (merged_dns cli file) (merged_bridges cli file).
Proof. intros Hr. apply resolve_server_Ok. by rewrite Hr. Qed.

(** What a resolved server configuration is, whatever the command line and the
    file held: alias keys are lower-case, pairwise distinct, well-formed patterns
    outside the reserved namespace; forwarded DNS suffixes are lower-case and
    pairwise distinct; every bridge has a rule and no two name the same endpoint;
    and the blocklist is the fixed file in the home directory, which neither the
    command line nor the file can move. *)
Theorem resolved_server_wellformed cli file r :
  resolve_server cli file = Ok r ->
  (NoDup (sv_host_aliases r).*1 /\ Forall (fun k => to_ascii_lowercase k = k
      /\ alias_pattern k /\ is_reserved_host k = false) (sv_host_aliases r).*1)
  /\ (NoDup (sv_dns_forwards r).*1
      /\ Forall (fun k => to_ascii_lowercase k = k) (sv_dns_forwards r).*1)
  /\ (NoDup (endpoint_id <$> (sv_bridges r).*2) /\ Forall (fun nb => has_rules nb.2) (sv_bridges r))
  /\ default_blocklist_path = Some (sv_blocklist_file r).
Proof.
  intros Hr. pose proof (resolved_resolvable _ _ _ Hr) as (Had & Hdd & Hv & Hn & Hb & Hbd).
  apply resolve_server_inv in Hr as (Ha & Hd & Hbr & Hbl). rewrite Ha, Hd, Hbr.
  split_and!; try done.
  - apply Forall_forall. intros k Hk. split_and!.
    + by eapply lower_keys.
    + rewrite Forall_forall in Hv. by eapply validate_alias_key_Ok, Hv.
    + rewrite Forall_forall in Hn. specialize (Hn k Hk). unfold check_not_reserved in Hn.
      by destruct (is_reserved_host k).
  - apply Forall_forall. intros k Hk. by eapply lower_keys.
Qed.

(** Two parses of one file: the maps may iterate in different orders. *)
Record cfg_equiv (a b : ServerConfig) : Prop := mkCfgEquiv {
  ce_secret : sc_secret_file a = sc_secret_file b;
  ce_keys : sc_authorized_keys_file a = sc_authorized_keys_file b;
  ce_relays : sc_relay_urls a = sc_relay_urls b;
  ce_token : sc_relay_auth_token a = sc_relay_auth_token b;
  ce_domains : sc_routed_domains a = sc_routed_domains b;
  ce_cidrs : sc_routed_cidrs a = sc_routed_cidrs b;
  ce_allowed : sc_allowed_bridge_servers a = sc_allowed_bridge_servers b;
  ce_aliases : option_Forall2 (≡ₚ) (sc_host_aliases a) (sc_host_aliases b);
  ce_dns : option_Forall2 (≡ₚ) (sc_dns_forwards a) (sc_dns_forwards b);
  ce_bridges : option_Forall2 (≡ₚ) (sc_bridges a) (sc_bridges b);
}.

Lemma merge_perm {A} (c a b : option (list A)) :
  option_Forall2 (≡ₚ) a b -> default [] (opt_or c a) ≡ₚ default [] (opt_or c b).
Proof. intros [x y Hxy|]; by destruct c. Qed.

(** C32. Resolving a configuration does not depend on the iteration order of the maps
    the TOML parser builds: either both orders are refused or both are accepted,
    and then they give the same aliases, DNS forwards and bridges up to order, the
    same scalar settings, and every requested host is rewritten to the same target. *)
Theorem resolve_order_independent cli a b :
  cfg_equiv a b ->
  is_ok (resolve_server cli (Some a)) = is_ok (resolve_server cli (Some b))
  /\ forall ra rb, resolve_server cli (Some a) = Ok ra -> resolve_server cli (Some b) = Ok rb ->
       (forall host, resolve_alias (sv_host_aliases ra) host = resolve_alias (sv_host_aliases rb) host)
       /\ sv_dns_forwards ra ≡ₚ sv_dns_forwards rb /\ sv_bridges ra ≡ₚ sv_bridges rb
       /\ sv_blocklist_file ra = sv_blocklist_file rb.
Proof.
  intros [_ _ _ _ _ _ _ Ha Hd Hb].
  pose proof (merge_perm (sc_host_aliases cli) _ _ Ha) as Ha'.
  pose proof (merge_perm (sc_dns_forwards cli) _ _ Hd) as Hd'.
  pose proof (merge_perm (sc_bridges cli) _ _ Hb) as Hb'. split.
  - apply eq_true_iff_eq. rewrite !resolve_server_Ok. unfold merged_aliases, merged_dns, merged_bridges.
    simpl. by rewrite Ha', Hd', Hb'.
  - intros ra rb Hra Hrb. pose proof (resolved_resolvable _ _ _ Hra) as (Hnd & _).
    apply resolve_server_inv in Hra as (Hal & Hdn & Hbr & Hbl).
    apply resolve_server_inv in Hrb as (Hal' & Hdn' & Hbr' & Hbl').
    unfold merged_aliases, merged_dns, merged_bridges in *. simpl in *.
    split_and!; [intros host| | |congruence].
    + apply alias_order_independent; [rewrite Hal, Hal'; by rewrite Ha'|]. by rewrite Hal.
    + rewrite Hdn, Hdn'. by rewrite Hd'.
    + by rewrite Hbr, Hbr'.
Qed.

(** A named option: the command line, else the file, else the default. *)
Lemma opt_or_Some {A} (a b : option A) v : opt_or a b = Some v <-> a = Some v \/ a = None /\ b = Some v.
Proof. destruct a; simpl; naive_solver. Qed.

(** The credentials of a client come from one source: with either flag given the file's
    key file is ignored, so that the two kinds of key are never mixed. *)
Theorem client_credentials_from_one_source cli file :
  let r := resolve_client cli file in
  let given := bool_decide (is_Some (cc_auth_key cli)) || bool_decide (is_Some (cc_auth_key_file cli)) in
  (given = true -> rc_auth_key r = cc_auth_key cli
     /\ rc_auth_key_file r = expand_tilde <$> cc_auth_key_file cli)
  /\ (given = false -> rc_auth_key r = None
     /\ rc_auth_key_file r = expand_tilde <$> (file ≫= cc_auth_key_file))
  /\ ((cc_auth_key cli = None \/ cc_auth_key_file cli = None) ->
      rc_auth_key r = None \/ rc_auth_key_file r = None).
Proof.
  unfold resolve_client. destruct (cc_auth_key cli) as [k|] eqn:Hk, (cc_auth_key_file cli) as [f|] eqn:Hf;
    simpl; split_and!; intros; try done; try (by destruct file); naive_solver.
Qed.

(** Without a path, a missing default file is not an error; a path that is given
    must be readable. *)
Theorem client_config_lookup path :
  match path with
  | Some p => load_client_config (Some p) <> Ok None
  | None => forall e, load_client_config None = Err e ->
              exists p, default_client_config_path = Some p /\ path_exists p = true
  end.
Proof.
  unfold load_client_config. destruct path as [p|].
  - by destruct (load_config toml_client (expand_tilde p)).
  - intros e. destruct default_client_config_path as [p|]; [|done].
    destruct (path_exists p) eqn:Hp; [|done]. eauto.
Qed.
End config.

(** ** Witnesses *)

Definition ref_alias_cfg (aliases : list (bytes * bytes)) : ServerConfig :=
  mkServerConfig None None None None (Some aliases) None None None None None.

Definition RefConfigEnv : ConfigEnv := {|
  home_dir := Some (str "/home/u");
  read_to_string := fun _ => Err (mkIoError NotFound None (str "not found"));
  path_exists := fun _ => false;
  toml_server := fun _ => Ok ServerConfig_default;
  toml_client := fun _ => Ok ClientConfig_default;
|}.

Lemma resolved_server_wellformed_witness :
  exists r, @resolve_server RefConfigEnv ServerConfig_default
      (Some (ref_alias_cfg [(str "DB.Internal", str "10.0.0.1")])) = Ok r
    /\ sv_host_aliases r = [(str "db.internal", str "10.0.0.1")]
    /\ @default_blocklist_path RefConfigEnv = Some (sv_blocklist_file r)
    /\ sv_blocklist_file r = str "/home/u/.config/flextunnel/blocklist.json".
Proof.
  eexists. split; [vm_compute; reflexivity|]. split; [vm_compute; reflexivity|].
  split; [|vm_compute; reflexivity].
  apply (@resolved_server_wellformed RefConfigEnv ServerConfig_default
    (Some (ref_alias_cfg [(str "DB.Internal", str "10.0.0.1")]))). vm_compute. reflexivity.
Defined.

Lemma resolve_order_independent_witness :
  let a := ref_alias_cfg [(str "x", str "1.1.1.1"); (str "*.Y", str "2.2.2.2")] in
  let b := ref_alias_cfg [(str "*.Y", str "2.2.2.2"); (str "x", str "1.1.1.1")] in
  is_ok (@resolve_server RefConfigEnv ServerConfig_default (Some a)) = true
  /\ is_ok (@resolve_server RefConfigEnv ServerConfig_default (Some a))
     = is_ok (@resolve_server RefConfigEnv ServerConfig_default (Some b)).
Proof.
  intros a b. split; [vm_compute; reflexivity|].
  apply (@resolve_order_independent RefConfigEnv ServerConfig_default a b).
  split; try reflexivity; try constructor. apply Permutation_swap.
Defined.
