(* ===== verification/Ipc.v ===== *)
(** * The control channel of a running client ([flextunnel-cli]: [ipc.rs])

    JSON lines over a local socket, and the tunnel a connection turns into after a
    [Connect] request: the line reader with its cap, the server loop, the frames
    of the tunnel, the client's round trips with their timeouts, and the creation
    of the socket file. The JSON codec is a parameter, the session loop is the list
    of its answers. The Unix transport is modelled; the Windows pipe is not. *)

From S2P Require Import Prelude RustStr Net Stream Signaling Socks5 RoutedSet DnsForward Dial.
From S2P Require Import Blocklist Registry Server Client ClientProofs Http LocalConn Accept Forward.
From S2P Require Import ForwardProofs PortForwards.

Definition MAX_LINE : Z := 1024 * 1024.
Definition REQUEST_TIMEOUT : Z := 2000.     (* milliseconds *)
Definition CONNECT_TIMEOUT : Z := 35000.
Definition MAX_FRAME : Z := 64 * 1024.

Definition NL : byte := x0a.
Definition CR : byte := x0d.

(** ** Wire types *)

Inductive Request : Type :=
| StatusReq
| ConnPathReq
| ConnectReq (host : bytes) (port : Z).

Record WireForward : Type := mkWireForward {
  wf_label : bytes;
  wf_local_port : Z;
  wf_remote_host : bytes;
  wf_remote_port : Z;
}.

Definition wire_display_name (f : WireForward) : bytes :=
  let label := trim (wf_label f) in
  if bool_decide (label = []) then format_host_port (wf_remote_host f) (wf_remote_port f) else label.

Inductive Phase : Type := Connecting | PhaseConnected | Reconnecting | PhaseFailed.

#[export] Instance Phase_eq_dec : EqDecision Phase.
Proof. solve_decision. Defined.

Record WireBridge : Type := mkWireBridge {
  wb_name : bytes;
  wb_endpoint_id : bytes;
  wb_domains : list bytes;
  wb_cidrs : list bytes;
}.

Record WireRoutes : Type := mkWireRoutes {
  wr_domains : list bytes;
  wr_cidrs : list bytes;
  wr_host_aliases : list (bytes * bytes);
  wr_dns_forwards : list (bytes * list bytes);
  wr_bridges : list WireBridge;
}.

Record WireConnPath : Type := mkWireConnPath {
  wp_kind : bytes;
  wp_display : bytes;
  wp_selected : bool;
}.

Record WireCustomRelay : Type := mkWireCustomRelay {
  wcr_url : bytes;
  wcr_working : option bool;
  wcr_error : option bytes;
}.

Record WireConnSnapshot : Type := mkWireConnSnapshot {
  wcs_paths : list WireConnPath;
  wcs_custom_relays : list WireCustomRelay;
}.

Inductive ForwardRowState : Type := RowStopped | RowStarting | RowListening | RowFailed.

#[export] Instance ForwardRowState_eq_dec : EqDecision ForwardRowState.
Proof. solve_decision. Defined.

Record ForwardRow : Type := mkForwardRow {
  row_forward : WireForward;
  row_state : ForwardRowState;
  row_error : option bytes;
  row_active : Z;
  row_last_conn_error : option bytes;
}.

Record StatusSnapshot : Type := mkStatusSnapshot {
  ss_instance : bytes;
  ss_name : option bytes;
  ss_phase : Phase;
  ss_connected_secs : option Z;
  ss_server_node_id : bytes;
  ss_client_node_id : bytes;
  ss_socks_addr : option SocketAddr;
  ss_http_addr : option SocketAddr;
  ss_status_page_host : bytes;
  ss_localhost_host : bytes;
  ss_failed_attempts : Z;
  ss_next_attempt_secs : option Z;
  ss_last_error : option bytes;
  ss_routes : WireRoutes;
  ss_forwards : list ForwardRow;
}.

Inductive Response : Type :=
| StatusResp (s : StatusSnapshot)
| ConnPathResp (s : WireConnSnapshot)
| ConnectedResp
| ErrorResp (message : bytes).

(** ** Lines *)

(** At most [limit] bytes of [s], up to and with the first newline. *)
Fixpoint line_prefix (limit : Z) (s : bytes) : bytes :=
  match s with
  | [] => []
  | b :: s => if limit <=? 0 then []
              else b :: (if decide (b = NL) then [] else line_prefix (limit - 1) s)
  end.

Definition ends_nl (s : bytes) : bool := bool_decide (head (reverse s) = Some NL).

(** [take(limit).read_until(b'\n', buf)]: what it appends to the buffer. *)
Definition read_until (limit : Z) : IO bytes := fun s =>
  let got := line_prefix limit (rx s) in
  let s' := with_rx s (drop (length got) (rx s)) in
  if ends_nl got || (Z.of_nat (length got) =? limit) then (Ok got, s')
  else match rx_err s with None => (Ok got, s') | Some e => (Err e, s') end.

Definition strip_eol (s : bytes) : bytes :=
  reverse (drop_while (fun b => bool_decide (b = NL) || bool_decide (b = CR)) (reverse s)).

Definition line_too_long : io_error :=
  mkIoError InvalidData None (str "control message exceeds the 1 MiB line cap").

(** The loop of [read_line_capped]; it goes round at most twice, the second time
    to see the end of the stream. *)
Fixpoint read_line_loop (fuel : nat) (total : Z) (buf : bytes) : IO (Z * bytes) :=
  got ← read_until (MAX_LINE + 1 - Z.of_nat (length buf));
  let buf := buf ++ got in
  let total := total + Z.of_nat (length got) in
  if bool_decide (got = []) || ends_nl buf then mret (total, strip_eol buf)
  else if MAX_LINE <? Z.of_nat (length buf) then fail line_too_long
  else match fuel with
       | O => mret (total, strip_eol buf)
       | S fuel => read_line_loop fuel total buf
       end.

Definition read_line_capped : IO (Z * bytes) := read_line_loop 1 0 [].

(** ** Tunnel frames *)

Definition read_u32 : IO Z := b ← read_exact 4; mret (from_be b).

(** What reading the source of a copy gives: chunks that fit the buffer, then the
    end of the input or an error. *)
Record Source : Type := mkSource { chunks : list bytes; src_err : option io_error }.

Fixpoint copy_chunks (cs : list bytes) (e : option io_error) : IO () :=
  match cs with
  | [] => match e with
          | Some err => fail err
          | None => write_all (to_be 4 0)
          end
  | c :: cs =>
      _ ← write_all (to_be 4 (Z.of_nat (length c) mod 2 ^ 32) ++ c);
      if bool_decide (c = []) then mret tt else copy_chunks cs e
  end.

(** Writing to the caller's socket. The last flush has no effect of its own. *)
Definition copy_to_frames (src : Source) : IO () := copy_chunks (chunks src) (src_err src).

(** The two ends of a relayed tunnel: the caller's connection and the tunnel. *)
Abbreviation Relay2 := (M (Stream * Stream) io_error).

Definition on_caller {A} (m : IO A) : Relay2 A := fun p =>
  let '(r, s) := m p.1 in (r, (s, p.2)).
Definition on_tunnel {A} (m : IO A) : Relay2 A := fun p =>
  let '(r, s) := m p.2 in (r, (p.1, s)).

Definition frame_too_long (len : Z) : io_error :=
  mkIoError InvalidData None
    (str "tunnel frame of " ++ dec len ++ str " bytes exceeds " ++ dec MAX_FRAME).

(** [Ok true] at the empty frame; [Ok false] when the copy is abandoned after
    [fuel] frames because the target closed first. *)
Fixpoint copy_from_frames (fuel : nat) : Relay2 bool :=
  match fuel with
  | O => mret false
  | S fuel =>
      len ← on_caller read_u32;
      if len =? 0 then mret true
      else if MAX_FRAME <? len then fail (frame_too_long len)
      else
      data ← on_caller (read_exact (Z.to_nat len));
      _ ← on_tunnel (write_all data);
      copy_from_frames fuel
  end.

(** The frame that was being written when the copy was dropped: [part] bytes of it went
    through. *)
Definition cut_frame (part : nat) : Relay2 () :=
  len ← on_caller read_u32;
  if (len =? 0) || (MAX_FRAME <? len) then mret tt
  else
  data ← on_caller (read_exact (Z.to_nat len));
  on_tunnel (write_all (take part data)).

(** ** The server side of a connection *)

Section ipc.
Context `{Json Request} `{Json Response}.

Definition write_response (r : Response) : IO () :=
  data ← lift (map_err io_other (to_vec r));
  write_all (data ++ [NL]).

(** How serving a connection ends. *)
Inductive Served : Type :=
| Detached
| ReadFailed (e : io_error)
| SessionGone
| WriteFailed (e : io_error)
| HandedOver (host : bytes) (port : Z).

Definition bad_request (why : bytes) : Response := ErrorResp (str "Bad request: " ++ why).

(** [answers]: what the session loop replies to the commands it is sent, [None]
    once it is gone. *)
Fixpoint serve_connection (fuel : nat) (answers : list (option Response)) (s : Stream)
  : Served * Stream :=
  match fuel with
  | O => (Detached, s)
  | S fuel =>
      match read_line_capped s with
      | (Err e, s) => (ReadFailed e, s)
      | (Ok (n, line), s) =>
          if n =? 0 then (Detached, s)
          else
          let reply (r : Response) (answers : list (option Response)) :=
            match write_response r s with
            | (Err e, s) => (WriteFailed e, s)
            | (Ok _, s) => serve_connection fuel answers s
            end in
          match from_slice line with
          | Ok (ConnectReq host port) => (HandedOver host port, s)
          | Ok _ => match answers with
                    | Some r :: answers => reply r answers
                    | _ => (SessionGone, s)
                    end
          | Err e => reply (bad_request e) answers
          end
      end
  end.

(** ** Tunnels *)

(** How the relay of an open tunnel ends: the target closes after [frames] of the
    caller's frames and [part] bytes of the next one went through, or the caller's
    frames end first, after [delivered] bytes of the target were copied back. *)
Inductive Race : Type :=
| TargetFirst (frames part : nat)
| CallerFirst (delivered : nat).

Inductive Tunneled : Type :=
| Refused
| AnswerFailed
| Relayed (half_closed : bool).

Definition full_fuel (s : Stream) : nat := S (length (rx s)).

(** [tokio::io::copy] of what the target still sends. *)
Definition download (skip : nat) : Relay2 () := fun p =>
  match write_all (drop skip (rx p.2)) p.1 with
  | (Err e, s) => (Err e, (s, p.2))
  | (Ok _, s) => (match rx_err p.2 with Some e => Err e | None => Ok tt end, (s, with_rx p.2 []))
  end.

Definition relay_tunnel (race : Race) (p : Stream * Stream) : bool * (Stream * Stream) :=
  match race with
  | TargetFirst frames part =>
      let '(r, p) := copy_from_frames frames p in
      let '(_, p) := match r with Ok false => cut_frame part p | _ => (Ok tt, p) end in
      let '(_, p) := download 0 p in (false, p)
  | CallerFirst n =>
      match write_all (take n (rx p.2)) p.1 with
      | (Err _, s) => (false, (s, p.2))
      | (Ok _, s) =>
          match copy_from_frames (full_fuel s) (s, p.2) with
          | (Ok true, p) => let '(_, p) := download n p in (true, p)
          | (_, p) => (false, p)
          end
      end
  end.

Definition tunnel_name (host : bytes) (port : Z) : bytes := host ++ str ":" ++ dec port.

Definition serve_tunnel (open : Target -> result bytes Stream) (race : Race) (host : bytes) (port : Z)
    (s : Stream) : Tunneled * (Stream * option Stream) :=
  let opened :=
    match validate_remote_host host with
    | Ok h => if port =? 0 then Err (str "port must be 1-65535") else open (Domain h port)
    | Err e => Err e
    end in
  match opened with
  | Err e => let '(_, s) := write_response (ErrorResp (tunnel_name host port ++ str ": " ++ e)) s in
             (Refused, (s, None))
  | Ok tunnel =>
      match write_response ConnectedResp s with
      | (Err _, s) => (AnswerFailed, (s, Some tunnel))
      | (Ok _, s) => let '(half_closed, (s, tunnel)) := relay_tunnel race (s, tunnel) in
                     (Relayed half_closed, (s, Some tunnel))
      end
  end.

(** ** The client side *)

Definition is_not_running (e : io_error) : bool :=
  match kind e with NotFound | ConnectionRefused => true | _ => false end.

(** Reading the answer after the request was written. *)
Definition round_trip (req : Request) : M Stream bytes Response :=
  data ← lift (to_vec req);
  _ ← map_error text (write_all (data ++ [NL]));
  got ← map_error text read_line_capped;
  if got.1 =? 0 then fail (str "The client closed the control connection")
  else lift (map_err (fun _ => str "Malformed control response") (from_slice got.2)).

(** A connection that was discarded is [None]. *)
Record IpcClient : Type := mkIpcClient { ic_stream : option Stream }.

(** An attempt to connect: [None] when it timed out. *)
Definition ipc_connect (opened : option (result io_error Stream))
  : result bytes (option IpcClient) :=
  match opened with
  | Some (Ok s) => Ok (Some (mkIpcClient (Some s)))
  | Some (Err e) => if is_not_running e then Ok None
                    else Err (str "Failed to connect to the control socket")
  | None => Err (str "Timed out connecting to the control socket")
  end.

Definition reconnect (opened : option (result io_error Stream)) : result bytes Stream :=
  match opened with
  | Some (Ok s) => Ok s
  | Some (Err _) => Err (str "Failed to reconnect to the control socket")
  | None => Err (str "Timed out reconnecting to the control socket")
  end.

(** [arrives]: what the session sends while the request is outstanding. *)
Definition arriving (s : Stream) (arrives : bytes) : Stream := with_rx s (rx s ++ arrives).

Definition ipc_request (reopened : option (result io_error Stream)) (in_time : bool)
    (arrives : bytes) (req : Request) (c : IpcClient) : result bytes Response * IpcClient :=
  match (match ic_stream c with Some s => Ok s | None => reconnect reopened end) with
  | Err e => (Err e, c)
  | Ok s =>
      if in_time then let '(r, s) := round_trip req (arriving s arrives) in (r, mkIpcClient (Some s))
      else (Err (str "Timed out waiting for the client's response"), mkIpcClient None)
  end.

(** [debug] is the [{:?}] text of an unexpected response. *)
Definition open_tunnel (debug : Response -> bytes) (reopened : result io_error Stream)
    (in_time : bool) (arrives : bytes) (host : bytes) (port : Z) (c : IpcClient)
  : result bytes Stream :=
  s ← match ic_stream c with Some s => Ok s | None => map_err text reopened end;
  if negb in_time then Err (str "Timed out waiting for the client to open the tunnel")
  else
  let '(r, s) := round_trip (ConnectReq host port) (arriving s arrives) in
  resp ← r;
  match resp with
  | ConnectedResp => Ok s
  | ErrorResp message => Err message
  | other => Err (str "Unexpected response to a connect request: " ++ debug other)
  end.
End ipc.

(** ** The socket file *)

(** Octal 0700, 0777 and 0600, and the bits of the other users. *)
Definition MODE_700 : Z := 448.
Definition MODE_777 : Z := 511.
Definition MODE_600 : Z := 384.
Definition MODE_OTHERS : Z := 63.

(** The modes of the directory and of the socket, where they exist. *)
Record SocketFs : Type := mkSocketFs { dir_mode : option Z; sock_mode : option Z }.

Inductive FsOp : Type := MakeDir | ChmodDir | RemoveStale | BindSocket | ChmodSocket.

(** [umask]ed creation modes: [create] with mode 0700 leaves an existing directory
    alone, [bind] creates the socket as 0777 less the umask. *)
Definition fs_step (umask : Z) (op : FsOp) (fs : SocketFs) : SocketFs :=
  match op with
  | MakeDir => match dir_mode fs with
               | Some _ => fs
               | None => mkSocketFs (Some (Z.land MODE_700 (Z.lnot umask))) (sock_mode fs)
               end
  | ChmodDir => mkSocketFs (Some MODE_700) (sock_mode fs)
  | RemoveStale => mkSocketFs (dir_mode fs) None
  | BindSocket => mkSocketFs (dir_mode fs) (Some (Z.land MODE_777 (Z.lnot umask)))
  | ChmodSocket => mkSocketFs (dir_mode fs) (Some MODE_600)
  end.

Definition spawn_unix_ops : list FsOp := [MakeDir; ChmodDir; RemoveStale; BindSocket; ChmodSocket].

(** [spawn_unix]: the operations that were done before the one that failed, if one
    did; [remove_file] is allowed to fail, when it leaves the stale file. *)
Fixpoint spawn_unix (umask : Z) (ops : list FsOp) (fails : FsOp -> bool) (fs : SocketFs)
  : list (FsOp * SocketFs) :=
  match ops with
  | [] => []
  | op :: ops =>
      if fails op then match op with
                       | RemoveStale => spawn_unix umask ops fails fs
                       | _ => []
                       end
      else let fs := fs_step umask op fs in (op, fs) :: spawn_unix umask ops fails fs
  end.
