(* ===== verification/IpcProofs.v ===== *)
(** * The control channel: what holds of it

    The line reader and its cap, the exactness of the tunnel's frames, the server
    loop's answers in order, round trips that never take the answer to an earlier
    request, the relay of a tunnel in either race, and the privacy of the socket. *)

From S2P Require Import Prelude RustStr Net Stream Signaling Socks5 RoutedSet DnsForward Dial.
From S2P Require Import Blocklist Registry Server Client ClientProofs Http LocalConn Accept Forward.
From S2P Require Import ForwardProofs PortForwards Ipc.

(** ** Lines *)

(** A line that is read back as it was written. *)
Definition clean_line (line : bytes) : Prop :=
  (NL ∉ line) /\ (CR ∉ line) /\ Z.of_nat (length line) <= MAX_LINE.

Lemma line_prefix_line limit line rest :
  (NL ∉ line) -> Z.of_nat (length line) < limit ->
  line_prefix limit (line ++ NL :: rest) = line ++ [NL].
Proof.
  revert limit. induction line as [|b line IH]; intros limit Hn Hl; simpl in *.
  - by rewrite (proj2 (Z.leb_gt limit 0)) by lia.
  - apply not_elem_of_cons in Hn as [Hb Hn]. rewrite (proj2 (Z.leb_gt limit 0)) by lia.
    rewrite decide_False by congruence. by rewrite IH by (done || lia).
Qed.

Lemma ends_nl_snoc s : ends_nl (s ++ [NL]) = true.
Proof. unfold ends_nl. by rewrite reverse_snoc. Qed.

Lemma strip_eol_line line : (NL ∉ line) -> (CR ∉ line) -> strip_eol (line ++ [NL]) = line.
Proof.
  intros Hn Hc. unfold strip_eol. rewrite reverse_snoc. simpl.
  destruct (reverse line) as [|b r] eqn:Hr; simpl.
  - apply (f_equal reverse) in Hr. by rewrite reverse_involutive in Hr.
  - assert (Hb : b ∈ line) by (rewrite <- elem_of_reverse, Hr; set_solver).
    rewrite !bool_decide_eq_false_2 by (intros ->; done). simpl. by rewrite <- Hr, reverse_involutive.
Qed.

Lemma read_until_line limit line rest s :
  (NL ∉ line) -> Z.of_nat (length line) < limit -> rx s = line ++ NL :: rest ->
  read_until limit s = (Ok (line ++ [NL]), with_rx s rest).
Proof.
  intros Hn Hl Hrx. unfold read_until. rewrite Hrx, line_prefix_line by done.
  rewrite ends_nl_snoc. simpl. rewrite (cons_middle NL line rest), (assoc_L (++)).
  by rewrite drop_app_length.
Qed.

Lemma read_line_ok line rest s :
  clean_line line -> rx s = line ++ NL :: rest ->
  read_line_capped s = (Ok (Z.of_nat (length line) + 1, line), with_rx s rest).
Proof.
  intros (Hn & Hc & Hl) Hrx. unfold read_line_capped, read_line_loop.
  erewrite bind_Ok by (apply (read_until_line _ line rest); [done|simpl; lia|done]).
  cbv beta zeta. rewrite app_nil_l, ends_nl_snoc, orb_true_r, strip_eol_line by done.
  unfold mret, M_ret. rewrite length_app. simpl. do 3 f_equal. lia.
Qed.

Lemma read_until_eof limit s : rx s = [] -> rx_err s = None -> read_until limit s = (Ok [], s).
Proof.
  intros Hrx He. unfold read_until. rewrite Hrx, He. simpl.
  assert (Hs : with_rx s [] = s) by (by rewrite <- Hrx, with_rx_rx). rewrite Hs. by case_match.
Qed.

Lemma read_line_eof s : rx s = [] -> rx_err s = None -> read_line_capped s = (Ok (0, []), s).
Proof.
  intros Hrx He. unfold read_line_capped, read_line_loop. by erewrite bind_Ok by (by apply read_until_eof).
Qed.

Lemma line_prefix_bound limit s : 0 <= limit -> Z.of_nat (length (line_prefix limit s)) <= limit.
Proof.
  revert limit. induction s as [|b s IH]; intros limit Hl; simpl; [lia|].
  destruct (Z.leb_spec limit 0); simpl; [lia|]. destruct (decide (b = NL)); simpl; [lia|].
  specialize (IH (limit - 1)). lia.
Qed.

Lemma line_prefix_take limit s : line_prefix limit s = take (length (line_prefix limit s)) s.
Proof.
  revert limit. induction s as [|b s IH]; intros limit; simpl; [done|].
  destruct (limit <=? 0); [done|]. destruct (decide (b = NL)); simpl; [by rewrite take_0|].
  by rewrite <- IH.
Qed.

Lemma line_prefix_short limit s :
  Z.of_nat (length (line_prefix limit s)) < limit -> ends_nl (line_prefix limit s) = false ->
  line_prefix limit s = s.
Proof.
  revert limit. induction s as [|b s IH]; intros limit; simpl; [done|].
  destruct (Z.leb_spec limit 0); simpl; [lia|]. destruct (decide (b = NL)) as [->|Hb]; simpl; [done|].
  intros Hl He. rewrite IH; [done|lia|]. unfold ends_nl in *. rewrite reverse_cons in He.
  apply bool_decide_eq_false_2. apply bool_decide_eq_false_1 in He.
  destruct (reverse (line_prefix (limit - 1) s)); [done|]. exact He.
Qed.

Lemma length_strip_eol s :
  (length (strip_eol s) <= length s)%nat
  /\ (ends_nl s = true -> (length (strip_eol s) < length s)%nat).
Proof.
  unfold strip_eol, ends_nl. rewrite !length_reverse, <- (length_reverse s).
  assert (Hd : forall p l, (length (drop_while p l) <= length l)%nat).
  { intros p l. induction l as [|b l IH]; simpl; [lia|]. destruct (p b); simpl; lia. }
  split; [apply Hd|]. intros He%bool_decide_eq_true_1. destruct (reverse s) as [|b r]; [done|].
  simpl in He. injection He as ->. simpl.
  specialize (Hd (fun b => bool_decide (b = NL) || bool_decide (b = CR)) r). lia.
Qed.

(** The three ways reading a line can go. *)
Lemma read_line_cases s :
  let got := line_prefix (MAX_LINE + 1) (rx s) in
  let s' := with_rx s (drop (length got) (rx s)) in
  read_line_capped s =
    if ends_nl got then (Ok (Z.of_nat (length got), strip_eol got), s')
    else if MAX_LINE <? Z.of_nat (length got) then (Err line_too_long, s')
    else match rx_err s with
         | Some e => (Err e, s')
         | None => (Ok (Z.of_nat (length got), strip_eol got), s')
         end.
Proof.
  intros got s'. assert (Hb : Z.of_nat (length got) <= MAX_LINE + 1)
    by (apply line_prefix_bound; unfold MAX_LINE; lia).
  assert (Hlim : MAX_LINE + 1 - Z.of_nat (length (@nil byte)) = MAX_LINE + 1) by (simpl; lia).
  unfold read_line_capped, read_line_loop. rewrite Hlim.
  destruct (ends_nl got || (Z.of_nat (length got) =? MAX_LINE + 1)) eqn:Hc.
  - assert (Hr : read_until (MAX_LINE + 1) s = (Ok got, s'))
      by (unfold read_until; fold got; by rewrite Hc).
    rewrite (bind_Ok _ _ _ _ _ Hr). cbv beta zeta. rewrite app_nil_l, Z.add_0_l.
    destruct (ends_nl got) eqn:He; [by rewrite orb_true_r|]. simpl in Hc. apply Z.eqb_eq in Hc.
    rewrite (proj2 (Z.ltb_lt _ _)) by lia. rewrite bool_decide_eq_false_2; [done|].
    intros Hg. rewrite Hg in Hc. unfold MAX_LINE in Hc. simpl in Hc. lia.
  - apply orb_false_iff in Hc as [He Hne%Z.eqb_neq]. rewrite He.
    rewrite (proj2 (Z.ltb_ge MAX_LINE (Z.of_nat (length got)))) by lia.
    assert (Hr : read_until (MAX_LINE + 1) s
                 = match rx_err s with None => (Ok got, s') | Some e => (Err e, s') end).
    { unfold read_until. fold got. rewrite He. by rewrite (proj2 (Z.eqb_neq _ _) Hne). }
    destruct (rx_err s) as [e|] eqn:Hre; [by rewrite (bind_Err _ _ _ _ _ Hr)|].
    rewrite (bind_Ok _ _ _ _ _ Hr). cbv beta zeta. rewrite app_nil_l, Z.add_0_l, He, orb_false_r.
    destruct (bool_decide_reflect (got = [])) as [Hg|Hg]; [done|].
    rewrite (proj2 (Z.ltb_ge MAX_LINE (Z.of_nat (length got)))) by lia.
    assert (Hall : got = rx s) by (apply line_prefix_short; [fold got; lia|done]).
    assert (Hs' : rx s' = []) by (simpl; rewrite Hall; by rewrite drop_all).
    rewrite (bind_Ok _ _ _ _ _ (read_until_eof _ s' Hs' Hre)). cbv beta zeta.
    by rewrite app_nil_r, Z.add_0_r.
Qed.

(** The line cap: whatever the peer sends, reading one line takes at most
    1 MiB and one byte from the connection, and it yields a line of at most 1 MiB,
    the connection's own error, or the cap error, the last exactly when the first
    1 MiB + 1 bytes hold no newline. *)
Theorem control_line_bounded s :
  let '(r, s') := read_line_capped s in
  (exists used, rx s = used ++ rx s' /\ Z.of_nat (length used) <= MAX_LINE + 1
    /\ match r with
       | Ok (n, line) => n = Z.of_nat (length used) /\ Z.of_nat (length line) <= MAX_LINE
       | Err e => e = line_too_long /\ Z.of_nat (length used) = MAX_LINE + 1 \/ rx_err s = Some e
       end)
  /\ (rx_err s = None -> r = Err line_too_long <->
      MAX_LINE < Z.of_nat (length (rx s)) /\ ends_nl (line_prefix (MAX_LINE + 1) (rx s)) = false).
Proof.
  rewrite read_line_cases. set (got := line_prefix (MAX_LINE + 1) (rx s)).
  assert (Hb : Z.of_nat (length got) <= MAX_LINE + 1)
    by (apply line_prefix_bound; unfold MAX_LINE; lia).
  assert (Hsplit : rx s = got ++ drop (length got) (rx s)).
  { rewrite <- (take_drop (length got) (rx s)) at 1. f_equal. symmetry. apply line_prefix_take. }
  pose proof (length_strip_eol got) as [Hle Hlt].
  destruct (ends_nl got) eqn:He; [|destruct (Z.ltb_spec MAX_LINE (Z.of_nat (length got)))].
  - split; [exists got; split_and!; [done|done|done|]; specialize (Hlt eq_refl); lia|].
    intros _. split; [done|by intros []].
  - split; [exists got; split_and!; [done|lia|left; split; [done|lia]]|].
    intros _. split; [|done]. intros _. split; [|done]. rewrite Hsplit, length_app. lia.
  - assert (Hall : got = rx s) by (apply line_prefix_short; [fold got; lia|done]).
    destruct (rx_err s) as [e|] eqn:Hre.
    + split; [|done]. exists got. split_and!; [done|lia|by right].
    + split; [exists got; split_and!; [done|lia|done|lia]|]. intros _.
      split; [done|]. intros [Hx _]. rewrite <- Hall in Hx. lia.
Qed.

(** ** Frames *)

Definition frame (c : bytes) : bytes := to_be 4 (Z.of_nat (length c)) ++ c.
Definition fits (c : bytes) : Prop := c <> [] /\ Z.of_nat (length c) <= MAX_FRAME.

Lemma copy_chunks_ok cs s :
  Forall fits cs -> tx_err s = None ->
  copy_chunks cs None s = (Ok tt, with_tx s (tx s ++ concat (frame <$> cs) ++ frame [])).
Proof.
  revert s. induction cs as [|c cs IH]; intros s Hc Htx; simpl.
  - by rewrite write_all_ok.
  - apply Forall_cons in Hc as [[Hne Hl] Hc].
    erewrite bind_Ok by (by apply write_all_ok). rewrite bool_decide_eq_false_2 by done.
    rewrite IH by done. simpl. unfold frame at 2.
    rewrite Z.mod_small by (unfold MAX_FRAME in Hl; lia). by rewrite <- !(assoc_L (++)).
Qed.

Lemma read_u32_frame z r s :
  rx s = to_be 4 z ++ r -> 0 <= z < 2 ^ 32 -> read_u32 s = (Ok z, with_rx s r).
Proof.
  intros Hrx Hz. unfold read_u32.
  erewrite bind_Ok by (eapply read_exact_app; [exact Hrx|by rewrite length_to_be]).
  unfold mret, M_ret. by rewrite from_be_to_be_small by (simpl; lia).
Qed.

Lemma copy_from_frames_ok cs fuel rest caller tunnel :
  Forall fits cs -> (length cs < fuel)%nat -> tx_err tunnel = None ->
  rx caller = concat (frame <$> cs) ++ frame [] ++ rest ->
  copy_from_frames fuel (caller, tunnel)
  = (Ok true, (with_rx caller rest, with_tx tunnel (tx tunnel ++ concat cs))).
Proof.
  revert fuel caller tunnel. induction cs as [|c cs IH]; intros fuel caller tunnel Hc Hf Htx Hrx;
    (destruct fuel as [|fuel]; [simpl in Hf; lia|]); cbn [copy_from_frames].
  - unfold mbind, M_bind, on_caller. simpl in Hrx.
    rewrite (read_u32_frame 0 rest) by (done || lia). simpl. rewrite app_nil_r.
    by destruct tunnel.
  - apply Forall_cons in Hc as [[Hne Hl] Hc]. rewrite fmap_cons in Hrx. cbn [concat] in Hrx.
    unfold frame at 1 in Hrx. rewrite <- !(assoc_L (++)) in Hrx.
    assert (Hpos : (0 < length c)%nat) by (destruct c; [done|simpl; lia]).
    unfold mbind, M_bind, on_caller, on_tunnel. simpl fst. simpl snd.
    rewrite (read_u32_frame (Z.of_nat (length c)) _ _ Hrx) by (unfold MAX_FRAME in Hl; lia).
    rewrite (proj2 (Z.eqb_neq _ _)) by lia. rewrite (proj2 (Z.ltb_ge _ _)) by lia. simpl fst. simpl snd.
    rewrite (read_exact_app _ c (concat (frame <$> cs) ++ frame [] ++ rest)) by (done || lia).
    cbn [fst snd]. rewrite write_all_ok by done. cbn [fst snd].
    rewrite with_rx_with_rx. rewrite (IH fuel (with_rx caller (concat (frame <$> cs) ++ frame [] ++ rest))) by (done || simpl in *; lia).
    cbn [tx with_tx with_rx concat]. by rewrite <- (assoc_L (++)).
Qed.

Lemma read_u32_inv s z s' :
  read_u32 s = (Ok z, s') -> rx s = to_be 4 z ++ rx s' /\ 0 <= z < 2 ^ 32 /\ s' = with_rx s (rx s').
Proof.
  intros (a & s1 & Ha & Hb)%bind_Ok_inv. injection Hb as <- <-.
  apply read_exact_Ok_inv in Ha as (Hlen & Hrx & Hs). rewrite to_be_from_be_len by done.
  pose proof (from_be_range a) as Hr. rewrite Hlen in Hr. simpl in Hr. split_and!; [done|lia|lia|done].
Qed.

(** What a copy that ended at the empty frame has read and written. *)
Lemma copy_from_frames_sound fuel caller tunnel p' :
  copy_from_frames fuel (caller, tunnel) = (Ok true, p') ->
  exists cs, Forall fits cs /\ rx caller = concat (frame <$> cs) ++ frame [] ++ rx p'.1
    /\ p'.2 = with_tx tunnel (tx tunnel ++ concat cs) /\ p'.1 = with_rx caller (rx p'.1).
Proof.
  revert caller tunnel. induction fuel as [|fuel IH]; intros caller tunnel; cbn [copy_from_frames]; [done|].
  unfold mbind, M_bind, on_caller at 1. cbn [fst snd].
  destruct (read_u32 caller) as [[len|e] s1] eqn:H1; [|done].
  apply read_u32_inv in H1 as (Hrx & Hz & Hs1).
  destruct (Z.eqb_spec len 0) as [->|Hne].
  - intros Heq. injection Heq as <-. exists []. cbn [fst snd]. split_and!; [done| | |done].
    + rewrite Hrx. done.
    + simpl. rewrite app_nil_r. by destruct tunnel.
  - destruct (Z.ltb_spec MAX_FRAME len); [done|]. unfold on_caller at 1. cbn [fst snd].
    destruct (read_exact (Z.to_nat len) s1) as [[data|e] s2] eqn:H2; [|done].
    apply read_exact_Ok_inv in H2 as (Hlen & Hrx2 & Hs2). unfold on_tunnel at 1. cbn [fst snd].
    destruct (write_all data tunnel) as [[u|e] t1] eqn:Hw; [|done]. apply write_all_Ok_inv in Hw as ->.
    intros Hc. apply IH in Hc as (cs & Hcs & Hrx3 & Ht & Hs3).
    exists (data :: cs). split_and!.
    + constructor; [|done]. split; [intros ->; simpl in Hlen; lia|lia].
    + rewrite Hrx, Hrx2, Hrx3. rewrite fmap_cons. cbn [concat].
      change (frame data) with (to_be 4 (Z.of_nat (length data)) ++ data). rewrite Hlen, Z2Nat.id by lia. by rewrite <- !(assoc_L (++)).
    + rewrite Ht. cbn [tx with_tx concat]. by rewrite <- (assoc_L (++)).
    + rewrite Hs3, Hs2, Hs1. done.
Qed.

(** The frames of a tunnel carry the caller's input exactly: whatever pieces the
    input is read in, the session writes into the tunnel the concatenation of the
    pieces, stops at the empty frame and leaves the bytes behind it alone; and
    conversely a copy that ends has read a frame sequence with its final empty
    frame, so that a connection cut short is never taken for the end of the input. *)
Theorem tunnel_frames_exact cs rest writer caller tunnel fuel p' :
  Forall fits cs -> tx_err writer = None -> tx_err tunnel = None -> (length cs < fuel)%nat ->
  let sent := concat (frame <$> cs) ++ frame [] in
  copy_to_frames (mkSource cs None) writer = (Ok tt, with_tx writer (tx writer ++ sent))
  /\ (rx caller = sent ++ rest ->
      copy_from_frames fuel (caller, tunnel)
      = (Ok true, (with_rx caller rest, with_tx tunnel (tx tunnel ++ concat cs))))
  /\ (copy_from_frames fuel (caller, tunnel) = (Ok true, p') ->
      exists cs', Forall fits cs' /\ rx caller = concat (frame <$> cs') ++ frame [] ++ rx p'.1
        /\ tx p'.2 = tx tunnel ++ concat cs').
Proof.
  intros Hc Hw Ht Hf sent. split; [by apply copy_chunks_ok|]. split.
  - unfold sent. rewrite <- (assoc_L (++)). by apply copy_from_frames_ok.
  - intros (cs' & Hcs & Hrx & Htx & _)%copy_from_frames_sound. exists cs'. split_and!; [done..|].
    by rewrite Htx.
Qed.

(** ** The server loop *)

Section exchanges.
Context `{Json Request} `{Json Response}.

(** A value whose JSON text is one line that reads back as the value: [serde_json]
    escapes control characters, so only the cap is a restriction. *)
Definition json_line {A} `{Json A} (v : A) (data : bytes) : Prop :=
  to_vec v = Ok data /\ from_slice data = Ok v /\ clean_line data.

Definition line_of (data : bytes) : bytes := data ++ [NL].

(** The responses to a sequence of lines without a [Connect], and the answers of
    the session that are left. *)
Fixpoint replies (answers : list (option Response)) (lines : list bytes)
  : option (list Response * list (option Response)) :=
  match lines with
  | [] => Some ([], answers)
  | l :: lines =>
      match from_slice l with
      | Ok (ConnectReq _ _) => None
      | Ok _ => match answers with
                | Some r :: answers => '(rs, rest) ← replies answers lines; Some (r :: rs, rest)
                | _ => None
                end
      | Err e => '(rs, rest) ← replies answers lines; Some (bad_request e :: rs, rest)
      end
  end.

Lemma write_response_ok r data s :
  to_vec r = Ok data -> tx_err s = None ->
  write_response r s = (Ok tt, with_tx s (tx s ++ line_of data)).
Proof.
  intros Hr Htx. unfold write_response. rewrite Hr. unfold lift, mbind, M_bind. simpl.
  by rewrite write_all_ok.
Qed.

Lemma serve_prefix lines answers rs answers' datas fuel tail s :
  Forall clean_line lines -> replies answers lines = Some (rs, answers') ->
  Forall2 (fun r d => to_vec r = Ok d) rs datas -> tx_err s = None ->
  rx s = concat (line_of <$> lines) ++ tail ->
  serve_connection (length lines + fuel) answers s
  = serve_connection fuel answers'
      (mkStream tail (rx_err s) (tx s ++ concat (line_of <$> datas)) (tx_err s)).
Proof.
  revert answers rs datas s. induction lines as [|l lines IH]; intros answers rs datas s Hcl Hr Hd Htx Hrx.
  - simpl in Hr. simplify_eq. apply Forall2_nil_inv_l in Hd as ->. simpl in *. rewrite app_nil_r, <- Hrx.
    by destruct s.
  - apply Forall_cons in Hcl as [Hl Hcl]. rewrite fmap_cons in Hrx. cbn [concat] in Hrx.
    unfold line_of at 1 in Hrx. rewrite <- !(assoc_L (++)) in Hrx. simpl app in Hrx.
    cbn [length Nat.add serve_connection]. rewrite (read_line_ok l _ s Hl Hrx).
    rewrite (proj2 (Z.eqb_neq _ _)) by lia. simpl in Hr.
    assert (Hstep : forall r rs' a d datas', to_vec r = Ok d -> Forall2 (fun r d => to_vec r = Ok d) rs' datas' ->
      replies a lines = Some (rs', answers') ->
      match write_response r (with_rx s (concat (line_of <$> lines) ++ tail)) with
      | (Err e, s) => (WriteFailed e, s)
      | (Ok _, s) => serve_connection (length lines + fuel) a s
      end = serve_connection fuel answers'
        (mkStream tail (rx_err s) (tx s ++ concat (line_of <$> d :: datas')) (tx_err s))).
    { intros r rs' a d datas' Hrd Hds Ha. rewrite (write_response_ok r d) by done.
      rewrite (IH a rs' datas') by done. cbn [fmap list_fmap concat tx with_tx with_rx].
      by rewrite <- (assoc_L (++)). }
    destruct (from_slice l) as [[| |host port]|e]; try done.
    1-2: destruct answers as [|[r|] answers]; try done;
      destruct (replies answers lines) as [[rs0 a0]|] eqn:Hrep; [|done]; simpl in Hr; simplify_eq;
      apply Forall2_cons_inv_l in Hd as (d & datas' & Hrd & Hds & ->); by eapply Hstep.
    destruct (replies answers lines) as [[rs0 a0]|] eqn:Hrep; [|done]. simpl in Hr. simplify_eq.
    apply Forall2_cons_inv_l in Hd as (d & datas' & Hrd & Hds & ->). by eapply Hstep.
Qed.

(** The control channel answers every request line with exactly one response
    line, in the order of the requests: the session's answer to a status request,
    an error for a line that is not a request (the connection stays open), until
    the peer detaches; a [Connect] request takes the connection over with every
    byte that followed it. *)
Theorem control_answers_in_order lines answers rs answers' datas s rest cdata host port :
  Forall clean_line lines -> replies answers lines = Some (rs, answers') ->
  Forall2 (fun r d => to_vec r = Ok d) rs datas ->
  tx_err s = None -> rx_err s = None -> json_line (ConnectReq host port) cdata ->
  let answered := mkStream [] None (tx s ++ concat (line_of <$> datas)) None in
  (rx s = concat (line_of <$> lines) ->
   serve_connection (length lines + 1) answers s = (Detached, answered))
  /\ (rx s = concat (line_of <$> lines) ++ line_of cdata ++ rest ->
      serve_connection (length lines + 1) answers s = (HandedOver host port, with_rx answered rest)).
Proof.
  intros Hcl Hr Hd Htx Hre (Hv & Hf & Hc) answered. split; intros Hrx.
  - rewrite (serve_prefix lines answers rs answers' datas 1 []) by (rewrite ?app_nil_r; done).
    simpl. rewrite read_line_eof by done. simpl. unfold answered. by rewrite Htx, Hre.
  - rewrite (serve_prefix lines answers rs answers' datas 1 (line_of cdata ++ rest)) by done.
    simpl. rewrite (read_line_ok cdata rest) by (done || simpl; unfold line_of; by rewrite <- (assoc_L (++))).
    rewrite (proj2 (Z.eqb_neq _ _)) by lia. rewrite Hf. unfold answered. by rewrite Htx, Hre.
Qed.

(** ** Round trips *)

Lemma round_trip_ok req rdata resp data rest s :
  to_vec req = Ok rdata -> json_line resp data -> tx_err s = None -> rx s = line_of data ++ rest ->
  round_trip req s = (Ok resp, mkStream rest (rx_err s) (tx s ++ line_of rdata) (tx_err s)).
Proof.
  intros Hq (Hv & Hf & Hc) Htx Hrx. unfold round_trip. rewrite Hq.
  unfold lift at 1, mbind, M_bind, map_error. simpl. rewrite write_all_ok by done.
  unfold line_of in Hrx. rewrite <- (assoc_L (++)) in Hrx.
  rewrite (read_line_ok data rest) by done. simpl.
  rewrite (proj2 (Z.eqb_neq _ _)) by lia. unfold lift. rewrite Hf. done.
Qed.

(** A panel's requests: how reopening goes if the connection was discarded, and
    whether the answer came in time. *)
Record Ask : Type := mkAsk {
  ask_reopen : option (result io_error Stream);
  ask_in_time : bool;
  ask_request : Request;
}.

Variable answer : Request -> Response.
Variable answer_text : Request -> bytes.

Fixpoint ask_all (asks : list Ask) (c : IpcClient) : list (Request * result bytes Response) :=
  match asks with
  | [] => []
  | a :: asks =>
      let '(r, c) := ipc_request (ask_reopen a) (ask_in_time a) (line_of (answer_text (ask_request a)))
                       (ask_request a) c in
      (ask_request a, r) :: ask_all asks c
  end.

(** A connection on which nothing is in flight. *)
Definition settled (s : Stream) : Prop := rx s = [] /\ tx_err s = None.

(** A response is never paired with a later request: on any sequence of requests,
    with any of them timing out and the connection being reopened, every answer
    that is returned is the session's answer to that very request. *)
Theorem answers_match_requests asks c :
  (forall s, ic_stream c = Some s -> settled s) ->
  (forall a s, a ∈ asks -> ask_reopen a = Some (Ok s) -> settled s) ->
  (forall a, a ∈ asks -> is_ok (to_vec (ask_request a)) = true
     /\ json_line (answer (ask_request a)) (answer_text (ask_request a))) ->
  Forall (fun '(req, r) => forall resp, r = Ok resp -> resp = answer req) (ask_all asks c).
Proof.
  revert c. induction asks as [|[ro it req] asks IH]; intros c Hc Hro Hj; simpl; [constructor|].
  destruct (Hj (mkAsk ro it req)) as [Hq Hline]; [by constructor|]. simpl in Hq, Hline.
  assert (Hro' : forall a s, a ∈ asks -> ask_reopen a = Some (Ok s) -> settled s)
    by (intros a s0 Ha; apply Hro; by constructor).
  pose proof (fun c Hc => IH c Hc Hro' (fun a Ha => Hj a (list_elem_of_further _ _ _ Ha))) as IH'.
  destruct (to_vec req) as [rdata|] eqn:Hrd; [|done].
  unfold ipc_request. destruct (match ic_stream c with Some s => Ok s | None => reconnect ro end) as [s|e] eqn:Hs.
  - assert (Hst : settled s).
    { destruct (ic_stream c) as [s0|]; [injection Hs as <-; by apply Hc|].
      destruct ro as [[s0|]|]; simpl in Hs; simplify_eq.
      apply (Hro (mkAsk (Some (Ok s)) it req)); [by constructor|done]. }
    destruct Hst as [Hrx Htx]. destruct it.
    + rewrite (round_trip_ok req rdata (answer req) (answer_text req) []);
        [|done|done|done|simpl; rewrite Hrx; by rewrite app_nil_r].
      constructor; [by intros resp [= ->]|]. apply IH'. intros s0 [= <-]. done.
    + constructor; [done|]. by apply IH'.
  - constructor; [done|]. by apply IH'.
Qed.
End exchanges.

(** ** The relay of a tunnel *)

Lemma copy_from_frames_one c tail fuel caller tunnel :
  fits c -> tx_err tunnel = None -> rx caller = frame c ++ tail ->
  copy_from_frames (S fuel) (caller, tunnel)
  = copy_from_frames fuel (with_rx caller tail, with_tx tunnel (tx tunnel ++ c)).
Proof.
  intros [Hne Hl] Htx Hrx. cbn [copy_from_frames]. unfold frame in Hrx. rewrite <- (assoc_L (++)) in Hrx.
  assert (Hpos : (0 < length c)%nat) by (destruct c; [done|simpl; lia]).
  unfold mbind, M_bind, on_caller, on_tunnel. simpl fst. simpl snd.
  rewrite (read_u32_frame (Z.of_nat (length c)) _ _ Hrx) by (unfold MAX_FRAME in Hl; lia).
  rewrite (proj2 (Z.eqb_neq _ _)) by lia. rewrite (proj2 (Z.ltb_ge _ _)) by lia. simpl fst. simpl snd.
  rewrite (read_exact_app _ c tail) by (done || lia).
  cbn [fst snd]. rewrite write_all_ok by done. cbn [fst snd]. by rewrite with_rx_with_rx.
Qed.

(** The copy dropped between two frames. *)
Lemma copy_from_frames_cut k cs tail caller tunnel :
  Forall fits cs -> (k <= length cs)%nat -> tx_err tunnel = None ->
  rx caller = concat (frame <$> cs) ++ tail ->
  copy_from_frames k (caller, tunnel)
  = (Ok false, (with_rx caller (concat (frame <$> drop k cs) ++ tail),
                with_tx tunnel (tx tunnel ++ concat (take k cs)))).
Proof.
  revert cs caller tunnel. induction k as [|k IH]; intros cs caller tunnel Hc Hk Htx Hrx.
  - rewrite drop_0, take_0, <- Hrx. cbn. rewrite app_nil_r. by destruct caller, tunnel.
  - destruct cs as [|c cs]; [simpl in Hk; lia|]. apply Forall_cons in Hc as [Hf Hc].
    rewrite fmap_cons in Hrx. cbn [concat] in Hrx. rewrite <- (assoc_L (++)) in Hrx.
    rewrite (copy_from_frames_one c (concat (frame <$> cs) ++ tail)) by done.
    rewrite (IH cs) by (done || simpl in *; lia). cbn [drop take concat tx with_tx].
    by rewrite with_rx_with_rx, <- (assoc_L (++)).
Qed.

(** The end of the caller's input, if it has come. *)
Definition input_end (eof : bool) : bytes := if eof then frame [] else [].

(** The copy dropped within a frame, or while it waits for one. *)
Lemma cut_frame_spec part cs eof caller tunnel :
  Forall fits cs -> tx_err tunnel = None -> rx caller = concat (frame <$> cs) ++ input_end eof ->
  exists r rest, cut_frame part (caller, tunnel)
    = (r, (with_rx caller rest, with_tx tunnel (tx tunnel ++ take part (default [] (head cs))))).
Proof.
  intros Hc Htx Hrx. unfold cut_frame, mbind, M_bind, on_caller, on_tunnel. cbn [fst snd].
  destruct cs as [|c cs].
  - exists (if eof then Ok tt else Err (default early_eof (rx_err caller))), []. cbn in Hrx.
    cbn [head default from_option]. rewrite take_nil, app_nil_r. destruct eof; cbn [input_end] in Hrx.
    + rewrite (read_u32_frame 0 [] caller) by (done || lia). by destruct tunnel.
    + unfold read_u32, mbind, M_bind, read_exact. rewrite Hrx. by destruct tunnel.
  - apply Forall_cons in Hc as [[Hne Hl] Hc].
    rewrite fmap_cons in Hrx. cbn [concat] in Hrx. unfold frame at 1 in Hrx. rewrite <- !(assoc_L (++)) in Hrx.
    assert (Hpos : (0 < length c)%nat) by (destruct c; [done|simpl; lia]).
    rewrite (read_u32_frame (Z.of_nat (length c)) _ _ Hrx) by (unfold MAX_FRAME in Hl; lia).
    rewrite (proj2 (Z.eqb_neq _ _)) by lia. rewrite (proj2 (Z.ltb_ge _ _)) by lia. cbn [orb fst snd].
    rewrite (read_exact_app _ c (concat (frame <$> cs) ++ input_end eof)) by (done || lia).
    cbn [fst snd]. rewrite write_all_ok by done. rewrite with_rx_with_rx. by eexists _, _.
Qed.

(** What the target gets of the input [cs]. *)
Definition delivered (race : Race) (cs : list bytes) : bytes :=
  match race with
  | CallerFirst _ => concat cs
  | TargetFirst k part => concat (take k cs) ++ take part (default [] (cs !! k))
  end.

(** A race the input allows: the caller is first only if its input ends, and the target
    only after frames that were sent. *)
Definition possible (race : Race) (cs : list bytes) (eof : bool) : Prop :=
  match race with CallerFirst _ => eof = true | TargetFirst k _ => (k <= length cs)%nat end.

Definition caller_first (race : Race) : bool := match race with CallerFirst _ => true | _ => false end.

Lemma frames_longer cs : (length cs <= length (concat (frame <$> cs)))%nat.
Proof.
  induction cs as [|c cs IH]; [done|]. rewrite fmap_cons. cbn [concat].
  rewrite length_app. unfold frame at 1. rewrite length_app, length_to_be. simpl. lia.
Qed.

(** Either way the caller gets all the target sent. *)
Lemma relay_tunnel_ok race cs eof caller target :
  Forall fits cs -> possible race cs eof -> tx_err caller = None -> tx_err target = None ->
  rx caller = concat (frame <$> cs) ++ input_end eof ->
  exists s t, relay_tunnel race (caller, target) = (caller_first race, (s, t))
    /\ tx t = tx target ++ delivered race cs /\ tx s = tx caller ++ rx target.
Proof.
  intros Hc Hp Htc Htt Hrx. unfold relay_tunnel. destruct race as [k part|n]; cbn [caller_first].
  - rewrite (copy_from_frames_cut k cs (input_end eof)) by done.
    destruct (cut_frame_spec part (drop k cs) eof
      (with_rx caller (concat (frame <$> drop k cs) ++ input_end eof))
      (with_tx target (tx target ++ concat (take k cs)))) as (r & rest & Hcut); [by apply Forall_drop|done..|].
    rewrite Hcut. unfold download. cbn [fst snd]. rewrite write_all_ok by done.
    eexists _, _. split; [reflexivity|]. split; [|done]. cbn [tx with_tx with_rx delivered].
    rewrite head_lookup, lookup_drop, Nat.add_0_r. by rewrite <- (assoc_L (++)).
  - cbn in Hp. subst eof. cbn [fst snd]. rewrite write_all_ok by done.
    rewrite (copy_from_frames_ok cs _ []); [|done| |done|cbn; rewrite Hrx; cbn [input_end]; by rewrite app_nil_r].
    + unfold download. cbn [fst snd]. rewrite write_all_ok by done.
      eexists _, _. split; [reflexivity|]. split; [done|]. cbn [tx with_tx with_rx].
      by rewrite <- (assoc_L (++)), take_drop.
    + unfold full_fuel. cbn [rx with_tx]. rewrite Hrx, !length_app. pose proof (frames_longer cs). lia.
Qed.

(** ** The socket file *)

(** Other users never reach the control socket: from the moment it is bound its
    directory is closed to them, whatever the umask, the earlier modes of the
    directory and the step at which the set-up fails; and once it is set up the
    socket itself is owner-only too. *)
Theorem control_socket_private umask fails fs op fs' :
  (op, fs') ∈ spawn_unix umask spawn_unix_ops fails fs ->
  match op with
  | BindSocket => dir_mode fs' = Some MODE_700 /\ Z.land MODE_700 MODE_OTHERS = 0
  | ChmodSocket => dir_mode fs' = Some MODE_700 /\ sock_mode fs' = Some MODE_600
                   /\ Z.land MODE_600 MODE_OTHERS = 0
  | RemoveStale => sock_mode fs' = None
  | _ => True
  end.
Proof.
  unfold spawn_unix_ops. cbn [spawn_unix].
  destruct (fails MakeDir); [set_solver|]. destruct (fails ChmodDir), (fails RemoveStale),
    (fails BindSocket), (fails ChmodSocket); intros Hin;
    repeat (apply elem_of_cons in Hin as [Heq|Hin]; [injection Heq as -> ->; done|]);
    by apply not_elem_of_nil in Hin.
Qed.

(** ** Witnesses *)

(** A codec for the requests and responses of the examples. *)
Definition RefRequestJson : Json Request := {|
  to_vec r := Ok (match r with StatusReq => str "S" | ConnPathReq => str "P" | ConnectReq _ _ => str "C" end);
  from_slice d := if decide (d = str "S") then Ok StatusReq
                  else if decide (d = str "P") then Ok ConnPathReq
                  else if decide (d = str "C") then Ok (ConnectReq (str "db.internal") 22)
                  else Err (str "unknown");
|}.

Definition RefResponseJson : Json Response := {|
  to_vec r := Ok (match r with ConnectedResp => str "connected" | ErrorResp m => x65 :: m | _ => str "x" end);
  from_slice d := if decide (d = str "connected") then Ok ConnectedResp
                  else match d with b :: m => Ok (ErrorResp m) | [] => Err (str "empty") end;
|}.

#[local] Existing Instances RefRequestJson RefResponseJson.

Lemma clean_line_dec line :
  forallb (fun b => negb (bool_decide (b = NL)) && negb (bool_decide (b = CR))) line
    && (Z.of_nat (length line) <=? MAX_LINE) = true -> clean_line line.
Proof.
  rewrite andb_true_iff, forallb_forall, Z.leb_le. intros [Hb Hl]. split_and!; [..|done];
    intros Hin; specialize (Hb _ (proj1 (list_elem_of_In _ _) Hin)); by vm_compute in Hb.
Qed.

Lemma control_line_bounded_example :
  read_line_capped (open_stream (str "{}" ++ [NL] ++ str "x")) = (Ok (3, str "{}"), open_stream (str "x")).
Proof. rewrite (read_line_ok (str "{}") (str "x")); [done|by apply clean_line_dec|done]. Qed.

Lemma tunnel_frames_exact_witness :
  copy_to_frames (mkSource [str "ab"; str "c"] None) (open_stream [])
  = (Ok tt, with_tx (open_stream []) (concat (frame <$> [str "ab"; str "c"]) ++ frame [])).
Proof.
  apply (tunnel_frames_exact [str "ab"; str "c"] [] (open_stream []) (open_stream []) (open_stream []) 3
    (open_stream [], open_stream [])); [|done|done|simpl; lia].
  repeat constructor; vm_compute; congruence.
Defined.

Lemma control_answers_in_order_witness :
  serve_connection 3 [Some ConnectedResp] (open_stream (str "S" ++ [NL] ++ str "??" ++ [NL]))
  = (Detached, mkStream [] None (line_of (str "connected") ++ line_of (str "eBad request: unknown")) None).
Proof.
  apply (control_answers_in_order [str "S"; str "??"] [Some ConnectedResp]
    [ConnectedResp; bad_request (str "unknown")] [] [str "connected"; str "eBad request: unknown"]
    (open_stream (str "S" ++ [NL] ++ str "??" ++ [NL])) [] (str "C") (str "db.internal") 22).
  - repeat constructor; apply clean_line_dec; vm_compute; reflexivity.
  - vm_compute. reflexivity.
  - repeat constructor.
  - reflexivity.
  - reflexivity.
  - split_and!; [reflexivity..|apply clean_line_dec; vm_compute; reflexivity].
  - reflexivity.
Defined.

Definition ref_asks : list Ask :=
  [mkAsk None false StatusReq; mkAsk (Some (Ok (open_stream []))) true ConnPathReq].

Lemma answers_match_requests_witness :
  ask_all (fun r => match r with StatusReq => str "e1" | _ => str "e2" end) ref_asks
    (mkIpcClient (Some (open_stream [])))
  = [(StatusReq, Err (str "Timed out waiting for the client's response"));
     (ConnPathReq, Ok (ErrorResp (str "2")))]
  /\ Forall (fun '(req, r) => forall resp, r = Ok resp ->
       resp = match req with StatusReq => ErrorResp (str "1") | _ => ErrorResp (str "2") end)
     (ask_all (fun r => match r with StatusReq => str "e1" | _ => str "e2" end) ref_asks
        (mkIpcClient (Some (open_stream [])))).
Proof.
  split; [vm_compute; reflexivity|].
  apply (answers_match_requests (fun req => match req with StatusReq => ErrorResp (str "1")
                                            | _ => ErrorResp (str "2") end)).
  - intros s [= <-]. done.
  - intros a s Ha Hs. unfold ref_asks in Ha. rewrite !elem_of_cons in Ha.
    destruct Ha as [->|[->|Ha]]; [done|injection Hs as <-; done|by apply not_elem_of_nil in Ha].
  - intros a Ha. unfold ref_asks in Ha. rewrite !elem_of_cons in Ha.
    destruct Ha as [->|[->|Ha]]; [| |by apply not_elem_of_nil in Ha];
      (split; [reflexivity|split_and!; [reflexivity..|apply clean_line_dec; vm_compute; reflexivity]]).
Defined.

Lemma control_socket_private_witness :
  exists fs', (BindSocket, fs') ∈ spawn_unix 0 spawn_unix_ops (fun op => match op with ChmodSocket => true | _ => false end)
      (mkSocketFs (Some MODE_777) (Some MODE_777))
    /\ dir_mode fs' = Some MODE_700.
Proof.
  eexists. split; [|apply (control_socket_private 0 (fun op => match op with ChmodSocket => true | _ => false end)
    (mkSocketFs (Some MODE_777) (Some MODE_777)) BindSocket)]; vm_compute; by do 4 (apply list_elem_of_here || apply list_elem_of_further).
Defined.
