(* ===== verification/Session.v ===== *)
(** * A client session of the command line ([flextunnel-cli])

    [instance.rs]: the key that names a client's lock and socket. [prompt.rs]: the
    questions of quick mode. [client_session.rs]: the configured forwards, the
    credentials, and the loop of a running session as a state machine over its
    [select!] arms, with the listener tasks of the forwards running beside it.
    [tui/mod.rs]: what the control panel does with keys and answers; its loop and
    screen are [Panel]. Key files and their parsing belong to flexaccess. *)

From S2P Require Import Prelude RustStr Net Stream Signaling Socks5 RoutedSet DnsForward Dial.
From S2P Require Import Blocklist Registry Server Client ClientProofs Http LocalConn Accept Forward.
From S2P Require Import ForwardProofs PortForwards Ipc ServerStream Startup Config.

(** ** Instances *)

Definition KEY_LEN : nat := 16.

Definition instance_key (server_node_id : bytes) : result bytes bytes :=
  let id := trim server_node_id in
  if bool_decide (length id < KEY_LEN)%nat || negb (forallb is_ascii_alphanumeric id)
  then Err (str "server_node_id does not look like a server EndpointId")
  else Ok (to_ascii_lowercase (take KEY_LEN id)).

Section instance.
Context {CE : ConfigEnv}.

Definition instance_dir : result bytes bytes :=
  home ← ok_or home_dir (str "Could not determine the home directory");
  Ok (path_join (path_join home (str ".config")) (str "flextunnel")).

Definition lock_path (key : bytes) : result bytes bytes :=
  dir ← instance_dir; Ok (path_join dir (str "client-" ++ key ++ str ".lock")).

Definition socket_path (key : bytes) : result bytes bytes :=
  dir ← instance_dir; Ok (path_join dir (str "client-" ++ key ++ str ".sock")).

Record Located : Type := mkLocated { loc_key : bytes; loc_profile : bytes }.

(** Why no client could be named. *)
Inductive LocateError : Type :=
| ConfigFailed (e : ConfigError)
| NamedConfigHasNoId (path : bytes)
| NoConfigDir
| DefaultConfigHasNoId (path : bytes)
| NoClientConfig (path : bytes) (profiles : option (list bytes))
| BadServerId (why : bytes).

(** The directory's entries that may be client profiles, sorted. *)
Definition profile_configs (entries : option (list bytes)) : option (list bytes) :=
  names ← entries;
  let names := isort bytes_le
    (filter (fun n => (ends_with n (str ".toml") && negb (bool_decide (n = str "server.toml"))) = true)
       names) in
  if bool_decide (names = []) then None else Some names.

Definition no_profile_error (entries : option (list bytes)) (config_path : option bytes)
  : LocateError :=
  match config_path with
  | Some path => NamedConfigHasNoId path
  | None =>
      match default_client_config_path with
      | None => NoConfigDir
      | Some p => if path_exists p then DefaultConfigHasNoId p
                  else NoClientConfig p (profile_configs entries)
      end
  end.

Definition cli_with_id (server_node_id : option bytes) : Config.ClientConfig :=
  mkClientConfig server_node_id None None None None None None None None None None.

(** [entries]: what listing the configuration directory gives, for the error. *)
Definition locate (entries : option (list bytes)) (config_path server_node_id : option bytes)
  : result LocateError Located :=
  file ← (if bool_decide (is_Some server_node_id) && bool_decide (config_path = None) then Ok None
          else map_err ConfigFailed (load_client_config config_path));
  let r := resolve_client (cli_with_id server_node_id) file in
  match rc_server_node_id r with
  | None => Err (no_profile_error entries config_path)
  | Some server_id =>
      key ← map_err BadServerId (instance_key server_id);
      Ok (mkLocated key (default (str "server " ++ key ++ str "…") (rc_name r)))
  end.
End instance.

(** ** Prompts *)

(** The terminal's lines; after the last one every read is at the end of the input
    and gives the empty line. [None]: still asking. *)
Section prompts.
Context {Id : Type} (id_parse : bytes -> option Id).

Fixpoint prompt_endpoint_id (fuel : nat) (lines : list bytes) : option (Id * list bytes) :=
  match fuel with
  | O => None
  | S fuel =>
      let value := trim (default [] (head lines)) in
      if bool_decide (value = []) then prompt_endpoint_id fuel (tail lines)
      else match id_parse value with
           | Some id => Some (id, tail lines)
           | None => prompt_endpoint_id fuel (tail lines)
           end
  end.
End prompts.

Fixpoint prompt_optional_port (fuel : nat) (lines : list bytes) : option (option Z * list bytes) :=
  match fuel with
  | O => None
  | S fuel =>
      let value := trim (default [] (head lines)) in
      if bool_decide (value = []) then Some (None, tail lines)
      else match parse_u16 value with
           | Some port => Some (Some port, tail lines)
           | None => prompt_optional_port fuel (tail lines)
           end
  end.

(** ** Forwards and credentials of a session *)

Definition numbered {A} (n : Z) (r : result bytes A) : result bytes A :=
  map_err (fun e => str "forward #" ++ dec n ++ str ": " ++ e) r.

Definition forward_of_config (n : Z) (entry : ForwardConfig) (forwards : list PortForward)
  : result bytes PortForward :=
  label ← numbered n (validate_label (fc_label entry));
  host ← numbered n (validate_remote_host (fc_remote_host entry));
  if fc_local_port entry =? 0 then numbered n (Err (str "local_port must be 1-65535"))
  else if fc_remote_port entry =? 0 then numbered n (Err (str "remote_port must be 1-65535"))
  else
  match list_find (fun f => pf_local_port f = fc_local_port entry) forwards with
  | Some (_, owner) =>
      numbered n (Err (str "local_port " ++ dec (fc_local_port entry) ++ str " is already used by "
                         ++ display_name owner))
  | None => Ok (mkPortForward (dec (fc_local_port entry)) label (fc_local_port entry) host
                  (fc_remote_port entry) true)
  end.

Fixpoint forwards_from (n : Z) (entries : list ForwardConfig) (forwards : list PortForward)
  : result bytes (list PortForward) :=
  match entries with
  | [] => Ok forwards
  | entry :: entries =>
      f ← forward_of_config n entry forwards;
      forwards_from (n + 1) entries (forwards ++ [f])
  end.

Definition forwards_from_config (entries : list ForwardConfig) : result bytes (list PortForward) :=
  forwards_from 1 entries [].

(** [from_secret_str] and [load_file] are flexaccess. *)
Definition resolve_client_key {K} (from_secret_str load_file : bytes -> result bytes K)
    (r : ResolvedClient) : result bytes K :=
  match rc_auth_key r, rc_auth_key_file r with
  | Some _, Some _ => Err (str "Provide only one of auth_key or auth_key_file, not both")
  | Some secret, None => map_err (fun _ => str "Invalid client secret key") (from_secret_str (trim secret))
  | None, Some path => map_err (fun _ => str "Failed to load the client key file") (load_file path)
  | None, None => Err (str "The client requires an authentication keypair.")
  end.

(** ** The running session *)

Record SessionState : Type := mkSessionState {
  ses_instance : bytes;
  ses_name : option bytes;
  ses_server_node_id : bytes;
  ses_client_node_id : bytes;
  ses_socks_addr : option SocketAddr;
  ses_http_addr : option SocketAddr;
  ever_connected : bool;
  connected_since : option Z;
  ses_reconnect : ReconnectStatus;
  disabled_reasons : gmap bytes bytes;
}.

Definition observe_connection (connected : bool) (now : Z) (st : SessionState) : SessionState :=
  mkSessionState (ses_instance st) (ses_name st) (ses_server_node_id st) (ses_client_node_id st)
    (ses_socks_addr st) (ses_http_addr st) (if connected then true else ever_connected st)
    (if connected then Some (default now (connected_since st)) else None)
    (ses_reconnect st) (disabled_reasons st).

Definition phase_of (st : SessionState) (connected : bool) : Ipc.Phase :=
  if connected then PhaseConnected else if ever_connected st then Reconnecting else Connecting.

Definition wire_forward (f : PortForward) : WireForward :=
  mkWireForward (pf_label f) (pf_local_port f) (pf_remote_host f) (pf_remote_port f).

Definition wire_routes (r : TunnelRoutes) : WireRoutes :=
  mkWireRoutes (domains r) (tr_cidrs r) (tr_host_aliases r) (tr_dns_forwards r)
    ((fun b => mkWireBridge (bs_name b) (bs_endpoint_id b) (bs_domains b) (bs_cidrs b)) <$> tr_bridges r).

Definition find_status (id : bytes) (sts : list ForwardStatus) : option ForwardStatus :=
  snd <$> list_find (fun s => st_id s = id) sts.

Definition forward_row (st : SessionState) (f : PortForward) (sts : list ForwardStatus) : ForwardRow :=
  if negb (pf_enabled f)
  then mkForwardRow (wire_forward f) RowStopped (disabled_reasons st !! pf_id f) 0 None
  else match find_status (pf_id f) sts with
       | None => mkForwardRow (wire_forward f) RowStarting None 0 None
       | Some s =>
           match st_state s with
           | Starting => mkForwardRow (wire_forward f) RowStarting None (st_active s) (st_last_conn_error s)
           | Listening => mkForwardRow (wire_forward f) RowListening None (st_active s) (st_last_conn_error s)
           | Failed reason =>
               mkForwardRow (wire_forward f) RowFailed (Some reason) (st_active s) (st_last_conn_error s)
           end
       end.

(** Instants are seconds here; [saturating_duration_since] stops at zero. *)
Definition snapshot (st : SessionState) (r : TunnelRoutes) (fs : list PortForward)
    (m : ForwardManager) (now : Z) : StatusSnapshot :=
  mkStatusSnapshot (ses_instance st) (ses_name st) (phase_of st (connected r))
    ((fun t => now - t) <$> connected_since st)
    (ses_server_node_id st) (ses_client_node_id st) (ses_socks_addr st) (ses_http_addr st)
    STATUS_HOST LOCALHOST_HOST (failed_attempts (ses_reconnect st))
    ((fun at_ => Z.max 0 (at_ - now)) <$> next_attempt_at (ses_reconnect st))
    (last_error (ses_reconnect st)) (wire_routes r)
    ((fun f => forward_row st f (statuses m)) <$> fs).

(** ** Building a session *)

(** How a session authenticates, and the ALPN and identity that follow. *)
Inductive SessionAuth (K S : Type) : Type :=
| AuthKey (k : K)
| AuthQuick (secret : S).
Arguments AuthKey {K S} k.
Arguments AuthQuick {K S} secret.

(** What the machine does for [build_session]: the relay configuration, the endpoint
    (its node id), and the address a bind yields. *)
Record BuildEnv (K S : Type) : Type := mkBuildEnv {
  be_relays : result bytes ();
  be_endpoint : SessionAuth K S -> result bytes bytes;
  be_bind : SocketAddr -> result io_error SocketAddr;
}.
Arguments be_relays {K S} b.
Arguments be_endpoint {K S} b a.
Arguments be_bind {K S} b a.

Inductive SessionEnd : Type :=
| ClientEnded (r : result ProxyError ())
| Signalled (r : result io_error ())
| PanelQuit.

Record Session : Type := mkSession {
  s_state : SessionState;
  s_forwards : list PortForward;
  s_mgr : ForwardManager;
  s_panel : bool;                   (* quick mode: the panel owns the channel *)
  s_end : option SessionEnd;
}.

Definition loopback_bind (port : Z) : SocketAddr := SockV4 IPV4_LOCALHOST port.

(** The addresses of a session are loopback ones, [127.0.0.1:port]. *)
Definition bind_error (label : bytes) (addr : SocketAddr) (e : io_error) : bytes :=
  match kind e with
  | AddrInUse => label ++ str " port " ++ dec (sa_port addr)
                   ++ str " is already in use — another flextunnel?"
  | _ => str "Failed to bind the " ++ label ++ str " listener on 127.0.0.1:" ++ dec (sa_port addr)
           ++ str ": " ++ text e
  end.

Definition bind_optional {K S} (env : BuildEnv K S) (label : bytes) (addr : option SocketAddr)
  : result bytes (option SocketAddr) :=
  match addr with
  | None => Ok None
  | Some a => got ← map_err (bind_error label a) (be_bind env a); Ok (Some got)
  end.

(** The outcome, whether the endpoint was closed again, and the addresses it tried
    to bind. *)
Record Build : Type := mkBuild {
  b_result : result bytes Session;
  b_endpoint_open : bool;
  b_binds : list SocketAddr;
}.

Definition build_session {K S} (env : BuildEnv K S) (r : ResolvedClient) (server_node_id : bytes)
    (auth : SessionAuth K S) (key : bytes) (forwards : list PortForward) : Build :=
  match be_relays env with
  | Err e => mkBuild (Err (str "Invalid relay configuration")) false []
  | Ok _ =>
      match be_endpoint env auth with
      | Err e => mkBuild (Err (str "Failed to create iroh endpoint")) false []
      | Ok node_id =>
          let socks_bind := loopback_bind <$> rc_socks_port r in
          let http_bind := loopback_bind <$> rc_http_port r in
          match bind_optional env (str "SOCKS") socks_bind with
          | Err e => mkBuild (Err e) false (option_list socks_bind)
          | Ok socks =>
              match bind_optional env (str "HTTP") http_bind with
              | Err e => mkBuild (Err e) false (option_list socks_bind ++ option_list http_bind)
              | Ok http =>
                  let panel := match auth with AuthQuick _ => true | AuthKey _ => false end in
                  mkBuild (Ok (mkSession
                    (mkSessionState key (rc_name r) server_node_id node_id socks http false None
                       ReconnectStatus_default ∅)
                    forwards (forwards_new forwards) panel None)) true
                    (option_list socks_bind ++ option_list http_bind)
              end
          end
      end
  end.

(** ** The session loop *)

Inductive SessionEvent : Type :=
| Tick (is_connected : bool) (rc : ReconnectStatus) (node_id : bytes) (now : Z)
| ListenerEvent (h : Z) (ev : ForwardEvent)
| ChannelClosed
| RunEnded (r : result ProxyError ())
| ShutdownSignal (r : result io_error ()).

Definition retain_reasons (failed : list (bytes * bytes)) (st : SessionState) : SessionState :=
  mkSessionState (ses_instance st) (ses_name st) (ses_server_node_id st) (ses_client_node_id st)
    (ses_socks_addr st) (ses_http_addr st) (ever_connected st) (connected_since st) (ses_reconnect st)
    (foldl (fun m ir => <[ir.1 := ir.2]> m) (disabled_reasons st) failed).

Definition refresh_state (rc : ReconnectStatus) (node_id : bytes) (st : SessionState) : SessionState :=
  mkSessionState (ses_instance st) (ses_name st) (ses_server_node_id st) node_id
    (ses_socks_addr st) (ses_http_addr st) (ever_connected st) (connected_since st) rc
    (disabled_reasons st).

Definition on_tick (is_connected : bool) (rc : ReconnectStatus) (node_id : bytes) (now : Z)
    (s : Session) : Session :=
  let '(forwards, failed) := disable_failed_forwards (s_forwards s) (statuses (s_mgr s)) in
  let '(st, m) := if bool_decide (failed = []) then (s_state s, s_mgr s)
                  else (retain_reasons failed (s_state s), forwards_apply (s_mgr s) forwards) in
  mkSession (refresh_state rc node_id (observe_connection is_connected now st)) forwards m
    (s_panel s) (s_end s).

(** The session ends: the forward manager is dropped. *)
Definition end_session (e : SessionEnd) (s : Session) : Session :=
  mkSession (s_state s) (s_forwards s) (manager_drop (s_mgr s)) (s_panel s) (Some e).

Definition session_step (s : Session) (ev : SessionEvent) : Session :=
  match s_end s with
  | Some _ => s
  | None =>
      match ev with
      | Tick c rc node_id now => on_tick c rc node_id now s
      | ListenerEvent h ev => mkSession (s_state s) (s_forwards s) (task_event h ev (s_mgr s))
                                (s_panel s) None
      | ChannelClosed => if s_panel s then end_session PanelQuit s else s
      | RunEnded r => end_session (ClientEnded r) s
      | ShutdownSignal r => end_session (Signalled r) s
      end
  end.

Definition drive_session (s : Session) (evs : list SessionEvent) : Session :=
  foldl session_step s evs.

(** ** The control panel *)

Inductive Mode : Type := Normal | ConnPathMode (s : WireConnSnapshot).

Record App : Type := mkApp {
  app_snapshot : StatusSnapshot;
  routing_scroll : Z;
  forwards_scroll : Z;
  app_mode : Mode;
  notice : option bytes;
}.

Definition App_new (s : StatusSnapshot) : App := mkApp s 0 0 Normal None.

Inductive PanelKey : Type :=
  | KeyQuit | KeyUp | KeyDown | KeyPageUp | KeyPageDown | KeyProbe
  | KeyEnter | KeyRefresh | KeyInterrupt | KeyOther.

Definition sat_sub (a b : Z) : Z := Z.max 0 (a - b).
Definition sat_add16 (a b : Z) : Z := Z.min U16_MAX (a + b).

(** The answer to a probe of the connection: an outer error ends the panel. *)
Definition conn_path_answer (debug : Response -> bytes) (answer : result bytes Response)
  : result bytes (result bytes WireConnSnapshot) :=
  resp ← answer;
  Ok (match resp with
      | ConnPathResp s => Ok s
      | ErrorResp message => Err message
      | other => Err (str "unexpected response to a conn-path request: " ++ debug other)
      end).

Definition set_mode (m : Mode) (n : option bytes) (a : App) : App :=
  mkApp (app_snapshot a) (routing_scroll a) (forwards_scroll a) m n.

(** [answer]: what the session answers to the request the key makes, if it does. *)
Definition handle_normal_key (debug : Response -> bytes) (answer : result bytes Response)
    (k : PanelKey) (a : App) : result bytes (bool * App) :=
  match k with
  | KeyQuit => Ok (true, a)
  | KeyUp => Ok (false, mkApp (app_snapshot a) (routing_scroll a) (sat_sub (forwards_scroll a) 1)
                          (app_mode a) (notice a))
  | KeyDown => Ok (false, mkApp (app_snapshot a) (routing_scroll a) (sat_add16 (forwards_scroll a) 1)
                            (app_mode a) (notice a))
  | KeyPageUp => Ok (false, mkApp (app_snapshot a) (sat_sub (routing_scroll a) 3) (forwards_scroll a)
                              (app_mode a) (notice a))
  | KeyPageDown => Ok (false, mkApp (app_snapshot a) (sat_add16 (routing_scroll a) 3)
                                (forwards_scroll a) (app_mode a) (notice a))
  | KeyProbe => got ← conn_path_answer debug answer;
                Ok (false, match got with
                           | Ok s => set_mode (ConnPathMode s) (notice a) a
                           | Err message => set_mode (app_mode a) (Some message) a
                           end)
  | _ => Ok (false, a)
  end.

Definition handle_conn_path_key (debug : Response -> bytes) (answer : result bytes Response)
    (k : PanelKey) (a : App) : result bytes App :=
  match k with
  | KeyRefresh => got ← conn_path_answer debug answer;
                  Ok (match got with
                      | Ok s => set_mode (ConnPathMode s) (notice a) a
                      | Err message => set_mode Normal (Some message) a
                      end)
  | KeyQuit | KeyEnter => Ok (set_mode Normal (notice a) a)
  | _ => Ok a
  end.

(** One key press: the notice is cleared, then the mode decides. *)
Definition press (debug : Response -> bytes) (answer : result bytes Response) (k : PanelKey) (a : App)
  : result bytes (bool * App) :=
  let a := set_mode (app_mode a) None a in
  match k, app_mode a with
  | KeyInterrupt, _ => Ok (true, a)
  | _, Normal => handle_normal_key debug answer k a
  | _, ConnPathMode _ => a' ← handle_conn_path_key debug answer k a; Ok (false, a')
  end.

(** The one-second refresh. *)
Definition request_snapshot (debug : Response -> bytes) (answer : result bytes Response)
  : result bytes StatusSnapshot :=
  resp ← answer;
  match resp with
  | StatusResp s => Ok s
  | ErrorResp message => Err message
  | other => Err (str "unexpected response to a status request: " ++ debug other)
  end.

(** [transport/paths.rs]: how long a relay that does not answer is waited for. *)
Definition HEALTHZ_TIMEOUT : Z := 3000.

(** The panel's request for a connection snapshot that takes [elapsed] ms. *)
Definition panel_request (elapsed : Z) (resp : Response) : result bytes Response :=
  if elapsed <? REQUEST_TIMEOUT then Ok resp
  else Err (str "Timed out waiting for the client's response").
