(* ===== verification/SessionProofs.v ===== *)
(** * Client sessions: what holds of them

    The forwards a configuration declares, the session loop over all orders of its
    events, the loopback binds, and the instance key that the attaching commands
    share with the running client. *)

From S2P Require Import Prelude RustStr Net Stream Signaling Socks5 RoutedSet DnsForward Dial.
From S2P Require Import Blocklist Registry Server Client ClientProofs Http LocalConn Accept Forward.
From S2P Require Import ForwardProofs PortForwards Ipc ServerStream Startup Config Session.

(** ** Configured forwards *)

Lemma dec_inj a b : wf_u16 a -> wf_u16 b -> dec a = dec b -> a = b.
Proof.
  intros Ha Hb Hd. apply (f_equal parse_u16) in Hd. rewrite !parse_u16_dec in Hd by done. congruence.
Qed.

(** What the Rust type guarantees of an entry. *)
Definition wf_entry (e : ForwardConfig) : Prop := wf_u16 (fc_local_port e) /\ wf_u16 (fc_remote_port e).

(** What a forward made from an entry satisfies. *)
Record from_entry (e : ForwardConfig) (f : PortForward) : Prop := mkFromEntry {
  fe_id : pf_id f = dec (pf_local_port f);
  fe_local : pf_local_port f = fc_local_port e;
  fe_remote : pf_remote_port f = fc_remote_port e;
  fe_ports : 1 <= pf_local_port f <= 65535 /\ 1 <= pf_remote_port f <= 65535;
  fe_host : validate_remote_host (pf_remote_host f) = Ok (pf_remote_host f);
  fe_label : char_count (pf_label f) <= MAX_LABEL_LEN;
  fe_enabled : pf_enabled f = true;
}.

Lemma forward_of_config_ok n e fs f :
  wf_entry e -> forward_of_config n e fs = Ok f ->
  from_entry e f /\ (fc_local_port e ∉ pf_local_port <$> fs).
Proof.
  unfold forward_of_config, numbered. intros [Hwl Hwr].
  destruct (validate_label (fc_label e)) as [label|] eqn:Hl; [|done]. simpl.
  destruct (validate_remote_host (fc_remote_host e)) as [host|] eqn:Hh; [|done]. simpl.
  destruct (Z.eqb_spec (fc_local_port e) 0); [done|].
  destruct (Z.eqb_spec (fc_remote_port e) 0); [done|].
  destruct (list_find _ fs) as [[i o]|] eqn:Hf; [done|]. intros [= <-]. unfold wf_u16 in *. split.
  - split; simpl; try done; [lia| |].
    + by apply validate_remote_host_shape in Hh as (_ & _ & _ & Hh).
    + unfold validate_label in Hl. destruct (Z.ltb_spec MAX_LABEL_LEN (char_count (trim (fc_label e)))); [done|].
      by injection Hl as <-.
  - apply list_find_None in Hf. intros (g & Hg & Hin)%list_elem_of_fmap.
    rewrite Forall_forall in Hf. by apply (Hf g Hin).
Qed.

Lemma forwards_from_ok entries n fs0 fs :
  Forall wf_entry entries -> forwards_from n entries fs0 = Ok fs -> NoDup (pf_local_port <$> fs0) ->
  NoDup (pf_local_port <$> fs)
  /\ exists fs', fs = fs0 ++ fs' /\ Forall2 from_entry entries fs'.
Proof.
  revert n fs0. induction entries as [|e entries IH]; intros n fs0 Hw; simpl.
  - intros [= ->] Hd. split; [done|]. exists []. by rewrite app_nil_r.
  - apply Forall_cons in Hw as [He Hw].
    destruct (forward_of_config n e fs0) as [f|] eqn:Hf; [|done]. simpl. intros Hr Hd.
    apply forward_of_config_ok in Hf as [Hfe Hn]; [|done].
    destruct (IH (n + 1) (fs0 ++ [f]) Hw Hr) as (Hd' & fs' & -> & Hall).
    { rewrite fmap_app. apply NoDup_app. split_and!; [done| |apply NoDup_singleton].
      intros x Hx Hy%list_elem_of_singleton. subst. by rewrite (fe_local e f Hfe) in Hx. }
    split; [done|]. exists (f :: fs'). rewrite <- (assoc_L (++)). by split; [|constructor].
Qed.

Lemma from_entry_range entries fs f :
  Forall2 from_entry entries fs -> f ∈ fs -> exists e, from_entry e f.
Proof.
  intros Hall Hf. apply list_elem_of_lookup in Hf as [i Hi].
  destruct (Forall2_lookup_r _ _ _ _ _ Hall Hi) as (e & _ & He). eauto.
Qed.

Lemma ids_NoDup entries fs :
  Forall2 from_entry entries fs -> NoDup (pf_local_port <$> fs) -> NoDup (pf_id <$> fs).
Proof.
  intros Hall Hd. rewrite <- (list_fmap_ext (dec ∘ pf_local_port) pf_id).
  - rewrite list_fmap_compose. apply NoDup_fmap_2_strong; [|done].
    intros x y (f & -> & Hf)%list_elem_of_fmap (g & -> & Hg)%list_elem_of_fmap Hxy.
    destruct (from_entry_range _ _ _ Hall Hf) as [e [_ _ _ Hp _ _ _]].
    destruct (from_entry_range _ _ _ Hall Hg) as [e' [_ _ _ Hp' _ _ _]].
    apply dec_inj in Hxy; unfold wf_u16; [done|lia..].
  - intros i f Hf. apply list_elem_of_lookup_2 in Hf.
    destruct (from_entry_range _ _ _ Hall Hf) as [e He]. symmetry. apply He.
Qed.

(** The forwards of a client configuration that is accepted: one per entry and in
    its order, on pairwise distinct non-zero local ports, with pairwise distinct
    ids, a host that validates as it is stored, a label of at most 64 characters,
    and switched on. *)
Theorem configured_forwards_wellformed entries fs :
  Forall wf_entry entries -> forwards_from_config entries = Ok fs ->
  Forall2 from_entry entries fs /\ NoDup (pf_local_port <$> fs) /\ NoDup (pf_id <$> fs).
Proof.
  intros Hw Hf. destruct (forwards_from_ok entries 1 [] fs Hw Hf (NoDup_nil_2)) as (Hd & fs' & -> & Hall).
  split_and!; [done..|by eapply ids_NoDup].
Qed.

(** ** The session loop *)

Definition mgr_reachable (m : ForwardManager) : Prop := exists w evs, m = manager_run w evs.

Lemma reachable_new l : mgr_reachable (manager_new l).
Proof. by exists l, []. Qed.

Lemma reachable_step m ev : mgr_reachable m -> mgr_reachable (manager_exec m ev).
Proof. intros (w & evs & ->). exists w, (evs ++ [ev]). unfold manager_run. by rewrite foldl_app. Qed.

Lemma reachable_inv m : mgr_reachable m -> mgr_inv m.
Proof. intros (w & evs & ->). apply manager_run_inv. Qed.

(** The manager runs exactly the enabled forwards. *)
Definition tracks (m : ForwardManager) (fs : list PortForward) : Prop :=
  (forall id, is_Some (tasks m !! id) <-> exists f, f ∈ fs /\ pf_id f = id /\ pf_enabled f = true)
  /\ (forall f, f ∈ fs -> pf_enabled f = true -> exists h, tasks m !! pf_id f = Some (mkTask (pf_spec f) h)).

Lemma apply_tracks m fs : mgr_inv m -> NoDup (pf_id <$> fs) -> tracks (forwards_apply m fs) fs.
Proof.
  intros Hm Hd. pose proof (enabled_specs_NoDup fs Hd) as Hd'. split.
  - intros id. unfold forwards_apply. rewrite apply_dom by done. rewrite list_elem_of_fmap. split.
    + intros (s & -> & (f & Hf & He & <-)%enabled_specs_elem). by exists f.
    + intros (f & Hf & <- & He). exists (pf_spec f). split; [done|]. apply enabled_specs_elem. eauto.
  - intros f Hf He. destruct (apply_lookup m (enabled_specs fs) (pf_spec f) Hm Hd') as (h & Hh & _).
    { apply enabled_specs_elem. eauto. }
    exists h. exact Hh.
Qed.

Lemma switch_failed_enabled sts f : pf_enabled (switch_failed sts f) = true -> switch_failed sts f = f.
Proof. unfold switch_failed. by case_match. Qed.

(** Nothing was reported as failed: nothing was switched off. *)
Lemma none_disabled fs sts :
  NoDup (pf_id <$> fs) -> (disable_failed_forwards fs sts).2 = [] ->
  (disable_failed_forwards fs sts).1 = fs.
Proof.
  intros Hd Hn. rewrite disable_failed_forwards_fst by done.
  rewrite <- (list_fmap_id fs) at 2. apply list_fmap_ext. intros i f Hf.
  apply list_elem_of_lookup_2 in Hf. unfold switch_failed.
  destruct (failed_reason (pf_id f) sts) as [r|] eqn:Hr; [|done].
  destruct (pf_enabled f) eqn:He; [|by apply switched_off_id].
  assert (Hin : (pf_id f, r) ∈ (disable_failed_forwards fs sts).2) by (apply PortForwards.disabled_reasons; eauto).
  rewrite Hn in Hin. by apply not_elem_of_nil in Hin.
Qed.

Lemma foldl_reasons failed m id :
  is_Some (foldl (fun (m : gmap bytes bytes) (ir : bytes * bytes) => <[ir.1 := ir.2]> m) m failed !! id)
  <-> is_Some (m !! id) \/ id ∈ failed.*1.
Proof.
  revert m. induction failed as [|[i r] failed IH]; intros m; simpl; [set_solver|].
  rewrite IH, lookup_insert_is_Some. destruct (decide (i = id)); set_solver.
Qed.

(** [ses_inv fs0 s]: the session's forwards are those it started with, some switched
    off, each of these with a reason; the manager runs the others. *)
Record ses_inv (fs0 : list PortForward) (s : Session) : Prop := mkSesInv {
  si_forwards : Forall2 (fun f0 f => f = f0 \/ f = switched_off f0) fs0 (s_forwards s);
  si_reasons : forall f, f ∈ s_forwards s -> pf_enabled f = false ->
    is_Some (disabled_reasons (s_state s) !! pf_id f);
  si_reach : s_end s = None -> mgr_reachable (s_mgr s);
  si_tracks : s_end s = None -> tracks (s_mgr s) (s_forwards s);
  si_ended : s_end s <> None -> runs (s_mgr s) = ∅;
}.

Lemma same_ids fs0 fs :
  Forall2 (fun f0 f => f = f0 \/ f = switched_off f0) fs0 fs -> pf_id <$> fs = pf_id <$> fs0.
Proof. induction 1 as [|f0 f fs0 fs [->| ->] _ IH]; [done|..]; rewrite !fmap_cons, IH; done. Qed.

Lemma switched_trans sts fs0 fs :
  Forall2 (fun f0 f => f = f0 \/ f = switched_off f0) fs0 fs ->
  Forall2 (fun f0 f => f = f0 \/ f = switched_off f0) fs0 (switch_failed sts <$> fs).
Proof.
  induction 1 as [|f0 f fs0 fs Hf _ IH]; [constructor|]. rewrite fmap_cons. constructor; [|done].
  unfold switch_failed. destruct Hf as [->| ->]; case_match; auto.
Qed.

Lemma drop_runs m : mgr_inv m -> runs (manager_drop m) = ∅.
Proof.
  intros Hm. apply map_empty. intros h. apply map_lookup_filter_None. right.
  intros run Hr Hn. apply Hn, elem_of_handles. by eapply mi_live.
Qed.

Lemma end_session_inv fs0 e s : s_end s = None -> ses_inv fs0 s -> ses_inv fs0 (end_session e s).
Proof.
  intros He [Hf Hr Hm Ht _]. split; simpl; try done. intros _. by apply drop_runs, reachable_inv, Hm.
Qed.

Lemma on_tick_inv fs0 c rc node now s :
  NoDup (pf_id <$> fs0) -> s_end s = None -> ses_inv fs0 s -> ses_inv fs0 (on_tick c rc node now s).
Proof.
  intros Hd He [Hf Hr Hm Ht _]. specialize (Hm He). specialize (Ht He).
  assert (Hd' : NoDup (pf_id <$> s_forwards s)) by (by rewrite (same_ids fs0)).
  unfold on_tick. destruct (disable_failed_forwards (s_forwards s) (statuses (s_mgr s))) as [fs failed] eqn:Hdf.
  pose proof (disable_failed_forwards_fst (s_forwards s) (statuses (s_mgr s)) Hd') as Hfst.
  pose proof (PortForwards.disabled_reasons (s_forwards s) (statuses (s_mgr s))) as Hsnd.
  rewrite Hdf in Hfst, Hsnd. simpl in Hfst, Hsnd.
  assert (Hf' : Forall2 (fun f0 f => f = f0 \/ f = switched_off f0) fs0 fs)
    by (rewrite Hfst; by apply switched_trans).
  destruct (bool_decide_reflect (failed = [])) as [->|Hne].
  - assert (Hsame : fs = s_forwards s).
    { pose proof (none_disabled (s_forwards s) (statuses (s_mgr s)) Hd') as Hx. rewrite Hdf in Hx. by apply Hx. }
    subst fs. rewrite He. rewrite Hsame. split; simpl; try done.
  - apply mkSesInv; simpl.
    + done.
    + intros f Hin Hoff. apply foldl_reasons. rewrite Hfst in Hin.
      apply list_elem_of_fmap in Hin as (g & -> & Hg). rewrite switch_failed_id.
      destruct (pf_enabled g) eqn:Heg.
      * right. unfold switch_failed in Hoff.
        destruct (failed_reason (pf_id g) (statuses (s_mgr s))) as [r|] eqn:Hfr; [|congruence].
        apply list_elem_of_fmap. exists (pf_id g, r). split; [done|]. apply Hsnd; [done|]. eauto.
      * left. by apply Hr.
    + intros _. by apply (reachable_step _ (Apply (enabled_specs fs))).
    + intros _. apply apply_tracks; [by apply reachable_inv|by rewrite (same_ids fs0)].
    + by rewrite He.
Qed.

Lemma task_event_tracks h ev m fs : tracks m fs -> tracks (task_event h ev m) fs.
Proof. done. Qed.

Lemma session_step_inv fs0 s ev :
  NoDup (pf_id <$> fs0) -> ses_inv fs0 s -> ses_inv fs0 (session_step s ev).
Proof.
  intros Hd Hs. unfold session_step. destruct (s_end s) as [e|] eqn:He; [done|].
  destruct ev as [c rc node now|h ev| |r|r].
  - by apply on_tick_inv.
  - destruct Hs as [Hf Hr Hm Ht _]. split; simpl; try done; [|intros _; by apply Ht].
    intros _. by apply (reachable_step _ (TaskEvent h ev)), Hm.
  - destruct (s_panel s); [by apply end_session_inv|done].
  - by apply end_session_inv.
  - by apply end_session_inv.
Qed.

Lemma drive_session_inv fs0 s evs :
  NoDup (pf_id <$> fs0) -> ses_inv fs0 s -> ses_inv fs0 (drive_session s evs).
Proof.
  revert s. induction evs as [|ev evs IH]; intros s Hd Hs; simpl; [done|].
  by apply IH, session_step_inv.
Qed.

(** The status row of a forward follows its run. *)
Definition row_of (st : ForwardState) : ForwardRowState :=
  match st with Starting => RowStarting | Listening => RowListening | Failed _ => RowFailed end.

Lemma find_status_run m id t run :
  mgr_inv m -> tasks m !! id = Some t -> runs m !! task_handle t = Some run ->
  find_status id (statuses m) = Some (Forward.mkStatus id (sh_state (run_shared run)) (sh_active (run_shared run))
                                        (sh_last_conn_error (run_shared run))).
Proof.
  intros Hm Ht Hr. unfold find_status.
  set (st := Forward.mkStatus id (sh_state (run_shared run)) (sh_active (run_shared run))
               (sh_last_conn_error (run_shared run))).
  destruct (list_find (fun s => st_id s = id) (statuses m)) as [[i s]|] eqn:Hf.
  - apply list_find_Some in Hf as (Hi & Hid & _). apply list_elem_of_lookup_2 in Hi.
    apply statuses_elem in Hi; [|done]. destruct Hi as (t' & run' & Ht' & Hr' & Hs).
    rewrite Hid in Ht'. simplify_eq. simpl. f_equal. by rewrite Hs.
  - apply list_find_None in Hf. rewrite Forall_forall in Hf. destruct (Hf st); [|done].
    apply statuses_elem; [done|]. by exists t, run.
Qed.

Lemma build_session_inv {K S} (env : BuildEnv K S) r id auth key fs s :
  NoDup (pf_id <$> fs) -> Forall (fun f => pf_enabled f = true) fs ->
  b_result (build_session env r id auth key fs) = Ok s -> ses_inv fs s /\ s_end s = None.
Proof.
  intros Hd Hen. unfold build_session. destruct (be_relays env); [|done].
  destruct (be_endpoint env auth); [|done].
  destruct (bind_optional env (str "SOCKS") _); [|done].
  destruct (bind_optional env (str "HTTP") _); [|done]. simpl. intros [= <-]. split; [|done].
  apply mkSesInv; simpl.
  - by apply Forall2_same_length_lookup_2; [|intros i f0 f H1 H2; simplify_eq; left].
  - intros f Hf Hoff. rewrite Forall_forall in Hen. rewrite (Hen f Hf) in Hoff. done.
  - intros _. apply reachable_new.
  - intros _. apply (apply_tracks (mkManager ∅ ∅ 0)); [apply empty_mgr_inv|done].
  - done.
Qed.

(** C23. Over a whole session, whatever its ticks, listener tasks and requests do and
    in whatever order: its forwards are the configured ones in their order, each on
    or switched off; a forward that is on has exactly one task, on its own spec,
    and its status row shows that task's state; one that is off has none, and its
    row gives the reason; no task belongs to anything else; and when the session
    has ended no listener is left. *)
Theorem session_tracks_forwards {K S} (env : BuildEnv K S) r id auth key entries fs s0 evs :
  Forall wf_entry entries -> forwards_from_config entries = Ok fs ->
  b_result (build_session env r id auth key fs) = Ok s0 ->
  let s := drive_session s0 evs in
  Forall2 (fun f0 f => f = f0 \/ f = switched_off f0) fs (s_forwards s)
  /\ (s_end s <> None -> runs (s_mgr s) = ∅)
  /\ (s_end s = None ->
      (forall h run, runs (s_mgr s) !! h = Some run ->
         exists f, f ∈ s_forwards s /\ pf_enabled f = true
           /\ tasks (s_mgr s) !! pf_id f = Some (mkTask (pf_spec f) h))
      /\ forall f, f ∈ s_forwards s ->
         let row := forward_row (s_state s) f (statuses (s_mgr s)) in
         if pf_enabled f
         then exists h run, tasks (s_mgr s) !! pf_id f = Some (mkTask (pf_spec f) h)
                /\ runs (s_mgr s) !! h = Some run
                /\ row_state row = row_of (sh_state (run_shared run))
                /\ row_active row = sh_active (run_shared run)
         else tasks (s_mgr s) !! pf_id f = None /\ row_state row = RowStopped
              /\ is_Some (row_error row)).
Proof.
  intros Hw Hfc Hb s.
  destruct (forwards_from_ok entries 1 [] fs Hw Hfc NoDup_nil_2) as (Hdp & fs' & Hfs & Hall). simpl in Hfs. subst fs'.
  pose proof (ids_NoDup _ _ Hall Hdp) as Hd.
  assert (Hen : Forall (fun f => pf_enabled f = true) fs).
  { apply Forall_forall. intros f Hf. destruct (from_entry_range _ _ _ Hall Hf) as [e He]. apply He. }
  destruct (build_session_inv env r id auth key fs s0 Hd Hen Hb) as [Hs0 _].
  destruct (drive_session_inv fs s0 evs Hd Hs0) as [Hf Hr Hm Ht He]. fold s in Hf, Hr, Hm, Ht, He.
  split; [done|]. split; [done|]. intros Hend. specialize (Hm Hend). specialize (Ht Hend) as [Hdom Hspec].
  pose proof (reachable_inv _ Hm) as Hinv. split.
  - intros h run Hrun. destruct (mi_live _ Hinv h run Hrun) as (i & t & Hti & <-).
    destruct (proj1 (Hdom i)) as (f & Hin & <- & Hfe); [by eexists|]. exists f. split_and!; [done..|].
    destruct (Hspec f Hin Hfe) as [h Hh]. rewrite Hti in Hh. simplify_eq. done.
  - intros f Hin row. destruct (pf_enabled f) eqn:Hfe.
    + destruct (Hspec f Hin Hfe) as [h Hh]. destruct (mi_run _ Hinv _ _ Hh) as [evs' Hrun]. simpl in Hrun.
      exists h, (forward_run evs' (run_forward_init (pf_spec f))). split; [done|]. split; [done|].
      unfold row, forward_row. rewrite Hfe. simpl.
      rewrite (find_status_run _ _ _ _ Hinv Hh Hrun). simpl.
      by destruct (sh_state (run_shared (forward_run evs' (run_forward_init (pf_spec f))))).
    + split; [|unfold row, forward_row; rewrite Hfe; simpl; split; [done|by apply Hr]].
      apply eq_None_not_Some. intros (g & Hg & Hid & Hge)%Hdom.
      assert (Hgf : g = f).
      { assert (Hnd : NoDup (pf_id <$> s_forwards s)) by (by rewrite (same_ids fs)).
        apply list_elem_of_lookup in Hg as [i Hi], Hin as [j Hj].
        assert (i = j) as ->; [|congruence].
        apply (NoDup_lookup (pf_id <$> s_forwards s) i j (pf_id f)); [done|..];
          rewrite list_lookup_fmap; [rewrite Hi|rewrite Hj]; simpl; congruence. }
      congruence.
Qed.

(** A forward that was switched off stays off until the session ends, although its
    listeners would have been bound again: the panel cannot switch it on. *)
Theorem switched_off_for_good s evs i f :
  NoDup (pf_id <$> s_forwards s) -> s_forwards s !! i = Some f -> pf_enabled f = false ->
  s_forwards (drive_session s evs) !! i = Some f.
Proof.
  revert s. induction evs as [|ev evs IH]; intros s Hd Hi Hoff; simpl; [done|].
  assert (Hstep : s_forwards (session_step s ev) !! i = Some f /\ NoDup (pf_id <$> s_forwards (session_step s ev))).
  { unfold session_step. destruct (s_end s); [done|].
    destruct ev as [c rc node now|h ev| |r|r]; try done; [|by destruct (s_panel s)].
    unfold on_tick. destruct (disable_failed_forwards (s_forwards s) (statuses (s_mgr s))) as [fs failed] eqn:Hdf.
    pose proof (disable_failed_forwards_fst (s_forwards s) (statuses (s_mgr s)) Hd) as Hfst.
    rewrite Hdf in Hfst. simpl in Hfst. destruct (bool_decide (failed = [])); simpl; rewrite Hfst;
      (split; [|by apply switch_failed_NoDup]); rewrite list_lookup_fmap, Hi; simpl; f_equal;
      unfold switch_failed; case_match; try done; by apply switched_off_id. }
  destruct Hstep as [Hi' Hd']. by apply IH.
Qed.

(** ** Set-up *)

(** The unauthenticated local front ends of a session are bound on loopback only,
    whatever the configuration; and a session that cannot be built leaves no
    endpoint open. *)
Theorem session_binds_loopback_only {K S} (env : BuildEnv K S) r id auth key fs :
  let b := build_session env r id auth key fs in
  Forall (fun a => is_loopback (sa_ip a) = true) (b_binds b)
  /\ (b_endpoint_open b = true <-> is_ok (b_result b) = true).
Proof.
  unfold build_session. destruct (be_relays env); [|by split; [constructor|]].
  destruct (be_endpoint env auth); [|by split; [constructor|]].
  assert (Hl : forall p, Forall (fun a => is_loopback (sa_ip a) = true) (option_list (loopback_bind <$> p)))
    by (intros [p|]; repeat constructor).
  destruct (bind_optional env (str "SOCKS") _); simpl; [|by split; [apply Hl|]].
  destruct (bind_optional env (str "HTTP") _); simpl; (split; [apply Forall_app; split; apply Hl|done]).
Qed.

(** ** Instance keys *)

Lemma lower_alnum b :
  is_ascii_alphanumeric (to_lower b) = is_ascii_alphanumeric b /\ is_ascii_uppercase (to_lower b) = false.
Proof. by destruct b. Qed.

Lemma forallb_lower_alnum s :
  forallb is_ascii_alphanumeric (to_ascii_lowercase s) = forallb is_ascii_alphanumeric s.
Proof.
  induction s as [|b s IH]; simpl; [done|]. rewrite IH. by rewrite (proj1 (lower_alnum b)).
Qed.

Lemma take_lower n s : take n (to_ascii_lowercase s) = to_ascii_lowercase (take n s).
Proof. apply firstn_map. Qed.

Lemma instance_key_ok id key :
  instance_key id = Ok key <->
  (KEY_LEN <= length (trim id))%nat /\ forallb is_ascii_alphanumeric (trim id) = true
  /\ key = to_ascii_lowercase (take KEY_LEN (trim id)).
Proof.
  unfold instance_key. destruct (bool_decide_reflect (length (trim id) < KEY_LEN)%nat) as [Hl|Hl]; simpl.
  - split; [done|]. intros [? _]. lia.
  - destruct (forallb is_ascii_alphanumeric (trim id)); simpl; [|naive_solver].
    split; [intros [= <-]; split_and!; [lia|done|done]|by intros (_ & _ & ->)].
Qed.

(** An instance key is sixteen lower-case letters and digits, so that the lock and
    socket paths it names stay inside the instance directory whatever the
    configuration says; and two spellings of an id that differ in surrounding
    blanks or in case have the same key. *)
Theorem instance_key_safe id key :
  instance_key id = Ok key ->
  length key = KEY_LEN
  /\ forallb (fun b => is_ascii_alphanumeric b && negb (is_ascii_uppercase b)) key = true
  /\ forall id', to_ascii_lowercase (trim id') = to_ascii_lowercase (trim id) -> instance_key id' = Ok key.
Proof.
  intros (Hl & Ha & ->)%instance_key_ok. split; [|split].
  - by rewrite length_to_ascii_lowercase, length_take_le.
  - assert (Ht : forallb is_ascii_alphanumeric (take KEY_LEN (trim id)) = true).
    { rewrite <- (take_drop KEY_LEN (trim id)) in Ha. rewrite forallb_app in Ha.
      by apply andb_true_iff in Ha as [Ha _]. }
    revert Ht. generalize (take KEY_LEN (trim id)). induction l as [|b l IH]; simpl; [done|].
    destruct (lower_alnum b) as [-> ->]. destruct (is_ascii_alphanumeric b); [|done]. simpl. apply IH.
  - intros id' He. apply instance_key_ok. split_and!.
    + rewrite <- (length_to_ascii_lowercase (trim id')), He. by rewrite length_to_ascii_lowercase.
    + by rewrite <- forallb_lower_alnum, He, forallb_lower_alnum.
    + by rewrite <- !take_lower, He.
Qed.

Section locating.
Context {CE : ConfigEnv}.

(** The key under which [client start] runs, from its flags. *)
Definition start_key (config_path : option bytes) (cli : Config.ClientConfig) : result LocateError bytes :=
  file ← map_err ConfigFailed (load_client_config config_path);
  match rc_server_node_id (resolve_client cli file) with
  | None => Err (BadServerId (str "The client requires a server node id"))
  | Some id => map_err BadServerId (instance_key id)
  end.

(** The attaching commands find the running client: a client started with some
    [-c] and [-n] flags, whatever its other flags, and a [client control] or
    [client nc] with the same two flags derive the same instance key. *)
Theorem locate_finds_client entries config_path cli key :
  start_key config_path cli = Ok key ->
  exists l, locate entries config_path (cc_server_node_id cli) = Ok l /\ loc_key l = key.
Proof.
  unfold start_key, locate. destruct (load_client_config config_path) as [file|e]; [|done]. simpl.
  unfold resolve_client at 1.
  destruct (bool_decide (is_Some (cc_auth_key cli)) || bool_decide (is_Some (cc_auth_key_file cli))); simpl;
    (destruct (cc_server_node_id cli) as [id|] eqn:Hid; simpl;
      [destruct (bool_decide (config_path = None)); simpl; destruct (instance_key id) as [k|]; simpl; [|done|..];
         intros [= <-]; eexists; (split; [reflexivity|done])
      |destruct (cc_server_node_id (default ClientConfig_default file)) as [id|]; simpl; [|done];
         destruct (instance_key id) as [k|]; simpl; [|done]; intros [= <-]; eexists; (split; [reflexivity|done])]).
Qed.
End locating.

(** ** What the code does that its texts do not say *)

(** A probe of an unreachable custom relay outlasts the panel's own timeout: the
    panel, which treats a failed round trip as a lost client, ends. *)
Theorem slow_probe_ends_panel debug a resp :
  app_mode a = Normal ->
  press debug (panel_request HEALTHZ_TIMEOUT resp) KeyProbe a
  = Err (str "Timed out waiting for the client's response").
Proof. intros Hm. unfold press. simpl. by rewrite Hm. Qed.

(** The phase is computed from what the last tick saw: a session can show
    [Connected], lose the connection before a tick, and show [Connecting], as if it
    had never been connected. *)
Theorem phase_can_regress st :
  ever_connected st = false ->
  phase_of st true = PhaseConnected /\ phase_of st false = Connecting.
Proof. intros He. unfold phase_of. by rewrite He. Qed.

(** At the end of the input the id prompt asks for ever, and the port prompt takes
    port 0, which its text excludes. *)
Theorem prompt_end_of_input {Id} (parse : bytes -> option Id) fuel :
  prompt_endpoint_id parse fuel [] = None
  /\ prompt_optional_port 1 [str "0"] = Some (Some 0, []).
Proof.
  split; [|reflexivity]. induction fuel as [|fuel IH]; [done|]. simpl. exact IH.
Qed.

(** ** Witnesses *)

Definition ref_entry : ForwardConfig := mkForwardConfig [] 8080 (str "db.internal") 5432.

Definition ref_env : BuildEnv unit unit := mkBuildEnv unit unit (Ok tt) (fun _ => Ok (str "node")) (fun a => Ok a).

Definition ref_client : ResolvedClient :=
  mkResolvedClient (Some (str "62e463a6d67fdeacc65e97464b2b51d7")) None (Some 1080) None None None [] None
    true None [ref_entry].

Definition ref_port_forward : PortForward :=
  mkPortForward (str "8080") [] 8080 (str "db.internal") 5432 true.

(** The port of the forward is in use on both stacks; the next tick switches it off. *)
Definition ref_session_evs : list SessionEvent :=
  [ListenerEvent 0 (BindDone STACK_V4 (Err ref_in_use));
   ListenerEvent 0 (BindDone STACK_V6 (Err ref_in_use)); Tick true ReconnectStatus_default (str "node") 5].

Definition ref_session : Session :=
  mkSession (mkSessionState (str "k") None (str "id") (str "node") (Some (loopback_bind 1080)) None false None
    ReconnectStatus_default ∅) [ref_port_forward] (forwards_new [ref_port_forward]) false None.

Lemma wf_ref_entry : Forall wf_entry [ref_entry].
Proof. repeat constructor; vm_compute; congruence. Qed.

Lemma configured_forwards_wellformed_witness :
  forwards_from_config [ref_entry] = Ok [ref_port_forward] /\ NoDup (pf_id <$> [ref_port_forward]).
Proof.
  assert (Hf : forwards_from_config [ref_entry] = Ok [ref_port_forward]) by (vm_compute; reflexivity).
  split; [exact Hf|]. apply (configured_forwards_wellformed [ref_entry] [ref_port_forward] wf_ref_entry Hf).
Defined.

Lemma session_tracks_forwards_witness :
  s_forwards (drive_session ref_session ref_session_evs) = [switched_off ref_port_forward]
  /\ Forall2 (fun f0 f => f = f0 \/ f = switched_off f0) [ref_port_forward]
       (s_forwards (drive_session ref_session ref_session_evs)).
Proof.
  split; [vm_compute; reflexivity|].
  apply (session_tracks_forwards ref_env ref_client (str "id") (AuthKey tt) (str "k") [ref_entry]
    [ref_port_forward] ref_session ref_session_evs wf_ref_entry).
  - vm_compute. reflexivity.
  - reflexivity.
Defined.

Lemma instance_key_safe_witness :
  instance_key (str " 62E463A6D67FDEACc65e97464b2b51d7 ") = Ok (str "62e463a6d67fdeac")
  /\ length (str "62e463a6d67fdeac") = KEY_LEN.
Proof.
  assert (Hk : instance_key (str " 62E463A6D67FDEACc65e97464b2b51d7 ") = Ok (str "62e463a6d67fdeac"))
    by (vm_compute; reflexivity).
  split; [exact Hk|]. exact (proj1 (instance_key_safe _ _ Hk)).
Defined.

Lemma locate_finds_client_witness :
  exists l, @locate RefConfigEnv None None (Some (str "62e463a6d67fdeacc65e")) = Ok l
    /\ loc_key l = str "62e463a6d67fdeac".
Proof.
  apply (@locate_finds_client RefConfigEnv None None
    (mkClientConfig (Some (str "62e463a6d67fdeacc65e")) None (Some 1080) None None None None None None None None)).
  vm_compute. reflexivity.
Defined.
