(* ===== verification/Panel.v ===== *)
(** * The control panel's loop and screen ([tui/mod.rs]: [App::run]; [tui/view.rs])

    One round of the loop draws, takes a key if there is one, and refreshes once a second;
    what the terminal, the keyboard and the session answer is the round's input. The
    screen is lines of styled spans in rectangles. How ratatui divides the screen is the
    class [PanelLayout]; a paragraph shows the lines from its scroll position that fit
    between its borders. *)

From S2P Require Import Prelude RustStr Net AddrText Stream Signaling Socks5 RoutedSet DnsForward Dial.
From S2P Require Import Blocklist Registry Server Client ClientProofs Http LocalConn Accept Forward.
From S2P Require Import ForwardProofs PortForwards Ipc ServerStream Startup Config Session.

(** ** The loop *)

Record Round : Type := mkRound {
  rd_draw : result bytes ();                   (* the terminal *)
  rd_key : result bytes (option PanelKey);     (* poll and read; [None]: no key press *)
  rd_answer : Request -> result bytes Response;
  rd_due : bool;                               (* a second since the last refresh *)
}.

(** What a key asks the session. *)
Definition key_request (k : PanelKey) (m : Mode) : list Request :=
  match k, m with
  | KeyProbe, Normal | KeyRefresh, ConnPathMode _ => [ConnPathReq]
  | _, _ => []
  end.

Definition put_snapshot (s : StatusSnapshot) (a : App) : App :=
  mkApp s (routing_scroll a) (forwards_scroll a) (app_mode a) (notice a).

(** The rest of a round after the key. *)
Definition refresh_panel (debug : Response -> bytes) (r : Round) (a : App)
  : list Request * result bytes (bool * App) :=
  if rd_due r
  then ([StatusReq], s ← request_snapshot debug (rd_answer r StatusReq); Ok (false, put_snapshot s a))
  else ([], Ok (false, a)).

(** The requests of a round, and whether the panel quits. *)
Definition panel_round (debug : Response -> bytes) (r : Round) (a : App) : list Request * result bytes (bool * App) :=
  match rd_draw r, rd_key r with
  | Err e, _ => ([], Err e)
  | Ok _, Err e => ([], Err e)
  | Ok _, Ok None => refresh_panel debug r a
  | Ok _, Ok (Some k) =>
      let reqs := key_request k (app_mode a) in
      match press debug (rd_answer r ConnPathReq) k a with
      | Err e => (reqs, Err e)
      | Ok (true, a') => (reqs, Ok (true, a'))
      | Ok (false, a') => let '(reqs', out) := refresh_panel debug r a' in (reqs ++ reqs', out)
      end
  end.

Inductive PanelOut : Type :=
| PanelOpen (a : App)
| PanelDone (r : result bytes ()).

Fixpoint panel_run (debug : Response -> bytes) (rounds : list Round) (a : App) : list Request * PanelOut :=
  match rounds with
  | [] => ([], PanelOpen a)
  | r :: rounds' =>
      match panel_round debug r a with
      | (reqs, Err e) => (reqs, PanelDone (Err e))
      | (reqs, Ok (true, _)) => (reqs, PanelDone (Ok tt))
      | (reqs, Ok (false, a')) => let '(reqs', out) := panel_run debug rounds' a' in (reqs ++ reqs', out)
      end
  end.

(** ** Spans and lines *)

Inductive SpanStyle : Type := Raw | DIM | BOLD | FgGreen | FgYellow | FgRed | BoldGreen.

Record Span : Type := span { sp_style : SpanStyle; sp_text : bytes }.

Abbreviation Line := (list Span).

Definition section_line (title : bytes) : Line := [span BOLD title].
Definition item (text : bytes) : Line := [span Raw (str "  " ++ text)].

Definition Phase_label (p : Ipc.Phase) : bytes :=
  match p with
  | Connecting => str "connecting"
  | PhaseConnected => str "connected"
  | Reconnecting => str "reconnecting"
  | PhaseFailed => str "failed"
  end.

Definition phase_style (p : Ipc.Phase) : SpanStyle :=
  match p with
  | PhaseConnected => FgGreen
  | Connecting | Reconnecting => FgYellow
  | PhaseFailed => FgRed
  end.

(** [{:02}]. *)
Definition padded2 (n : Z) : bytes := if n <? 10 then str "0" ++ dec n else dec n.

Definition format_uptime (secs : Z) : bytes :=
  let h := secs / 3600 in
  let m := secs mod 3600 / 60 in
  let s := secs mod 60 in
  if 0 <? h then dec h ++ str "h " ++ padded2 m ++ str "m " ++ padded2 s ++ str "s"
  else if 0 <? m then dec m ++ str "m " ++ padded2 s ++ str "s"
  else dec s ++ str "s".

Definition attempts_text (n : Z) (next : option Z) : bytes :=
  let next := match next with
              | Some secs => if 0 <? secs then str "next in " ++ format_uptime secs else str "trying now"
              | None => str "trying now"
              end in
  str "  " ++ dec n ++ str " failed attempt" ++ (if n =? 1 then [] else str "s") ++ str ", " ++ next.

Definition proxy_span (name : bytes) (addr : option SocketAddr) : Span :=
  match addr with
  | Some a => span Raw (name ++ str " " ++ addr_text a)
  | None => span DIM (name ++ str " off")
  end.

Definition header_lines (s : StatusSnapshot) : list Line :=
  let title := default (str "server " ++ ss_instance s ++ str "…") (ss_name s) in
  let first :=
    [span BOLD title; span Raw (str "  "); span (phase_style (ss_phase s)) (str "● " ++ Phase_label (ss_phase s))]
    ++ match ss_connected_secs s with
       | Some secs => [span DIM (str "  for " ++ format_uptime secs)]
       | None => []
       end
    ++ (if 0 <? ss_failed_attempts s
        then [span DIM (attempts_text (ss_failed_attempts s) (ss_next_attempt_secs s))] else []) in
  [first;
   [span DIM (str "server node id  "); span Raw (ss_server_node_id s)];
   [span DIM (str "client node id  "); span Raw (ss_client_node_id s)];
   [proxy_span (str "socks5") (ss_socks_addr s); span Raw (str "   "); proxy_span (str "http") (ss_http_addr s);
    span Raw (str "   "); span DIM (str "status page http://" ++ ss_status_page_host s ++ str "/")]]
  ++ match ss_last_error s with Some err => [[span FgRed (str "error: " ++ err)]] | None => [] end.

Definition path_line (p : WireConnPath) : Line :=
  let style := if bool_decide (wp_kind p = str "direct") then FgGreen
               else if bool_decide (wp_kind p = str "relay") then FgYellow else DIM in
  span style (wp_display p) :: (if wp_selected p then [span BoldGreen (str "  ● active")] else []).

Definition relay_line (r : WireCustomRelay) : Line :=
  let '(style, status) :=
    match wcr_working r with
    | Some true => (FgGreen, str "reachable")
    | Some false => (FgRed, match wcr_error r with
                            | Some e => str "unreachable — " ++ e
                            | None => str "unreachable"
                            end)
    | None => (DIM, str "status unavailable")
    end in
  [span Raw (str "  " ++ wcr_url r ++ str "  "); span style (str "[" ++ status ++ str "]")].

Definition conn_path_lines (s : WireConnSnapshot) : list Line :=
  (if bool_decide (wcs_paths s = [])
   then [[span DIM (str "No path yet — the tunnel link is down or still establishing.")]]
   else path_line <$> wcs_paths s)
  ++ (if bool_decide (wcs_custom_relays s = []) then []
      else [[]; section_line (str "Custom relays:")] ++ (relay_line <$> wcs_custom_relays s)).

Definition counted (before : bytes) (n : nat) (after : bytes) : Line :=
  section_line (before ++ dec (Z.of_nat n) ++ after).

Definition bridge_lines (b : WireBridge) : list Line :=
  [item (wb_name b ++ str ":"); item (str "  endpoint id: " ++ wb_endpoint_id b)]
  ++ ((fun d => item (str "  – " ++ d)) <$> wb_domains b) ++ ((fun c => item (str "  – " ++ c)) <$> wb_cidrs b).

Definition routing_lines (r : WireRoutes) (status_host localhost_host : bytes) : list Line :=
  [section_line (str "Split tunnel — " ++ dec (Z.of_nat (length (wr_domains r))) ++ str " domain(s), "
                   ++ dec (Z.of_nat (length (wr_cidrs r))) ++ str " CIDR(s) routed through the server:")]
  ++ (if bool_decide (wr_domains r = []) && bool_decide (wr_cidrs r = [])
      then [[span DIM (str "  (none — only the server status page and loopback below are tunneled)")]] else [])
  ++ (item <$> wr_domains r) ++ (item <$> wr_cidrs r)
  ++ (if bool_decide (wr_host_aliases r = []) then []
      else [[]; counted (str "Host aliases — ") (length (wr_host_aliases r)) (str " resolved server-side:")]
           ++ ((fun x => item (x.1 ++ str " → " ++ x.2)) <$> wr_host_aliases r))
  ++ (if bool_decide (wr_dns_forwards r = []) then []
      else [[]; counted (str "DNS forwards — ") (length (wr_dns_forwards r)) (str " resolved via upstream server(s):")]
           ++ ((fun x => item (x.1 ++ str " (+ subdomains) → " ++ join (str ", ") x.2)) <$> wr_dns_forwards r))
  ++ (if bool_decide (wr_bridges r = []) then []
      else [[]; counted (str "Bridge routes — ") (length (wr_bridges r)) (str " forwarded via another server:")]
           ++ concat (bridge_lines <$> wr_bridges r))
  ++ [[]; section_line (str "Server status page — always tunneled:"); item status_host;
      []; section_line (str "Server loopback — always tunneled:"); item localhost_host].

Definition forward_state_span (row : ForwardRow) : Span :=
  match row_state row with
  | RowStopped => span FgRed (str "off")
  | RowStarting => span FgYellow (str "starting")
  | RowListening => span FgGreen (str "listening (" ++ dec (row_active row) ++ str " active)")
  | RowFailed => span FgRed (str "failed")
  end.

(** [{:<20}]. *)
Definition pad20 (s : bytes) : bytes := s ++ repeat x20 (Z.to_nat (20 - char_count s)).

Definition forward_line (row : ForwardRow) : Line :=
  let f := row_forward row in
  [span Raw (str "  "); span BOLD (pad20 (wire_display_name f));
   span Raw (str " localhost:" ++ dec (wf_local_port f) ++ str " → "
               ++ format_host_port (wf_remote_host f) (wf_remote_port f) ++ str "  ");
   forward_state_span row]
  ++ match row_error row, row_last_conn_error row with
     | Some err, _ => [span FgRed (str "  " ++ err)]
     | None, Some err => [span DIM (str "  last error: " ++ err)]
     | None, None => []
     end.

Definition forward_lines (rows : list ForwardRow) : list Line :=
  if bool_decide (rows = [])
  then [[span DIM (str "no port forwards — declare them as [[forwards]] in the client config")]]
  else forward_line <$> rows.

Definition footer_line (a : App) : Line :=
  match notice a, app_mode a with
  | Some n, _ => [span FgRed n]
  | None, Normal => [span DIM (str "q quit · p path · [/] scroll routing · ↑/↓ scroll forwards")]
  | None, ConnPathMode _ => [span DIM (str "r refresh · Esc close")]
  end.

(** ** The screen *)

Record Rect : Type := mkRect { r_x : Z; r_y : Z; r_width : Z; r_height : Z }.

(** [Layout::vertical] over the header's length, at least three, the forwards' and one. *)
Class PanelLayout := { vertical : Rect -> Z -> Z -> Rect * Rect * Rect * Rect }.

Definition u16 (z : Z) : Z := z mod 65536.

(** The lines a bordered paragraph shows. *)
Definition shown_lines (lines : list Line) (scroll : Z) (area : Rect) : list Line :=
  take (Z.to_nat (sat_sub (r_height area) 2)) (drop (Z.to_nat scroll) lines).

Definition max_scroll (lines : Z) (area : Rect) : Z := sat_sub (u16 lines) (sat_sub (r_height area) 2).

Definition centered (area : Rect) (width height : Z) : Rect :=
  let width := Z.min width (r_width area) in
  let height := Z.min height (r_height area) in
  mkRect (r_x area + (r_width area - width) / 2) (r_y area + (r_height area - height) / 2) width height.

(** Titles stand between spaces. *)
Definition titled_block (title : bytes) : bytes := str " " ++ title ++ str " ".

(** A pane: where, its title, what it shows. *)
Record Pane : Type := mkPane { pn_area : Rect; pn_title : bytes; pn_lines : list Line }.

Definition draw_conn_path (area : Rect) (s : WireConnSnapshot) : Pane :=
  let lines := conn_path_lines s in
  let height := Z.min (Z.max (u16 (u16 (Z.of_nat (length lines)) + 2)) 3) (Z.max (r_height area) 3) in
  let at_ := centered area 74 height in
  mkPane at_ (titled_block (str "Connection path  (r refresh · Esc close)")) (shown_lines lines 0 at_).

Definition routing_pane (a : App) (area : Rect) : Pane :=
  let s := app_snapshot a in
  let lines := routing_lines (ss_routes s) (ss_status_page_host s) (ss_localhost_host s) in
  mkPane area (titled_block (str "Routing  ([/] to scroll)"))
    (shown_lines lines (Z.min (routing_scroll a) (max_scroll (Z.of_nat (length lines)) area)) area).

Definition forwards_pane (a : App) (area : Rect) : Pane :=
  let rows := ss_forwards (app_snapshot a) in
  let n := Z.of_nat (length rows) in
  mkPane area (titled_block (str "Port forwards · " ++ dec n ++ str "  (↑/↓ to scroll)"))
    (shown_lines (forward_lines rows) (Z.min (forwards_scroll a) (max_scroll n area)) area).

Definition forwards_height (n : Z) : Z := Z.min (Z.max n 1 + 2) 12.

(** The panes, the footer, and the overlay on top. *)
Definition draw `{PanelLayout} (screen : Rect) (a : App) : list Pane * Line * option Pane :=
  let s := app_snapshot a in
  let header := header_lines s in
  let '(header_area, routing_area, forwards_area, footer_area) :=
    vertical screen (u16 (Z.of_nat (length header)) + 2) (forwards_height (Z.of_nat (length (ss_forwards s)))) in
  ([mkPane header_area (titled_block (str "Connection")) (shown_lines header 0 header_area);
    routing_pane a routing_area; forwards_pane a forwards_area],
   footer_line a,
   match app_mode a with Normal => None | ConnPathMode c => Some (draw_conn_path screen c) end).

(** ** The loop asks, it changes nothing *)

Section loop.
Context (debug : Response -> bytes).

Definition asks (q : Request) : Prop := q = StatusReq \/ q = ConnPathReq.

#[local] Hint Unfold asks : core.
#[local] Hint Constructors Forall : core.

Lemma key_asks k m : Forall asks (key_request k m).
Proof. destruct k, m; cbn; auto. Qed.

Lemma refresh_asks r a : Forall asks (refresh_panel debug r a).1.
Proof. unfold refresh_panel. destruct (rd_due r); cbn; auto. Qed.

(** Why a round is the last. *)
Definition quits (r : Round) : Prop := rd_key r = Ok (Some KeyQuit) \/ rd_key r = Ok (Some KeyInterrupt).
Definition breaks (r : Round) (e : bytes) : Prop :=
  rd_draw r = Err e \/ rd_key r = Err e \/ rd_answer r ConnPathReq = Err e
  \/ request_snapshot debug (rd_answer r StatusReq) = Err e.

Lemma press_quits answer k a a' : press debug answer k a = Ok (true, a') -> k = KeyQuit \/ k = KeyInterrupt.
Proof.
  unfold press. destruct k; auto; destruct (app_mode _); cbn; try done;
    unfold conn_path_answer; by destruct answer as [[]|].
Qed.

Lemma press_breaks answer k a e : press debug answer k a = Err e -> answer = Err e.
Proof.
  unfold press. destruct k; try done; destruct (app_mode _); cbn; try done;
    unfold conn_path_answer; destruct answer as [[]|]; cbn; congruence.
Qed.

Lemma round_spec r a :
  let '(reqs, out) := panel_round debug r a in
  Forall asks reqs
  /\ (forall a', out = Ok (true, a') -> quits r)
  /\ (forall e, out = Err e -> breaks r e).
Proof.
  unfold panel_round, quits, breaks. destruct (rd_draw r) as [|e] eqn:Hd; [|split; [constructor|naive_solver]].
  destruct (rd_key r) as [[k|]|e] eqn:Hk; [| |split; [constructor|naive_solver]].
  - destruct (press debug _ k a) as [[[] a']|e] eqn:Hp.
    + apply press_quits in Hp. split; [apply key_asks|]. naive_solver.
    + unfold refresh_panel. destruct (rd_due r); [|split; [rewrite app_nil_r; apply key_asks|done]].
      split; [apply Forall_app_2; [apply key_asks|auto]|].
      destruct (request_snapshot _ _); naive_solver.
    + apply press_breaks in Hp. split; [apply key_asks|]. naive_solver.
  - unfold refresh_panel. destruct (rd_due r); [|by split; [constructor|]].
    split; [auto|]. destruct (request_snapshot _ _); naive_solver.
Qed.

(** The panel is read-only and outlasts everything but a lost session: whatever keys
    are pressed and answers come, it only ever asks for the status and the paths; it ends
    well only on a quit key, and with an error only when the terminal fails, the transport
    does, or the session answers a status request with anything but a status. *)
Theorem panel_read_only (rounds : list Round) (a : App) :
  let '(reqs, out) := panel_run debug rounds a in
  Forall asks reqs
  /\ (out = PanelDone (Ok tt) -> exists r, r ∈ rounds /\ quits r)
  /\ (forall e, out = PanelDone (Err e) -> exists r, r ∈ rounds /\ breaks r e)
  /\ (forall a', out = PanelOpen a' -> Forall (fun r => rd_draw r = Ok tt /\ rd_key r <> Ok (Some KeyInterrupt)) rounds).
Proof.
  revert a. induction rounds as [|r rounds IH]; intros a; cbn; [by auto|].
  pose proof (round_spec r a) as Hr. destruct (panel_round debug r a) as [reqs [[[] a']|e]] eqn:E; destruct Hr as (Hq & Hok & He).
  - split; [done|]. split; [|done]. intros _. exists r. split; [by left|]. by eapply Hok.
  - specialize (IH a'). destruct (panel_run debug rounds a') as [reqs' out]. destruct IH as (Hq' & Hok' & He' & Hopen').
    split; [by apply Forall_app_2|]. split; [|split].
    + intros Hout. destruct (Hok' Hout) as (r' & ? & ?). exists r'. split; [by right|done].
    + intros e Hout. destruct (He' e Hout) as (r' & ? & ?). exists r'. split; [by right|done].
    + intros a2 Hout. constructor; [|by eapply Hopen']. unfold panel_round in E.
      destruct (rd_draw r) as [[]|]; [|done]. split; [done|]. intros Hk. by rewrite Hk in E.
  - split; [done|]. split; [done|]. split; [|done]. intros e' [= <-]. exists r. split; [by left|]. by apply He.
Qed.
End loop.

(** ** What can be brought onto the screen *)

Lemma shown_elem lines i l pos area :
  lines !! i = Some l -> 0 <= pos <= Z.of_nat i -> Z.of_nat i < pos + (r_height area - 2) ->
  l ∈ shown_lines lines pos area.
Proof.
  intros Hl Hpos Hi. unfold shown_lines, sat_sub. apply list_elem_of_lookup.
  exists (i - Z.to_nat pos)%nat. rewrite lookup_take_lt by lia. rewrite lookup_drop, <- Hl. f_equal. lia.
Qed.

(** A clamped scroll position that is not past a line by more than the pane shows. *)
Lemma clamped_shows lines i l pos area :
  lines !! i = Some l -> Z.of_nat (length lines) < 65536 ->
  0 <= pos <= Z.of_nat i -> Z.of_nat i < pos + (r_height area - 2) ->
  l ∈ shown_lines lines (Z.min pos (max_scroll (Z.of_nat (length lines)) area)) area.
Proof.
  intros Hl Hn Hpos Hi. pose proof (lookup_lt_Some _ _ _ Hl).
  apply (shown_elem lines i); [done| |]; unfold max_scroll, sat_sub, u16; rewrite Z.mod_small by lia; lia.
Qed.

(** A quiet round with a key. *)
Definition key_round (k : PanelKey) : Round := mkRound (Ok tt) (Ok (Some k)) (fun _ => Err []) false.

Definition scrolled (s : StatusSnapshot) (routing forwards : Z) : App := mkApp s routing forwards Normal None.

Lemma down_presses debug s n k :
  Z.of_nat n + k <= U16_MAX -> 0 <= k ->
  panel_run debug (repeat (key_round KeyDown) n) (scrolled s 0 k) = ([], PanelOpen (scrolled s 0 (Z.of_nat n + k))).
Proof.
  revert k. induction n as [|n IH]; intros k Hn Hk; [done|]. cbn [repeat panel_run].
  change (panel_round debug (key_round KeyDown) (scrolled s 0 k)) with
    ([] : list Request, Ok (false, scrolled s 0 (sat_add16 k 1)) : result bytes (bool * App)).
  unfold sat_add16. rewrite Z.min_r by lia. rewrite IH by lia. cbn. do 3 f_equal. lia.
Qed.

Lemma page_presses debug s n k :
  3 * Z.of_nat n + k <= U16_MAX -> 0 <= k ->
  panel_run debug (repeat (key_round KeyPageDown) n) (scrolled s k 0)
  = ([], PanelOpen (scrolled s (3 * Z.of_nat n + k) 0)).
Proof.
  revert k. induction n as [|n IH]; intros k Hn Hk; [done|]. cbn [repeat panel_run].
  change (panel_round debug (key_round KeyPageDown) (scrolled s k 0)) with
    ([] : list Request, Ok (false, scrolled s (sat_add16 k 3) 0) : result bytes (bool * App)).
  unfold sat_add16. rewrite Z.min_r by lia. rewrite IH by lia. cbn. do 3 f_equal. lia.
Qed.

(** Everything can be read: whatever the session holds, each port forward's line and
    each line of the routing breakdown comes onto the screen after some presses of the
    keys the footer names, in any pane of the forwards with room for a line and any
    pane of the routing with room for three. *)
Theorem every_line_reachable debug (s : StatusSnapshot) (routing_area forwards_area : Rect) :
  let lines := routing_lines (ss_routes s) (ss_status_page_host s) (ss_localhost_host s) in
  Z.of_nat (length lines) < 65536 -> Z.of_nat (length (ss_forwards s)) < 65536 ->
  5 <= r_height routing_area -> 3 <= r_height forwards_area ->
  (forall l, l ∈ lines -> exists n a,
     panel_run debug (repeat (key_round KeyPageDown) n) (App_new s) = ([], PanelOpen a)
     /\ l ∈ pn_lines (routing_pane a routing_area))
  /\ (forall row, row ∈ ss_forwards s -> exists n a,
     panel_run debug (repeat (key_round KeyDown) n) (App_new s) = ([], PanelOpen a)
     /\ forward_line row ∈ pn_lines (forwards_pane a forwards_area)).
Proof.
  intros lines Hlines Hrows Hra Hfa. split.
  - intros l (i & Hi)%list_elem_of_lookup. pose proof (lookup_lt_Some _ _ _ Hi).
    pose proof (Z.div_mod (Z.of_nat i) 3). pose proof (Z.mod_pos_bound (Z.of_nat i) 3).
    exists (i / 3)%nat. eexists. pose proof (Nat2Z.inj_div i 3) as Hd.
    split; [apply (page_presses debug s _ 0); unfold U16_MAX; lia|].
    unfold routing_pane. cbn [pn_lines app_snapshot scrolled routing_scroll].
    apply (clamped_shows lines i); [done|lia..].
  - intros row (i & Hi)%list_elem_of_lookup. pose proof (lookup_lt_Some _ _ _ Hi) as Hlt.
    exists i. eexists. split; [apply (down_presses debug s _ 0); unfold U16_MAX; lia|].
    assert (forward_lines (ss_forwards s) = forward_line <$> ss_forwards s) as Hf.
    { unfold forward_lines. by rewrite bool_decide_eq_false_2 by (by intros E; rewrite E in Hi). }
    unfold forwards_pane. cbn [pn_lines app_snapshot scrolled forwards_scroll]. rewrite Hf.
    rewrite <- (length_fmap forward_line (ss_forwards s)).
    apply (clamped_shows _ i); rewrite ?length_fmap; [by rewrite list_lookup_fmap, Hi|lia..].
Qed.

(** ** The routing pane on a small screen *)

Lemma press_scroll debug answer k a q a' :
  press debug answer k a = Ok (q, a') -> routing_scroll a mod 3 = 0 -> routing_scroll a' mod 3 = 0.
Proof.
  unfold press. intros Hp Ha. destruct k; destruct (app_mode _); cbn in Hp; try (by injection Hp as _ <-).
  all: try (injection Hp as _ <-; cbn; unfold sat_sub, sat_add16, U16_MAX).
  - apply Z.max_case_strong; [done|]. intros _. by rewrite Zminus_mod, Ha.
  - apply Z.min_case_strong; [done|]. intros _. by rewrite Zplus_mod, Ha.
  - unfold conn_path_answer in Hp. destruct answer as [[]|]; cbn in Hp; by simplify_eq/=.
  - unfold conn_path_answer in Hp. destruct answer as [[]|]; cbn in Hp; by simplify_eq/=.
Qed.

Lemma round_scroll debug r a q a' :
  (panel_round debug r a).2 = Ok (q, a') -> routing_scroll a mod 3 = 0 -> routing_scroll a' mod 3 = 0.
Proof.
  assert (Hrefresh : forall a1, routing_scroll a1 mod 3 = 0 -> (refresh_panel debug r a1).2 = Ok (q, a') ->
    routing_scroll a' mod 3 = 0).
  { intros a1 Ha1. unfold refresh_panel. destruct (rd_due r); cbn; [|by intros [= _ <-]].
    destruct (request_snapshot _ _); [|done]. by intros [= _ <-]. }
  unfold panel_round. destruct (rd_draw r); [|done]. destruct (rd_key r) as [[k|]|]; [|eauto|done].
  destruct (press debug _ k a) as [[[] a1]|] eqn:Hp; [|by destruct (refresh_panel debug r a1) eqn:E; cbn;
    intros Hq Ha; apply (Hrefresh a1); [eapply press_scroll|rewrite E]|done].
  intros [= _ <-] Ha. by eapply press_scroll.
Qed.

Lemma run_scroll debug rounds a reqs a' :
  panel_run debug rounds a = (reqs, PanelOpen a') -> routing_scroll a mod 3 = 0 -> routing_scroll a' mod 3 = 0.
Proof.
  revert a reqs. induction rounds as [|r rounds IH]; intros a reqs; cbn; [by intros [= _ <-]|].
  destruct (panel_round debug r a) as [q [[[] a1]|e]] eqn:E; [done| |done].
  destruct (panel_run debug rounds a1) as [q' out] eqn:E'. intros [= _ ->] Ha. apply (IH a1 q' E').
  eapply (round_scroll debug r a false); [by rewrite E|done].
Qed.

(** On a small screen the routing pane skips lines. The pane may be as low as three rows,
    and on a terminal of 24 rows with ten forwards and an error it is four: it then shows
    two lines, while a press scrolls by three, so whatever is pressed the two lines start
    at a multiple of three or are the last two; the third of every three lines before
    those never comes onto the screen. *)
Theorem short_pane_skips debug rounds s reqs a area i :
  panel_run debug rounds (App_new s) = (reqs, PanelOpen a) -> r_height area = 4 ->
  let s' := app_snapshot a in
  let lines := routing_lines (ss_routes s') (ss_status_page_host s') (ss_localhost_host s') in
  Z.of_nat (length lines) < 65536 -> Z.of_nat i mod 3 = 2 -> Z.of_nat i + 2 < Z.of_nat (length lines) ->
  exists j, pn_lines (routing_pane a area) = take 2 (drop j lines) /\ ((i < j)%nat \/ (j + 2 <= i)%nat).
Proof.
  intros Hrun Harea s' lines Hlen Hi Hend. apply run_scroll in Hrun; [|done].
  unfold routing_pane. cbn [pn_lines]. fold s' lines. unfold shown_lines, max_scroll, sat_sub, u16.
  rewrite Harea, Z.mod_small by lia. eexists. split; [reflexivity|].
  assert (routing_scroll a = 3 * (routing_scroll a / 3)) by (pose proof (Z.div_mod (routing_scroll a) 3); lia).
  pose proof (Z.div_mod (Z.of_nat i) 3). lia.
Qed.

(** The overlay stays on the screen. *)
Lemma centered_inside area width height :
  0 <= r_width area -> 0 <= r_height area -> 0 <= width -> 0 <= height ->
  let r := centered area width height in
  r_x area <= r_x r /\ r_x r + r_width r <= r_x area + r_width area
  /\ r_y area <= r_y r /\ r_y r + r_height r <= r_y area + r_height area.
Proof.
  intros Hw Hh Hw' Hh'. cbn.
  pose proof (Z.div_mod (r_width area - Z.min width (r_width area)) 2).
  pose proof (Z.mod_pos_bound (r_width area - Z.min width (r_width area)) 2).
  pose proof (Z.div_mod (r_height area - Z.min height (r_height area)) 2).
  pose proof (Z.mod_pos_bound (r_height area - Z.min height (r_height area)) 2). lia.
Qed.

(** ** Concrete screens *)

Definition example_row (port : Z) : ForwardRow :=
  mkForwardRow (mkWireForward (str "web") port (str "intra.corp") 80) RowListening None 2 None.

Definition example_snapshot : StatusSnapshot :=
  mkStatusSnapshot (str "62e463a6d67fdeac") None Ipc.Reconnecting None (str "id-of-server") (str "id-of-client")
    None None (str "status.flextunnel") (str "localhost.flextunnel") 2 (Some 65) (Some (str "timed out"))
    (mkWireRoutes [str "corp.example"; str "lab.example"] [] [] [] []) [example_row 8080; example_row 8081].

Definition screen_text (lines : list Line) : list bytes := (fun l => concat (sp_text <$> l)) <$> lines.

Example header_screen :
  screen_text (take 1 (header_lines example_snapshot))
  = [str "server 62e463a6d67fdeac…  ● reconnecting  2 failed attempts, next in 1m 05s"].
Proof. vm_compute. reflexivity. Qed.

Example forward_screen :
  screen_text (pn_lines (forwards_pane (scrolled example_snapshot 0 7) (mkRect 0 0 80 3)))
  = [str "  web                  localhost:8081 → intra.corp:80  listening (2 active)"].
Proof. vm_compute. reflexivity. Qed.

Lemma every_line_reachable_witness :
  exists n a, panel_run (fun _ => []) (repeat (key_round KeyPageDown) n) (App_new example_snapshot)
              = ([], PanelOpen a)
    /\ item (str "localhost.flextunnel") ∈ pn_lines (routing_pane a (mkRect 0 6 80 5)).
Proof.
  apply (every_line_reachable (fun _ => []) example_snapshot (mkRect 0 6 80 5) (mkRect 0 0 80 3));
    [by vm_compute..|]. apply list_elem_of_lookup. exists 8%nat. vm_compute. reflexivity.
Defined.

(** A second domain and the status page's host are thirds: in four rows they are never
    seen, however far the pane is scrolled. *)
Example thirds_never_seen :
  forallb (fun n =>
    let shown := screen_text (pn_lines (routing_pane (scrolled example_snapshot (3 * Z.of_nat n) 0) (mkRect 0 6 80 4))) in
    bool_decide (str "  lab.example" ∉ shown) && bool_decide (str "  status.flextunnel" ∉ shown)) (seq 0 12)
  = true.
Proof. vm_compute. reflexivity. Qed.
