(* ===== verification/Cli.v ===== *)
(** * The command line's servers and clients ([crates/flextunnel-cli/src/main.rs])

    From the flags of [server start] and [client start] to what runs: the
    configuration each builds, quick mode, the server's start and the life of its
    process. Argument parsing is clap's: the flags are a record. The identity file,
    the instance lock and the authorized-keys file are answers of the environment
    ([StartEnv]); a life is the sequence of what happens, with times in seconds. *)

From S2P Require Import Prelude RustStr Net Stream Signaling RoutedSet DnsForward Blocklist Registry.
From S2P Require Import Server ServerProofs ServerStream ServerStreamProofs Startup Config Session.

Definition QUICK_IDLE_TIMEOUT : Z := 300.
Definition SHUTDOWN_CLOSE_TIMEOUT : Z := 5.

(** ** Flags *)

Record ServerFlags : Type := mkServerFlags {
  sf_secret_file : option bytes;
  sf_authorized_keys_file : option bytes;
  sf_relay_urls : list bytes;
  sf_relay_auth_token : option bytes;
}.

Record ClientFlags : Type := mkClientFlags {
  cf_socks_port : option Z;
  cf_http_port : option Z;
  cf_server_node_id : option bytes;
  cf_auth_key : option bytes;
  cf_auth_key_file : option bytes;
  cf_relay_urls : list bytes;
  cf_relay_auth_token : option bytes;
  cf_auto_reconnect : bool;
  cf_no_auto_reconnect : bool;
  cf_max_reconnect_attempts : option Z;
}.

(** [(!v.is_empty()).then_some(v)]. *)
Definition nonempty {A} (l : list A) : option (list A) :=
  match l with [] => None | _ => Some l end.

Definition server_start_config (f : ServerFlags) : Config.ServerConfig :=
  mkServerConfig (sf_secret_file f) (sf_authorized_keys_file f) (nonempty (sf_relay_urls f))
    (sf_relay_auth_token f) None None None None None None.

Definition auto_reconnect_flag (auto no_auto : bool) : option bool :=
  if auto then Some true else if no_auto then Some false else None.

Definition client_start_config (f : ClientFlags) : Config.ClientConfig :=
  mkClientConfig (cf_server_node_id f) None (cf_socks_port f) (cf_http_port f) (cf_auth_key f)
    (cf_auth_key_file f) (nonempty (cf_relay_urls f)) (cf_relay_auth_token f)
    (auto_reconnect_flag (cf_auto_reconnect f) (cf_no_auto_reconnect f)) (cf_max_reconnect_attempts f)
    None.

(** The full tunnel of a quick server; its fresh identity is drawn beside it. *)
Definition quick_server_config (relay_urls : list bytes) (relay_auth_token : option bytes)
  : Config.ServerConfig :=
  mkServerConfig None None (nonempty relay_urls) relay_auth_token None (Some [str "*"])
    (Some [str "0.0.0.0/0"; str "::/0"]) None None None.

(** [fill_client_config] of [prompt.rs]: ask for what the flags left out. *)
Definition with_prompted (c : Config.ClientConfig) (id : option bytes) (socks http : option Z)
  : Config.ClientConfig :=
  mkClientConfig id (cc_name c) socks http (cc_auth_key c) (cc_auth_key_file c) (cc_relay_urls c)
    (cc_relay_auth_token c) (cc_auto_reconnect c) (cc_max_reconnect_attempts c) (cc_forwards c).

Section cli.
Context {ID : Identity} {NA : IpNetworkApi} {RA : ResolverApi} {SA : StartupApi} {CE : ConfigEnv}.
Context `{Json BlockListData}.

Definition fill_client_config (fuel : nat) (lines : list bytes) (c : Config.ClientConfig)
  : option (Config.ClientConfig * list bytes) :=
  '(id, lines) ← match cc_server_node_id c with
                 | Some id => Some (Some id, lines)
                 | None => '(i, lines) ← prompt_endpoint_id id_parse fuel lines;
                           Some (Some (id_to_string i), lines)
                 end;
  '(socks, lines) ← match cc_socks_port c with
                    | Some p => Some (Some p, lines)
                    | None => prompt_optional_port fuel lines
                    end;
  '(http, lines) ← match cc_http_port c with
                   | Some p => Some (Some p, lines)
                   | None => prompt_optional_port fuel lines
                   end;
  Some (with_prompted c id socks http, lines).

(** ** Starting a server *)

Record QuickServer : Type := mkQuick { q_client_id : EndpointId; q_secret : EndpointId }.

(** What the machine answers; [no_keys] is the default, empty key set. *)
Record StartEnv : Type := mkStartEnv {
  secret_of : option bytes -> result bytes EndpointId;
  lock_of : EndpointId -> result bytes ();
  keys_of : bytes -> result bytes AuthorizedKeys;
  no_keys : AuthorizedKeys;
  blocklist_content : result io_error bytes;
  process_nonce : Z;
}.

Inductive StartError : Type :=
| NoIdentityFile (why : bytes)
| AlreadyRunning (why : bytes)
| NoClientKeys (why : bytes)
| NotPrepared (e : PrepareError).

Definition server_options (r : ResolvedServer) (quick : option QuickServer) (secret : EndpointId)
  (keys : AuthorizedKeys) : ServerOptions :=
  mkOptions secret keys (q_client_id <$> quick) (bool_decide (is_Some quick)) (sv_relay_urls r)
    (sv_relay_auth_token r) (sv_host_aliases r) (sv_routed_domains r) (sv_routed_cidrs r)
    (sv_dns_forwards r) (sv_bridges r) (sv_allowed_bridge_servers r) (sv_blocklist_file r).

Definition start_server (env : StartEnv) (r : ResolvedServer) (quick : option QuickServer)
  : result StartError PreparedServer :=
  secret ← match quick with
           | Some q => Ok (q_secret q)
           | None => map_err NoIdentityFile (secret_of env (sv_secret_file r))
           end;
  _ ← match quick with
      | Some _ => Ok tt
      | None => map_err AlreadyRunning (lock_of env secret)
      end;
  keys ← match sv_authorized_keys_file r with
         | Some path => map_err NoClientKeys (keys_of env path)
         | None => Ok (no_keys env)
         end;
  map_err NotPrepared
    (prepare (blocklist_content env) (process_nonce env) (server_options r quick secret keys)).
End cli.

(** ** The life of a server process *)

Inductive LifeEvent : Type :=
| Served (r : result bytes ())       (* serving ended *)
| Signalled (r : result bytes ())    (* the shutdown signal, or a failure to wait for it *)
| FirstClient.                       (* the server notifies of its first client *)

Inductive Exit : Type :=
| ServeEnded (at_ : Z) (r : result bytes ())
| SignalEnded (at_ : Z) (r : result bytes ())
| IdleEnded (at_ : Z).

(** [grace]: the instant the idle timer fires, if it is armed; a first client parks
    it for good. [None] for a life that goes on. *)
Fixpoint server_life (grace : option Z) (events : list (Z * LifeEvent)) : option Exit :=
  match events with
  | [] => IdleEnded <$> grace
  | (t, ev) :: events' =>
      match grace with
      | Some g => if g <=? t then Some (IdleEnded g) else
                    match ev with
                    | Served r => Some (ServeEnded t r)
                    | Signalled r => Some (SignalEnded t r)
                    | FirstClient => server_life None events'
                    end
      | None => match ev with
                | Served r => Some (ServeEnded t r)
                | Signalled r => Some (SignalEnded t r)
                | FirstClient => server_life None events'
                end
      end
  end.

Definition run_server_life (quick : bool) (start : Z) (events : list (Z * LifeEvent)) : option Exit :=
  server_life (if quick then Some (start + QUICK_IDLE_TIMEOUT) else None) events.

(** [close_endpoint_or_exit]: when the process is gone, given how long closing the
    endpoint takes and when (if ever) a second signal comes, from now. *)
Definition close_endpoint_or_exit (close_takes : option Z) (second_signal : option Z) : Z :=
  let m := match close_takes with Some c => Z.min c SHUTDOWN_CLOSE_TIMEOUT | None => SHUTDOWN_CLOSE_TIMEOUT end in
  match second_signal with Some s => Z.min s m | None => m end.

(** ** Theorems *)

Section quick.
Context {ID : Identity} {NA : IpNetworkApi} {NL : IpNetworkLaws} {RA : ResolverApi} {SA : StartupApi}.
Context {CE : ConfigEnv} `{Json BlockListData}.

(** The two default routes parse to networks of prefix length zero. *)
Definition default_routes : Prop :=
  exists n4 n6 a4 a6, net_from_str (str "0.0.0.0/0") = Some n4 /\ net_from_str (str "::/0") = Some n6
    /\ net_prefix n4 = 0 /\ net_ip n4 = V4 a4 /\ net_prefix n6 = 0 /\ net_ip n6 = V6 a6.

(** Every address a target names is one of its family's width. *)
Definition addressed (t : Target) : Prop :=
  match t with
  | Ip sa => wf_ip (sa_ip sa)
  | Domain host _ => forall ip, parse_ip_literal host = Some ip -> wf_ip ip
  end.

Lemma prefix_bits_zero ip : wf_ip ip -> prefix_bits 0 ip = 0.
Proof.
  unfold prefix_bits. rewrite Z.sub_0_r. intros Hwf. apply Z.div_small.
  destruct ip; cbn in *; lia.
Qed.

Lemma zero_prefix_contains n ip :
  net_prefix n = 0 -> same_family (net_ip n) ip = true -> wf_ip ip -> net_contains n ip = true.
Proof.
  intros Hp Hf Hwf. destruct (net_wf n) as [Hn _].
  by rewrite net_contains_spec, Hf, Hp, !prefix_bits_zero, Z.eqb_refl.
Qed.

(** The quick server's routed set lets every target through. *)
Lemma quick_routed_set :
  default_routes ->
  exists rs, RoutedSet_new [str "*"] [str "0.0.0.0/0"; str "::/0"] = Ok rs
    /\ forall t, addressed t -> allows rs t = true.
Proof.
  intros (n4 & n6 & a4 & a6 & H4 & H6 & Hp4 & Hi4 & Hp6 & Hi6).
  exists (mkRoutedSet ∅ [] [n4; n6] true). split.
  - unfold RoutedSet_new. change (add_domains [str "*"] (∅, [], false)) with
      (Ok (∅, [], true) : result RuleError (gset bytes * list bytes * bool)). cbn -[str].
    change (trim (str "0.0.0.0/0")) with (str "0.0.0.0/0"). change (trim (str "::/0")) with (str "::/0").
    unfold parse_network. rewrite H4. cbn -[str]. by rewrite H6.
  - assert (Hip : forall ip, wf_ip ip -> allows_ip (mkRoutedSet ∅ [] [n4; n6] true) ip = true).
    { intros ip Hwf. unfold allows_ip. cbn. destruct ip as [a|a].
      - by rewrite (zero_prefix_contains n4) by (by rewrite ?Hi4).
      - by rewrite (zero_prefix_contains n6), orb_true_r by (by rewrite ?Hi6). }
    intros [sa|host port] Ht; cbn in *; [by apply Hip|].
    unfold allows_host. destruct (parse_ip_literal host) as [ip|]; [|done]. by apply Hip, Ht.
Qed.

(** The configuration of a quick server, resolved. *)
Definition quick_resolved (relays : list bytes) (token : option bytes) (blocklist : bytes)
  : ResolvedServer :=
  mkResolvedServer None None relays token [] [str "*"] [str "0.0.0.0/0"; str "::/0"] [] [] [] blocklist.

Lemma quick_resolves relays token blocklist :
  default_blocklist_path = Some blocklist ->
  resolve_server (quick_server_config relays token) None = Ok (quick_resolved relays token blocklist).
Proof.
  intros Hb. unfold resolve_server, quick_server_config. cbn -[default_blocklist_path str].
  rewrite Hb. cbn -[str]. unfold quick_resolved. by destruct relays, token.
Qed.

Lemma quick_starts env relays token blocklist q bl rc rs :
  load blocklist (blocklist_content env) = Ok bl ->
  is_server_conflicted bl (id_to_string (q_secret q)) = false ->
  from_urls_with_token relays token = Ok rc ->
  RoutedSet_new [str "*"] [str "0.0.0.0/0"; str "::/0"] = Ok rs ->
  start_server env (quick_resolved relays token blocklist) (Some q)
  = Ok (mkPrepared (q_secret q)
          (ProxyServer_new (process_nonce env)
             (mkParams (q_secret q) (no_keys env) ∅ [] rs [str "*"] [str "0.0.0.0/0"; str "::/0"] None []
                true))
          bl rc (mkAllowlists ∅ {[q_client_id q]})).
Proof.
  intros Hbl Hc Hrc Hrs. unfold start_server, quick_resolved. cbn -[prepare str RoutedSet_new].
  unfold prepare. cbn -[str RoutedSet_new]. rewrite andb_false_r, Hbl. cbn -[str RoutedSet_new].
  rewrite Hc, Hrs. cbn -[str]. rewrite bool_decide_eq_false_2 by set_solver.
  by rewrite Hrc.
Qed.

(** C13. A quick server belongs to one client and tunnels everything. Whatever relays
    are given, its configuration resolves and the server starts (provided the
    blocklist reads and does not name it, and the relays are valid); then of all
    connections only one of the client id typed at the prompt, over the quick
    protocol, gets past the endpoint and is authenticated, and that one does; no
    bridge is accepted or configured; and every target is in the routed set. *)
Theorem quick_server_serves_one_client env relays token blocklist q bl rc :
  default_routes -> default_blocklist_path = Some blocklist ->
  (forall k, keys_contain (no_keys env) k = false) ->
  load blocklist (blocklist_content env) = Ok bl ->
  is_server_conflicted bl (id_to_string (q_secret q)) = false ->
  from_urls_with_token relays token = Ok rc ->
  exists r ps, resolve_server (quick_server_config relays token) None = Ok r
    /\ start_server env r (Some q) = Ok ps
    /\ (forall conn hello, after_handshake (ps_allowlists ps) SideServer (alpn conn) (remote_id conn) = Accept ->
          alpn conn <> BRIDGE_ALPN
          /\ (auth_ok (ps_server ps) conn hello = true
              <-> alpn conn = QUICK_ALPN /\ remote_id conn = q_client_id q))
    /\ after_handshake (ps_allowlists ps) SideServer QUICK_ALPN (q_client_id q) = Accept
    /\ bridges (ps_server ps) = []
    /\ forall t, addressed t -> allows (routed_set (ps_server ps)) t = true.
Proof.
  intros Hroutes Hpath Hno Hbl Hc Hrc. destruct (quick_routed_set Hroutes) as (rs & Hrs & Hall).
  eexists _, _. split_and!; [by apply quick_resolves | by apply quick_starts | | | done | exact Hall].
  - intros conn hello. cbn. unfold after_handshake, gate. cbn [bridge_servers quick_clients].
    case_bool_decide as Hb; [rewrite bool_decide_eq_false_2 by set_solver; done|].
    intros Hacc. split; [done|]. unfold auth_ok. case_bool_decide as Hq.
    + revert Hacc. case_bool_decide as Hin; [|done]. cbn. set_solver.
    + cbn. split; [|naive_solver]. destruct (auth hello) as [a|]; [|done].
      unfold verify_client_auth. cbn. destruct (id_parse _); [|done]. case_bool_decide; [|done]. cbn.
      destruct (key_parse _) as [k|]; [|done]. by rewrite Hno.
  - unfold after_handshake, gate. cbn [bridge_servers quick_clients].
    rewrite bool_decide_eq_false_2 by done. by rewrite !bool_decide_eq_true_2 by set_solver.
Qed.
End quick.

(** ** How a server process ends *)

Lemma parked_life events : forall g, server_life None events <> Some (IdleEnded g).
Proof.
  induction events as [|[t ev] events IH]; intros g; cbn; [done|]. by destruct ev.
Qed.

(** The idle timer ends exactly the servers it is meant for: a process exits for
    being idle if and only if it is a quick server and nothing (no client, no signal,
    no failure) happened in its first five minutes; it then exits at that very
    instant. In particular a quick server that saw its client, and every regular
    server, run until they fail or are stopped. *)
Theorem idle_exit_exact quick start events g :
  run_server_life quick start events = Some (IdleEnded g)
  <-> quick = true /\ g = start + QUICK_IDLE_TIMEOUT
      /\ match events with (t, _) :: _ => g <= t | [] => True end.
Proof.
  unfold run_server_life. destruct quick.
  2: { split; [intros Hx; by apply parked_life in Hx | by intros [? _]]. }
  destruct events as [|[t ev] events]; cbn [server_life].
  - split; [by intros [= <-] | by intros (_ & -> & _)].
  - destruct (Z.leb_spec (start + QUICK_IDLE_TIMEOUT) t) as [Hle|Hlt].
    + split; [by intros [= <-] | by intros (_ & -> & _)].
    + split; [|intros (_ & -> & Ht); lia].
      destruct ev; [done|done|]. intros Hx. by apply parked_life in Hx.
Qed.

(** Once it has been told to stop, the process is gone within five seconds. *)
Theorem shutdown_bounded close_takes second_signal :
  close_endpoint_or_exit close_takes second_signal <= SHUTDOWN_CLOSE_TIMEOUT.
Proof. unfold close_endpoint_or_exit. destruct close_takes, second_signal; lia. Qed.

Section witnesses.
Import RefJson.
#[local] Existing Instances RefIdentity RefResolver RefConfigEnv.

#[local] Instance RefStartup : StartupApi := {|
  RelayConfig := list bytes;
  from_urls_with_token urls _ := Ok urls;
  custom_urls c := c;
  keys_is_empty (l : @AuthorizedKeys RefIdentity) := bool_decide (l = []);
|}.

Definition ref_start : StartEnv :=
  mkStartEnv (fun _ => Err []) (fun _ => Err []) (fun _ => Err []) [] no_file 1.

Definition ref_quick : QuickServer := mkQuick (7 : EndpointId) (100 : EndpointId).

Definition ref_relays : RelayConfig := [].

Definition ref_blocklist : BlockList :=
  mkBlockList (default [] default_blocklist_path) BlockListData_default.

Lemma default_routes_hold : @default_routes RefNetwork.
Proof. eexists _, _, 0, 0. split_and!; reflexivity. Qed.

Lemma quick_server_serves_one_client_witness :
  exists r ps, resolve_server (quick_server_config [] None) None = Ok r
    /\ start_server ref_start r (Some ref_quick) = Ok ps
    /\ after_handshake (ps_allowlists ps) SideServer QUICK_ALPN (7 : EndpointId) = Accept.
Proof.
  destruct (quick_server_serves_one_client ref_start [] None (default [] default_blocklist_path)
    ref_quick ref_blocklist ref_relays)
    as (r & ps & Hr & Hps & _ & Hacc & _); [exact default_routes_hold | reflexivity | done | reflexivity
    | reflexivity | reflexivity |].
  eauto.
Defined.
End witnesses.
