(* ===== verification/Command.v ===== *)
(** * The command line's commands ([crates/flextunnel-cli/src/main.rs]: [Args] to
    [run_async]; [client_session.rs]: [run], [run_quick]; [tui/mod.rs]: [run])

    A command line is a value of [CliCommand]; which of them clap lets through is
    [accepted], from the attributes of the declarations. [main] turns a command into the
    [Job] that runs, with the ids it prints on the way; what is typed at the prompts, the
    drawn identity and whether there is a terminal are the environment [MainEnv]. Version
    and start-up texts are left out. *)

From S2P Require Import Prelude RustStr Net AddrText Stream Signaling Socks5 RoutedSet DnsForward Dial.
From S2P Require Import Blocklist Registry Server Client ClientProofs Http LocalConn Accept Forward.
From S2P Require Import ForwardProofs PortForwards Ipc ServerStream ServerStreamProofs Startup Config.
From S2P Require Import Session Cli Panel.

(** ** Commands *)

Inductive ServerAction : Type :=
| ServerStart (config : option bytes) (default_config : bool) (flags : ServerFlags) (quick : bool).

Inductive ClientAction : Type :=
| ClientStart (config : option bytes) (flags : ClientFlags) (quick : bool)
| Control (config server_node_id : option bytes)
| Nc (config server_node_id : option bytes) (host : bytes) (port : Z).

Inductive CliCommand : Type :=
| ServerCommand (action : ServerAction)
| ClientCommand (action : ClientAction)
| GenerateIrohKey (output : bytes) (force json : bool)
| ShowIrohId (config : option bytes) (default_config : bool) (secret_file : option bytes) (json : bool).

Definition given {A} (o : option A) : bool := bool_decide (is_Some o).
Definition given_list {A} (l : list A) : bool := match l with [] => false | _ => true end.

(** [arg_required_else_help]. *)
Definition any_server_arg (config : option bytes) (default_config : bool) (f : ServerFlags) (quick : bool) : bool :=
  given config || default_config || given (sf_secret_file f) || given (sf_authorized_keys_file f)
  || given_list (sf_relay_urls f) || given (sf_relay_auth_token f) || quick.

Definition any_client_arg (config : option bytes) (f : ClientFlags) (quick : bool) : bool :=
  given config || given (cf_socks_port f) || given (cf_http_port f) || given (cf_server_node_id f)
  || given (cf_auth_key f) || given (cf_auth_key_file f) || given_list (cf_relay_urls f)
  || given (cf_relay_auth_token f) || cf_auto_reconnect f || cf_no_auto_reconnect f
  || given (cf_max_reconnect_attempts f) || quick.

(** [conflicts_with], [conflicts_with_all] of the start commands. *)
Definition server_conflict (config : option bytes) (default_config : bool) (f : ServerFlags) (quick : bool) : bool :=
  quick && (given config || default_config || given (sf_secret_file f) || given (sf_authorized_keys_file f)).

Definition client_conflict (config : option bytes) (f : ClientFlags) (quick : bool) : bool :=
  given (cf_auth_key f) && given (cf_auth_key_file f)
  || cf_auto_reconnect f && cf_no_auto_reconnect f
  || quick && (given config || given (cf_auth_key f) || given (cf_auth_key_file f)).

(** [Option<u16>], [Option<NonZeroU32>]. *)
Definition u16_flag (p : option Z) : bool := match p with Some p => (0 <=? p) && (p <=? 65535) | None => true end.
Definition nonzero_u32_flag (n : option Z) : bool :=
  match n with Some n => (1 <=? n) && (n <=? 2 ^ 32 - 1) | None => true end.

Definition accepted (c : CliCommand) : bool :=
  match c with
  | ServerCommand (ServerStart config default_config f quick) =>
      any_server_arg config default_config f quick && negb (server_conflict config default_config f quick)
  | ClientCommand (ClientStart config f quick) =>
      any_client_arg config f quick && negb (client_conflict config f quick)
      && u16_flag (cf_socks_port f) && u16_flag (cf_http_port f)
      && nonzero_u32_flag (cf_max_reconnect_attempts f)
  | ClientCommand (Control _ _) => true
  | ClientCommand (Nc _ _ _ port) => u16_flag (Some port)
  | GenerateIrohKey _ _ _ => true
  | ShowIrohId config default_config secret_file json =>
      given config || default_config || given secret_file || json
  end.

Definition wants_logger (c : CliCommand) : bool :=
  match c with
  | ClientCommand (ClientStart _ _ true) | ClientCommand (Nc _ _ _ _) => false
  | _ => true
  end.

(** ** From commands to jobs *)

Section main.
Context {ID : Identity} {CE : ConfigEnv}.

Inductive Job : Type :=
| RunServer (r : ResolvedServer) (quick : option QuickServer)
| RunClient (r : ResolvedClient)
| RunQuickClient (r : ResolvedClient) (client_secret : EndpointId)
| RunPanel (config server_node_id : option bytes)
| RunNc (config server_node_id : option bytes) (host : bytes) (port : Z)
| RunGenerateKey (output : bytes) (force json : bool)
| RunShowId (secret_file : option bytes) (json : bool).

Inductive MainError : Type :=
| NeedsTerminal (why : bytes)
| StillAsking
| BadConfig (e : ConfigError)
| Unreachable.

(** A secret is named by its id. *)
Record MainEnv : Type := mkMainEnv {
  stdin_is_terminal : bool;
  typed : list bytes;
  generated : EndpointId;
  asks_left : nat;           (* how often a prompt may repeat *)
}.

Definition show_id_config (secret_file : option bytes) : Config.ServerConfig :=
  mkServerConfig secret_file None None None None None None None None None.

Definition run_quick_server (env : MainEnv) (f : ServerFlags) : list bytes * result MainError Job :=
  if negb (stdin_is_terminal env)
  then ([], Err (NeedsTerminal (str "`server start --quick` needs an interactive terminal.")))
  else match prompt_endpoint_id id_parse (asks_left env) (typed env) with
       | None => ([], Err StillAsking)
       | Some (client_id, _) =>
           let cli := quick_server_config (sf_relay_urls f) (sf_relay_auth_token f) in
           ([id_to_string (generated env)],
            r ← map_err BadConfig (resolve_server cli None);
            Ok (RunServer r (Some (mkQuick client_id (generated env)))))
       end.

Definition run_quick_client (env : MainEnv) (f : ClientFlags) : list bytes * result MainError Job :=
  if negb (stdin_is_terminal env)
  then ([], Err (NeedsTerminal (str "`client start --quick` needs an interactive terminal.")))
  else ([id_to_string (generated env)],
        '(cli, _) ← ok_or (fill_client_config (asks_left env) (typed env) (client_start_config f)) StillAsking;
        Ok (RunQuickClient (resolve_client cli None) (generated env))).

(** The ids printed, and what runs. *)
Definition run_async (env : MainEnv) (c : CliCommand) : list bytes * result MainError Job :=
  match c with
  | ServerCommand (ServerStart config default_config f quick) =>
      if quick then run_quick_server env f
      else ([], file ← map_err BadConfig (load_server_config config default_config);
                r ← map_err BadConfig (resolve_server (server_start_config f) file);
                Ok (RunServer r None))
  | ClientCommand (ClientStart config f quick) =>
      if quick then run_quick_client env f
      else ([], file ← map_err BadConfig (load_client_config config);
                Ok (RunClient (resolve_client (client_start_config f) file)))
  | _ => ([], Err Unreachable)
  end.

Definition main (env : MainEnv) (c : CliCommand) : list bytes * result MainError Job :=
  match c with
  | ClientCommand (Control config id) => ([], Ok (RunPanel config id))
  | ClientCommand (Nc config id host port) => ([], Ok (RunNc config id host port))
  | GenerateIrohKey output force json => ([], Ok (RunGenerateKey output force json))
  | ShowIrohId config default_config secret_file json =>
      ([], file ← map_err BadConfig (load_server_config config default_config);
           r ← map_err BadConfig (resolve_server (show_id_config secret_file) file);
           Ok (RunShowId (sv_secret_file r) json))
  | command => run_async env command
  end.
End main.

(** ** Sessions of a client *)

(** Where the control channel is served. *)
Inductive IpcSink : Type :=
| SocketSink (key : bytes)
| PanelSink.

Definition no_server_id : bytes :=
  str "The client requires a server node id (--server-node-id or server_node_id in the config).".

(** [run] of [client_session.rs]: what [drive_session] is given, or the error; and the
    instance keys whose lock was taken. *)
Definition client_run {K S} (env : BuildEnv K S) (from_secret_str load_file : bytes -> result bytes K)
    (acquire_client : bytes -> result bytes ()) (r : ResolvedClient)
  : list bytes * result bytes (Session * IpcSink) :=
  match (server_node_id ← ok_or (rc_server_node_id r) no_server_id;
         key ← instance_key server_node_id;
         client_key ← resolve_client_key from_secret_str load_file r;
         _ ← acquire_client key;
         Ok (server_node_id, key, client_key)) with
  | Err e => ([], Err e)
  | Ok (server_node_id, key, client_key) =>
      ([key],
       forwards ← map_err (fun e => str "Invalid [[forwards]] in the client config: " ++ e)
                    (forwards_from_config (rc_forwards r));
       session ← b_result (build_session env r server_node_id (AuthKey client_key) key forwards);
       Ok (session, SocketSink key))
  end.

(** [run_quick]: no lock, no socket, no forwards. *)
Definition client_run_quick {K S} (env : BuildEnv K S) (r : ResolvedClient) (client_secret : S)
  : result bytes (Session * IpcSink) :=
  server_node_id ← ok_or (rc_server_node_id r) no_server_id;
  key ← instance_key server_node_id;
  session ← b_result (build_session env r server_node_id (AuthQuick client_secret) key []);
  Ok (session, PanelSink).

(** ** Attaching the panel *)

Inductive PanelStart : Type :=
| PanelNotLocated (e : LocateError)
| PanelNotRunning (message : bytes)          (* exit status 1 *)
| PanelFailed (why : bytes)
| PanelEnds (out : list Request * PanelOut).

Definition lost_connection : bytes := str "Lost the connection to the client (did it stop?)".

(** [tui::run]; [first] answers the first status request. *)
Definition tui_run {CE : ConfigEnv} (entries : option (list bytes)) (debug : Response -> bytes)
    (opened : option (result io_error Stream)) (first : result bytes Response) (rounds : list Round)
    (config_path server_node_id : option bytes) : PanelStart :=
  match locate entries config_path server_node_id with
  | Err e => PanelNotLocated e
  | Ok l =>
      match ipc_connect opened with
      | Err e => PanelFailed e
      | Ok None => PanelNotRunning (str "The flextunnel client for " ++ loc_profile l ++ str " is not running.")
      | Ok (Some _) =>
          match request_snapshot debug first with
          | Err e => PanelFailed e
          | Ok s =>
              match panel_run debug rounds (App_new s) with
              | (reqs, PanelDone (Err _)) => PanelEnds (reqs, PanelDone (Err lost_connection))
              | out => PanelEnds out
              end
          end
      end
  end.

(** ** Theorems *)

(** Commands that run an ephemeral server or client. *)
Definition is_quick (c : CliCommand) : bool :=
  match c with
  | ServerCommand (ServerStart _ _ _ quick) | ClientCommand (ClientStart _ _ quick) => quick
  | _ => false
  end.

(** A job that rests on nothing saved: the identity is the drawn one, no key, no
    authorized client, no forward, no bridge. *)
Definition ephemeral {ID : Identity} (secret : EndpointId) (j : Job) : Prop :=
  match j with
  | RunServer r (Some q) => q_secret q = secret /\ sv_secret_file r = None /\ sv_authorized_keys_file r = None
                            /\ sv_bridges r = [] /\ sv_allowed_bridge_servers r = []
  | RunQuickClient r s => s = secret /\ rc_auth_key r = None /\ rc_auth_key_file r = None /\ rc_forwards r = []
                          /\ is_Some (rc_server_node_id r)
  | _ => False
  end.

Lemma given_false {A} (o : option A) : given o = false -> o = None.
Proof. unfold given. destruct o; [|done]. by rewrite bool_decide_eq_true_2 by eauto. Qed.

Section main_facts.
Context {ID : Identity}.

Lemma quick_client_flags {CE : ConfigEnv} config f :
  accepted (ClientCommand (ClientStart config f true)) = true ->
  cf_auth_key f = None /\ cf_auth_key_file f = None.
Proof.
  unfold accepted, client_conflict. intros Ha. repeat rewrite ?andb_true_iff, ?negb_true_iff, ?orb_false_iff in Ha.
  destruct Ha as ((((_ & _ & H) & _) & _) & _). cbn in H. rewrite !orb_false_iff in H.
  destruct H as ((_ & ?) & ?). split; by apply given_false.
Qed.

(** What the prompts leave of a configuration. *)
Lemma filled_keeps {CE : ConfigEnv} fuel lines c c' rest :
  fill_client_config fuel lines c = Some (c', rest) ->
  is_Some (cc_server_node_id c')
  /\ exists id socks http, c' = with_prompted c id socks http.
Proof.
  unfold fill_client_config. intros ([id l1] & Hid & ([socks l2] & _ & ([http l3] & _ & [= <- _])%bind_Some)%bind_Some)%bind_Some.
  split; [|by eauto]. cbn. destruct (cc_server_node_id c); [by simplify_eq|].
  apply bind_Some in Hid as ([i l'] & _ & Hid). by simplify_eq.
Qed.

Lemma quick_resolution {CE : ConfigEnv} relays token :
  resolve_server (quick_server_config relays token) None
  = match default_blocklist_path with
    | Some b => Ok (quick_resolved relays token b)
    | None => Err NoHomeDir
    end.
Proof.
  destruct default_blocklist_path as [b|] eqn:Hb; [by apply quick_resolves|].
  unfold resolve_server, quick_server_config. cbn -[default_blocklist_path str]. by rewrite Hb.
Qed.

(** A client without key files does not look at the home directory. *)
Definition keyless (c : Config.ClientConfig) : Prop :=
  cc_auth_key c = None /\ cc_auth_key_file c = None /\ cc_forwards c = None.

Lemma keyless_resolution {CE : ConfigEnv} c :
  keyless c ->
  resolve_client c None
  = mkResolvedClient (cc_server_node_id c) (cc_name c) (cc_socks_port c) (cc_http_port c) None None
      (default [] (cc_relay_urls c)) (cc_relay_auth_token c) (default true (cc_auto_reconnect c))
      (cc_max_reconnect_attempts c) [].
Proof.
  intros (Hk & Hf & Hw). unfold resolve_client. cbn. rewrite Hk, Hf, Hw. cbn.
  by destruct (cc_server_node_id c), (cc_name c), (cc_socks_port c), (cc_http_port c), (cc_relay_urls c),
    (cc_relay_auth_token c), (cc_auto_reconnect c), (cc_max_reconnect_attempts c).
Qed.

Lemma filled_keyless {CE : ConfigEnv} config f fuel lines c rest :
  accepted (ClientCommand (ClientStart config f true)) = true ->
  fill_client_config fuel lines (client_start_config f) = Some (c, rest) -> keyless c.
Proof.
  intros [Hk Hf]%quick_client_flags (_ & id & socks & http & ->)%filled_keeps. by split_and!.
Qed.
End main_facts.

(** ** What a quick job takes from the machine *)

Section quick_jobs.
Context {ID : Identity} {NA : IpNetworkApi} {RA : ResolverApi} {SA : StartupApi} `{Json BlockListData}.

(** A quick server's start asks for no saved identity, takes no lock and reads no key
    file; it reads the blocklist, which can refuse it but changes nothing else of the
    server that starts. A quick client's session takes no lock, binds no socket and has no
    forwards. *)
Definition self_contained (j : Job) : Prop :=
  match j with
  | RunServer r (Some q) => forall e1 e2, process_nonce e1 = process_nonce e2 -> no_keys e1 = no_keys e2 ->
      (blocklist_content e1 = blocklist_content e2 -> start_server e1 r (Some q) = start_server e2 r (Some q))
      /\ forall ps1 ps2, start_server e1 r (Some q) = Ok ps1 -> start_server e2 r (Some q) = Ok ps2 ->
           ps2 = mkPrepared (ps_own_id ps1) (ps_server ps1) (ps_blocklist ps2) (ps_relay_config ps1)
                   (ps_allowlists ps1)
  | RunQuickClient r s => forall K (env : BuildEnv K EndpointId) session sink,
      client_run_quick env r s = Ok (session, sink) ->
      sink = PanelSink /\ s_panel session = true /\ s_forwards session = []
  | _ => False
  end.

(** The blocklist decides whether a server starts and is kept with it; no more. *)
Lemma prepare_any_blocklist c1 c2 nonce o ps1 ps2 :
  prepare c1 nonce o = Ok ps1 -> prepare c2 nonce o = Ok ps2 ->
  ps2 = mkPrepared (ps_own_id ps1) (ps_server ps1) (ps_blocklist ps2) (ps_relay_config ps1) (ps_allowlists ps1).
Proof.
  unfold prepare. destruct (_ && _); [done|].
  destruct (load _ c1) as [bl1|]; [|done]. destruct (load _ c2) as [bl2|]; [|done]. cbn -[prepare_bridges].
  destruct (is_server_conflicted bl1 _); [done|]. destruct (is_server_conflicted bl2 _); [done|].
  destruct (RoutedSet_new _ _) as [rs|]; [|done]. cbn -[prepare_bridges].
  destruct (DnsForwarder_new _) as [fwd|]; [|done]. cbn -[prepare_bridges].
  destruct (match fwd with Some _ => _ | None => _ end); [|done]. cbn -[prepare_bridges].
  destruct (parse_allowed _) as [allowed|]; [|done]. cbn -[prepare_bridges].
  case_bool_decide; [done|]. destruct (from_urls_with_token _ _) as [relays|]; [|done]. cbn -[prepare_bridges].
  destruct (prepare_bridges _ _ _ _) as [bs|]; [|done]. by intros [= <-] [= <-].
Qed.

Lemma quick_server_contained r q : sv_authorized_keys_file r = None -> self_contained (RunServer r (Some q)).
Proof.
  intros Hk e1 e2 Hn Hno. unfold start_server. rewrite Hk, Hn, Hno. cbn -[prepare].
  split; [by intros ->|]. intros ps1 ps2 H1 H2.
  destruct (prepare (blocklist_content e1) _ _) as [p1|] eqn:E1; [|done].
  destruct (prepare (blocklist_content e2) _ _) as [p2|] eqn:E2; [|done].
  injection H1 as <-. injection H2 as <-. by eapply prepare_any_blocklist.
Qed.

Lemma quick_client_contained r s : self_contained (RunQuickClient r s).
Proof.
  intros K env session sink. unfold client_run_quick. destruct (rc_server_node_id r) as [id|]; [|done].
  cbn -[build_session]. destruct (instance_key id) as [key|]; [|done]. cbn -[build_session].
  destruct (b_result _) as [s'|] eqn:Hb; [|done]. intros [= <- <-]. split; [done|]. revert Hb.
  unfold build_session. repeat (case_match; try done). cbn. by intros [= <-].
Qed.

(** C36. Quick mode rests on nothing saved but the blocklist. For every quick command line
    that clap accepts, what is printed and the job that results (or the error) is the same
    whatever files are on the disk and whatever is in them; the job has the identity drawn
    for it, no key, no key file, no authorized keys, no bridges and no forwards. Running
    it, a quick server consults no saved identity, lock or key file: what starts depends on
    the machine only through [blocklist.json], which is read there too and can refuse the
    start, and is otherwise the same server; and a quick client's session takes no instance
    lock, binds no control socket and has no forwards. *)
Theorem quick_ignores_saved (CE1 CE2 : ConfigEnv) env c :
  is_quick c = true -> accepted c = true -> @home_dir CE1 = @home_dir CE2 ->
  @main ID CE1 env c = @main ID CE2 env c
  /\ forall job, (@main ID CE1 env c).2 = Ok job -> ephemeral (generated env) job /\ self_contained job.
Proof.
  intros Hq Ha Hhome. destruct c as [[config dc f []]|[config f []| |]| |]; try done; cbn [main run_async].
  - unfold run_quick_server. destruct (stdin_is_terminal env); [|done]. cbn [negb].
    destruct (prompt_endpoint_id _ _ _) as [[id rest]|]; [|done]. rewrite !quick_resolution.
    replace (@default_blocklist_path CE2) with (@default_blocklist_path CE1)
      by (unfold default_blocklist_path; by rewrite Hhome).
    split; [done|]. intros job. cbn [snd]. destruct default_blocklist_path; [|done]. intros [= <-].
    split; [done|]. by apply quick_server_contained.
  - unfold run_quick_client. destruct (stdin_is_terminal env); [|done]. cbn [negb].
    destruct (fill_client_config _ _ _) as [[c rest]|] eqn:Hfill; [|done]. cbn -[self_contained].
    rewrite !keyless_resolution by by eapply filled_keyless.
    split; [done|]. intros job [= <-]. split; [|apply quick_client_contained].
    cbn. by apply filled_keeps in Hfill as [? _].
Qed.
End quick_jobs.

(** An id prints as text that a prompt takes as it is. *)
Definition plain_id {ID : Identity} (i : EndpointId) : Prop :=
  trim (id_to_string i) = id_to_string i /\ id_to_string i <> [].

(** Pairing a quick server and a quick client works by copying two ids. The client
    prints its id before it asks; typed at the server's prompt, it is the only client the
    server will have, and the server prints its own; typed at the client's prompt, that is
    the server the client dials, with the identity whose id it printed. *)
Theorem quick_pairing {ID : Identity} {IL : IdentityLaws} {CE : ConfigEnv} cenv senv cf sf blocklist :
  plain_id (generated cenv) -> plain_id (generated senv) -> default_blocklist_path = Some blocklist ->
  accepted (ClientCommand (ClientStart None cf true)) = true -> cf_server_node_id cf = None ->
  stdin_is_terminal cenv = true -> stdin_is_terminal senv = true -> asks_left cenv <> O -> asks_left senv <> O ->
  typed senv = [id_to_string (generated cenv)] -> typed cenv = [id_to_string (generated senv)] ->
  (exists r, main cenv (ClientCommand (ClientStart None cf true))
             = ([id_to_string (generated cenv)], Ok (RunQuickClient r (generated cenv)))
     /\ rc_server_node_id r = Some (id_to_string (generated senv)))
  /\ (exists r, main senv (ServerCommand (ServerStart None false sf true))
             = ([id_to_string (generated senv)],
                Ok (RunServer r (Some (mkQuick (generated cenv) (generated senv)))))
     /\ sv_routed_domains r = [str "*"]).
Proof.
  intros Hcp Hsp Hb Hacc Hnone Hct Hst Hca Hsa Hsty Hcty.
  assert (Hask : forall n i, n <> O -> plain_id i -> prompt_endpoint_id id_parse n [id_to_string i] = Some (i, [])).
  { intros [|n] i Hn [Ht Hne]; [done|]. cbn -[trim]. rewrite Ht.
    rewrite bool_decide_eq_false_2 by done. by rewrite id_parse_print. }
  split.
  - assert (exists c rest, fill_client_config (asks_left cenv) (typed cenv) (client_start_config cf) = Some (c, rest)
      /\ cc_server_node_id c = Some (id_to_string (generated senv))) as (c & rest & Hfill & Hid).
    { unfold fill_client_config. cbn. rewrite Hnone, Hcty, Hask by done. cbn.
      destruct (asks_left cenv) as [|n]; [done|].
      destruct (cf_socks_port cf), (cf_http_port cf); cbn; eauto. }
    exists (resolve_client c None). cbn [main run_async]. unfold run_quick_client. rewrite Hct, Hfill.
    split; [done|]. rewrite keyless_resolution by by eapply filled_keyless. done.
  - exists (quick_resolved (sf_relay_urls sf) (sf_relay_auth_token sf) blocklist). cbn [main run_async].
    unfold run_quick_server. rewrite Hst, Hsty, Hask by done. cbn [negb].
    by rewrite quick_resolution, Hb.
Qed.

(** The commands that give up the logger are those whose job owns the terminal or its
    standard output, and no command reaches the unreachable arm. *)
Theorem main_dispatch {ID : Identity} {CE : ConfigEnv} env c :
  (main env c).2 <> Err Unreachable
  /\ forall job, (main env c).2 = Ok job ->
     (wants_logger c = false
      <-> match job with RunQuickClient _ _ | RunNc _ _ _ _ => True | _ => False end).
Proof.
  destruct c as [[config dc f []]|[config f []| |]| |]; cbn [main run_async wants_logger snd].
  - unfold run_quick_server. destruct (stdin_is_terminal env); [|done]. cbn [negb].
    destruct (prompt_endpoint_id _ _ _) as [[id rest]|]; [|done]. cbn [snd].
    destruct (resolve_server _ _); (split; [done|]); [by intros job [= <-]|done].
  - destruct (load_server_config _ _); [|done]. cbn -[resolve_server].
    destruct (resolve_server _ _); (split; [done|]); [by intros job [= <-]|done].
  - unfold run_quick_client. destruct (stdin_is_terminal env); [|done]. cbn [negb snd].
    destruct (fill_client_config _ _ _) as [[c rest]|]; (split; [done|]); [by intros job [= <-]|done].
  - destruct (load_client_config _); (split; [done|]); [by intros job [= <-]|done].
  - split; [done|]. by intros job [= <-].
  - split; [done|]. by intros job [= <-].
  - split; [done|]. by intros job [= <-].
  - destruct (load_server_config _ _); [|done]. cbn -[resolve_server].
    destruct (resolve_server _ _); (split; [done|]); [by intros job [= <-]|done].
Qed.

(** A control socket is served, and a stale one removed, only under the instance lock of
    the same key; a quick session has neither, nor forwards. *)
Theorem socket_needs_lock {K S} (env : BuildEnv K S) from_secret_str load_file acquire_client r s sink locks :
  client_run env from_secret_str load_file acquire_client r = (locks, Ok (s, sink)) ->
  exists key id, rc_server_node_id r = Some id /\ instance_key id = Ok key
    /\ sink = SocketSink key /\ locks = [key] /\ acquire_client key = Ok tt /\ s_panel s = false.
Proof.
  unfold client_run. destruct (rc_server_node_id r) as [id|]; [|done]. cbn.
  destruct (instance_key id) as [key|] eqn:Hkey; [|done]. cbn.
  destruct (resolve_client_key _ _ r) as [ck|]; [|done]. cbn.
  destruct (acquire_client key) as [[]|] eqn:Hlock; [|done]. cbn.
  destruct (forwards_from_config _) as [fs|]; [|done]. cbn -[build_session].
  destruct (b_result (build_session env r id _ key fs)) as [s'|] eqn:Hb; [|done]. intros [= <- <- <-].
  exists key, id. split_and!; [done..|]. revert Hb. unfold build_session.
  repeat (case_match; try done). cbn. by intros [= <-].
Qed.

Section witnesses.
Import RefJson.
#[local] Existing Instances RefIdentity RefResolver RefStartup RefConfigEnv.

Definition no_client_flags : ClientFlags := mkClientFlags None None None None None [] None false false None.
Definition no_server_flags : ServerFlags := mkServerFlags None None [] None.

(** A client that drew the id 7, told to dial 100, and a server that drew 100. *)
Definition client_terminal : MainEnv := mkMainEnv true [id_to_string (100 : EndpointId)] (7 : EndpointId) 3.
Definition server_terminal : MainEnv := mkMainEnv true [id_to_string (7 : EndpointId)] (100 : EndpointId) 3.

(** A disk with another configuration on it. *)
Definition other_disk : ConfigEnv := {|
  home_dir := Some (str "/home/u");
  read_to_string := fun _ => Ok [];
  path_exists := fun _ => true;
  toml_server := fun _ => Ok (show_id_config (Some (str "~/saved.key")));
  toml_client := fun _ => Ok (cli_with_id (Some (str "saved")));
|}.

Definition quick_server_line : CliCommand := ServerCommand (ServerStart None false no_server_flags true).

(** Another machine: other saved keys, the same blocklist. *)
Definition other_start : StartEnv :=
  mkStartEnv (fun _ => Ok (55 : EndpointId)) (fun _ => Ok tt) (fun _ => Ok (no_keys ref_start))
    (no_keys ref_start) (blocklist_content ref_start) (process_nonce ref_start).

Lemma quick_ignores_saved_witness :
  @main RefIdentity RefConfigEnv server_terminal quick_server_line
    = @main RefIdentity other_disk server_terminal quick_server_line
  /\ exists r q, (@main RefIdentity RefConfigEnv server_terminal quick_server_line).2 = Ok (RunServer r (Some q))
      /\ start_server ref_start r (Some q) = start_server other_start r (Some q).
Proof.
  destruct (quick_ignores_saved RefConfigEnv other_disk server_terminal quick_server_line) as [H1 H2];
    [reflexivity..|].
  split; [exact H1|]. eexists _, _. split; [reflexivity|].
  destruct (H2 _ eq_refl) as [_ H3]. exact (proj1 (H3 ref_start other_start eq_refl eq_refl) eq_refl).
Defined.

Lemma quick_pairing_witness :
  exists r, main server_terminal (ServerCommand (ServerStart None false no_server_flags true))
    = ([id_to_string (100 : EndpointId)], Ok (RunServer r (Some (mkQuick (7 : EndpointId) (100 : EndpointId))))).
Proof.
  destruct (quick_pairing client_terminal server_terminal no_client_flags no_server_flags
    (default [] default_blocklist_path)) as [_ (r & Hr & _)]; [by vm_compute..|eauto].
Defined.
End witnesses.
