(* ===== verification/DesktopStore.v ===== *)
(** * The desktop application's store ([crates/flextunnel-desktop/src/config.rs])

    Keys, profiles and the hosted server, persisted as one JSON document whose
    secrets are sealed under a master key kept in the system keychain, or, for
    development, as a plaintext file.

    What serde writes of a record is a record of its own ([KeyDoc], [ProfileDoc],
    ...): the fields marked [serde(skip)] are absent from it, so nothing derived
    from a document can depend on them. JSON texts go through the class [Json];
    the cipher and base64 are the class [SafeBox], the client public keys of the
    flexaccess crate the class [PublicKeys]. A process runs on a [Machine]: the
    files, the keychain entry, the process's cached master key and chosen backend,
    and a count of keychain accesses. What may fail, and the random bytes, are an
    argument ([Faults]). *)

From S2P Require Import Prelude RustStr Net Stream Signaling Blocklist PortForwards Config.



Definition DEFAULT_SOCKS_PORT : Z := 1080.
Definition DEFAULT_HTTP_PORT : Z := 18080.
Definition SEALED_VERSION : Z := 1.

Record AuthKey : Type := mkAuthKey {
  k_id : bytes;
  k_name : bytes;
  k_public : bytes;
  k_secret : bytes;               (* serde(skip) *)
}.

Record Profile : Type := mkProfile {
  p_id : bytes;
  p_name : bytes;
  p_server : bytes;
  p_key_id : bytes;
  p_socks : option Z;
  p_http : option Z;
  p_relay_urls : list bytes;
  p_token : option bytes;         (* serde(skip) *)
  p_forwards : list PortForward;
}.

Record AuthorizedClient : Type := mkAuthorized { ac_name : bytes; ac_public : bytes }.

#[export] Instance AuthorizedClient_eq_dec : EqDecision AuthorizedClient.
Proof. solve_decision. Defined.

Record ServerConfig : Type := mkServer {
  sv_endpoint_id : bytes;
  sv_secret : bytes;              (* serde(skip) *)
  sv_clients : list AuthorizedClient;
  sv_domains : list bytes;
  sv_cidrs : list bytes;
  sv_relay_urls : list bytes;
  sv_token : option bytes;        (* serde(skip) *)
  sv_enabled : bool;
}.

Record Store : Type := mkStore {
  keys : list AuthKey;
  profiles : list Profile;
  server : option ServerConfig;
  login_item_set_up : bool;
  unseal_failed : bool;           (* serde(skip) *)
  sealed_reset_from : option Z;   (* serde(skip) *)
  sealed_keys : bytes;
  sealed_version : Z;
}.

Definition Store_default : Store := mkStore [] [] None false false None [] 0.

Definition find_key (ks : list AuthKey) (i : bytes) : option AuthKey :=
  list_find (fun k => k_id k = i) ks ≫= fun x => Some x.2.

(** [str::contains] of a string: some suffix starts with it. *)
Fixpoint contains_str (p s : bytes) : bool :=
  starts_with s p || match s with [] => false | _ :: s' => contains_str p s' end.

Definition is_valid_name (name : bytes) : bool :=
  negb (bool_decide (name = []))
  && (char_count name <=? 64)
  && negb (starts_with name (str " "))
  && negb (ends_with name (str " "))
  && negb (contains_str (str "  ") name)
  && forallb (fun w => bool_decide (w = [x20]) || negb (contains_str w name)) white_space.

Definition is_ready (p : Profile) (ks : list AuthKey) : bool :=
  negb (bool_decide (p_server p = []))
  && match find_key ks (p_key_id p) with
     | Some k => negb (bool_decide (k_secret k = []))
     | None => false
     end.

Inductive StartBlocker : Type := NoIdentity | NoClients.

Definition start_blocker (s : ServerConfig) : option StartBlocker :=
  if bool_decide (sv_secret s = []) then Some NoIdentity
  else if bool_decide (sv_clients s = []) then Some NoClients
  else None.

(** ** The sealed map's ids *)

Definition SERVER_SECRET_ID : bytes := str "server".
Definition SERVER_RELAY_SECRET_ID : bytes := str "server-relay".
Definition PROFILE_RELAY_PREFIX : bytes := str "relay:".

Definition profile_relay_secret_id (profile_id : bytes) : bytes := PROFILE_RELAY_PREFIX ++ profile_id.

Definition is_reserved_secret_id (i : bytes) : bool :=
  bool_decide (i = SERVER_SECRET_ID) || bool_decide (i = SERVER_RELAY_SECRET_ID)
  || starts_with i PROFILE_RELAY_PREFIX.

(** ** Backstops for a hand-edited file *)

(** [parse::<PublicKey>().map(to_token)] of the flexaccess keys. *)
Class PublicKeys := { public_token : bytes -> result bytes bytes }.

Definition parse_client_public_key `{PublicKeys} (value : bytes) : result bytes bytes :=
  map_err (fun e => str "Invalid public key: " ++ e) (public_token (trim value)).

Definition canonical_public `{PublicKeys} (c : AuthorizedClient) : bool :=
  match parse_client_public_key (ac_public c) with
  | Ok t => bool_decide (t = ac_public c)
  | Err _ => false
  end.

Fixpoint drop_invalid_clients_from `{PublicKeys} (names publics : gset bytes)
  (cs : list AuthorizedClient) : list AuthorizedClient :=
  match cs with
  | [] => []
  | c :: cs' =>
      if negb (is_valid_name (ac_name c)) then drop_invalid_clients_from names publics cs'
      else if negb (canonical_public c) then drop_invalid_clients_from names publics cs'
      else if bool_decide (ac_name c ∈ names) then drop_invalid_clients_from names publics cs'
      else if bool_decide (ac_public c ∈ publics) then drop_invalid_clients_from names publics cs'
      else c :: drop_invalid_clients_from ({[ac_name c]} ∪ names) ({[ac_public c]} ∪ publics) cs'
  end.

Definition drop_invalid_clients `{PublicKeys} : list AuthorizedClient -> list AuthorizedClient :=
  drop_invalid_clients_from ∅ ∅.

(** An entry that is dropped after its id (or name) was inserted keeps it
    reserved. *)
Fixpoint drop_invalid_keys_from (ids names publics : gset bytes) (ks : list AuthKey)
  : list AuthKey :=
  match ks with
  | [] => []
  | k :: ks' =>
      if bool_decide (k_id k = []) then drop_invalid_keys_from ids names publics ks'
      else if bool_decide (k_id k ∈ ids) then drop_invalid_keys_from ids names publics ks'
      else
        let ids := {[k_id k]} ∪ ids in
        if is_reserved_secret_id (k_id k) then drop_invalid_keys_from ids names publics ks'
        else if negb (is_valid_name (k_name k)) then drop_invalid_keys_from ids names publics ks'
        else if bool_decide (k_name k ∈ names) then drop_invalid_keys_from ids names publics ks'
        else
          let names := {[k_name k]} ∪ names in
          if bool_decide (k_public k ∈ publics) then drop_invalid_keys_from ids names publics ks'
          else k :: drop_invalid_keys_from ids names ({[k_public k]} ∪ publics) ks'
  end.

Definition drop_invalid_keys : list AuthKey -> list AuthKey := drop_invalid_keys_from ∅ ∅ ∅.

Fixpoint drop_invalid_from (ids names servers : gset bytes) (ps : list Profile) : list Profile :=
  match ps with
  | [] => []
  | p :: ps' =>
      if bool_decide (p_id p ∈ ids) then drop_invalid_from ids names servers ps'
      else
        let ids := {[p_id p]} ∪ ids in
        if negb (is_valid_name (p_name p)) then drop_invalid_from ids names servers ps'
        else if bool_decide (p_name p ∈ names) then drop_invalid_from ids names servers ps'
        else
          let names := {[p_name p]} ∪ names in
          if bool_decide (p_server p ∈ servers) then drop_invalid_from ids names servers ps'
          else p :: drop_invalid_from ids names ({[p_server p]} ∪ servers) ps'
  end.

Definition drop_invalid : list Profile -> list Profile := drop_invalid_from ∅ ∅ ∅.

(** ** Documents: what serde keeps of each record *)

Record KeyDoc : Type := mkKeyDoc { kd_id : bytes; kd_name : bytes; kd_public : bytes }.

Record ForwardDoc : Type := mkForwardDoc {
  fd_id : bytes; fd_label : bytes; fd_local_port : Z; fd_remote_host : bytes; fd_remote_port : Z;
}.

Record ProfileDoc : Type := mkProfileDoc {
  pd_id : bytes; pd_name : bytes; pd_server : bytes; pd_key_id : bytes;
  pd_socks : option Z; pd_http : option Z; pd_relay_urls : list bytes; pd_forwards : list ForwardDoc;
}.

Record ServerDoc : Type := mkServerDoc {
  sd_endpoint_id : bytes; sd_clients : list AuthorizedClient; sd_domains : list bytes;
  sd_cidrs : list bytes; sd_relay_urls : list bytes; sd_enabled : bool;
}.

(** [StoreRef] as written, [Store] as read. *)
Record StoreDoc : Type := mkStoreDoc {
  doc_keys : list KeyDoc;
  doc_profiles : list ProfileDoc;
  doc_server : option ServerDoc;
  doc_login : bool;
  doc_sealed : bytes;
  doc_version : Z;
}.

(** The dev file: every record beside its secrets. *)
Record DevDoc : Type := mkDevDoc {
  dev_keys : list (bytes * KeyDoc);
  dev_profiles : list (option bytes * ProfileDoc);
  dev_server : option (bytes * option bytes * ServerDoc);
  dev_login : bool;
}.

Definition key_doc (k : AuthKey) : KeyDoc := mkKeyDoc (k_id k) (k_name k) (k_public k).
Definition doc_key (secret : bytes) (d : KeyDoc) : AuthKey :=
  mkAuthKey (kd_id d) (kd_name d) (kd_public d) secret.

Definition forward_doc (f : PortForward) : ForwardDoc :=
  mkForwardDoc (pf_id f) (pf_label f) (pf_local_port f) (pf_remote_host f) (pf_remote_port f).
Definition doc_forward (d : ForwardDoc) : PortForward :=
  mkPortForward (fd_id d) (fd_label d) (fd_local_port d) (fd_remote_host d) (fd_remote_port d) false.

Definition profile_doc (p : Profile) : ProfileDoc :=
  mkProfileDoc (p_id p) (p_name p) (p_server p) (p_key_id p) (p_socks p) (p_http p) (p_relay_urls p)
    (forward_doc <$> p_forwards p).
Definition doc_profile (token : option bytes) (d : ProfileDoc) : Profile :=
  mkProfile (pd_id d) (pd_name d) (pd_server d) (pd_key_id d) (pd_socks d) (pd_http d)
    (pd_relay_urls d) token (doc_forward <$> pd_forwards d).

Definition server_doc (s : ServerConfig) : ServerDoc :=
  mkServerDoc (sv_endpoint_id s) (sv_clients s) (sv_domains s) (sv_cidrs s) (sv_relay_urls s)
    (sv_enabled s).
Definition doc_server_config (secret : bytes) (token : option bytes) (d : ServerDoc) : ServerConfig :=
  mkServer (sd_endpoint_id d) secret (sd_clients d) (sd_domains d) (sd_cidrs d) (sd_relay_urls d)
    token (sd_enabled d).

Definition doc_store (d : StoreDoc) : Store :=
  mkStore (doc_key [] <$> doc_keys d) (doc_profile None <$> doc_profiles d)
    (doc_server_config [] None <$> doc_server d) (doc_login d) false None (doc_sealed d)
    (doc_version d).

Definition DevDoc_default : DevDoc := mkDevDoc [] [] None false.

(** ** The machine *)

Inductive Backend : Type := Keychain | MockKeychain | DevFile (path : bytes).

Record Machine : Type := mkMachine {
  files : FileSystem;
  kc_entry : option bytes;        (* the Safe Storage password *)
  cache : option bytes;           (* the master key, for the process's life *)
  backend : option Backend;
  kc_accesses : Z;                (* reads of the keychain entry by this process *)
}.

Inductive StoreError : Type :=
| NoBackend
| BadKeychainEnv
| BothHatches
| NoDataDir
| EmptyFailed (path : bytes) (e : io_error)
| KeychainOpen
| KeychainRead
| KeychainStore
| BadMasterKey
| EncryptFailed
| JsonError (why : bytes)
| NotBase64
| TooShort
| DecryptFailed
| ReadError (path : bytes) (e : io_error)
| ParseError (path : bytes) (why : bytes)
| NoParent
| CreateFailed (path : bytes) (e : io_error)
| WriteFailed (path : bytes) (e : io_error)
| PersistFailed (path : bytes) (e : io_error).

(** What goes wrong in one operation, and the random bytes it draws. *)
Record Faults : Type := mkStoreFaults {
  open_works : bool;
  get_works : bool;
  set_works : bool;
  fresh_key : bytes;
  fresh_nonce : bytes;
  read_fault : option io_error;
  write_faults : WriteFaults;
}.

Abbreviation SM := (M Machine StoreError).

Definition with_files (m : Machine) (fs : FileSystem) : Machine :=
  mkMachine fs (kc_entry m) (cache m) (backend m) (kc_accesses m).

(** [read_json]: a missing file is [None]. *)
Definition read_json {A} `{Json A} (f : Faults) (path : bytes) : SM (option A) := fun m =>
  (match Blocklist.read_to_string (files m) path (read_fault f) with
   | Ok raw => a ← map_err (ParseError path) (from_slice raw); Ok (Some a)
   | Err e => if bool_decide (kind e = NotFound) then Ok None else Err (ReadError path e)
   end, m).

(** [Path::with_extension] of a path that ends in a file name: the part of the
    name from its last dot on, unless that dot starts it, is replaced. *)
Fixpoint before_last (c : byte) (s : bytes) : option bytes :=
  match s with
  | [] => None
  | b :: s' => match before_last c s' with
               | Some r => Some (b :: r)
               | None => if bool_decide (b = c) then Some [] else None
               end
  end.

Definition file_stem (name : bytes) : bytes :=
  match before_last "."%byte name with
  | Some [] | None => name
  | Some stem => stem
  end.

Definition with_extension (path ext : bytes) : bytes :=
  match before_last "/"%byte path with
  | Some dir => dir ++ str "/" ++ file_stem (drop (S (length dir)) path) ++ str "." ++ ext
  | None => file_stem path ++ str "." ++ ext
  end.

Definition has_parent (path : bytes) : bool := negb (forallb (fun b => bool_decide (b = "/"%byte)) path).

(** [write_json]: a temporary file beside the target, then a rename. A failed
    write leaves a partial temporary file. *)
Definition write_json {A} `{Json A} (f : Faults) (path : bytes) (value : A) : SM () := fun m =>
  if negb (has_parent path) then (Err NoParent, m)
  else match mkdir_fault (write_faults f) with
  | Some e => (Err (CreateFailed path e), m)
  | None =>
      let tmp := with_extension path (str "json.tmp") in
      match to_vec value with
      | Err why => (Err (JsonError why), m)
      | Ok json =>
          match write_fault (write_faults f) with
          | Some (partial, e) => (Err (WriteFailed tmp e), with_files m (<[tmp := partial]> (files m)))
          | None =>
              let fs1 := <[tmp := json]> (files m) in
              match rename_fault (write_faults f) with
              | Some e => (Err (PersistFailed path e), with_files m fs1)
              | None => (Ok tt, with_files m (<[path := json]> (delete tmp fs1)))
              end
          end
      end
  end.

(** ** Sealing *)

Class SafeBox := {
  aes_encrypt : bytes -> bytes -> bytes -> option bytes;   (* master, nonce, plaintext *)
  aes_decrypt : bytes -> bytes -> bytes -> option bytes;
  b64_encode : bytes -> bytes;
  b64_decode : bytes -> option bytes;
}.

Section store.
Context `{SafeBox} `{Json (gmap bytes bytes)}.

Definition remember (key : bytes) (m : Machine) : Machine :=
  mkMachine (files m) (kc_entry m) (Some key) (backend m) (kc_accesses m).

Definition touch (m : Machine) : Machine :=
  mkMachine (files m) (kc_entry m) (cache m) (backend m) (kc_accesses m + 1).

Definition set_entry (password : bytes) (m : Machine) : Machine :=
  mkMachine (files m) (Some password) (cache m) (backend m) (kc_accesses m).

Definition master_key_of (password : bytes) : option bytes :=
  key ← b64_decode password; if bool_decide (length key = 32%nat) then Some key else None.

Definition safe_storage_key (f : Faults) : SM bytes := fun m =>
  match cache m with
  | Some key => (Ok key, m)
  | None =>
      if negb (open_works f) then (Err KeychainOpen, m)
      else
        let m := touch m in
        if negb (get_works f) then (Err KeychainRead, m)
        else match kc_entry m with
        | Some password =>
            match master_key_of password with
            | Some key => (Ok key, remember key m)
            | None => (Err BadMasterKey, m)
            end
        | None =>
            if negb (set_works f) then (Err KeychainStore, m)
            else (Ok (fresh_key f), remember (fresh_key f) (set_entry (b64_encode (fresh_key f)) m))
        end
  end.

Definition relay_secret (token : option bytes) : bytes := default [] token.

Definition server_secrets (s : ServerConfig) : list (bytes * bytes) :=
  [(SERVER_SECRET_ID, sv_secret s); (SERVER_RELAY_SECRET_ID, relay_secret (sv_token s))].

Definition secret_entries (ks : list AuthKey) (ps : list Profile) (sv : option ServerConfig)
  : list (bytes * bytes) :=
  ((fun k => (k_id k, k_secret k)) <$> ks)
  ++ ((fun p => (profile_relay_secret_id (p_id p), relay_secret (p_token p))) <$> ps)
  ++ match sv with Some s => server_secrets s | None => [] end.

(** Collecting into a map keeps the last entry of an id. *)
Definition secret_map (entries : list (bytes * bytes)) : gmap bytes bytes :=
  foldl (fun m e => <[e.1 := e.2]> m) ∅ (filter (fun e => e.2 <> []) entries).

Definition seal_secrets (master nonce : bytes) (entries : list (bytes * bytes))
  : result StoreError bytes :=
  let map := secret_map entries in
  if bool_decide (map = ∅) then Ok []
  else
    plain ← map_err JsonError (to_vec map);
    ciphertext ← ok_or (aes_encrypt master nonce plain) EncryptFailed;
    Ok (b64_encode (nonce ++ ciphertext)).

Definition open_secrets (master sealed : bytes) : result StoreError (gmap bytes bytes) :=
  blob ← ok_or (b64_decode sealed) NotBase64;
  if bool_decide (length blob < 12)%nat then Err TooShort
  else
    plain ← ok_or (aes_decrypt master (take 12 blob) (drop 12 blob)) DecryptFailed;
    map_err JsonError (from_slice plain).

(** ** Loading *)

Definition with_secrets_state (st : Store) (failed : bool) (reset : option Z) : Store :=
  mkStore (keys st) (profiles st) (server st) (login_item_set_up st) failed reset (sealed_keys st)
    (sealed_version st).

Definition unseal_store (f : Faults) (st : Store) : SM (Store * gmap bytes bytes) :=
  if bool_decide (sealed_keys st = []) then mret (st, ∅)
  else if negb (bool_decide (sealed_version st = SEALED_VERSION))
  then mret (with_secrets_state st (unseal_failed st) (Some (sealed_version st)), ∅)
  else
    master ← safe_storage_key f;
    match open_secrets master (sealed_keys st) with
    | Ok map => mret (st, map)
    | Err _ => mret (with_secrets_state st true (sealed_reset_from st), ∅)
    end.

Definition fill_key (secrets : gmap bytes bytes) (k : AuthKey) : AuthKey :=
  match secrets !! k_id k with
  | Some s => mkAuthKey (k_id k) (k_name k) (k_public k) s
  | None => k
  end.

Definition with_token (token : option bytes) (p : Profile) : Profile :=
  mkProfile (p_id p) (p_name p) (p_server p) (p_key_id p) (p_socks p) (p_http p) (p_relay_urls p)
    token (p_forwards p).

Definition fill_profile (secrets : gmap bytes bytes) (p : Profile) : Profile :=
  with_token (secrets !! profile_relay_secret_id (p_id p)) p.

Definition fill_server (secrets : gmap bytes bytes) (s : ServerConfig) : ServerConfig :=
  mkServer (sv_endpoint_id s) (default (sv_secret s) (secrets !! SERVER_SECRET_ID)) (sv_clients s)
    (sv_domains s) (sv_cidrs s) (sv_relay_urls s) (secrets !! SERVER_RELAY_SECRET_ID) (sv_enabled s).

Definition with_keys (st : Store) (ks : list AuthKey) : Store :=
  mkStore ks (profiles st) (server st) (login_item_set_up st) (unseal_failed st)
    (sealed_reset_from st) (sealed_keys st) (sealed_version st).

Definition with_profiles (st : Store) (ps : list Profile) : Store :=
  mkStore (keys st) ps (server st) (login_item_set_up st) (unseal_failed st) (sealed_reset_from st)
    (sealed_keys st) (sealed_version st).

Definition with_server (st : Store) (sv : option ServerConfig) : Store :=
  mkStore (keys st) (profiles st) sv (login_item_set_up st) (unseal_failed st)
    (sealed_reset_from st) (sealed_keys st) (sealed_version st).

Definition fill_store (secrets : gmap bytes bytes) (st : Store) : Store :=
  with_server (with_profiles (with_keys st (fill_key secrets <$> keys st))
                 (fill_profile secrets <$> profiles st))
    (fill_server secrets <$> server st).

Definition with_clients (cs : list AuthorizedClient) (s : ServerConfig) : ServerConfig :=
  mkServer (sv_endpoint_id s) (sv_secret s) cs (sv_domains s) (sv_cidrs s) (sv_relay_urls s)
    (sv_token s) (sv_enabled s).

Context (data_local_dir : option bytes).

Definition sealed_path (mock : bool) : result StoreError bytes :=
  let name := if mock then str "mock-profiles.json" else str "profiles.json" in
  ok_or ((fun d => path_join (path_join d (str "flextunnel")) name) <$> data_local_dir) NoDataDir.

Definition the_backend : SM Backend := fun m => (ok_or (backend m) NoBackend, m).

Definition is_mock (b : Backend) : bool := match b with MockKeychain => true | _ => false end.

Context `{Json StoreDoc} `{Json DevDoc} `{PublicKeys}.

Definition load_dev_file (f : Faults) (path : bytes) : SM Store :=
  stored ← read_json f path;
  let d := default DevDoc_default stored in
  mret (mkStore ((fun s => doc_key s.1 s.2) <$> dev_keys d)
          ((fun s => doc_profile s.1 s.2) <$> dev_profiles d)
          ((fun s => doc_server_config s.1.1 s.1.2 s.2) <$> dev_server d)
          (dev_login d) false None [] 0).

Definition load_sealed (f : Faults) (mock : bool) : SM Store :=
  path ← lift (sealed_path mock);
  doc ← read_json f path;
  let st := default Store_default (doc_store <$> doc) in
  let st := with_keys st (drop_invalid_keys (keys st)) in
  '(st, secrets) ← unseal_store f st;
  mret (fill_store secrets st).

Definition load_store (f : Faults) : SM Store :=
  b ← the_backend;
  st ← match b with
       | DevFile path =>
           st ← load_dev_file f path;
           mret (with_keys st (drop_invalid_keys (keys st)))
       | b => load_sealed f (is_mock b)
       end;
  let st := with_profiles st (drop_invalid (profiles st)) in
  mret (with_server st ((fun s => with_clients (drop_invalid_clients (sv_clients s)) s) <$> server st)).

(** ** Saving *)

Definition save_dev_file (f : Faults) (path : bytes) (ks : list AuthKey) (ps : list Profile)
  (sv : option ServerConfig) (login : bool) : SM () :=
  write_json f path
    (mkDevDoc ((fun k => (k_secret k, key_doc k)) <$> ks) ((fun p => (p_token p, profile_doc p)) <$> ps)
       ((fun s => (sv_secret s, sv_token s, server_doc s)) <$> sv) login).

Definition store_doc (ks : list AuthKey) (ps : list Profile) (sv : option ServerConfig) (login : bool)
  (sealed : bytes) : StoreDoc :=
  mkStoreDoc (key_doc <$> ks) (profile_doc <$> ps) (server_doc <$> sv) login sealed SEALED_VERSION.

Definition save_store (f : Faults) (ks : list AuthKey) (ps : list Profile) (sv : option ServerConfig)
  (login : bool) : SM () :=
  b ← the_backend;
  match b with
  | DevFile path => save_dev_file f path ks ps sv login
  | b =>
      sealed ← (if forallb (fun e => bool_decide (e.2 = [])) (secret_entries ks ps sv) then mret []
                else
                  master ← safe_storage_key f;
                  lift (seal_secrets master (fresh_nonce f) (secret_entries ks ps sv)));
      path ← lift (sealed_path (is_mock b));
      write_json f path (store_doc ks ps sv login sealed)
  end.

(** ** Choosing the store *)

Definition dev_config_path (value : option bytes) : option bytes :=
  val ← value;
  if bool_decide (val = []) then None
  else if bool_decide (val = str "1") || bool_decide (val = str "true")
  then (fun d => path_join (path_join d (str "flextunnel")) (str "dev-profiles.json")) <$> data_local_dir
  else Some val.

Definition mock_keychain (value : option bytes) : result StoreError bool :=
  match value with
  | None => Ok false
  | Some v => if bool_decide (v = str "mock") then Ok true else Err BadKeychainEnv
  end.

(** [OnceLock::set]: the first value stays. *)
Definition set_backend (b : Backend) (m : Machine) : Machine :=
  match backend m with
  | Some _ => m
  | None => mkMachine (files m) (kc_entry m) (cache m) (Some b) (kc_accesses m)
  end.

(** A new in-memory keychain is empty. *)
Definition empty_keychain (m : Machine) : Machine :=
  mkMachine (files m) None (cache m) (backend m) (kc_accesses m).

Definition init_store (dev_env keychain_env : option bytes) (remove_fault : option io_error)
  (store_opens : bool) : SM () := fun m =>
  match mock_keychain keychain_env with
  | Err e => (Err e, m)
  | Ok mock =>
      match dev_config_path dev_env with
      | Some path => if mock then (Err BothHatches, m) else (Ok tt, set_backend (DevFile path) m)
      | None =>
          if mock then
            match sealed_path true with
            | Err e => (Err e, m)
            | Ok path =>
                match remove_fault with
                | Some e =>
                    if bool_decide (kind e = NotFound)
                    then (Ok tt, set_backend MockKeychain (empty_keychain m))
                    else (Err (EmptyFailed path e), m)
                | None => (Ok tt, set_backend MockKeychain
                                    (empty_keychain (with_files m (delete path (files m)))))
                end
            end
          else
            let m := set_backend Keychain m in
            (if store_opens then Ok tt else Err KeychainOpen, m)
      end
  end.

Definition dev_store (m : Machine) : bool :=
  match backend m with Some Keychain => false | _ => true end.
End store.
