(* ===== verification/DesktopStoreProofs.v ===== *)
(** * Theorems on the desktop store

    What a loaded store satisfies whatever the file holds, that saving and loading
    are inverse, what becomes of unreadable secrets, how often the keychain is
    used, what is written in the clear, and that an export can be imported. *)

From S2P Require Import Prelude RustStr Net Stream Signaling Blocklist PortForwards Config DesktopStore.

(** ** Lists of distinct names outside a set *)

Definition fresh_list (s : gset bytes) (l : list bytes) : Prop :=
  NoDup l /\ Forall (fun x => x ∉ s) l.

Lemma fresh_cons s x l : fresh_list s (x :: l) <-> (x ∉ s) /\ fresh_list ({[x]} ∪ s) l.
Proof.
  unfold fresh_list. rewrite NoDup_cons, !Forall_cons, !Forall_forall. split.
  - intros [[Hx Hl] [Hs Hf]]. repeat split; try done. intros y Hy. pose proof (Hf y Hy).
    set_unfold. intros [->|?]; done.
  - intros (Hx & Hl & Hf). repeat split; try done.
    + intros Hin. specialize (Hf x Hin). set_solver.
    + intros y Hy. specialize (Hf y Hy). set_solver.
Qed.

Lemma fresh_weaken s x l : fresh_list ({[x]} ∪ s) l -> fresh_list s l.
Proof. intros [? Hf]. split; [done|]. eapply Forall_impl; [exact Hf|]. set_solver. Qed.

Lemma fresh_empty l : fresh_list ∅ l <-> NoDup l.
Proof. unfold fresh_list. rewrite Forall_forall. set_solver. Qed.

Lemma fresh_nil s : fresh_list s [].
Proof. split; constructor. Qed.

#[export] Hint Resolve fresh_nil fresh_weaken : core.

(** ** Well-formed lists *)

Definition valid_key (k : AuthKey) : Prop :=
  k_id k <> [] /\ is_reserved_secret_id (k_id k) = false /\ is_valid_name (k_name k) = true.

Definition wf_keys_from (ids names publics : gset bytes) (ks : list AuthKey) : Prop :=
  Forall valid_key ks /\ fresh_list ids (k_id <$> ks) /\ fresh_list names (k_name <$> ks)
  /\ fresh_list publics (k_public <$> ks).

Definition wf_profiles_from (ids names servers : gset bytes) (ps : list Profile) : Prop :=
  Forall (fun p => is_valid_name (p_name p) = true) ps /\ fresh_list ids (p_id <$> ps)
  /\ fresh_list names (p_name <$> ps) /\ fresh_list servers (p_server <$> ps).

Definition wf_clients_from `{PublicKeys} (names publics : gset bytes) (cs : list AuthorizedClient)
  : Prop :=
  Forall (fun c => is_valid_name (ac_name c) = true /\ canonical_public c = true) cs
  /\ fresh_list names (ac_name <$> cs) /\ fresh_list publics (ac_public <$> cs).

Abbreviation wf_keys := (wf_keys_from ∅ ∅ ∅).
Abbreviation wf_profiles := (wf_profiles_from ∅ ∅ ∅).
Abbreviation wf_clients := (wf_clients_from ∅ ∅).

(** The cases of a backstop's loop body: each test of the program's [if]s. *)
Ltac drop_cases :=
  repeat match goal with
  | |- context [bool_decide ?P] => case_bool_decide
  | |- context [if is_reserved_secret_id ?i then _ else _] => destruct (is_reserved_secret_id i) eqn:?
  | |- context [is_valid_name ?n] => destruct (is_valid_name n) eqn:?
  | |- context [canonical_public ?c] => destruct (canonical_public c) eqn:?
  end; cbn [negb].

(** One case: what is dropped leaves the sets larger, what is kept is added. *)
Ltac drop_case :=
  destruct_and?; rewrite ?fmap_cons; split_and!; eauto;
  try (apply Forall_cons; unfold valid_key; by auto);
  try (apply fresh_cons; split; by eauto).

Lemma drop_invalid_keys_wf ks ids names publics :
  wf_keys_from ids names publics (drop_invalid_keys_from ids names publics ks).
Proof.
  revert ids names publics. induction ks as [|k ks IH]; intros ids names publics; cbn.
  { split_and!; auto. }
  unfold wf_keys_from in *. drop_cases;
    match goal with |- context [drop_invalid_keys_from ?a ?b ?c ks] => specialize (IH a b c) end;
    drop_case.
Qed.

Lemma drop_invalid_wf ps ids names servers :
  wf_profiles_from ids names servers (drop_invalid_from ids names servers ps).
Proof.
  revert ids names servers. induction ps as [|p ps IH]; intros ids names servers; cbn.
  { split_and!; auto. }
  unfold wf_profiles_from in *. drop_cases;
    match goal with |- context [drop_invalid_from ?a ?b ?c ps] => specialize (IH a b c) end;
    drop_case.
Qed.

Lemma drop_invalid_clients_wf `{PublicKeys} cs names publics :
  wf_clients_from names publics (drop_invalid_clients_from names publics cs).
Proof.
  revert names publics. induction cs as [|c cs IH]; intros names publics; cbn.
  { split_and!; auto. }
  unfold wf_clients_from in *. drop_cases;
    match goal with |- context [drop_invalid_clients_from ?a ?b cs] => specialize (IH a b) end;
    drop_case.
Qed.

(** The backstops leave a well-formed list alone. *)
Lemma drop_invalid_keys_id ks ids names publics :
  wf_keys_from ids names publics ks -> drop_invalid_keys_from ids names publics ks = ks.
Proof.
  revert ids names publics. induction ks as [|k ks IH]; intros ids names publics; [done|].
  intros (Hv & Hi & Hn & Hp). rewrite fmap_cons, fresh_cons in Hi, Hn, Hp.
  apply Forall_cons in Hv as [(Hid & Hres & Hname) Hv]. destruct_and?. cbn.
  rewrite Hres, Hname. rewrite !bool_decide_eq_false_2 by done. cbn. f_equal.
  apply IH. by split_and!.
Qed.

Lemma drop_invalid_id ps ids names servers :
  wf_profiles_from ids names servers ps -> drop_invalid_from ids names servers ps = ps.
Proof.
  revert ids names servers. induction ps as [|p ps IH]; intros ids names servers; [done|].
  intros (Hv & Hi & Hn & Hs). rewrite fmap_cons, fresh_cons in Hi, Hn, Hs.
  apply Forall_cons in Hv as [Hname Hv]. destruct_and?. cbn.
  rewrite Hname, !bool_decide_eq_false_2 by done. cbn. f_equal. apply IH. by split_and!.
Qed.

Lemma drop_invalid_clients_id `{PublicKeys} cs names publics :
  wf_clients_from names publics cs -> drop_invalid_clients_from names publics cs = cs.
Proof.
  revert names publics. induction cs as [|c cs IH]; intros names publics; [done|].
  intros (Hv & Hn & Hp). rewrite fmap_cons, fresh_cons in Hn, Hp.
  apply Forall_cons in Hv as [[Hname Hc] Hv]. destruct_and?. cbn.
  rewrite Hname, Hc, !bool_decide_eq_false_2 by done. cbn. f_equal. apply IH. by split_and!.
Qed.

(** ** What loading guarantees *)

(** Filling in secrets changes no id, name or public key. *)
Lemma wf_keys_fill secrets ks ids names publics :
  wf_keys_from ids names publics ks -> wf_keys_from ids names publics (fill_key secrets <$> ks).
Proof.
  assert (Hk : forall k, k_id (fill_key secrets k) = k_id k /\ k_name (fill_key secrets k) = k_name k
                    /\ k_public (fill_key secrets k) = k_public k).
  { intros k. unfold fill_key. by destruct (secrets !! k_id k). }
  assert (Hext : forall {B} (f : AuthKey -> B), (forall k, f (fill_key secrets k) = f k) ->
    f <$> (fill_key secrets <$> ks) = f <$> ks).
  { intros B f Hf. rewrite <- list_fmap_compose. apply list_fmap_ext. intros _ k _. apply Hf. }
  intros (Hv & Hi & Hn & Hp). unfold wf_keys_from.
  rewrite !Hext by (intros k; apply Hk). split_and!; try done.
  apply Forall_fmap. eapply Forall_impl; [exact Hv|]. intros k (? & ? & ?).
  destruct (Hk k) as (E1 & E2 & E3). unfold valid_key. cbn. by rewrite E1, E2.
Qed.

Section loading.
Context `{SafeBox} `{Json (gmap bytes bytes)} (data_local_dir : option bytes).
Context `{Json StoreDoc} `{Json DevDoc} `{PublicKeys}.

Record wf_store (st : Store) : Prop := mkWfStore {
  wf_store_keys : wf_keys (keys st);
  wf_store_profiles : wf_profiles (profiles st);
  wf_store_clients : forall s, server st = Some s -> wf_clients (sv_clients s);
}.

Lemma unseal_store_keys f st m st' secrets m' :
  unseal_store f st m = (Ok (st', secrets), m') -> keys st' = keys st.
Proof.
  unfold unseal_store. case_bool_decide; [by intros [= <- <- <-]|].
  case_bool_decide; cbn [negb]; [|by intros [= <- <- <-]].
  intros (master & m1 & _ & Hm)%bind_Ok_inv.
  destruct (open_secrets master (sealed_keys st)); simplify_eq/=; by inversion Hm.
Qed.

Lemma load_sealed_keys f mock m st m' :
  load_sealed data_local_dir f mock m = (Ok st, m') -> wf_keys (keys st).
Proof.
  unfold load_sealed. intros (path & m1 & _ & Hm)%bind_Ok_inv.
  apply bind_Ok_inv in Hm as (doc & m2 & _ & Hm). cbn zeta in Hm.
  apply bind_Ok_inv in Hm as ([st' secrets] & m3 & Hu & [= <- <-]).
  apply unseal_store_keys in Hu. cbn in *. apply wf_keys_fill. rewrite Hu.
  apply drop_invalid_keys_wf.
Qed.

(** C22. Whatever the file on disk holds (it may be edited by hand) and whichever
    backend is in use, a store that loads is well-formed: key ids are distinct,
    nonempty and clash with no reserved entry of the sealed map; key names, public
    keys, profile ids, names and servers are distinct; every name is displayable;
    the server's authorized clients have distinct names and distinct, canonical
    public keys. *)
Theorem loaded_store_wellformed f m st m' :
  load_store data_local_dir f m = (Ok st, m') -> wf_store st.
Proof.
  unfold load_store. intros (b & m1 & _ & Hm)%bind_Ok_inv.
  apply bind_Ok_inv in Hm as (st0 & m2 & Hl & [= <- <-]). split; cbn.
  - destruct b; [by eapply load_sealed_keys.. |].
    apply bind_Ok_inv in Hl as (d & m3 & _ & [= <- <-]). apply drop_invalid_keys_wf.
  - apply drop_invalid_wf.
  - intros s. destruct (server st0); simpl; [|done]. intros [= <-]. apply drop_invalid_clients_wf.
Qed.
End loading.

(** ** The sealed map *)

Lemma foldl_insert (l : list (bytes * bytes)) (m0 : gmap bytes bytes) :
  NoDup l.*1 -> foldl (fun m e => <[e.1 := e.2]> m) m0 l = list_to_map l ∪ m0.
Proof.
  revert m0. induction l as [|[k v] l IH]; intros m0; cbn.
  { by rewrite (left_id_L ∅ (∪)). }
  rewrite NoDup_cons. intros [Hk Hl]. rewrite IH by done. apply map_eq. intros i.
  destruct (decide (i = k)) as [->|Hne].
  - rewrite lookup_union_r by (by apply not_elem_of_list_to_map_1).
    by rewrite lookup_insert_eq, (lookup_union_Some_l _ _ _ v) by apply lookup_insert_eq.
  - rewrite !lookup_union, !lookup_insert_ne by done. done.
Qed.

Lemma NoDup_filter_fst (P : bytes * bytes -> Prop) `{!forall e, Decision (P e)} l :
  NoDup l.*1 -> NoDup (filter P l).*1.
Proof.
  intros Hl. eapply sublist_NoDup; [exact Hl|]. apply fmap_sublist, sublist_filter.
Qed.

Lemma secret_map_spec es i s :
  NoDup es.*1 -> secret_map es !! i = Some s <-> (i, s) ∈ es /\ s <> [].
Proof.
  intros Hnd. unfold secret_map. pose proof (NoDup_filter_fst (fun e => e.2 <> []) es Hnd) as Hf.
  rewrite foldl_insert by done. rewrite (right_id_L ∅ (∪)).
  rewrite <- elem_of_list_to_map by done. rewrite list_elem_of_filter. cbn. tauto.
Qed.

Lemma secret_map_none es i : NoDup es.*1 -> (i, []) ∈ es -> secret_map es !! i = None.
Proof.
  intros Hnd Hin. destruct (secret_map es !! i) as [s|] eqn:E; [|done].
  apply secret_map_spec in E as [Hs Hne]; [|done].
  apply list_elem_of_lookup in Hin as [a Ha], Hs as [b Hb].
  assert (a = b) as -> by (eapply NoDup_lookup; [exact Hnd| |]; rewrite list_lookup_fmap, ?Ha, ?Hb; done).
  congruence.
Qed.

(** The ids of a well-formed store's secrets are distinct. *)
Lemma relay_id_reserved i : is_reserved_secret_id (profile_relay_secret_id i) = true.
Proof.
  unfold is_reserved_secret_id, profile_relay_secret_id, starts_with.
  rewrite (bool_decide_eq_true_2 (is_Some _)); [by rewrite orb_true_r|].
  exists i. by apply strip_prefix_Some.
Qed.

Lemma server_ids_not_relay i :
  profile_relay_secret_id i <> SERVER_SECRET_ID /\ profile_relay_secret_id i <> SERVER_RELAY_SECRET_ID.
Proof. split; intros E; by apply (f_equal (take 1)) in E. Qed.

Lemma secret_entries_ids ks ps sv :
  (secret_entries ks ps sv).*1 = (k_id <$> ks) ++ (profile_relay_secret_id <$> (p_id <$> ps))
    ++ match sv with Some _ => [SERVER_SECRET_ID; SERVER_RELAY_SECRET_ID] | None => [] end.
Proof.
  unfold secret_entries. rewrite !fmap_app, <- !list_fmap_compose. by destruct sv.
Qed.

Lemma secret_entries_NoDup ks ps sv :
  wf_keys ks -> wf_profiles ps -> NoDup (secret_entries ks ps sv).*1.
Proof.
  intros (Hv & Hi & _ & _) (_ & Hp & _ & _). rewrite fresh_empty in Hi, Hp.
  rewrite secret_entries_ids.
  assert (Hnk : forall i, i ∈ k_id <$> ks -> is_reserved_secret_id i = false).
  { intros i (k & -> & Hk)%list_elem_of_fmap. rewrite Forall_forall in Hv. by apply Hv. }
  apply NoDup_app. split_and!; [done| |apply NoDup_app; split_and!].
  - intros i Hk%Hnk Hin. apply elem_of_app in Hin as [(j & -> & _)%list_elem_of_fmap|Hin].
    + by rewrite relay_id_reserved in Hk.
    + destruct sv; [|by apply not_elem_of_nil in Hin].
      rewrite !elem_of_cons in Hin. destruct Hin as [->|[->|[]%not_elem_of_nil]]; done.
  - apply NoDup_fmap_2; [|done]. intros i j E. by apply (inj (app _)) in E.
  - intros i (j & -> & _)%list_elem_of_fmap Hin. destruct (server_ids_not_relay j).
    destruct sv; [|by apply not_elem_of_nil in Hin]. rewrite !elem_of_cons in Hin.
    by destruct Hin as [E|[E|[]%not_elem_of_nil]].
  - destruct sv; [|constructor]. apply NoDup_cons. split; [|apply NoDup_singleton].
    by rewrite list_elem_of_singleton.
Qed.

(** ** Round trip *)

Definition stop_forward (f : PortForward) : PortForward :=
  mkPortForward (pf_id f) (pf_label f) (pf_local_port f) (pf_remote_host f) (pf_remote_port f) false.

(** A profile as a fresh process sees it: its forwards are off. *)
Definition stopped (p : Profile) : Profile :=
  mkProfile (p_id p) (p_name p) (p_server p) (p_key_id p) (p_socks p) (p_http p) (p_relay_urls p)
    (p_token p) (stop_forward <$> p_forwards p).

Lemma doc_profile_doc t p : doc_profile t (profile_doc p) = with_token t (stopped p).
Proof. unfold doc_profile, profile_doc, with_token, stopped. cbn. by rewrite <- list_fmap_compose. Qed.

Lemma with_token_id p : with_token (p_token p) p = p.
Proof. by destruct p. Qed.

(** An optional relay token that is set is not the empty string. *)
Definition token_set (t : option bytes) : Prop := t <> Some [].

Section sealed_map.
Context (ks : list AuthKey) (ps : list Profile) (sv : option ServerConfig).
Context (Hks : wf_keys ks) (Hps : wf_profiles ps).

Abbreviation secrets := (secret_map (secret_entries ks ps sv)).

(** Looking an id up in the map gives its secret, nothing for an empty one. *)
Lemma secrets_lookup i s :
  (i, s) ∈ secret_entries ks ps sv -> secrets !! i = if bool_decide (s = []) then None else Some s.
Proof.
  intros Hin. pose proof (secret_entries_NoDup ks ps sv Hks Hps) as Hnd. case_bool_decide; subst.
  - by apply secret_map_none.
  - by apply secret_map_spec.
Qed.

Lemma fill_key_back k : k ∈ ks -> fill_key secrets (doc_key [] (key_doc k)) = k.
Proof.
  intros Hk. unfold fill_key. cbn. rewrite (secrets_lookup _ (k_secret k)).
  - destruct k as [i n p s]. cbn. by case_bool_decide; subst.
  - apply elem_of_app. left. apply list_elem_of_fmap. eauto.
Qed.

Lemma token_back t : token_set t ->
  (if bool_decide (relay_secret t = []) then None else Some (relay_secret t)) = t.
Proof. unfold token_set, relay_secret. destruct t as [s|]; [|done]. cbn. case_bool_decide; by subst. Qed.

Lemma fill_profile_back p :
  p ∈ ps -> token_set (p_token p) -> fill_profile secrets (doc_profile None (profile_doc p)) = stopped p.
Proof.
  intros Hp Ht. rewrite doc_profile_doc. unfold fill_profile.
  rewrite (secrets_lookup _ (relay_secret (p_token p))).
  - cbn. rewrite token_back by done. by unfold with_token.
  - apply elem_of_app. right. apply elem_of_app. left. apply list_elem_of_fmap. by exists p.
Qed.

Lemma fill_server_back s :
  sv = Some s -> token_set (sv_token s) ->
  fill_server secrets (doc_server_config [] None (server_doc s)) = s.
Proof.
  intros Hsv Ht. unfold fill_server. cbn.
  assert (Hin : forall e, e ∈ server_secrets s -> e ∈ secret_entries ks ps sv).
  { intros e He. unfold secret_entries. rewrite Hsv, !elem_of_app. auto. }
  rewrite (secrets_lookup _ (sv_secret s)), (secrets_lookup _ (relay_secret (sv_token s)))
    by (apply Hin; unfold server_secrets; repeat constructor).
  rewrite token_back by done. destruct s as [e sec c d ci r t en]. cbn. by case_bool_decide; subst.
Qed.
End sealed_map.

(** The laws of the cipher and of base64 the store relies on. *)
Class SafeBoxLaws `{SafeBox} := {
  aes_roundtrip master nonce plain c :
    aes_encrypt master nonce plain = Some c -> aes_decrypt master nonce c = Some plain;
  b64_roundtrip s : b64_decode (b64_encode s) = Some s;
  b64_nil : b64_decode [] = Some [];
}.

(** A document holds 16-bit ports; every [StoreDoc] of the program does. *)
Definition port_ok (o : option Z) : Prop := match o with Some n => wf_u16 n | None => True end.

Definition wf_profile_doc (d : ProfileDoc) : Prop :=
  port_ok (pd_socks d) /\ port_ok (pd_http d)
  /\ Forall (fun f => wf_u16 (fd_local_port f) /\ wf_u16 (fd_remote_port f)) (pd_forwards d).

Definition wf_store_doc (d : StoreDoc) : Prop :=
  Forall wf_profile_doc (doc_profiles d) /\ 0 <= doc_version d < 2 ^ 32.
Definition wf_dev_doc (d : DevDoc) : Prop := Forall wf_profile_doc (dev_profiles d).*2.

Section roundtrip.
Context `{SafeBox, !SafeBoxLaws} (data_local_dir : option bytes) `{PublicKeys}.
Context `{Json (gmap bytes bytes), !JsonLaws (gmap bytes bytes) (fun _ => True)}.
Context `{Json StoreDoc, !JsonLaws StoreDoc wf_store_doc}.
Context `{Json DevDoc, !JsonLaws DevDoc wf_dev_doc}.

Lemma open_seal master nonce es sealed :
  length nonce = 12%nat -> secret_map es <> ∅ -> seal_secrets master nonce es = Ok sealed ->
  sealed <> [] /\ open_secrets master sealed = Ok (secret_map es).
Proof.
  intros Hn Hne. unfold seal_secrets, open_secrets. rewrite bool_decide_eq_false_2 by done.
  destruct (json_roundtrip (secret_map es) I) as (plain & -> & Hback). cbn.
  destruct (aes_encrypt master nonce plain) as [c|] eqn:Hc; cbn; [|done]. intros [= <-].
  rewrite b64_roundtrip. cbn. rewrite bool_decide_eq_false_2 by (rewrite length_app; lia).
  rewrite take_app_length', drop_app_length' by done.
  rewrite (aes_roundtrip _ _ _ _ Hc). cbn. rewrite Hback. split; [|done].
  intros E. pose proof (b64_roundtrip (nonce ++ c)) as Hr. rewrite E, b64_nil in Hr.
  by destruct nonce.
Qed.

Lemma write_read {A} `{Json A} (wf : A -> Prop) `{!JsonLaws A wf} f f' path v m m1 m' :
  wf v -> write_json f path v m = (Ok tt, m1) -> files m' = files m1 -> read_fault f' = None ->
  read_json f' path m' = (Ok (Some v), m') /\ m1 = with_files m (files m1).
Proof.
  intros Hwf. destruct (json_roundtrip v Hwf) as (data & Hto & Hfrom).
  unfold write_json, read_json, Blocklist.read_to_string. rewrite Hto.
  destruct (has_parent path); cbn; [|done]. destruct (mkdir_fault _); [done|].
  destruct (write_fault _) as [[]|]; [done|]. destruct (rename_fault _); [done|].
  intros [= <-] -> ->. cbn. rewrite lookup_insert_eq. cbn. by rewrite Hfrom.
Qed.

(** The process's cached master key is the one in the keychain. *)
Definition coherent (m : Machine) : Prop :=
  forall key, cache m = Some key -> kc_entry m ≫= master_key_of = Some key.

Lemma safe_storage_key_spec f m key m1 :
  coherent m -> length (fresh_key f) = 32%nat -> safe_storage_key f m = (Ok key, m1) ->
  cache m1 = Some key /\ kc_entry m1 ≫= master_key_of = Some key /\ files m1 = files m
  /\ backend m1 = backend m.
Proof.
  intros Hco Hlen. unfold safe_storage_key. destruct (cache m) as [k|] eqn:Hc.
  { intros [= <- <-]. auto. }
  destruct (open_works f); cbn; [|done]. destruct (get_works f); cbn; [|done].
  destruct (kc_entry m) as [pw|] eqn:He.
  - destruct (master_key_of pw) eqn:Hk; [|done]. intros [= <- <-]. cbn. by rewrite He.
  - destruct (set_works f); cbn; [|done]. intros [= <- <-]. cbn. split_and!; try done.
    unfold master_key_of. rewrite b64_roundtrip. cbn. by rewrite bool_decide_eq_true_2.
Qed.

(** The keychain as a later read, in this process or another, finds it. *)
Definition keychain_kept (m1 m' : Machine) : Prop :=
  kc_entry m' = kc_entry m1 /\ (cache m' = None \/ cache m' = cache m1).

Definition keychain_works (f : Faults) : Prop := open_works f = true /\ get_works f = true.

Lemma safe_storage_key_again f m1 m' key :
  cache m1 = Some key -> kc_entry m1 ≫= master_key_of = Some key -> keychain_kept m1 m' ->
  keychain_works f -> exists m2, safe_storage_key f m' = (Ok key, m2).
Proof.
  intros Hc He [Hk Hcache] [Ho Hg]. unfold safe_storage_key. rewrite Ho, Hg.
  destruct Hcache as [->| ->]; [|rewrite Hc; eauto]. cbn. rewrite Hk.
  destruct (kc_entry m1) as [pw|]; [|done]. cbn in He. rewrite He. eauto.
Qed.

Lemma no_secrets_map es :
  NoDup es.*1 -> forallb (fun e => bool_decide (e.2 = [])) es = bool_decide (secret_map es = ∅).
Proof.
  intros Hnd. apply eq_true_iff_eq. rewrite bool_decide_eq_true, forallb_forall.
  setoid_rewrite <- list_elem_of_In. setoid_rewrite bool_decide_eq_true. split.
  - intros Hall. apply map_empty. intros i. destruct (secret_map es !! i) as [s|] eqn:E; [|done].
    apply secret_map_spec in E as [Hin Hne]; [|done]. by apply Hall in Hin.
  - intros Hm [i s] Hin. cbn. destruct (decide (s = [])) as [->|Hne]; [done|].
    assert (E : secret_map es !! i = Some s) by (by apply secret_map_spec).
    by rewrite Hm, lookup_empty in E.
Qed.

(** The sealing step of a save. *)
Definition sealed_for (f : Faults) (es : list (bytes * bytes)) : SM bytes :=
  if forallb (fun e => bool_decide (e.2 = [])) es then mret []
  else master ← safe_storage_key f; lift (seal_secrets master (fresh_nonce f) es).

(** What a save seals, a later load unseals. *)
Lemma unseal_sealed f es m sealed m1 f' m' st :
  coherent m -> length (fresh_key f) = 32%nat -> length (fresh_nonce f) = 12%nat -> NoDup es.*1 ->
  sealed_for f es m = (Ok sealed, m1) -> keychain_kept m1 m' -> keychain_works f' ->
  sealed_keys st = sealed -> sealed_version st = SEALED_VERSION ->
  exists m2, unseal_store f' st m' = (Ok (st, secret_map es), m2).
Proof.
  intros Hco Hlk Hln Hnd Hseal Hkept Hw Hs Hv. unfold sealed_for in Hseal. unfold unseal_store.
  rewrite no_secrets_map in Hseal by done. case_bool_decide as Hm.
  - injection Hseal as <- <-. rewrite bool_decide_eq_true_2 by done. rewrite Hm. by eexists.
  - apply bind_Ok_inv in Hseal as (master & m0 & Hk & [= Hseal <-]).
    destruct (open_seal _ _ _ _ Hln Hm Hseal) as [Hne Hopen].
    destruct (safe_storage_key_spec _ _ _ _ Hco Hlk Hk) as (Hc & He & _ & _).
    destruct (safe_storage_key_again _ _ _ _ Hc He Hkept Hw) as [m2 Hk2].
    rewrite bool_decide_eq_false_2 by congruence. rewrite bool_decide_eq_true_2 by done. cbn.
    exists m2. rewrite (bind_Ok _ _ _ _ _ Hk2). by rewrite Hs, Hopen.
Qed.

Lemma sealed_for_frame f es m sealed m1 :
  sealed_for f es m = (Ok sealed, m1) -> files m1 = files m /\ backend m1 = backend m.
Proof.
  unfold sealed_for. destruct (forallb _ es); [by intros [= <- <-]|].
  intros (k & m0 & Hk & [= _ <-])%bind_Ok_inv. revert Hk. unfold safe_storage_key.
  repeat case_match; intros [= <- <-]; done.
Qed.

Record storable (ks : list AuthKey) (ps : list Profile) (sv : option ServerConfig) : Prop := mkStorable {
  storable_keys : wf_keys ks;
  storable_profiles : wf_profiles ps;
  storable_ports : Forall (fun p => wf_profile_doc (profile_doc p)) ps;
  storable_tokens : Forall (fun p => token_set (p_token p)) ps;
  storable_server : forall s, sv = Some s -> wf_clients (sv_clients s) /\ token_set (sv_token s);
}.

(** The store a load gives back after a save. *)
Definition loaded (ks : list AuthKey) (ps : list Profile) (sv : option ServerConfig) (login : bool)
  (st : Store) : Prop :=
  keys st = ks /\ profiles st = stopped <$> ps /\ server st = sv /\ login_item_set_up st = login
  /\ unseal_failed st = false /\ sealed_reset_from st = None.

Lemma fill_store_back ks ps sv login sealed :
  storable ks ps sv ->
  loaded ks ps sv login
    (fill_store (secret_map (secret_entries ks ps sv)) (doc_store (store_doc ks ps sv login sealed))).
Proof.
  intros [Hk Hp _ Ht Hs]. rewrite Forall_forall in Ht.
  split_and!; cbn; try done; rewrite <- ?list_fmap_compose.
  - etrans; [|apply list_fmap_id]. apply list_fmap_ext. intros i k Hi. cbn.
    apply fill_key_back; eauto using list_elem_of_lookup_2.
  - apply list_fmap_ext. intros i p Hi. cbn. apply list_elem_of_lookup_2 in Hi.
    apply fill_profile_back; eauto.
  - destruct sv as [s|]; [|done]. cbn. f_equal. apply fill_server_back; try done. by apply Hs.
Qed.

Lemma wf_profiles_stopped ps : wf_profiles ps -> wf_profiles (stopped <$> ps).
Proof.
  unfold wf_profiles_from. rewrite Forall_fmap, <- !list_fmap_compose. done.
Qed.

Lemma with_clients_id `{PublicKeys} sv :
  (forall s, sv = Some s -> wf_clients (sv_clients s)) ->
  (fun s => with_clients (drop_invalid_clients (sv_clients s)) s) <$> sv = sv.
Proof.
  destruct sv as [s|]; [|done]. intros Hs. cbn. unfold drop_invalid_clients.
  rewrite drop_invalid_clients_id by auto. by destruct s.
Qed.

Lemma store_doc_wf ks ps sv login sealed :
  storable ks ps sv -> wf_store_doc (store_doc ks ps sv login sealed).
Proof. intros [_ _ Hp _ _]. split; cbn; [by apply Forall_fmap|done]. Qed.

(** The reading half of a load, after a save, before the profile backstops. *)
Lemma load_sealed_saved f ks ps sv login mock m m0 sealed m1 f' m' path :
  storable ks ps sv -> coherent m -> length (fresh_key f) = 32%nat -> length (fresh_nonce f) = 12%nat ->
  sealed_for f (secret_entries ks ps sv) m = (Ok sealed, m0) -> sealed_path data_local_dir mock = Ok path ->
  write_json f path (store_doc ks ps sv login sealed) m0 = (Ok tt, m1) ->
  files m' = files m1 -> keychain_kept m1 m' -> read_fault f' = None -> keychain_works f' ->
  exists st m2, load_sealed data_local_dir f' mock m' = (Ok st, m2) /\ loaded ks ps sv login st.
Proof.
  intros Hst Hco Hlk Hln Hseal Hpath Hw Hfiles Hkept Hrf Hkw.
  destruct (write_read _ _ _ _ _ _ _ _ (store_doc_wf ks ps sv login sealed Hst) Hw Hfiles Hrf)
    as [Hread Hm1].
  unfold load_sealed. rewrite (bind_Ok _ _ _ path m') by (unfold lift; by rewrite Hpath).
  rewrite (bind_Ok _ _ _ _ _ Hread). cbn -[doc_store load_sealed].
  set (st := with_keys _ _).
  assert (Hst' : st = doc_store (store_doc ks ps sv login sealed)).
  { unfold st, with_keys, doc_store, store_doc. cbn. f_equal. unfold drop_invalid_keys.
    apply drop_invalid_keys_id. rewrite <- list_fmap_compose.
    destruct (storable_keys _ _ _ Hst) as (Hv & Hi & Hn & Hp). unfold wf_keys_from.
    rewrite <- !list_fmap_compose. split_and!; try done. by apply Forall_fmap. }
  destruct (unseal_sealed f _ m sealed m0 f' m' st Hco Hlk Hln
    (secret_entries_NoDup _ _ _ (storable_keys _ _ _ Hst) (storable_profiles _ _ _ Hst)) Hseal)
    as [m2 Hu]; try done; [|by rewrite Hst'..|].
  { destruct Hkept as [Hk Hc]. rewrite Hm1 in Hk, Hc. done. }
  exists (fill_store (secret_map (secret_entries ks ps sv)) st), m2.
  rewrite (bind_Ok _ _ _ _ _ Hu). split; [done|]. rewrite Hst'. by apply fill_store_back.
Qed.

Lemma load_dev_saved f ks ps sv login path m m1 f' m' :
  storable ks ps sv -> save_dev_file f path ks ps sv login m = (Ok tt, m1) ->
  files m' = files m1 -> read_fault f' = None ->
  exists st m2, load_dev_file f' path m' = (Ok st, m2) /\ loaded ks ps sv login st.
Proof.
  intros Hst Hw Hfiles Hrf. unfold save_dev_file in Hw. destruct Hst as [_ _ Hports _ _].
  edestruct (write_read wf_dev_doc) as [Hread _]; [|exact Hw|exact Hfiles|exact Hrf|].
  { unfold wf_dev_doc. cbn. rewrite <- list_fmap_compose. by apply Forall_fmap. }
  unfold load_dev_file. rewrite (bind_Ok _ _ _ _ _ Hread). eexists _, m'. split; [done|].
  split_and!; cbn; try done; rewrite <- ?list_fmap_compose.
  - etrans; [|apply list_fmap_id]. apply list_fmap_ext. by intros i [] _.
  - apply list_fmap_ext. intros i p _. cbn. by rewrite doc_profile_doc.
  - destruct sv as [[]|]; done.
Qed.

Lemma the_backend_run (m : Machine) b : backend m = Some b -> the_backend m = (Ok b, m).
Proof. unfold the_backend. by intros ->. Qed.

(** The last steps of a load leave a store that was saved as it is. *)
Lemma backstops_loaded ks ps sv login st m2 :
  storable ks ps sv -> loaded ks ps sv login st ->
  exists st', (let st := with_profiles st (drop_invalid (profiles st)) in
         mret (with_server st ((fun s => with_clients (drop_invalid_clients (sv_clients s)) s) <$> server st))
         : SM Store) m2 = (Ok st', m2) /\ loaded ks ps sv login st'.
Proof.
  intros Hst (Hk & Hp & Hs & Hl & Hu & Hr). eexists. split; [done|].
  split_and!; cbn; try done.
  - rewrite Hp. apply drop_invalid_id, wf_profiles_stopped, Hst.
  - rewrite Hs. apply with_clients_id. intros s E. by apply Hst.
Qed.

(** A load's first half, on either kind of store. *)
Definition load_raw (f : Faults) (b : Backend) : SM Store :=
  match b with
  | DevFile path => st ← load_dev_file f path; mret (with_keys st (drop_invalid_keys (keys st)))
  | b => load_sealed data_local_dir f (is_mock b)
  end.

Lemma write_json_frame {A} `{Json A} f path (v : A) m r m1 :
  write_json f path v m = (r, m1) -> m1 = with_files m (files m1).
Proof. unfold write_json. destruct m. repeat case_match; intros [= <- <-]; done. Qed.

Lemma load_raw_saved f ks ps sv login b m m1 f' m' :
  storable ks ps sv -> coherent m ->
  length (fresh_key f) = 32%nat -> length (fresh_nonce f) = 12%nat -> backend m = Some b ->
  save_store data_local_dir f ks ps sv login m = (Ok tt, m1) ->
  files m' = files m1 -> keychain_kept m1 m' -> read_fault f' = None -> keychain_works f' ->
  backend m1 = Some b /\ exists st m2, load_raw f' b m' = (Ok st, m2) /\ loaded ks ps sv login st.
Proof.
  intros Hst Hco Hlk Hln Hb Hsave Hfiles Hkept Hrf Hkw. unfold save_store in Hsave.
  rewrite (bind_Ok _ _ _ _ _ (the_backend_run _ _ Hb)) in Hsave.
  assert (Hsealed : forall mock, (sealed ← sealed_for f (secret_entries ks ps sv);
      path ← lift (sealed_path data_local_dir mock);
      write_json f path (store_doc ks ps sv login sealed)) m = (Ok tt, m1) ->
    backend m1 = Some b /\
    exists st m2, load_sealed data_local_dir f' mock m' = (Ok st, m2) /\ loaded ks ps sv login st).
  { intros mock (sealed & m0 & Hseal & Hw)%bind_Ok_inv.
    apply bind_Ok_inv in Hw as (path & m0' & [= Hpath <-] & Hw).
    destruct (sealed_for_frame _ _ _ _ _ Hseal) as [_ Hbk]. split.
    - rewrite (write_json_frame _ _ _ _ _ _ Hw). cbn. congruence.
    - eapply load_sealed_saved; eauto. }
  destruct b as [| |path]; [exact (Hsealed false Hsave) | exact (Hsealed true Hsave) | split].
  - rewrite (write_json_frame _ _ _ _ _ _ Hsave). done.
  - destruct (load_dev_saved f ks ps sv login path m m1 f' m' Hst Hsave Hfiles Hrf)
      as (st & m2 & Hl & Hk & Hok).
    exists (with_keys st (drop_invalid_keys (keys st))), m2. unfold load_raw.
    rewrite (bind_Ok _ _ _ _ _ Hl). split; [done|]. split; [|done]. cbn. rewrite Hk.
    apply drop_invalid_keys_id, Hst.
Qed.

(** Whatever process finds the files and the keychain entry of [m] loads these data. *)
Definition restores (m : Machine) (ks : list AuthKey) (ps : list Profile) (sv : option ServerConfig)
    (login : bool) : Prop :=
  forall f' m', files m' = files m -> backend m' = backend m -> keychain_kept m m' ->
  read_fault f' = None -> keychain_works f' ->
  exists st m2, load_store data_local_dir f' m' = (Ok st, m2) /\ loaded ks ps sv login st.

Lemma save_restores f ks ps sv login m m1 :
  storable ks ps sv -> coherent m ->
  length (fresh_key f) = 32%nat -> length (fresh_nonce f) = 12%nat ->
  save_store data_local_dir f ks ps sv login m = (Ok tt, m1) -> restores m1 ks ps sv login.
Proof.
  intros Hst Hco Hlk Hln Hsave f' m' Hfiles Hbk Hkept Hrf Hkw.
  destruct (backend m) as [b|] eqn:Hb.
  2: { unfold save_store, the_backend in Hsave. unfold mbind, M_bind in Hsave. by rewrite Hb in Hsave. }
  edestruct load_raw_saved as (Hb1 & st & m2 & Hload & Hok); [eassumption..|].
  rewrite <- Hbk in Hb1. destruct (backstops_loaded _ _ _ _ _ m2 Hst Hok) as (st' & Hlast & Hok').
  exists st', m2. unfold load_store. rewrite (bind_Ok _ _ _ _ _ (the_backend_run _ _ Hb1)).
  by rewrite (bind_Ok _ _ _ _ _ Hload).
Qed.

(** A save leaves the cached master key the one in the keychain. *)
Lemma save_coherent f ks ps sv login m m1 :
  coherent m -> length (fresh_key f) = 32%nat ->
  save_store data_local_dir f ks ps sv login m = (Ok tt, m1) -> coherent m1.
Proof.
  intros Hco Hlk Hsave.
  assert (Hkeep : forall m2 fs, coherent m2 -> coherent (with_files m2 fs)) by done.
  unfold save_store in Hsave. apply bind_Ok_inv in Hsave as (b & m0 & Hb & Hsave).
  assert (m0 = m) as -> by (unfold the_backend in Hb; congruence).
  assert (Hsealed : forall mock, (sealed ← sealed_for f (secret_entries ks ps sv);
      path ← lift (sealed_path data_local_dir mock);
      write_json f path (store_doc ks ps sv login sealed)) m = (Ok tt, m1) -> coherent m1).
  { intros mock (sealed & m2 & Hseal & Hw)%bind_Ok_inv.
    apply bind_Ok_inv in Hw as (path & m2' & [= _ <-] & Hw).
    rewrite (write_json_frame _ _ _ _ _ _ Hw). apply Hkeep. revert Hseal. unfold sealed_for.
    destruct (forallb _ _); [by intros [= _ <-]|].
    intros (k & m3 & Hk & [= _ <-])%bind_Ok_inv.
    destruct (safe_storage_key_spec _ _ _ _ Hco Hlk Hk) as (Hc & He & _).
    intros k' Hk'. congruence. }
  destruct b; [by apply (Hsealed false)|by apply (Hsealed true)|].
  rewrite (write_json_frame _ _ _ _ _ _ Hsave). by apply Hkeep.
Qed.

(** C20. Nothing is lost between runs: what one save wrote, a later load gives back,
    in the same process or in another one that finds the same files and keychain
    entry. Keys, profiles, server and every secret are the saved ones; only the
    port forwards come back switched off, as they are not persisted. Holds for the
    sealed store and for the development file. *)
Theorem store_roundtrip f ks ps sv login m m1 f' m' :
  storable ks ps sv -> coherent m ->
  length (fresh_key f) = 32%nat -> length (fresh_nonce f) = 12%nat ->
  save_store data_local_dir f ks ps sv login m = (Ok tt, m1) ->
  files m' = files m1 -> backend m' = backend m1 -> keychain_kept m1 m' ->
  read_fault f' = None -> keychain_works f' ->
  exists st m2, load_store data_local_dir f' m' = (Ok st, m2) /\ loaded ks ps sv login st.
Proof. intros Hst Hco Hlk Hln Hsave. by eapply save_restores. Qed.
End roundtrip.

(** ** Unreadable secrets *)

Section degraded.
Context `{SafeBox} `{Json (gmap bytes bytes)} (data_local_dir : option bytes).
Context `{Json StoreDoc} `{Json DevDoc} `{PublicKeys}.

(** The store of a document none of whose secrets is known. *)
Definition secretless (d : StoreDoc) (failed : bool) (reset : option Z) : Store :=
  mkStore (drop_invalid_keys (doc_key [] <$> doc_keys d))
    (drop_invalid (doc_profile None <$> doc_profiles d))
    ((fun s => with_clients (drop_invalid_clients (sd_clients s)) (doc_server_config [] None s))
       <$> doc_server d)
    (doc_login d) failed reset (doc_sealed d) (doc_version d).

Lemma fill_none (ks : list AuthKey) : fill_key ∅ <$> ks = ks.
Proof. etrans; [|apply list_fmap_id]. apply list_fmap_ext. intros i k _. done. Qed.

Lemma load_secretless f b m path d st' m' :
  backend m = Some b -> (forall p, b <> DevFile p) -> sealed_path data_local_dir (is_mock b) = Ok path ->
  read_json f path m = (Ok (Some d), m) ->
  unseal_store f (with_keys (doc_store d) (drop_invalid_keys (doc_key [] <$> doc_keys d))) m
    = (Ok (st', ∅), m') ->
  st' = with_secrets_state (with_keys (doc_store d) (drop_invalid_keys (doc_key [] <$> doc_keys d)))
          (unseal_failed st') (sealed_reset_from st') ->
  load_store data_local_dir f m
    = (Ok (secretless d (unseal_failed st') (sealed_reset_from st')), m').
Proof.
  intros Hb Hdev Hpath Hread Hu Hst. unfold load_store.
  rewrite (bind_Ok _ _ _ _ _ (the_backend_run _ _ Hb)).
  assert (Hl : load_sealed data_local_dir f (is_mock b) m = (Ok (fill_store ∅ st'), m')).
  { unfold load_sealed. rewrite (bind_Ok _ _ _ path m) by (unfold lift; by rewrite Hpath).
    rewrite (bind_Ok _ _ _ _ _ Hread). cbn -[doc_store unseal_store].
    by rewrite (bind_Ok _ _ _ _ _ Hu). }
  assert (Hl' : load_raw data_local_dir f b m = (Ok (fill_store ∅ st'), m')).
  { destruct b; try done. by destruct (Hdev path0). }
  unfold load_raw in Hl'. rewrite (bind_Ok _ _ _ _ _ Hl'), Hst. unfold secretless, fill_store. cbn.
  rewrite fill_none, <- list_fmap_compose. destruct (doc_server d); done.
Qed.

(** Secrets that cannot be read never stop the application: a store sealed in
    another format version, or under a master key that is not the keychain's any
    more, still loads, with everything but the secrets. The first kind does not even
    touch the keychain; the two are told apart, so that the user is asked to
    re-enter the secrets and the blob is not overwritten unnoticed. *)
Theorem unreadable_secrets_degrade f b m path d :
  backend m = Some b -> (forall p, b <> DevFile p) -> sealed_path data_local_dir (is_mock b) = Ok path ->
  read_json f path m = (Ok (Some d), m) -> doc_sealed d <> [] ->
  (doc_version d <> SEALED_VERSION ->
     load_store data_local_dir f m = (Ok (secretless d false (Some (doc_version d))), m))
  /\ (forall key m1 e, doc_version d = SEALED_VERSION ->
        safe_storage_key f m = (Ok key, m1) -> open_secrets key (doc_sealed d) = Err e ->
        load_store data_local_dir f m = (Ok (secretless d true None), m1)).
Proof.
  intros Hb Hdev Hpath Hread Hne. split.
  - intros Hv. eapply (load_secretless _ _ _ _ _ (with_secrets_state _ false (Some (doc_version d))));
      [exact Hb|exact Hdev|exact Hpath|exact Hread| |done].
    unfold unseal_store. cbn. rewrite bool_decide_eq_false_2 by done.
    by rewrite bool_decide_eq_false_2 by done.
  - intros key m1 e Hv Hk He.
    eapply (load_secretless _ _ _ _ _ (with_secrets_state _ true None));
      [exact Hb|exact Hdev|exact Hpath|exact Hread| |done].
    unfold unseal_store. cbn. rewrite bool_decide_eq_false_2 by done.
    rewrite bool_decide_eq_true_2 by done. cbn. rewrite (bind_Ok _ _ _ _ _ Hk). by rewrite He.
Qed.
End degraded.

(** ** Use of the keychain *)

Definition preserves {A} (I : Machine -> Prop) (c : SM A) : Prop :=
  forall m r m', I m -> c m = (r, m') -> I m'.

Lemma preserves_bind {A B} I (c : SM A) (k : A -> SM B) :
  preserves I c -> (forall a, preserves I (k a)) -> preserves I (c ≫= k).
Proof.
  intros Hc Hk m r m' Hm. unfold mbind, M_bind. destruct (c m) as [[a|e] m1] eqn:E.
  - intros Hr. exact (Hk a m1 r m' (Hc m _ m1 Hm E) Hr).
  - intros [= _ <-]. exact (Hc m _ m1 Hm E).
Qed.

Lemma preserves_ret {A} I (a : A) : preserves I (mret a : SM A).
Proof. intros m r m' Hm. by intros [= _ <-]. Qed.

Lemma preserves_lift {A} I (x : result StoreError A) : preserves I (lift x : SM A).
Proof. intros m r m' Hm. by intros [= _ <-]. Qed.

Lemma preserves_read {A} `{Json A} I f path : preserves I (read_json f path : SM (option A)).
Proof. intros m r m' Hm. by intros [= _ <-]. Qed.

Create HintDb preserves.
#[export] Hint Resolve preserves_bind preserves_ret preserves_lift preserves_read : preserves.

Inductive StoreOp : Type :=
| Load (f : Faults)
| Save (f : Faults) (ks : list AuthKey) (ps : list Profile) (sv : option ServerConfig) (login : bool).

Definition op_faults (op : StoreOp) : Faults := match op with Load f | Save f _ _ _ _ => f end.

Section keychain.
Context `{SafeBox} `{Json (gmap bytes bytes)} (data_local_dir : option bytes).
Context `{Json StoreDoc} `{Json DevDoc} `{PublicKeys}.

Definition run_op (m : Machine) (op : StoreOp) : Machine :=
  match op with
  | Load f => (load_store data_local_dir f m).2
  | Save f ks ps sv login => (save_store data_local_dir f ks ps sv login m).2
  end.

(** The keychain entry holds a usable key, or is yet to be created. *)
Definition entry_usable (m : Machine) : Prop :=
  match kc_entry m with Some pw => is_Some (master_key_of pw) | None => True end.

Definition usable (f : Faults) : Prop := keychain_works f /\ set_works f = true.

Definition kc_inv (n : Z) (m : Machine) : Prop :=
  (is_Some (cache m) /\ kc_accesses m <= n + 1)
  \/ (cache m = None /\ kc_accesses m <= n /\ entry_usable m).

Lemma preserves_kc_key n f : usable f -> preserves (kc_inv n) (safe_storage_key f).
Proof.
  intros [[Ho Hg] Hs] m r m' Hm. unfold safe_storage_key. rewrite Ho, Hg, Hs. cbn.
  destruct Hm as [[[k Hk] Ha] | (Hc & Ha & He)].
  - rewrite Hk. intros [= _ <-]. left. eauto.
  - rewrite Hc. unfold entry_usable in He. destruct (kc_entry m) as [pw|].
    + destruct He as [key He]. rewrite He. intros [= _ <-]. left. cbn. split; [eauto|lia].
    + intros [= _ <-]. left. cbn. split; [eauto|lia].
Qed.

Lemma preserves_kc_write {A} `{Json A} n f path (v : A) : preserves (kc_inv n) (write_json f path v).
Proof. intros m r m' Hm Hw. by rewrite (write_json_frame _ _ _ _ _ _ Hw). Qed.

#[local] Hint Resolve preserves_kc_key preserves_kc_write : preserves.

Lemma preserves_kc_op n m op : usable (op_faults op) -> kc_inv n m -> kc_inv n (run_op m op).
Proof.
  intros Hu Hm. destruct op as [f|f ks ps sv login]; cbn in *.
  - assert (Hp : preserves (kc_inv n) (load_store data_local_dir f)).
    { apply preserves_bind; [intros m0 r m' Hm0; by intros [= _ <-]|]. intros b.
      apply preserves_bind; [|eauto with preserves].
      assert (Hs : forall mock, preserves (kc_inv n) (load_sealed data_local_dir f mock)).
      { intros mock. apply preserves_bind; [eauto with preserves|]. intros path.
        apply preserves_bind; [eauto with preserves|]. intros doc.
        apply preserves_bind; [|intros []; eauto with preserves].
        unfold unseal_store. repeat case_match; eauto with preserves.
        apply preserves_bind; [eauto with preserves|]. intros master. case_match; eauto with preserves. }
      destruct b; try apply Hs. unfold load_dev_file. eauto with preserves. }
    destruct (load_store data_local_dir f m) eqn:E. by eapply Hp.
  - assert (Hp : preserves (kc_inv n) (save_store data_local_dir f ks ps sv login)).
    { apply preserves_bind; [intros m0 r m' Hm0; by intros [= _ <-]|]. intros b.
      assert (Hs : forall mock, preserves (kc_inv n) (
        sealed ← sealed_for f (secret_entries ks ps sv); path ← lift (sealed_path data_local_dir mock);
        write_json f path (store_doc ks ps sv login sealed))).
      { intros mock. apply preserves_bind; [|eauto with preserves].
        unfold sealed_for. case_match; eauto with preserves. }
      destruct b; try apply Hs. unfold save_dev_file. eauto with preserves. }
    destruct (save_store data_local_dir f ks ps sv login m) eqn:E. by eapply Hp.
Qed.

(** A save of a store without secrets, step by step. *)
Lemma save_without_secrets f ks ps sv login m :
  Forall (fun e => e.2 = []) (secret_entries ks ps sv) ->
  let m' := run_op m (Save f ks ps sv login) in
  kc_accesses m' = kc_accesses m /\ kc_entry m' = kc_entry m.
Proof.
  intros Hno. set (I m' := kc_accesses m' = kc_accesses m /\ kc_entry m' = kc_entry m).
  assert (Hw : forall {A} `{Json A} path (v : A), preserves I (write_json f path v)).
  { intros A HA path v m0 r m' Hm0 Hw. by rewrite (write_json_frame _ _ _ _ _ _ Hw). }
  assert (Hp : preserves I (save_store data_local_dir f ks ps sv login)).
  { apply preserves_bind; [intros m0 r m' Hm0; by intros [= _ <-]|]. intros b.
    assert (Hall : forallb (fun e => bool_decide (e.2 = [])) (secret_entries ks ps sv) = true).
    { apply forallb_forall. intros e He. apply bool_decide_eq_true_2.
      rewrite Forall_forall in Hno. by apply Hno, list_elem_of_In. }
    rewrite Hall. destruct b; unfold save_dev_file; eauto with preserves. }
  cbn. destruct (save_store data_local_dir f ks ps sv login m) eqn:E. by eapply Hp.
Qed.

(** The keychain is asked at most once in the life of a process, whatever
    sequence of loads and saves it performs (on macOS: at most one prompt), and
    saving a store that holds no secret neither asks it nor creates its entry. *)
Theorem keychain_used_once m ops :
  cache m = None -> entry_usable m -> Forall (fun op => usable (op_faults op)) ops ->
  kc_accesses (foldl run_op m ops) <= kc_accesses m + 1
  /\ forall f ks ps sv login, Forall (fun e => e.2 = []) (secret_entries ks ps sv) ->
       let m' := run_op m (Save f ks ps sv login) in
       kc_accesses m' = kc_accesses m /\ kc_entry m' = kc_entry m.
Proof.
  intros Hc He Hops. split; [|intros; by apply save_without_secrets].
  assert (Hi : kc_inv (kc_accesses m) (foldl run_op m ops)).
  { assert (Hm : kc_inv (kc_accesses m) m) by (right; by split_and!).
    revert Hm. generalize (kc_accesses m) as n. clear Hc He. revert m.
    induction ops as [|op ops IH]; intros m n Hm; [done|]. apply Forall_cons in Hops as [Hop Hops].
    apply IH; [done|]. by apply preserves_kc_op. }
  destruct Hi as [[_ ?] | (_ & ? & _)]; lia.
Qed.
End keychain.

(** ** What is written in the clear *)

Section clear.
Context `{SafeBox} `{Json (gmap bytes bytes)} (data_local_dir : option bytes).
Context `{Json StoreDoc} `{Json DevDoc}.

(** The keychain's master key: the one this process holds, else the entry's, else one
    drawn now. *)
Definition keychain_master (f : Faults) (m : Machine) (master : bytes) : Prop :=
  match cache m, kc_entry m with
  | Some key, _ => master = key
  | None, Some password => master_key_of password = Some master
  | None, None => master = fresh_key f
  end.

(** The blob of a store's secrets: nothing where there are none, else the ciphertext of
    their map under the keychain's master key, behind its nonce. *)
Definition is_blob (f : Faults) (m : Machine) (ks : list AuthKey) (ps : list Profile)
  (sv : option ServerConfig) (sealed : bytes) : Prop :=
  let es := secret_entries ks ps sv in
  (sealed = [] /\ Forall (fun e => e.2 = []) es)
  \/ exists master plain c, keychain_master f m master /\ to_vec (secret_map es) = Ok plain
       /\ aes_encrypt master (fresh_nonce f) plain = Some c /\ sealed = b64_encode (fresh_nonce f ++ c).

(** The records without their secrets. *)
Definition bare_key (k : AuthKey) : AuthKey := mkAuthKey (k_id k) (k_name k) (k_public k) [].
Definition bare_profile (q : Profile) : Profile :=
  mkProfile (p_id q) (p_name q) (p_server q) (p_key_id q) (p_socks q) (p_http q) (p_relay_urls q) None
    (p_forwards q).
Definition bare_server (s : ServerConfig) : ServerConfig :=
  mkServer (sv_endpoint_id s) [] (sv_clients s) (sv_domains s) (sv_cidrs s) (sv_relay_urls s) None
    (sv_enabled s).

(** Stores that differ in nothing but auth keys, relay tokens and the server identity. *)
Definition differ_in_secrets (ks ks' : list AuthKey) (ps ps' : list Profile)
  (sv sv' : option ServerConfig) : Prop :=
  bare_key <$> ks = bare_key <$> ks' /\ bare_profile <$> ps = bare_profile <$> ps'
  /\ bare_server <$> sv = bare_server <$> sv'.

(** What is written of a record is written of it without its secrets. *)
Lemma doc_of_bare ks ps sv login sealed :
  store_doc ks ps sv login sealed
  = store_doc (bare_key <$> ks) (bare_profile <$> ps) (bare_server <$> sv) login sealed.
Proof.
  unfold store_doc. rewrite <- !list_fmap_compose, <- option_fmap_compose. reflexivity.
Qed.

Lemma secret_map_filled es : secret_map es = ∅ -> Forall (fun e => e.2 = []) es.
Proof.
  unfold secret_map. intros Hm. apply Forall_forall. intros e He.
  destruct (decide (e.2 = [])) as [|Hne]; [done|exfalso].
  assert (Hin : e ∈ filter (fun e => e.2 <> []) es) by (by apply list_elem_of_filter).
  revert Hm Hin. generalize (filter (fun e : bytes * bytes => e.2 <> []) es) as l.
  intros l. destruct l as [|e' l _] using rev_ind; [by intros _ ?%not_elem_of_nil|].
  rewrite foldl_app. cbn. intros Hm _. by apply insert_non_empty in Hm.
Qed.

Lemma safe_storage_key_master f m key m1 : safe_storage_key f m = (Ok key, m1) -> keychain_master f m key.
Proof.
  unfold safe_storage_key, keychain_master. destruct (cache m); [by intros [= <- _]|].
  repeat case_match; cbn in *; intros; simplify_eq; done.
Qed.

Lemma sealed_for_blob f ks ps sv m sealed m1 :
  sealed_for f (secret_entries ks ps sv) m = (Ok sealed, m1) -> is_blob f m ks ps sv sealed.
Proof.
  unfold sealed_for, is_blob. destruct (forallb _ _) eqn:Hall.
  - intros [= <- _]. left. split; [done|]. apply Forall_forall. intros e He%list_elem_of_In.
    rewrite forallb_forall in Hall. by apply Hall, bool_decide_eq_true in He.
  - intros (master & m0 & Hk%safe_storage_key_master & [= Hs _])%bind_Ok_inv. unfold seal_secrets in Hs.
    case_bool_decide as Hm; [injection Hs as <-; left; split; [done|by apply secret_map_filled]|].
    destruct (to_vec _) as [plain|] eqn:Hp; [|done]. cbn in Hs.
    destruct (aes_encrypt _ _ _) as [c|] eqn:Hc; [|done]. cbn in Hs. injection Hs as <-. right.
    by exists master, plain, c.
Qed.

Lemma write_json_content {A} `{Json A} f path (v : A) m m1 :
  write_json f path v m = (Ok tt, m1) ->
  exists json, to_vec v = Ok json /\ files m1 !! path = Some json.
Proof.
  unfold write_json. repeat case_match; try done. intros [= <-].
  eexists. split; [done|]. cbn. apply lookup_insert_eq.
Qed.

(** A write replaces the file, removes the temporary one and touches no other. *)
Lemma write_json_others {A} `{Json A} f path (v : A) m m1 q :
  write_json f path v m = (Ok tt, m1) -> q <> path ->
  files m1 !! q = files m !! q \/ files m1 !! q = None.
Proof.
  unfold write_json. repeat case_match; try done. intros [= <-] Hq. cbn. rewrite lookup_insert_ne by done.
  destruct (decide (q = with_extension path (str "json.tmp"))) as [->|Hne].
  - right. apply lookup_delete_eq.
  - left. by rewrite lookup_delete_ne, lookup_insert_ne.
Qed.

Lemma save_content f b path ks ps sv login m m1 :
  backend m = Some b -> (forall p, b <> DevFile p) -> sealed_path data_local_dir (is_mock b) = Ok path ->
  save_store data_local_dir f ks ps sv login m = (Ok tt, m1) ->
  exists sealed json, is_blob f m ks ps sv sealed /\ to_vec (store_doc ks ps sv login sealed) = Ok json
    /\ files m1 !! path = Some json
    /\ forall q, q <> path -> files m1 !! q = files m !! q \/ files m1 !! q = None.
Proof.
  intros Hb Hdev Hpath. unfold save_store. rewrite (bind_Ok _ _ _ _ _ (the_backend_run _ _ Hb)).
  intros Hs.
  assert (Hs' : (sealed ← sealed_for f (secret_entries ks ps sv);
    path ← lift (sealed_path data_local_dir (is_mock b));
    write_json f path (store_doc ks ps sv login sealed)) m = (Ok tt, m1)).
  { destruct b; try done. by destruct (Hdev path0). }
  clear Hs. apply bind_Ok_inv in Hs' as (sealed & m0 & Hseal & Hw).
  apply bind_Ok_inv in Hw as (path' & m0' & [= Hp <-] & Hw).
  assert (path' = path) as -> by congruence.
  pose proof (fun q => write_json_others f path _ _ _ q Hw) as Hothers.
  apply write_json_content in Hw as (json & Hj & Hf).
  rewrite (proj1 (sealed_for_frame _ _ _ _ _ Hseal)) in Hothers.
  exists sealed, json. split_and!; try done. by eapply sealed_for_blob.
Qed.

(** C21. The store's file does not give the secrets away: two saves of stores that
    differ in nothing but secrets (auth keys, server identity, relay tokens) write
    the same document up to the blob [sealed_keys], and that blob is empty if there
    is no secret, else the ciphertext of the secrets under the keychain's master key,
    behind its nonce. No other file is written. *)
Theorem file_hides_secrets b path login f ks ps sv m m1 f' ks' ps' sv' m' m1' :
  (forall p, b <> DevFile p) -> sealed_path data_local_dir (is_mock b) = Ok path ->
  backend m = Some b -> backend m' = Some b ->
  differ_in_secrets ks ks' ps ps' sv sv' ->
  save_store data_local_dir f ks ps sv login m = (Ok tt, m1) ->
  save_store data_local_dir f' ks' ps' sv' login m' = (Ok tt, m1') ->
  (exists ks0 ps0 sv0 sealed sealed' json json',
    is_blob f m ks ps sv sealed /\ is_blob f' m' ks' ps' sv' sealed'
    /\ files m1 !! path = Some json /\ files m1' !! path = Some json'
    /\ to_vec (mkStoreDoc ks0 ps0 sv0 login sealed SEALED_VERSION) = Ok json
    /\ to_vec (mkStoreDoc ks0 ps0 sv0 login sealed' SEALED_VERSION) = Ok json')
  /\ forall q, q <> path -> files m1 !! q = files m !! q \/ files m1 !! q = None.
Proof.
  intros Hdev Hpath Hb Hb' (Hk & Hp & Hs) Hsave Hsave'.
  destruct (save_content _ _ _ _ _ _ _ _ _ Hb Hdev Hpath Hsave) as (s & j & Hblob & Hj & Hf & Hothers).
  destruct (save_content _ _ _ _ _ _ _ _ _ Hb' Hdev Hpath Hsave') as (s' & j' & Hblob' & Hj' & Hf' & _).
  split; [|done]. rewrite doc_of_bare in Hj, Hj'. rewrite <- Hk, <- Hp, <- Hs in Hj'.
  unfold store_doc in *. eauto 20.
Qed.
End clear.

(** ** The file is replaced, never truncated *)

Lemma before_last_spec c s r : before_last c s = Some r -> exists t, s = r ++ c :: t /\ (c ∉ t).
Proof.
  revert r. induction s as [|b s IH]; intros r; cbn; [done|].
  destruct (before_last c s) as [r'|] eqn:E.
  - intros [= <-]. destruct (IH r' eq_refl) as (t & -> & Ht). by exists t.
  - case_bool_decide; [|done]. intros [= <-]. subst b. exists s. split; [done|]. clear IH.
    induction s as [|b s IH]; [apply not_elem_of_nil|]. cbn in E.
    destruct (before_last c s); [done|]. case_bool_decide; [done|]. apply not_elem_of_cons. auto.
Qed.

Lemma file_stem_ext name : file_stem name ++ str "." ++ str "json.tmp" <> name.
Proof.
  unfold file_stem. assert (Hlong : name ++ str "." ++ str "json.tmp" <> name).
  { intros E. apply (f_equal length) in E. rewrite length_app in E.
    change (length (str "." ++ str "json.tmp")) with 9%nat in E. lia. }
  destruct (before_last "."%byte name) as [[|b stem]|] eqn:E; try done.
  apply before_last_spec in E as (t & Hname & Ht). rewrite Hname. intros Heq.
  apply (inj (app _)) in Heq. change (str "." ++ str "json.tmp") with ("."%byte :: str "json.tmp") in Heq.
  injection Heq as Heq. apply Ht. rewrite <- Heq. vm_compute. repeat constructor.
Qed.

Lemma with_extension_ne path : with_extension path (str "json.tmp") <> path.
Proof.
  unfold with_extension. destruct (before_last "/"%byte path) as [dir|] eqn:E; [|apply file_stem_ext].
  apply before_last_spec in E as (t & -> & _).
  replace (drop (S (length dir)) (dir ++ "/"%byte :: t)) with t
    by (rewrite cons_middle, app_assoc, drop_app_length'; [done|rewrite length_app; cbn; lia]).
  intros Heq. apply (inj (app _)) in Heq.
  change (str "/" ++ ?x) with ("/"%byte :: x) in Heq.
  injection Heq as Heq. by apply (file_stem_ext t).
Qed.

(** A save that fails, at whatever step, leaves the file as it was; one that
    succeeds replaces it whole. *)
Theorem store_write_atomic {A} `{Json A} f path (v : A) m :
  match write_json f path v m with
  | (Ok _, m') => exists json, to_vec v = Ok json /\ files m' !! path = Some json
  | (Err _, m') => files m' !! path = files m !! path
  end.
Proof.
  destruct (write_json f path v m) as [[[]|e] m'] eqn:E; [by eapply write_json_content|].
  revert E. unfold write_json. repeat case_match; intros [= _ <-]; try done; cbn;
    by rewrite lookup_insert_ne by apply with_extension_ne.
Qed.

(** An entry that is dropped for its name still reserves its id: a valid key listed
    after it under the same id is lost too, unlike with authorized clients, where a
    dropped entry shadows nothing. *)
Theorem dropped_key_shadows :
  let bad := mkAuthKey (str "k1") (str " x") (str "P") [] in
  let good := mkAuthKey (str "k1") (str "laptop") (str "Q") [] in
  drop_invalid_keys [bad; good] = [] /\ drop_invalid_keys [good] = [good]
  /\ forall (PK : PublicKeys) c, canonical_public c = true -> is_valid_name (ac_name c) = true ->
     drop_invalid_clients [mkAuthorized (str " x") (ac_public c); c] = [c].
Proof.
  split_and!; [vm_compute; reflexivity..|]. intros PK c Hc Hn. unfold drop_invalid_clients. cbn.
  change (is_valid_name (str " x")) with false. cbn. rewrite Hn, Hc. cbn.
  by rewrite !bool_decide_eq_false_2 by apply not_elem_of_empty.
Qed.

(** ** The interfaces are inhabited *)

#[export] Program Instance AuthorizedClient_countable : Countable AuthorizedClient :=
  inj_countable' (fun c => (ac_name c, ac_public c)) (fun '(n, p) => mkAuthorized n p) _.
Next Obligation. by intros []. Qed.

#[export] Instance KeyDoc_eq_dec : EqDecision KeyDoc.
Proof. solve_decision. Defined.
#[export] Program Instance KeyDoc_countable : Countable KeyDoc :=
  inj_countable' (fun d => (kd_id d, kd_name d, kd_public d)) (fun '(i, n, p) => mkKeyDoc i n p) _.
Next Obligation. by intros []. Qed.

#[export] Instance ForwardDoc_eq_dec : EqDecision ForwardDoc.
Proof. solve_decision. Defined.
#[export] Program Instance ForwardDoc_countable : Countable ForwardDoc :=
  inj_countable' (fun d => (fd_id d, fd_label d, fd_local_port d, fd_remote_host d, fd_remote_port d))
    (fun '(i, l, p, h, r) => mkForwardDoc i l p h r) _.
Next Obligation. by intros []. Qed.

#[export] Instance ProfileDoc_eq_dec : EqDecision ProfileDoc.
Proof. solve_decision. Defined.
#[export] Program Instance ProfileDoc_countable : Countable ProfileDoc :=
  inj_countable' (fun d => (pd_id d, pd_name d, pd_server d, pd_key_id d,
                            (pd_socks d, pd_http d, pd_relay_urls d, pd_forwards d)))
    (fun '(i, n, s, k, (so, h, r, f)) => mkProfileDoc i n s k so h r f) _.
Next Obligation. by intros []. Qed.

#[export] Instance ServerDoc_eq_dec : EqDecision ServerDoc.
Proof. solve_decision. Defined.
#[export] Program Instance ServerDoc_countable : Countable ServerDoc :=
  inj_countable' (fun d => (sd_endpoint_id d, sd_clients d, sd_domains d,
                            (sd_cidrs d, sd_relay_urls d, sd_enabled d)))
    (fun '(e, c, d, (ci, r, en)) => mkServerDoc e c d ci r en) _.
Next Obligation. by intros []. Qed.

#[export] Instance StoreDoc_eq_dec : EqDecision StoreDoc.
Proof. solve_decision. Defined.
#[export] Program Instance StoreDoc_countable : Countable StoreDoc :=
  inj_countable' (fun d => (doc_keys d, doc_profiles d, doc_server d,
                            (doc_login d, doc_sealed d, doc_version d)))
    (fun '(k, p, s, (l, e, v)) => mkStoreDoc k p s l e v) _.
Next Obligation. by intros []. Qed.

#[export] Instance DevDoc_eq_dec : EqDecision DevDoc.
Proof. solve_decision. Defined.
#[export] Program Instance DevDoc_countable : Countable DevDoc :=
  inj_countable' (fun d => (dev_keys d, dev_profiles d, dev_server d, dev_login d))
    (fun '(k, p, s, l) => mkDevDoc k p s l) _.
Next Obligation. by intros []. Qed.

Module RefStore.
#[export] Instance secrets_json : Json (gmap bytes bytes) := reference_json _.
#[export] Instance store_json : Json StoreDoc := reference_json _.
#[export] Instance dev_json : Json DevDoc := reference_json _.
#[export] Instance secrets_laws : JsonLaws (gmap bytes bytes) (fun _ => True) := reference_json_laws _ _.
#[export] Instance store_laws : JsonLaws StoreDoc wf_store_doc := reference_json_laws _ _.
#[export] Instance dev_laws : JsonLaws DevDoc wf_dev_doc := reference_json_laws _ _.

(** A box that opens under its own key and nonce only. *)
#[export] Instance box : SafeBox := {|
  aes_encrypt master nonce plain := Some (master ++ nonce ++ plain);
  aes_decrypt master nonce c := strip_prefix (master ++ nonce) c;
  b64_encode s := s;
  b64_decode s := Some s;
|}.

#[export] Instance box_laws : SafeBoxLaws.
Proof.
  split; [|done..]. intros master nonce plain c [= <-]. apply strip_prefix_Some. by rewrite app_assoc.
Qed.

#[export] Instance publics : PublicKeys := {| public_token s := Ok s |}.
End RefStore.

Section witnesses.
Import RefStore.

Definition ref_key : AuthKey := mkAuthKey (str "00ff") (str "work laptop") (str "pub") (str "sec").
Definition ref_profile : Profile :=
  mkProfile (str "p1") (str "office") (str "srv") (str "00ff") (Some 1080) None [] (Some (str "tok"))
    [mkPortForward (str "f1") [] 8080 (str "db") 5432 true].
Definition ref_server : ServerConfig :=
  mkServer (str "ep") (str "identity") [mkAuthorized (str "phone") (str "pub2")] [str "*"] [] [] None true.

Definition ref_faults : Faults :=
  mkStoreFaults true true true (repeat x2a 32) (repeat x07 12) None no_faults.

Definition ref_dir : option bytes := Some (str "/data").

(** A machine on which nothing was saved yet, and the same after one save. *)
Definition ref_machine : Machine := mkMachine ∅ None None (Some Keychain) 0.
Definition ref_saved : Machine :=
  run_op ref_dir ref_machine (Save ref_faults [ref_key] [ref_profile] (Some ref_server) true).

Lemma ref_save : save_store ref_dir ref_faults [ref_key] [ref_profile] (Some ref_server) true ref_machine
  = (Ok tt, ref_saved).
Proof.
  unfold ref_saved, run_op. rewrite surjective_pairing at 1. by f_equal.
Qed.

Lemma ref_storable : storable [ref_key] [ref_profile] (Some ref_server).
Proof.
  split.
  - split_and!; [repeat constructor; done | repeat constructor; set_solver..].
  - split_and!; [repeat constructor; done | repeat constructor; set_solver..].
  - repeat constructor; done.
  - by repeat constructor.
  - intros s [= <-]. split; [|done]. split_and!; [repeat constructor; done | repeat constructor; set_solver..].
Qed.

Lemma store_roundtrip_witness :
  exists st m2, load_store ref_dir ref_faults ref_saved = (Ok st, m2)
    /\ loaded [ref_key] [ref_profile] (Some ref_server) true st.
Proof.
  apply (store_roundtrip ref_dir ref_faults _ _ _ _ ref_machine ref_saved);
    [exact ref_storable | done | done | done | exact ref_save | done | done | by split; [|right] | done | done].
Defined.

Lemma loaded_store_wellformed_witness :
  wf_keys (keys (default Store_default (match (load_store ref_dir ref_faults ref_machine).1 with
                                        | Ok st => Some st | Err _ => None end))).
Proof.
  destruct (load_store ref_dir ref_faults ref_machine) as [[st|e] m'] eqn:E.
  - exact (wf_store_keys _ (loaded_store_wellformed ref_dir ref_faults ref_machine st m' E)).
  - exfalso. revert E. vm_compute. discriminate.
Defined.

(** A store sealed by another version, on the same machine. *)
Definition old_doc : StoreDoc := mkStoreDoc [key_doc ref_key] [] None true (str "blob") 0.
Definition ref_old : Machine :=
  (write_json ref_faults (str "/data/flextunnel/profiles.json") old_doc ref_machine).2.

Lemma unreadable_secrets_degrade_witness :
  load_store ref_dir ref_faults ref_old = (Ok (secretless old_doc false (Some 0)), ref_old).
Proof.
  eapply (unreadable_secrets_degrade ref_dir ref_faults Keychain ref_old
            (str "/data/flextunnel/profiles.json") old_doc); try done.
Defined.

Lemma keychain_used_once_witness :
  kc_accesses (foldl (run_op ref_dir) ref_machine
    [Save ref_faults [ref_key] [] None true; Load ref_faults; Save ref_faults [] [] None true]) <= 0 + 1.
Proof.
  apply (keychain_used_once ref_dir ref_machine); [done | done | by repeat constructor].
Defined.

(** The same store with another secret key. *)
Definition other_key : AuthKey := mkAuthKey (str "00ff") (str "work laptop") (str "pub") (str "other").
Definition other_saved : Machine :=
  run_op ref_dir ref_machine (Save ref_faults [other_key] [ref_profile] (Some ref_server) true).

Lemma other_save :
  save_store ref_dir ref_faults [other_key] [ref_profile] (Some ref_server) true ref_machine
  = (Ok tt, other_saved).
Proof. unfold other_saved, run_op. rewrite surjective_pairing at 1. by f_equal. Qed.

Lemma file_hides_secrets_witness :
  let path := str "/data/flextunnel/profiles.json" in
  (exists ks0 ps0 sv0 sealed sealed' json json',
    is_blob ref_faults ref_machine [ref_key] [ref_profile] (Some ref_server) sealed
    /\ is_blob ref_faults ref_machine [other_key] [ref_profile] (Some ref_server) sealed'
    /\ files ref_saved !! path = Some json /\ files other_saved !! path = Some json'
    /\ to_vec (mkStoreDoc ks0 ps0 sv0 true sealed SEALED_VERSION) = Ok json
    /\ to_vec (mkStoreDoc ks0 ps0 sv0 true sealed' SEALED_VERSION) = Ok json')
  /\ forall q, q <> path -> files ref_saved !! q = files ref_machine !! q \/ files ref_saved !! q = None.
Proof.
  exact (file_hides_secrets ref_dir Keychain (str "/data/flextunnel/profiles.json") true
    ref_faults [ref_key] [ref_profile] (Some ref_server) ref_machine ref_saved
    ref_faults [other_key] [ref_profile] (Some ref_server) ref_machine other_saved
    ltac:(done) eq_refl eq_refl eq_refl ltac:(done) ref_save other_save).
Defined.
End witnesses.
