(* ===== verification/DesktopServer.v ===== *)
(** * What a desktop server admits ([server_session.rs]: [options])

    The options of the core server built from the stored configuration, composed with the
    start-up checks ([Startup]) and the authentication of a connection ([Server]): the
    clients a running desktop server lets in are those of its list. *)

From S2P Require Import Prelude RustStr Secret Net Stream Signaling RoutedSet DnsForward Blocklist Registry.
From S2P Require Import Server ServerProofs Startup Config DesktopStore.

(** iroh and flexaccess: the endpoint id of a secret key, which stands for the key in
    [ServerOptions], and authorized-keys entries. *)
Class DesktopKeys `{Identity, SecretApi} := {
  secret_id : SecretKey -> EndpointId;
  parse_authorized_key_entries : list bytes -> result bytes AuthorizedKeys;
}.

Inductive OptionsError : Type :=
| BadIdentity (e : SecretError)
| BadEntries (why : bytes)
| NoBlocklistPath (text : bytes).

Definition entry (c : AuthorizedClient) : bytes := ac_public c ++ str " " ++ ac_name c.

(** A token is one word. *)
Definition token_ok (c : AuthorizedClient) : Prop := ac_public c <> [] /\ x20 ∉ ac_public c.

(** An entry is a key with a comment after it: the parsed set holds exactly the keys. *)
Class DesktopKeysLaws `{DesktopKeys} :=
  entries_contain : forall clients ks k, Forall token_ok clients ->
    parse_authorized_key_entries (entry <$> clients) = Ok ks ->
    keys_contain ks k = true <-> exists c, c ∈ clients /\ key_parse (ac_public c) = Some k.

Section options.
Context {ID : Identity} {NA : IpNetworkApi} {RA : ResolverApi} {SA : StartupApi} {CE : ConfigEnv}.
Context {SE : SecretApi} {DK : DesktopKeys} `{Json BlockListData}.

Definition no_blocklist : bytes :=
  str "Could not determine the home directory for the duplicate-id blocklist (~/.config/flextunnel/blocklist.json)".

Definition options (s : DesktopStore.ServerConfig) : result OptionsError ServerOptions :=
  secret ← map_err BadIdentity (load_secret_from_string (trim (sv_secret s)));
  keys ← map_err BadEntries (parse_authorized_key_entries (entry <$> sv_clients s));
  blocklist ← ok_or default_blocklist_path (NoBlocklistPath no_blocklist);
  Ok (mkOptions (secret_id secret) keys None false (sv_relay_urls s) (sv_token s) [] (sv_domains s) (sv_cidrs s) [] [] []
        blocklist).

Context {DL : DesktopKeysLaws}.

(** Who a connection proves to be. *)
Definition proves (conn : Connection) (hello : Hello) (k : PublicKey) : Prop :=
  exists a, auth hello = Some a /\ id_parse (auth_endpoint_id a) = Some (remote_id conn)
    /\ key_parse (public_key a) = Some k /\ verify_endpoint_id_signature k (remote_id conn) (signature a) = true.

Lemma auth_ok_proves self conn hello :
  alpn conn <> QUICK_ALPN ->
  auth_ok self conn hello = true <-> exists k, proves conn hello k /\ keys_contain (authorized_keys self) k = true.
Proof.
  intros Hq. unfold auth_ok, proves. rewrite bool_decide_eq_false_2 by done. cbn. split.
  - destruct (auth hello) as [a|]; [|done]. unfold verify_client_auth.
    destruct (id_parse _) as [claimed|] eqn:Hid; [|done]. case_bool_decide as Hc; [|done]. subst claimed. cbn.
    destruct (key_parse _) as [k|] eqn:Hk; [|done]. destruct (keys_contain _ _) eqn:Hin; [|done].
    destruct (verify_endpoint_id_signature _ _ _) eqn:Hv; [|done]. intros _. exists k. split; [|done].
    by exists a.
  - intros (k & (a & -> & Hid & Hk & Hv) & Hin). unfold verify_client_auth.
    rewrite Hid, bool_decide_eq_true_2 by done. cbn. by rewrite Hk, Hin, Hv.
Qed.

(** What the options and the checks leave of the configuration. *)
Lemma prepared_from_options content nonce s opts ps :
  options s = Ok opts -> prepare content nonce opts = Ok ps ->
  parse_authorized_key_entries (entry <$> sv_clients s) = Ok (authorized_keys (ps_server ps))
  /\ ps_allowlists ps = mkAllowlists ∅ ∅ /\ bridges (ps_server ps) = []
  /\ RoutedSet_new (sv_domains s) (sv_cidrs s) = Ok (routed_set (ps_server ps)).
Proof.
  unfold options. destruct (load_secret_from_string _) as [own|]; [|done]. cbn.
  destruct (parse_authorized_key_entries _) as [ks|] eqn:Hks; [|done]. cbn.
  destruct default_blocklist_path as [path|]; [|done]. intros [= <-]. unfold prepare.
  cbn -[RoutedSet_new]. destruct (keys_is_empty ks); [done|]. cbn -[RoutedSet_new].
  destruct (load path content) as [bl|]; [|done]. cbn -[RoutedSet_new].
  destruct (is_server_conflicted _ _); [done|].
  destruct (RoutedSet_new _ _) as [rs|] eqn:Hrs; [|done]. cbn.
  case_bool_decide; [done|]. destruct (from_urls_with_token _ _) as [rc|]; [|done].
  intros [= <-]. cbn. split_and!; try done.
Qed.

(** A desktop server lets in exactly the clients of its list: a connection that gets
    past the endpoint's hook is authenticated if and only if it proves a key some
    authorized client has; nothing is bridged in or out and there is no quick mode; and
    what is tunneled is the configured set. *)
Theorem desktop_server_admits_list content nonce s opts ps :
  Forall token_ok (sv_clients s) -> options s = Ok opts -> prepare content nonce opts = Ok ps ->
  (forall conn hello, after_handshake (ps_allowlists ps) SideServer (alpn conn) (remote_id conn) = Accept ->
     alpn conn <> BRIDGE_ALPN
     /\ (auth_ok (ps_server ps) conn hello = true
         <-> exists c k, c ∈ sv_clients s /\ key_parse (ac_public c) = Some k /\ proves conn hello k))
  /\ bridges (ps_server ps) = []
  /\ RoutedSet_new (sv_domains s) (sv_cidrs s) = Ok (routed_set (ps_server ps)).
Proof.
  intros Htok Ho Hp. destruct (prepared_from_options _ _ _ _ _ Ho Hp) as (Hks & Hal & Hbr & Hrs).
  split_and!; [|done|done]. intros conn hello. rewrite Hal. unfold after_handshake, gate. cbn [bridge_servers quick_clients].
  case_bool_decide as Hb; [by rewrite bool_decide_eq_false_2 by set_solver|].
  case_bool_decide as Hq; [by rewrite bool_decide_eq_false_2 by set_solver|]. intros _. split; [done|].
  rewrite auth_ok_proves by done. split.
  - intros (k & Hpr & Hin). apply (entries_contain _ _ _ Htok Hks) in Hin as (c & Hc & Hk). by exists c, k.
  - intros (c & k & Hc & Hk & Hpr). exists k. split; [done|]. apply (entries_contain _ _ _ Htok Hks). by exists c.
Qed.

(** After a removal the client is not admitted by a server started with the new list,
    stored keys being canonical tokens. *)
Theorem removed_client_refused content nonce s pk k opts ps conn hello :
  let left := filter (fun c => ac_public c <> pk) (sv_clients s) in
  Forall token_ok (sv_clients s) ->
  (forall c k', c ∈ sv_clients s -> key_parse (ac_public c) = Some k' -> ac_public c = key_to_token k') ->
  pk = key_to_token k -> (forall k', proves conn hello k' -> k' = k) ->
  options (with_clients left s) = Ok opts -> prepare content nonce opts = Ok ps ->
  after_handshake (ps_allowlists ps) SideServer (alpn conn) (remote_id conn) = Accept ->
  auth_ok (ps_server ps) conn hello = false.
Proof.
  intros left Htok Hcan Hpk Hwho Ho Hp Hacc.
  destruct (auth_ok _ _ _) eqn:E; [|done]. exfalso.
  assert (Htok' : Forall token_ok (sv_clients (with_clients left s))).
  { rewrite Forall_forall in *. intros c [_ Hc]%list_elem_of_filter. by apply Htok. }
  destruct (prepared_from_options _ _ _ _ _ Ho Hp) as (Hks & Hal & _).
  assert (Hq : alpn conn <> QUICK_ALPN).
  { intros Hq. rewrite Hal, Hq in Hacc. revert Hacc. unfold after_handshake, gate. cbn [bridge_servers quick_clients].
    rewrite bool_decide_eq_false_2 by done. rewrite bool_decide_eq_true_2 by done.
    by rewrite bool_decide_eq_false_2 by set_solver. }
  apply auth_ok_proves in E as (k' & Hpr & Hin); [|done]. rewrite (Hwho k' Hpr) in Hin.
  apply (entries_contain _ _ _ Htok' Hks) in Hin as (c & [Hne Hc]%list_elem_of_filter & Hk).
  apply Hne. rewrite Hpk. by apply Hcan.
Qed.
End options.

(** ** Witnesses *)

Section witnesses.
Import RefJson.
#[local] Existing Instances RefIdentity RefResolver RefConfigEnv RefSecret.ref_secret.

#[local] Instance RefDesktopStartup : StartupApi := {|
  RelayConfig := list bytes;
  from_urls_with_token urls _ := Ok urls;
  custom_urls c := c;
  keys_is_empty (l : @AuthorizedKeys RefIdentity) := bool_decide (l = []);
|}.

Definition entry_key (e : bytes) : option Z := split_once x20 e ≫= fun p => read_number p.1.

#[local] Instance RefDesktopKeys : DesktopKeys := {|
  secret_id _ := (100 : EndpointId);
  parse_authorized_key_entries es := Ok (omap entry_key es : AuthorizedKeys);
|}.

#[local] Instance RefDesktopKeysLaws : DesktopKeysLaws.
Proof.
  intros clients ks k Htok [= <-]. rewrite Forall_forall in Htok.
  assert (Hkey : forall c, c ∈ clients -> entry_key (entry c) = key_parse (ac_public c)).
  { intros c Hc. unfold entry_key, entry. change (str " " ++ ac_name c) with (x20 :: ac_name c).
    rewrite split_once_app by (by apply Htok). done. }
  cbn. rewrite bool_decide_eq_true, list_elem_of_omap. split.
  - intros (e & (c & -> & Hc)%list_elem_of_fmap & He). exists c. split; [done|]. by rewrite <- Hkey.
  - intros (c & Hc & Hk). exists (entry c). split; [by apply list_elem_of_fmap_2|]. by rewrite Hkey.
Qed.

Definition ref_desktop : DesktopStore.ServerConfig :=
  DesktopStore.mkServer (print_number 100) (RefSecret.letters RefSecret.the_key) [mkAuthorized (str "phone") (print_number 5)]
    [str "corp.example"] [] [] None true.

Lemma desktop_server_admits_list_witness :
  exists opts ps, options ref_desktop = Ok opts /\ prepare no_file 1 opts = Ok ps
    /\ bridges (ps_server ps) = []
    /\ RoutedSet_new [str "corp.example"] [] = Ok (routed_set (ps_server ps)).
Proof.
  assert (Htok : Forall token_ok (sv_clients ref_desktop)).
  { constructor; [|constructor]. split; [by vm_compute|]. apply (bool_decide_eq_false_1 (x20 ∈ _)).
    vm_compute. reflexivity. }
  eexists _, _. split; [reflexivity|]. split; [reflexivity|].
  exact (proj2 (desktop_server_admits_list no_file 1 ref_desktop _ _ Htok eq_refl eq_refl)).
Defined.
End witnesses.
