(* ===== verification/DesktopExport.v ===== *)
(** * Exporting and importing profiles ([crates/flextunnel-desktop/src/config.rs])

    Profiles leave an installation as plain JSON values, without the ids, the key
    reference and the relay token, and enter another one under fresh ids. *)

From S2P Require Import Prelude RustStr Net Stream Signaling Blocklist PortForwards Config DesktopStore.
From S2P Require Import DesktopStoreProofs.

#[local] Set Warnings "-register-all".

(** ** JSON values

    An object is the list of its members in the order of their keys. *)

Inductive Value : Type :=
| VNull
| VBool (b : bool)
| VInt (n : Z)
| VFloat (text : bytes)
| VStr (s : bytes)
| VArr (l : list Value)
| VObj (l : list (bytes * Value)).

Abbreviation Obj := (list (bytes * Value)).

Definition obj_get (key : bytes) (o : Obj) : option Value :=
  list_find (fun e => e.1 = key) o ≫= fun x => Some x.2.2.

Definition obj_remove (key : bytes) (o : Obj) : Obj := filter (fun e => e.1 <> key) o.

Fixpoint obj_insert (key : bytes) (v : Value) (o : Obj) : Obj :=
  match o with
  | [] => [(key, v)]
  | e :: o' => if bool_decide (e.1 = key) then (key, v) :: o'
               else if bytes_le key e.1 then (key, v) :: o
               else e :: obj_insert key v o'
  end.

(** [entry(key).or_insert_with]. *)
Definition obj_or_insert (key : bytes) (v : Value) (o : Obj) : Obj :=
  match obj_get key o with Some _ => o | None => obj_insert key v o end.

Definition opt_value (o : option Z) : Value := match o with Some n => VInt n | None => VNull end.

(** The derived serializers, members in key order. *)
Definition forward_fields (f : PortForward) : Obj :=
  [(str "id", VStr (pf_id f)); (str "label", VStr (pf_label f));
   (str "local_port", VInt (pf_local_port f)); (str "remote_host", VStr (pf_remote_host f));
   (str "remote_port", VInt (pf_remote_port f))].

Definition profile_fields (p : Profile) : Obj :=
  [(str "auth_key_id", VStr (p_key_id p));
   (str "forwards", VArr ((fun f => VObj (forward_fields f)) <$> p_forwards p));
   (str "http_port", opt_value (p_http p)); (str "id", VStr (p_id p)); (str "name", VStr (p_name p));
   (str "relay_urls", VArr (VStr <$> p_relay_urls p)); (str "server_node_id", VStr (p_server p));
   (str "socks_port", opt_value (p_socks p))].

(** The derived deserializers: an object, or an array of the members in their
    order of declaration; unknown members are ignored. *)
Definition members (names : list bytes) (v : Value) : option Obj :=
  match v with
  | VObj o => Some o
  | VArr l => if bool_decide (length l <= length names)%nat then Some (zip names l) else None
  | _ => None
  end.

Definition as_string (v : Value) : option bytes := match v with VStr s => Some s | _ => None end.

Definition as_u16 (v : Value) : option Z :=
  match v with VInt n => if (0 <=? n) && (n <=? U16_MAX) then Some n else None | _ => None end.

Definition as_opt_u16 (v : Value) : option (option Z) :=
  match v with VNull => Some None | v => Some <$> as_u16 v end.

Definition as_list {A} (f : Value -> option A) (v : Value) : option (list A) :=
  match v with VArr l => mapM f l | _ => None end.

Definition required {A} (f : Value -> option A) (key : bytes) (o : Obj) : option A :=
  obj_get key o ≫= f.

Definition defaulted {A} (d : A) (f : Value -> option A) (key : bytes) (o : Obj) : option A :=
  match obj_get key o with Some v => f v | None => Some d end.

Definition forward_of_value (v : Value) : option PortForward :=
  o ← members [str "id"; str "label"; str "local_port"; str "remote_host"; str "remote_port"] v;
  i ← required as_string (str "id") o;
  label ← defaulted [] as_string (str "label") o;
  lport ← required as_u16 (str "local_port") o;
  host ← required as_string (str "remote_host") o;
  rport ← required as_u16 (str "remote_port") o;
  Some (mkPortForward i label lport host rport false).

Definition profile_of_value (v : Value) : option Profile :=
  o ← members [str "id"; str "name"; str "server_node_id"; str "auth_key_id"; str "socks_port";
               str "http_port"; str "relay_urls"; str "forwards"] v;
  i ← required as_string (str "id") o;
  name ← required as_string (str "name") o;
  sv ← required as_string (str "server_node_id") o;
  key ← defaulted [] as_string (str "auth_key_id") o;
  socks ← defaulted None as_opt_u16 (str "socks_port") o;
  http ← defaulted None as_opt_u16 (str "http_port") o;
  relays ← defaulted [] (as_list as_string) (str "relay_urls") o;
  fwds ← defaulted [] (as_list forward_of_value) (str "forwards") o;
  Some (mkProfile i name sv key socks http relays None fwds).

(** [get_mut]: apply [f] to a member, if it is there. *)
Definition obj_update (key : bytes) (f : Value -> Value) (o : Obj) : Obj :=
  (fun e => if bool_decide (e.1 = key) then (e.1, f e.2) else e) <$> o.

(** Apply [f] to the elements of an array that are objects, with their index. *)
Definition each_object (f : nat -> Obj -> Obj) (v : Value) : Value :=
  match v with
  | VArr l => VArr (imap (fun i x => match x with VObj o => VObj (f i o) | x => x end) l)
  | v => v
  end.

Definition forwards_of (f : nat -> Obj -> Obj) (profile : Obj) : Obj :=
  obj_update (str "forwards") (each_object f) profile.

Definition export_profile (profile : Obj) : Obj :=
  forwards_of (fun _ o => obj_remove (str "id") o)
    (obj_remove (str "auth_key_id") (obj_remove (str "id") profile)).

(** The random ids of an import: of its profiles, and of their forwards. *)
Record FreshIds : Type := mkFresh {
  fresh_profile : nat -> bytes;
  fresh_forward : nat -> nat -> bytes;
}.

Definition import_profile (ids : FreshIds) (i : nat) (profile : Obj) : Obj :=
  forwards_of (fun j o => obj_or_insert (str "id") (VStr (fresh_forward ids i j)) o)
    (obj_remove (str "auth_key_id") (obj_or_insert (str "id") (VStr (fresh_profile ids i)) profile)).

Section portable.
Context `{Json Value}.

Definition export_profiles (f : Faults) (path : bytes) (ps : list Profile) : SM () :=
  write_json f path
    (each_object (fun _ => export_profile) (VArr ((fun p => VObj (profile_fields p)) <$> ps))).

Definition import_profiles (f : Faults) (ids : FreshIds) (path : bytes) : SM (list Profile) :=
  v ← read_json f path;
  v ← lift (ok_or v (ReadError path (mkIoError NotFound None (str "does not exist"))));
  ps ← lift (ok_or (as_list profile_of_value (each_object (import_profile ids) v))
               (ParseError path (str "invalid profile")));
  mret (drop_invalid ps).
End portable.

(** ** Theorems *)

(** The values of [serde_json]: members in strictly increasing key order, integers
    of 64 bits. *)
Definition keys_sorted (ks : list bytes) : Prop :=
  StronglySorted (fun a b => bytes_le a b = true /\ a <> b) ks.

Fixpoint canonical (v : Value) : Prop :=
  match v with
  | VInt n => - 2 ^ 63 <= n < 2 ^ 64
  | VArr l => foldr (fun x acc => canonical x /\ acc) True l
  | VObj o => keys_sorted o.*1 /\ foldr (fun e acc => canonical e.2 /\ acc) True o
  | _ => True
  end.

(** What an export keeps of a forward and of a profile. *)
Definition exported_forward (f : PortForward) : Obj :=
  [(str "label", VStr (pf_label f)); (str "local_port", VInt (pf_local_port f));
   (str "remote_host", VStr (pf_remote_host f)); (str "remote_port", VInt (pf_remote_port f))].

Definition exported (p : Profile) : Obj :=
  [(str "forwards", VArr ((fun f => VObj (exported_forward f)) <$> p_forwards p));
   (str "http_port", opt_value (p_http p)); (str "name", VStr (p_name p));
   (str "relay_urls", VArr (VStr <$> p_relay_urls p)); (str "server_node_id", VStr (p_server p));
   (str "socks_port", opt_value (p_socks p))].

Lemma each_object_fmap {A} (g : nat -> Obj -> Obj) (h : A -> Obj) l :
  each_object g (VArr ((fun a => VObj (h a)) <$> l)) = VArr (imap (fun i a => VObj (g i (h a))) l).
Proof. unfold each_object. by rewrite imap_fmap. Qed.

Lemma imap_const {A B} (h : A -> B) l : imap (fun _ a => h a) l = h <$> l.
Proof. induction l as [|a l IH]; [done|]. cbn. f_equal. apply IH. Qed.

Lemma export_profile_fields p : export_profile (profile_fields p) = exported p.
Proof.
  transitivity [(str "forwards", each_object (fun _ o => obj_remove (str "id") o)
                   (VArr ((fun f => VObj (forward_fields f)) <$> p_forwards p)));
   (str "http_port", opt_value (p_http p)); (str "name", VStr (p_name p));
   (str "relay_urls", VArr (VStr <$> p_relay_urls p)); (str "server_node_id", VStr (p_server p));
   (str "socks_port", opt_value (p_socks p))]; [reflexivity|].
  rewrite each_object_fmap, (imap_const (fun f => VObj (obj_remove (str "id") (forward_fields f)))).
  reflexivity.
Qed.

Lemma export_value ps :
  each_object (fun _ => export_profile) (VArr ((fun p => VObj (profile_fields p)) <$> ps))
  = VArr ((fun p => VObj (exported p)) <$> ps).
Proof.
  rewrite each_object_fmap, (imap_const (fun p => VObj (export_profile (profile_fields p)))).
  f_equal. apply list_fmap_ext. intros _ p _. by rewrite export_profile_fields.
Qed.

Lemma canonical_arr {A} (h : A -> Value) l :
  Forall (fun a => canonical (h a)) l -> canonical (VArr (h <$> l)).
Proof. induction 1; cbn; auto. Qed.

Ltac keys_sorted :=
  repeat (constructor; [|repeat (constructor; [split; [reflexivity|discriminate]|]); constructor]);
  constructor.

Lemma canonical_port o : port_ok o -> canonical (opt_value o).
Proof. destruct o; cbn; [unfold wf_u16|done]. lia. Qed.

Lemma canonical_exported p : wf_profile_doc (profile_doc p) -> canonical (VObj (exported p)).
Proof.
  intros (Hs & Hh & Hf). cbn in Hs, Hh, Hf. apply Forall_fmap in Hf.
  change (keys_sorted (exported p).*1 /\ foldr (fun e acc => canonical e.2 /\ acc) True (exported p)).
  split; [unfold keys_sorted; cbn; keys_sorted|].
  cbn -[canonical]. split_and!; try done; auto using canonical_port.
  - apply canonical_arr. eapply Forall_impl; [exact Hf|]. intros f [Hl Hr]. cbn in Hl, Hr.
    unfold wf_u16 in *. cbn. split; [unfold keys_sorted; keys_sorted|]. split_and!; lia || done.
  - apply canonical_arr, Forall_forall. done.
Qed.

(** A profile after an export and an import. *)
Definition imported_forward (ids : FreshIds) (i j : nat) (f : PortForward) : PortForward :=
  mkPortForward (fresh_forward ids i j) (pf_label f) (pf_local_port f) (pf_remote_host f)
    (pf_remote_port f) false.

Definition imported (ids : FreshIds) (i : nat) (p : Profile) : Profile :=
  mkProfile (fresh_profile ids i) (p_name p) (p_server p) [] (p_socks p) (p_http p) (p_relay_urls p)
    None (imap (imported_forward ids i) (p_forwards p)).

Lemma mapM_imap {A B C} (f : B -> option C) (g : nat -> A -> B) (h : nat -> A -> C) l :
  (forall i a, a ∈ l -> f (g i a) = Some (h i a)) -> mapM f (imap g l) = Some (imap h l).
Proof.
  revert g h. induction l as [|a l IH]; intros g h Hf; [done|]. cbn.
  rewrite Hf by constructor. cbn. rewrite (IH (g ∘ S) (h ∘ S)); [done|].
  intros i b Hb. apply Hf. by constructor.
Qed.

Lemma as_u16_int n : wf_u16 n -> as_u16 (VInt n) = Some n.
Proof.
  unfold wf_u16, as_u16, U16_MAX. intros Hn.
  by rewrite (proj2 (Z.leb_le 0 n)), (proj2 (Z.leb_le n 65535)) by lia.
Qed.

Lemma as_opt_u16_value o : port_ok o -> as_opt_u16 (opt_value o) = Some o.
Proof. destruct o as [n|]; [|done]. intros Hn. cbn -[as_u16]. by rewrite as_u16_int. Qed.

Lemma forward_of_imported ids i j f :
  wf_u16 (pf_local_port f) /\ wf_u16 (pf_remote_port f) ->
  forward_of_value (VObj (obj_or_insert (str "id") (VStr (fresh_forward ids i j)) (exported_forward f)))
  = Some (imported_forward ids i j f).
Proof.
  intros [Hl Hr].
  change (obj_or_insert (str "id") (VStr (fresh_forward ids i j)) (exported_forward f))
    with ((str "id", VStr (fresh_forward ids i j)) :: exported_forward f).
  transitivity (lport ← as_u16 (VInt (pf_local_port f)); rport ← as_u16 (VInt (pf_remote_port f));
    Some (mkPortForward (fresh_forward ids i j) (pf_label f) lport (pf_remote_host f) rport false));
    [reflexivity|].
  by rewrite !as_u16_int by done.
Qed.

Lemma profile_of_imported ids i p :
  wf_profile_doc (profile_doc p) ->
  profile_of_value (VObj (import_profile ids i (exported p))) = Some (imported ids i p).
Proof.
  intros (Hs & Hh & Hf). cbn in Hs, Hh, Hf. apply Forall_fmap in Hf. rewrite Forall_forall in Hf.
  transitivity (socks ← as_opt_u16 (opt_value (p_socks p)); http ← as_opt_u16 (opt_value (p_http p));
    relays ← as_list as_string (VArr (VStr <$> p_relay_urls p));
    fwds ← as_list forward_of_value (each_object
      (fun j o => obj_or_insert (str "id") (VStr (fresh_forward ids i j)) o)
      (VArr ((fun f => VObj (exported_forward f)) <$> p_forwards p)));
    Some (mkProfile (fresh_profile ids i) (p_name p) (p_server p) [] socks http relays None fwds));
    [reflexivity|].
  rewrite !as_opt_u16_value by done. rewrite each_object_fmap. unfold as_list.
  rewrite <- (imap_const VStr).
  rewrite (mapM_imap as_string (fun _ => VStr) (fun _ s => s)) by done. cbn.
  rewrite (mapM_imap forward_of_value _ (imported_forward ids i))
    by (intros j f Hin; by apply forward_of_imported, Hf).
  cbn. unfold imported. by rewrite imap_const, list_fmap_id.
Qed.

Lemma NoDup_imap_inj {A} (g : nat -> bytes) (l : list A) :
  (forall i j, g i = g j -> i = j) -> NoDup (imap (fun i _ => g i) l).
Proof.
  intros Hg. apply NoDup_alt. intros i j x. rewrite !list_lookup_imap.
  destruct (l !! i), (l !! j); cbn; try done. intros [= <-] [= Hij]. symmetry. by apply Hg.
Qed.

Lemma wf_profiles_imported ids ps :
  (forall i j, fresh_profile ids i = fresh_profile ids j -> i = j) ->
  wf_profiles ps -> wf_profiles (imap (imported ids) ps).
Proof.
  intros Hinj (Hv & _ & Hn & Hs). unfold wf_profiles_from. rewrite !fmap_imap. split_and!.
  - apply Forall_lookup. intros i q. rewrite list_lookup_imap.
    destruct (ps !! i) as [p|] eqn:E; [|done]. intros [= <-]. rewrite Forall_lookup in Hv. exact (Hv i p E).
  - apply fresh_empty. by apply (NoDup_imap_inj (fresh_profile ids) ps).
  - rewrite (imap_ext _ (fun _ => p_name)), imap_const by done. done.
  - rewrite (imap_ext _ (fun _ => p_server)), imap_const by done. done.
Qed.

Section portable_laws.
Context `{Json Value, !JsonLaws Value canonical}.

(** Profiles survive an export and an import into another installation: every
    exported profile comes back with its name, server, ports, relays and forwards,
    in order, under the fresh ids of the importing side, with no key picked, no
    relay token and its forwards off. *)
Theorem import_export f f' ids path ps m m1 m' :
  wf_profiles ps -> Forall (fun p => wf_profile_doc (profile_doc p)) ps ->
  (forall i j, fresh_profile ids i = fresh_profile ids j -> i = j) ->
  export_profiles f path ps m = (Ok tt, m1) -> files m' = files m1 -> read_fault f' = None ->
  import_profiles f' ids path m' = (Ok (imap (imported ids) ps), m').
Proof.
  intros Hps Hports Hinj Hexp Hfiles Hrf. unfold export_profiles in Hexp. rewrite export_value in Hexp.
  edestruct (write_read canonical) as [Hread _]; [|exact Hexp|exact Hfiles|exact Hrf|].
  { apply canonical_arr. eapply Forall_impl; [exact Hports|]. apply canonical_exported. }
  unfold import_profiles. rewrite (bind_Ok _ _ _ _ _ Hread).
  rewrite (bind_Ok _ _ m' (VArr ((fun p => VObj (exported p)) <$> ps)) m') by done.
  rewrite each_object_fmap. unfold as_list.
  rewrite (mapM_imap profile_of_value _ (imported ids)).
  2: { intros i p Hp. rewrite Forall_forall in Hports. by apply profile_of_imported, Hports. }
  rewrite (bind_Ok _ _ m' (imap (imported ids) ps) m') by done.
  unfold mret, M_ret. repeat f_equal. apply drop_invalid_id. by apply wf_profiles_imported.
Qed.

(** The part of a profile an export may show. *)
Definition portable (p : Profile) :=
  (p_name p, p_server p, p_socks p, p_http p, p_relay_urls p,
   (fun f => (pf_label f, pf_local_port f, pf_remote_host f, pf_remote_port f)) <$> p_forwards p).

Lemma exported_portable p q : portable p = portable q -> exported p = exported q.
Proof.
  unfold portable, exported. intros Heq. injection Heq as Hn Hs Hk Hh Hr Hf.
  assert (Hfw : (fun f => VObj (exported_forward f)) <$> p_forwards p
                = (fun f => VObj (exported_forward f)) <$> p_forwards q); [|by rewrite Hn, Hs, Hk, Hh, Hr, Hfw].
  clear -Hf. revert Hf. generalize (p_forwards q).
  induction (p_forwards p) as [|f l IH]; intros [|g l'] Hf; try done. cbn in *.
  injection Hf as Hl Hp Hh Hr Hf. unfold exported_forward at 1 3. rewrite Hl, Hp, Hh, Hr.
  f_equal. by apply IH.
Qed.

(** An export shows nothing that belongs to this installation: the file depends
    only on names, servers, ports, relays and forwards. Relay tokens, the auth key
    picked, profile and forward ids and what is switched on have no influence on a
    single byte of it. *)
Theorem export_noninterference f path ps qs m :
  portable <$> ps = portable <$> qs -> export_profiles f path ps m = export_profiles f path qs m.
Proof.
  intros Heq. unfold export_profiles. rewrite !export_value. do 2 f_equal.
  revert qs Heq. induction ps as [|p ps IH]; intros [|q qs] Heq; try done.
  rewrite !fmap_cons in Heq. assert (Hp : portable p = portable q) by congruence.
  assert (Hl : portable <$> ps = portable <$> qs) by congruence.
  rewrite !fmap_cons, (exported_portable p q Hp). f_equal. by apply IH.
Qed.
End portable_laws.

(** ** Witnesses *)

(** Values as generic trees, to exhibit a codec. *)
Fixpoint value_tree (v : Value) : gen_tree (bool + Z + bytes) :=
  match v with
  | VNull => GenNode 0 []
  | VBool b => GenNode 1 [GenLeaf (inl (inl b))]
  | VInt n => GenNode 2 [GenLeaf (inl (inr n))]
  | VFloat s => GenNode 3 [GenLeaf (inr s)]
  | VStr s => GenNode 4 [GenLeaf (inr s)]
  | VArr l => GenNode 5 (value_tree <$> l)
  | VObj o => GenNode 6 ((fun e => GenNode 7 [GenLeaf (inr e.1); value_tree e.2]) <$> o)
  end.

Fixpoint tree_value (t : gen_tree (bool + Z + bytes)) : Value :=
  match t with
  | GenNode 1 [GenLeaf (inl (inl b))] => VBool b
  | GenNode 2 [GenLeaf (inl (inr n))] => VInt n
  | GenNode 3 [GenLeaf (inr s)] => VFloat s
  | GenNode 4 [GenLeaf (inr s)] => VStr s
  | GenNode 5 l => VArr (tree_value <$> l)
  | GenNode 6 l => VObj ((fun t => match t with
                                   | GenNode 7 [GenLeaf (inr k); t] => (k, tree_value t)
                                   | _ => ([], VNull)
                                   end) <$> l)
  | _ => VNull
  end.

Lemma value_tree_ok : forall v, tree_value (value_tree v) = v.
Proof.
  fix IH 1. intros [|b|n|s|s|l|o]; cbn; try reflexivity; f_equal.
  - induction l as [|v l IHl]; cbn; [reflexivity|]. rewrite IH. f_equal. exact IHl.
  - induction o as [|[k v] o IHo]; cbn; [reflexivity|]. rewrite IH. f_equal. exact IHo.
Qed.

Lemma value_tree_inj x y : value_tree x = value_tree y -> x = y.
Proof. intros E. by rewrite <- (value_tree_ok x), <- (value_tree_ok y), E. Qed.

#[export] Instance Value_eq_dec : EqDecision Value.
Proof.
  refine (fun x y => cast_if (decide (value_tree x = value_tree y))); [|congruence].
  by apply value_tree_inj.
Defined.

#[export] Instance Value_countable : Countable Value := inj_countable' value_tree tree_value value_tree_ok.

Section witnesses.
#[local] Instance value_json : Json Value := reference_json Value.
#[local] Instance value_laws : JsonLaws Value canonical := reference_json_laws Value canonical.

Definition ref_ids : FreshIds := mkFresh (fun i => repeat x61 i) (fun i j => repeat x62 j).

Definition export_path : bytes := str "/home/u/profiles.json".

Definition ref_exported : Machine := (export_profiles ref_faults export_path [ref_profile] ref_machine).2.

Lemma import_export_witness :
  import_profiles ref_faults ref_ids export_path ref_exported
  = (Ok [mkProfile [] (str "office") (str "srv") [] (Some 1080) None [] None
           [mkPortForward [] [] 8080 (str "db") 5432 false]], ref_exported).
Proof.
  apply (import_export ref_faults ref_faults ref_ids export_path [ref_profile] ref_machine ref_exported).
  - apply ref_storable.
  - apply ref_storable.
  - intros i j E. apply (f_equal length) in E. cbn in E. by rewrite !repeat_length in E.
  - unfold ref_exported. rewrite surjective_pairing at 1. by f_equal.
  - done.
  - done.
Defined.

Lemma export_noninterference_witness :
  export_profiles ref_faults export_path [ref_profile] ref_machine
  = export_profiles ref_faults export_path [with_token None (stopped ref_profile)] ref_machine.
Proof. apply (export_noninterference ref_faults export_path [ref_profile]). reflexivity. Defined.
End witnesses.
