(* ===== verification/Supervisor.v ===== *)
(** * The desktop application's sessions ([tunnel.rs], [server_session.rs] of the desktop crate)

    A supervisor routes the user interface's commands to one session per profile and
    to the server session, each on a thread of its own; sessions publish snapshots.
    The threads interleave freely: a [World] is the state of all of them, an [Event]
    one step of one of them, [step] is [None] where the step cannot happen. The
    supervisor's loop is cut at every point where another thread can move between
    two of its accesses: receiving a command, pruning ended sessions, handling the
    command, and the top of the loop. What the network, the operating system and the
    core client do is part of the event. *)

From S2P Require Import Prelude RustStr Net Stream Signaling Socks5 RoutedSet DnsForward Dial Blocklist.
From S2P Require Import Registry Server Client Http LocalConn Accept Forward ForwardProofs PortForwards.
From S2P Require Import Config Ipc Session DesktopStore.

(** ** Snapshots *)

Inductive Phase : Type := PIdle | PConnecting | PConnected | PReconnecting | PFailed.

Record Snapshot : Type := mkSnapshot {
  sn_phase : Phase;
  sn_since : option Z;
  sn_socks : option SocketAddr;
  sn_http : option SocketAddr;
  sn_routes : TunnelRoutes;
  sn_error : option bytes;
  sn_forwards : list ForwardStatus;
}.

Definition Snapshot_default : Snapshot := mkSnapshot PIdle None None None TunnelRoutes_default None [].

Inductive ServerPhase : Type := SvStopped | SvStarting | SvRunning | SvStopping | SvFailed.

Record ServerSnapshot : Type := mkServerSnapshot {
  ss_phase : ServerPhase;
  ss_since : option Z;
  ss_clients : list bytes;
  ss_error : option bytes;
}.

Definition ServerSnapshot_default : ServerSnapshot := mkServerSnapshot SvStopped None [] None.

(** ** Commands *)

Inductive Command : Type :=
| Connect (p : Profile) (auth_key : bytes)
| Disconnect (id : bytes)
| SetForwards (id : bytes) (fs : list PortForward)
| RemoveProfile (id : bytes)
| QueryConnPath (id : bytes) (reply : Z)
| StartServer (c : ServerConfig)
| RestartServer (c : ServerConfig)
| StopServer
| RemoveServer
| Shutdown.

Inductive SessionCmd : Type :=
| CDisconnect
| CSetForwards (fs : list PortForward)
| CQueryConnPath (reply : Z)
| CShutdown.

Inductive ServerCmd : Type := SStop | SRemove | SShutdown.

Definition SESSION_CHANNEL : nat := 8.

(** ** Sessions *)

(** A client session: spawned, waiting for its endpoint, running, closing (with the
    final snapshot write still to come, or not), lingering after it has let go of its
    command channel, ended. *)
Inductive ClientStage : Type :=
| CNew
| CCreating
| CRunning
| CClosing (final : bool)
| CLingering
| CEnded.

Record ClientSession : Type := mkClientSession {
  cl_profile : Profile;
  cl_key : bytes;
  cl_stage : ClientStage;
  cl_inbox : list SessionCmd;
  cl_forwards : list PortForward;
  cl_mgr : option ForwardManager;
  cl_ever : bool;
}.

(** The server session: spawned, binding, serving, closing with the command that
    stopped it and the result it ends with, ended. *)
Inductive ServerStage : Type :=
| SNew
| SBinding
| SServing
| SClosing (cmd : option ServerCmd) (res : result bytes ())
| SEnded.

Record ServerSession : Type := mkServerSession {
  sr_config : ServerConfig;
  sr_stage : ServerStage;
  sr_inbox : list ServerCmd;
}.

(** A session drops its command channel when it lingers or has ended. *)
Definition cl_closed (s : ClientSession) : bool :=
  match cl_stage s with CLingering | CEnded => true | _ => false end.
Definition cl_done (s : ClientSession) : bool := match cl_stage s with CEnded => true | _ => false end.
Definition sr_closed (s : ServerSession) : bool := match sr_stage s with SEnded => true | _ => false end.

(** ** The world *)

(** Where the supervisor is: at the top of its loop, waiting, holding a command it
    has received (and then pruned for), or out of the loop. *)
Inductive SupPc : Type :=
| AtTop
| Waiting
| Got (cmd : option Command)
| Pruned (cmd : option Command)
| Exited.

Record World : Type := mkWorld {
  w_pc : SupPc;
  w_server : option nat;                    (* the handle of the server session *)
  w_pending : option ServerConfig;
  w_stopping : bool;
  w_tracked : gmap bytes nat;               (* profile id to session *)
  w_servers : gmap nat ServerSession;
  w_clients : gmap nat ClientSession;
  w_next : nat;
  w_server_snap : ServerSnapshot;
  w_snaps : gmap bytes Snapshot;
  w_removals : list (bytes * nat);          (* slots to drop when a session is done *)
  w_replies : list (Z * bool);              (* answered queries: with a live snapshot? *)
}.

Definition world_start : World :=
  mkWorld AtTop None None false ∅ ∅ ∅ 0 ServerSnapshot_default ∅ [] [].

Definition with_pc (w : World) (pc : SupPc) : World :=
  mkWorld pc (w_server w) (w_pending w) (w_stopping w) (w_tracked w) (w_servers w) (w_clients w)
    (w_next w) (w_server_snap w) (w_snaps w) (w_removals w) (w_replies w).

Definition with_server_state (w : World) (srv : option nat) (pending : option ServerConfig)
  (stopping : bool) : World :=
  mkWorld (w_pc w) srv pending stopping (w_tracked w) (w_servers w) (w_clients w) (w_next w)
    (w_server_snap w) (w_snaps w) (w_removals w) (w_replies w).

Definition set_server (w : World) (n : nat) (s : ServerSession) : World :=
  mkWorld (w_pc w) (w_server w) (w_pending w) (w_stopping w) (w_tracked w) (<[n := s]> (w_servers w))
    (w_clients w) (w_next w) (w_server_snap w) (w_snaps w) (w_removals w) (w_replies w).

Definition set_server_snap (w : World) (s : ServerSnapshot) : World :=
  mkWorld (w_pc w) (w_server w) (w_pending w) (w_stopping w) (w_tracked w) (w_servers w) (w_clients w)
    (w_next w) s (w_snaps w) (w_removals w) (w_replies w).

Definition set_client (w : World) (n : nat) (s : ClientSession) : World :=
  mkWorld (w_pc w) (w_server w) (w_pending w) (w_stopping w) (w_tracked w) (w_servers w)
    (<[n := s]> (w_clients w)) (w_next w) (w_server_snap w) (w_snaps w) (w_removals w) (w_replies w).

Definition with_tracked (w : World) (t : gmap bytes nat) : World :=
  mkWorld (w_pc w) (w_server w) (w_pending w) (w_stopping w) t (w_servers w) (w_clients w) (w_next w)
    (w_server_snap w) (w_snaps w) (w_removals w) (w_replies w).

Definition with_snaps (w : World) (sn : gmap bytes Snapshot) : World :=
  mkWorld (w_pc w) (w_server w) (w_pending w) (w_stopping w) (w_tracked w) (w_servers w) (w_clients w)
    (w_next w) (w_server_snap w) sn (w_removals w) (w_replies w).

Definition with_removals (w : World) (l : list (bytes * nat)) : World :=
  mkWorld (w_pc w) (w_server w) (w_pending w) (w_stopping w) (w_tracked w) (w_servers w) (w_clients w)
    (w_next w) (w_server_snap w) (w_snaps w) l (w_replies w).

Definition with_next (w : World) : World :=
  mkWorld (w_pc w) (w_server w) (w_pending w) (w_stopping w) (w_tracked w) (w_servers w) (w_clients w)
    (S (w_next w)) (w_server_snap w) (w_snaps w) (w_removals w) (w_replies w).

Definition reply (w : World) (q : Z) (live : bool) : World :=
  mkWorld (w_pc w) (w_server w) (w_pending w) (w_stopping w) (w_tracked w) (w_servers w) (w_clients w)
    (w_next w) (w_server_snap w) (w_snaps w) (w_removals w) (w_replies w ++ [(q, live)]).

(** [SnapshotSlot::update]. *)
Definition update_slot (f : Snapshot -> Snapshot) (id : bytes) (w : World) : World :=
  with_snaps w (<[id := f (default Snapshot_default (w_snaps w !! id))]> (w_snaps w)).

Definition remove_slot (id : bytes) (w : World) : World := with_snaps w (delete id (w_snaps w)).

Definition reset_server_snapshot (w : World) : World := set_server_snap w ServerSnapshot_default.

(** [ServerSlot::fail]. *)
Definition fail_server (why : bytes) (w : World) : World :=
  set_server_snap w (mkServerSnapshot SvFailed None [] (Some why)).

(** The snapshot of a failed connect or session. *)
Definition failed_phase (why : bytes) (s : Snapshot) : Snapshot :=
  mkSnapshot PFailed (sn_since s) (sn_socks s) (sn_http s) (sn_routes s) (Some why) (sn_forwards s).

Definition idle_phase (s : Snapshot) : Snapshot :=
  mkSnapshot PIdle (sn_since s) (sn_socks s) (sn_http s) (sn_routes s) (sn_error s) (sn_forwards s).

(** ** Channels and threads *)

(** A send to a session: lost when it has closed its channel, waiting ([None]) while
    the channel is full. *)
Definition send_server (n : nat) (cmd : ServerCmd) (w : World) : option World :=
  s ← w_servers w !! n;
  if sr_closed s then Some w
  else if bool_decide (length (sr_inbox s) < SESSION_CHANNEL)%nat
  then Some (set_server w n (mkServerSession (sr_config s) (sr_stage s) (sr_inbox s ++ [cmd])))
  else None.

Definition with_cl_inbox (s : ClientSession) (l : list SessionCmd) : ClientSession :=
  mkClientSession (cl_profile s) (cl_key s) (cl_stage s) l (cl_forwards s) (cl_mgr s) (cl_ever s).

Definition send_client (n : nat) (cmd : SessionCmd) (w : World) : option World :=
  s ← w_clients w !! n;
  if cl_closed s then Some w
  else if bool_decide (length (cl_inbox s) < SESSION_CHANNEL)%nat
  then Some (set_client w n (with_cl_inbox s (cl_inbox s ++ [cmd])))
  else None.

(** [spawn_server], [spawn_session]; [spawned] is what the operating system says. *)
Definition spawn_server (spawned : result bytes ()) (c : ServerConfig) (w : World) : World :=
  match spawned with
  | Ok _ =>
      with_next (with_server_state (set_server w (w_next w) (mkServerSession c SNew []))
                   (Some (w_next w)) (w_pending w) (w_stopping w))
  | Err e => with_server_state (fail_server (str "Failed to start: " ++ e) w) None (w_pending w)
               (w_stopping w)
  end.

Definition spawn_session (spawned : result bytes ()) (p : Profile) (key : bytes) (w : World) : World :=
  match spawned with
  | Ok _ =>
      with_next (with_tracked
        (set_client w (w_next w) (mkClientSession p key CNew [] (p_forwards p) None false))
        (<[p_id p := w_next w]> (w_tracked w)))
  | Err e => update_slot (failed_phase (str "Failed to start: " ++ e)) (p_id p) w
  end.

(** ** The supervisor *)

Definition client_open (w : World) (n : nat) : bool :=
  match w_clients w !! n with Some s => negb (cl_closed s) | None => false end.

Definition server_open (w : World) (n : nat) : bool :=
  match w_servers w !! n with Some s => negb (sr_closed s) | None => false end.

(** The handle of the server session, dropped once the session has ended. *)
Definition live_server (w : World) : option nat :=
  match w_server w with Some n => if server_open w n then Some n else None | None => None end.

(** Before waiting: notice the end of the server session, and start a pending one. *)
Definition loop_top (spawned : result bytes ()) (w : World) : World :=
  let srv := live_server w in
  let stopping := match srv with None => false | Some _ => w_stopping w end in
  let w := with_pc (with_server_state w srv (w_pending w) stopping) Waiting in
  match srv, w_pending w with
  | None, Some c => spawn_server spawned c (with_server_state w None None stopping)
  | _, _ => w
  end.

(** After a receive. *)
Definition prune (w : World) : World :=
  let w := with_tracked w (filter (fun '(_, n) => client_open w n = true) (w_tracked w)) in
  match w_server w, live_server w with
  | Some _, None => with_server_state w None (w_pending w) false
  | _, _ => w
  end.

(** [sessions.values().find(..)]: a map's iteration finds some tracked session on
    that server, if there is one. *)
Definition same_server (w : World) (server : bytes) (n : nat) : Prop :=
  exists s, w_clients w !! n = Some s /\ p_server (cl_profile s) = server.

#[export] Instance same_server_dec w server n : Decision (same_server w server n).
Proof.
  unfold same_server. destruct (w_clients w !! n) as [s|].
  - destruct (decide (p_server (cl_profile s) = server)); [left|right]; naive_solver.
  - right. naive_solver.
Defined.

Definition other_on (w : World) (server : bytes) : option nat :=
  head ((filter (fun e => same_server w server e.2) (map_to_list (w_tracked w))).*2).

Definition duplicate_reason (w : World) (n : nat) : bytes :=
  str "Profile " ++ x22 :: from_option (fun s => p_name (cl_profile s)) [] (w_clients w !! n)
    ++ x22 :: str " is already connected to this server".

Definition on_connect (spawned : result bytes ()) (p : Profile) (key : bytes) (w : World) : World :=
  match w_tracked w !! p_id p with
  | Some _ => w
  | None =>
      match other_on w (p_server p) with
      | Some n => update_slot (fun _ => failed_phase (duplicate_reason w n) Snapshot_default) (p_id p) w
      | None => spawn_session spawned p key w
      end
  end.

(** To the session of a profile, if it has one. *)
Definition to_session (id : bytes) (cmd : SessionCmd) (w : World) : option World :=
  match w_tracked w !! id with Some n => send_client n cmd w | None => Some w end.

Definition on_start_server (spawned : result bytes ()) (c : ServerConfig) (w : World) : World :=
  match w_server w with
  | Some n => if w_stopping w then with_server_state w (Some n) (Some c) true else w
  | None => spawn_server spawned c w
  end.

Definition on_restart_server (c : ServerConfig) (w : World) : option World :=
  match w_server w with
  | Some n =>
      if w_stopping w
      then Some (match w_pending w with
                 | Some _ => with_server_state w (Some n) (Some c) true
                 | None => w
                 end)
      else w' ← send_server n SStop w; Some (with_server_state w' (Some n) (Some c) true)
  | None => Some w
  end.

Definition on_stop_server (w : World) : option World :=
  let w := with_server_state w (w_server w) None (w_stopping w) in
  match w_server w with
  | Some n => w' ← send_server n SStop w; Some (with_server_state w' (Some n) None true)
  | None => Some w
  end.

Definition on_remove_server (w : World) : option World :=
  let w := with_server_state w (w_server w) None (bool_decide (is_Some (w_server w))) in
  match w_server w with
  | Some n => if server_open w n then send_server n SRemove w else Some (reset_server_snapshot w)
  | None => Some (reset_server_snapshot w)
  end.

Definition on_remove_profile (id : bytes) (w : World) : option World :=
  match w_tracked w !! id with
  | Some n =>
      w' ← send_client n CDisconnect (with_tracked w (delete id (w_tracked w)));
      Some (with_removals w' (w_removals w' ++ [(id, n)]))
  | None => Some (remove_slot id w)
  end.

(** The shutdown messages; a full channel holds the loop up. *)
Fixpoint shutdown_clients (ns : list nat) (w : World) : option World :=
  match ns with
  | [] => Some w
  | n :: ns' => w' ← send_client n CShutdown w; shutdown_clients ns' w'
  end.

Definition on_shutdown (w : World) : option World :=
  w ← shutdown_clients (map_to_list (w_tracked w)).*2 w;
  w ← match w_server w with Some n => send_server n SShutdown w | None => Some w end;
  Some (with_pc w Exited).

Definition handle_command (spawned : result bytes ()) (cmd : option Command) (w : World)
  : option World :=
  match cmd with
  | Some (Connect p key) => Some (with_pc (on_connect spawned p key w) AtTop)
  | Some (Disconnect id) => w ← to_session id CDisconnect w; Some (with_pc w AtTop)
  | Some (SetForwards id fs) => w ← to_session id (CSetForwards fs) w; Some (with_pc w AtTop)
  | Some (QueryConnPath id q) => w ← to_session id (CQueryConnPath q) w; Some (with_pc w AtTop)
  | Some (RemoveProfile id) => w ← on_remove_profile id w; Some (with_pc w AtTop)
  | Some (StartServer c) => Some (with_pc (on_start_server spawned c w) AtTop)
  | Some (RestartServer c) => w ← on_restart_server c w; Some (with_pc w AtTop)
  | Some StopServer => w ← on_stop_server w; Some (with_pc w AtTop)
  | Some RemoveServer => w ← on_remove_server w; Some (with_pc w AtTop)
  | Some Shutdown | None => on_shutdown w
  end.

(** ** A client session *)

Definition with_cl_stage (s : ClientSession) (st : ClientStage) : ClientSession :=
  mkClientSession (cl_profile s) (cl_key s) st (cl_inbox s) (cl_forwards s) (cl_mgr s) (cl_ever s).

Definition with_cl_forwards (s : ClientSession) (fs : list PortForward) (m : option ForwardManager)
  : ClientSession :=
  mkClientSession (cl_profile s) (cl_key s) (cl_stage s) (cl_inbox s) fs m (cl_ever s).

Definition cl_id (s : ClientSession) : bytes := p_id (cl_profile s).

(** End the session: its forwards die with it. *)
Definition close_client (final : bool) (n : nat) (s : ClientSession) (w : World) : World :=
  set_client w n (with_cl_stage (with_cl_forwards s (cl_forwards s) None) (CClosing final)).

(** The thread cannot build its runtime. *)
Definition client_no_runtime (e : bytes) (n : nat) (s : ClientSession) (w : World) : option World :=
  match cl_stage s with
  | CNew => Some (set_client (update_slot (failed_phase (str "Failed to start: " ++ e)) (cl_id s) w) n
                    (with_cl_stage s CEnded))
  | _ => None
  end.

(** The thread starts: the snapshot, the relay configuration and the key. *)
Definition client_begin (checked : result bytes ()) (n : nat) (s : ClientSession) (w : World)
  : option World :=
  match cl_stage s with
  | CNew =>
      let p := cl_profile s in
      let w := update_slot (fun _ => mkSnapshot PConnecting None (loopback_bind <$> p_socks p)
                                       (loopback_bind <$> p_http p) TunnelRoutes_default None [])
                 (cl_id s) w in
      match checked with
      | Ok _ => Some (set_client w n (with_cl_stage s CCreating))
      | Err e => Some (set_client (update_slot (failed_phase e) (cl_id s) w) n (with_cl_stage s CEnded))
      end
  | _ => None
  end.

(** The endpoint is created, then the front ends are bound. *)
Definition client_created (created bound : result bytes ()) (n : nat) (s : ClientSession) (w : World)
  : option World :=
  match cl_stage s with
  | CCreating =>
      match created, bound with
      | Err e, _ => Some (set_client (update_slot (failed_phase e) (cl_id s) w) n (with_cl_stage s CEnded))
      | Ok _, Err e => Some (close_client false n s (update_slot (failed_phase e) (cl_id s) w))
      | Ok _, Ok _ =>
          Some (set_client w n (with_cl_stage
            (with_cl_forwards s (cl_forwards s) (Some (forwards_new (cl_forwards s)))) CRunning))
      end
  | _ => None
  end.

Definition refresh_forward_statuses (m : option ForwardManager) (s : Snapshot) : Snapshot :=
  mkSnapshot (sn_phase s) (sn_since s) (sn_socks s) (sn_http s) (sn_routes s) (sn_error s)
    (from_option statuses [] m).

(** The next command, in either of the loops that receive; [None] once every sender
    is gone and the channel is empty. *)
Definition client_command (cmd : option SessionCmd) (n : nat) (s : ClientSession) (w : World)
  : option World :=
  match cl_stage s with
  | CCreating =>
      match cmd with
      | Some CDisconnect => Some (set_client (update_slot idle_phase (cl_id s) w) n (with_cl_stage s CLingering))
      | Some (CSetForwards fs) => Some (set_client w n (with_cl_forwards s fs None))
      | Some (CQueryConnPath q) => Some (set_client (reply w q false) n s)
      | Some CShutdown | None => Some (close_client false n s w)
      end
  | CRunning =>
      match cmd with
      | Some CDisconnect | Some CShutdown | None =>
          Some (close_client true n s (update_slot idle_phase (cl_id s) w))
      | Some (CSetForwards fs) =>
          let m := (fun m => forwards_apply m fs) <$> cl_mgr s in
          Some (set_client (update_slot (refresh_forward_statuses m) (cl_id s) w) n
                  (with_cl_forwards s fs m))
      | Some (CQueryConnPath q) => Some (set_client (reply w q true) n s)
      end
  | _ => None
  end.

(** Receive from the channel. *)
Definition client_recv (n : nat) (s : ClientSession) (w : World) : option World :=
  match cl_inbox s with
  | cmd :: rest => client_command (Some cmd) n (with_cl_inbox s rest) w
  | [] => match w_pc w with Exited => client_command None n s w | _ => None end
  end.

Definition ticked (routes : TunnelRoutes) (ever : bool) (now : Z) (s : Snapshot) : Snapshot :=
  if connected routes
  then mkSnapshot PConnected (match sn_phase s with PConnected => sn_since s | _ => Some now end)
         (sn_socks s) (sn_http s) routes (sn_error s) (sn_forwards s)
  else mkSnapshot (if ever then PReconnecting else PConnecting) None (sn_socks s) (sn_http s) routes
         (sn_error s) (sn_forwards s).

Definition client_tick (routes : TunnelRoutes) (now : Z) (n : nat) (s : ClientSession) (w : World)
  : option World :=
  match cl_stage s with
  | CRunning =>
      let ever := cl_ever s || connected routes in
      let w := update_slot (refresh_forward_statuses (cl_mgr s))
                 (cl_id s) (update_slot (ticked routes ever now) (cl_id s) w) in
      Some (set_client w n (mkClientSession (cl_profile s) (cl_key s) CRunning (cl_inbox s)
                              (cl_forwards s) (cl_mgr s) ever))
  | _ => None
  end.

(** The core client returns. *)
Definition client_run_ended (res : result bytes ()) (n : nat) (s : ClientSession) (w : World)
  : option World :=
  match cl_stage s with
  | CRunning =>
      Some (close_client true n s
              (update_slot (match res with Ok _ => idle_phase | Err e => failed_phase e end) (cl_id s) w))
  | _ => None
  end.

(** One of the session's forward tasks moves. *)
Definition client_forward (h : Z) (ev : ForwardEvent) (n : nat) (s : ClientSession) (w : World)
  : option World :=
  match cl_stage s, cl_mgr s with
  | CRunning, Some m => Some (set_client w n (with_cl_forwards s (cl_forwards s) (Some (task_event h ev m))))
  | _, _ => None
  end.

Definition final_write (s : Snapshot) : Snapshot :=
  let r := sn_routes s in
  mkSnapshot (sn_phase s) None (sn_socks s) (sn_http s)
    (mkTunnelRoutes false (domains r) (tr_cidrs r) (tr_host_aliases r) (tr_dns_forwards r) (tr_bridges r))
    (sn_error s) [].

(** The endpoint is closed, or the wait for it is over: the thread ends. *)
Definition client_closed (n : nat) (s : ClientSession) (w : World) : option World :=
  match cl_stage s with
  | CClosing true => Some (set_client (update_slot final_write (cl_id s) w) n (with_cl_stage s CEnded))
  | CClosing false | CLingering => Some (set_client w n (with_cl_stage s CEnded))
  | _ => None
  end.

(** ** The server session *)

Definition with_sr_stage (s : ServerSession) (st : ServerStage) : ServerSession :=
  mkServerSession (sr_config s) st (sr_inbox s).

Definition with_server_phase (p : ServerPhase) (s : ServerSnapshot) : ServerSnapshot :=
  mkServerSnapshot p (ss_since s) (ss_clients s) (ss_error s).

Definition server_no_runtime (e : bytes) (n : nat) (s : ServerSession) (w : World) : option World :=
  match sr_stage s with
  | SNew => Some (set_server (fail_server (str "Failed to start: " ++ e) w) n (with_sr_stage s SEnded))
  | _ => None
  end.

(** The thread starts: options, server lock, [prepare]. *)
Definition server_begin (prepared : result bytes ()) (n : nat) (s : ServerSession) (w : World)
  : option World :=
  match sr_stage s with
  | SNew =>
      let w := set_server_snap w (mkServerSnapshot SvStarting None [] None) in
      match prepared with
      | Ok _ => Some (set_server w n (with_sr_stage s SBinding))
      | Err e => Some (set_server (fail_server e w) n (with_sr_stage s SEnded))
      end
  | _ => None
  end.

Definition server_bound (bound : result bytes ()) (now : Z) (n : nat) (s : ServerSession) (w : World)
  : option World :=
  match sr_stage s with
  | SBinding =>
      match bound with
      | Ok _ =>
          let snap := w_server_snap w in
          Some (set_server (set_server_snap w
                  (mkServerSnapshot SvRunning (Some now) (ss_clients snap) (ss_error snap)))
                  n (with_sr_stage s SServing))
      | Err e => Some (set_server (fail_server e w) n (with_sr_stage s SEnded))
      end
  | _ => None
  end.

(** Leaving the serving loop. *)
Definition stop_serving (cmd : option ServerCmd) (res : result bytes ()) (n : nat) (s : ServerSession)
    (w : World) : World :=
  set_server (set_server_snap w (mkServerSnapshot SvStopping None [] (ss_error (w_server_snap w))))
    n (with_sr_stage s (SClosing cmd res)).

(** One command is received: while binding, or while serving. *)
Definition server_command (cmd : option ServerCmd) (n : nat) (s : ServerSession) (w : World)
  : option World :=
  match sr_stage s with
  | SBinding =>
      Some (set_server (set_server_snap w (with_server_phase SvStopping (w_server_snap w)))
              n (with_sr_stage s (SClosing cmd (Ok tt))))
  | SServing => Some (stop_serving cmd (Ok tt) n s w)
  | _ => None
  end.

Definition server_recv (n : nat) (s : ServerSession) (w : World) : option World :=
  match sr_inbox s with
  | cmd :: rest => server_command (Some cmd) n (mkServerSession (sr_config s) (sr_stage s) rest) w
  | [] => match w_pc w with Exited => server_command None n s w | _ => None end
  end.

Definition server_serve_ended (res : result bytes ()) (n : nat) (s : ServerSession) (w : World)
  : option World :=
  match sr_stage s with SServing => Some (stop_serving None res n s w) | _ => None end.

Definition server_poll (clients : list bytes) (n : nat) (s : ServerSession) (w : World) : option World :=
  match sr_stage s with
  | SServing =>
      let snap := w_server_snap w in
      Some (set_server (set_server_snap w
              (mkServerSnapshot (ss_phase snap) (ss_since snap) clients (ss_error snap))) n s)
  | _ => None
  end.

(** [finish], once the endpoint is closed. *)
Definition finish (cmd : option ServerCmd) (res : result bytes ()) (w : World) : World :=
  match cmd, res with
  | Some SRemove, _ => reset_server_snapshot w
  | _, Ok _ => set_server_snap w (with_server_phase SvStopped (w_server_snap w))
  | _, Err e => fail_server e w
  end.

Definition server_closed (n : nat) (s : ServerSession) (w : World) : option World :=
  match sr_stage s with
  | SClosing cmd res => Some (set_server (finish cmd res w) n (with_sr_stage s SEnded))
  | _ => None
  end.

(** ** Steps *)

Inductive ClientEv : Type :=
| CNoRuntime (e : bytes)
| CBegin (checked : result bytes ())
| CCreated (created bound : result bytes ())
| CRecv
| CTick (routes : TunnelRoutes) (now : Z)
| CRunEnded (res : result bytes ())
| CForward (h : Z) (ev : ForwardEvent)
| CClosed.

Inductive ServerEv : Type :=
| SNoRuntime (e : bytes)
| SBegin (prepared : result bytes ())
| SBound (bound : result bytes ()) (now : Z)
| SRecv
| SServeEnded (res : result bytes ())
| SPoll (clients : list bytes)
| SClosed.

Inductive Event : Type :=
| SupTop (spawned : result bytes ())
| SupRecv (cmd : option Command)
| SupDone                                  (* the awaited end of the old server session *)
| SupPrune
| SupHandle (spawned : result bytes ())
| ClientStep (n : nat) (ev : ClientEv)
| ServerStep (n : nat) (ev : ServerEv)
| SlotRemoved (k : nat).                   (* a removed profile's session is done *)

Definition client_step (ev : ClientEv) (n : nat) (s : ClientSession) (w : World) : option World :=
  match ev with
  | CNoRuntime e => client_no_runtime e n s w
  | CBegin r => client_begin r n s w
  | CCreated c b => client_created c b n s w
  | CRecv => client_recv n s w
  | CTick r now => client_tick r now n s w
  | CRunEnded r => client_run_ended r n s w
  | CForward h ev => client_forward h ev n s w
  | CClosed => client_closed n s w
  end.

Definition server_step (ev : ServerEv) (n : nat) (s : ServerSession) (w : World) : option World :=
  match ev with
  | SNoRuntime e => server_no_runtime e n s w
  | SBegin r => server_begin r n s w
  | SBound r now => server_bound r now n s w
  | SRecv => server_recv n s w
  | SServeEnded r => server_serve_ended r n s w
  | SPoll cs => server_poll cs n s w
  | SClosed => server_closed n s w
  end.

Definition sup_done (w : World) : option World :=
  match w_pc w, w_server w, w_pending w with
  | Waiting, Some n, Some _ => if server_open w n then None else Some (with_pc w AtTop)
  | _, _, _ => None
  end.

(** The task of a removed profile: once its session is done the slot goes. *)
Definition slot_removed (k : nat) (w : World) : option World :=
  '(id, n) ← w_removals w !! k;
  s ← w_clients w !! n;
  if cl_done s then Some (with_removals (remove_slot id w) (delete k (w_removals w))) else None.

Definition step (w : World) (ev : Event) : option World :=
  match ev with
  | SupTop sp => match w_pc w with AtTop => Some (loop_top sp w) | _ => None end
  | SupRecv cmd => match w_pc w with Waiting => Some (with_pc w (Got cmd)) | _ => None end
  | SupDone => sup_done w
  | SupPrune => match w_pc w with Got cmd => Some (with_pc (prune w) (Pruned cmd)) | _ => None end
  | SupHandle sp => match w_pc w with Pruned cmd => handle_command sp cmd w | _ => None end
  | ClientStep n ev => s ← w_clients w !! n; client_step ev n s w
  | ServerStep n ev => s ← w_servers w !! n; server_step ev n s w
  | SlotRemoved k => slot_removed k w
  end.

Definition exec (w : World) (ev : Event) : World := default w (step w ev).

Definition run (evs : list Event) : World := foldl exec world_start evs.
