(* ===== verification/SupervisorProofs.v ===== *)
(** * Theorems on the desktop application's sessions

    Over all interleavings of the supervisor, the sessions and the user interface's
    commands: one server session at a time, its snapshot, one client session per
    server, and what a restart does. *)

From S2P Require Import Prelude RustStr Net Stream Signaling Socks5 RoutedSet DnsForward Dial Blocklist.
From S2P Require Import Registry Server Client Http LocalConn Accept Forward ForwardProofs PortForwards.
From S2P Require Import Config Ipc Session DesktopStore Supervisor.

(** ** Views: what the invariants look at *)

Definition sview (w : World) : gmap nat ServerStage := sr_stage <$> w_servers w.
Definition cview (w : World) : gmap nat (Profile * ClientStage) :=
  (fun s => (cl_profile s, cl_stage s)) <$> w_clients w.

Definition server_part (w : World) := (w_server w, sview w, w_server_snap w).
Definition client_part (w : World) := (w_tracked w, cview w, w_removals w).

(** The stage of the server session that is alive, if one is. *)
Definition alive (st : ServerStage) : option ServerStage :=
  match st with SEnded => None | st => Some st end.
Definition current (w : World) : option ServerStage :=
  n ← w_server w; st ← sview w !! n; alive st.

Lemma sview_lookup w n s : w_servers w !! n = Some s -> sview w !! n = Some (sr_stage s).
Proof. unfold sview. by rewrite lookup_fmap; intros ->. Qed.

Lemma cview_lookup w n s : w_clients w !! n = Some s -> cview w !! n = Some (cl_profile s, cl_stage s).
Proof. unfold cview. by rewrite lookup_fmap; intros ->. Qed.

Lemma sview_set w n s : sview (set_server w n s) = <[n := sr_stage s]> (sview w).
Proof. apply fmap_insert. Qed.

Lemma cview_set w n s : cview (set_client w n s) = <[n := (cl_profile s, cl_stage s)]> (cview w).
Proof. apply (fmap_insert (fun s => (cl_profile s, cl_stage s))). Qed.

(** Sending a command changes neither stage nor profile. *)
Lemma send_server_part n cmd w w' :
  send_server n cmd w = Some w' -> server_part w' = server_part w /\ client_part w' = client_part w
    /\ w_next w' = w_next w /\ w_pc w' = w_pc w.
Proof.
  unfold send_server. destruct (w_servers w !! n) as [s|] eqn:E; [|done]. cbn.
  destruct (sr_closed s); [by intros [= <-]|]. case_bool_decide; [|done]. intros [= <-].
  unfold server_part. rewrite sview_set. cbn. split_and!; try done.
  rewrite insert_id; [done|]. by apply sview_lookup.
Qed.

Lemma send_client_part n cmd w w' :
  send_client n cmd w = Some w' -> server_part w' = server_part w /\ client_part w' = client_part w
    /\ w_next w' = w_next w /\ w_pc w' = w_pc w.
Proof.
  unfold send_client. destruct (w_clients w !! n) as [s|] eqn:E; [|done]. cbn.
  destruct (cl_closed s); [by intros [= <-]|]. case_bool_decide; [|done]. intros [= <-].
  unfold client_part. rewrite cview_set. cbn. split_and!; try done.
  rewrite insert_id; [done|]. by apply cview_lookup.
Qed.

(** A session's step is its own: it moves its stage forward and touches no other. *)
Definition closed_stage (st : ClientStage) : bool :=
  match st with CLingering | CEnded => true | _ => false end.

Lemma client_step_part ev n s w w' :
  w_clients w !! n = Some s -> client_step ev n s w = Some w' ->
  server_part w' = server_part w /\ w_next w' = w_next w /\ w_tracked w' = w_tracked w
  /\ w_removals w' = w_removals w
  /\ exists st, cview w' = <[n := (cl_profile s, st)]> (cview w)
       /\ (closed_stage (cl_stage s) = true -> closed_stage st = true).
Proof.
  intros Hn Hstep.
  assert (exists f s', w' = set_client f n s' /\ server_part f = server_part w /\ w_next f = w_next w
    /\ w_tracked f = w_tracked w /\ w_removals f = w_removals w /\ cview f = cview w
    /\ cl_profile s' = cl_profile s
    /\ (closed_stage (cl_stage s) = true -> closed_stage (cl_stage s') = true))
    as (f & s' & -> & Hs & Hx & Ht & Hr & Hc & Hp & Hcl).
  { clear Hn. revert Hstep. destruct s as [p k stg inbox fs m ever]. destruct ev; cbn; unfold client_no_runtime, client_begin, client_created, client_recv, client_tick,
      client_run_ended, client_forward, client_closed, client_command, close_client;
    repeat case_match; intros [= <-]; simplify_eq/=;
    (eexists _, _; split; [reflexivity|]; cbn; split_and!; try reflexivity; cbn in *; subst; done). }
  unfold server_part, client_part in *. rewrite cview_set, Hc, Hp. cbn in *. split_and!; try done.
  eauto.
Qed.

Lemma server_step_part ev n s w w' :
  w_servers w !! n = Some s -> server_step ev n s w = Some w' ->
  client_part w' = client_part w /\ w_next w' = w_next w /\ w_server w' = w_server w
  /\ sr_stage s <> SEnded
  /\ exists st, sview w' = <[n := st]> (sview w).
Proof.
  intros Hn Hstep.
  assert (exists f s', w' = set_server f n s' /\ client_part f = client_part w /\ w_next f = w_next w
    /\ w_server f = w_server w /\ sview f = sview w /\ sr_stage s <> SEnded)
    as (f & s' & -> & Hc & Hx & Hs & Hv & Hne).
  { revert Hstep. destruct ev; cbn; unfold server_no_runtime, server_begin, server_bound, server_recv, server_serve_ended,
      server_poll, server_closed, server_command, stop_serving, finish;
    repeat case_match; intros [= <-]; simplify_eq/=;
    (eexists _, _; split; [reflexivity|]; cbn; split_and!; try reflexivity; congruence). }
  rewrite sview_set, Hv. cbn in *. split_and!; try done. eauto.
Qed.

(** ** The server session *)

(** What the snapshot shows for each stage of the one session alive. *)
Definition server_view (o : option ServerStage) (s : ServerSnapshot) : Prop :=
  match o with
  | None | Some SNew => (ss_phase s = SvStopped \/ ss_phase s = SvFailed) /\ ss_since s = None /\ ss_clients s = []
  | Some SBinding => ss_phase s = SvStarting /\ ss_since s = None /\ ss_clients s = []
  | Some SServing => ss_phase s = SvRunning /\ is_Some (ss_since s)
  | Some (SClosing _ _) => ss_phase s = SvStopping /\ ss_since s = None /\ ss_clients s = []
  | Some SEnded => False
  end.

Record server_inv (w : World) : Prop := mkServerInv {
  si_alive : forall n st, sview w !! n = Some st -> st <> SEnded -> w_server w = Some n;
  si_known : forall n, w_server w = Some n -> is_Some (sview w !! n);
  si_fresh : forall n, is_Some (sview w !! n) -> (n < w_next w)%nat;
  si_snap : server_view (current w) (w_server_snap w);
}.

Lemma server_inv_part w w' :
  server_part w' = server_part w -> (w_next w <= w_next w')%nat -> server_inv w -> server_inv w'.
Proof.
  unfold server_part. intros [= Hs Hv Hp] Hx [Ha Hk Hf Hsn].
  split; unfold current in *; rewrite ?Hs, ?Hv, ?Hp; try done.
  intros n Hn. apply Hf in Hn. lia.
Qed.

Lemma server_step_view ev n s w w' st :
  server_step ev n s w = Some w' -> sview w' = <[n := st]> (sview w) -> w_servers w !! n = Some s ->
  server_view (Some (sr_stage s)) (w_server_snap w) -> server_view (alive st) (w_server_snap w').
Proof.
  intros Hstep Hv Hn.
  assert (Hst : sview w' !! n = Some st) by (rewrite Hv; apply lookup_insert_eq).
  clear Hv Hn. revert Hstep Hst. destruct s as [c stg inbox].
  destruct ev; cbn; unfold server_no_runtime, server_begin, server_bound, server_recv, server_serve_ended,
    server_poll, server_closed, server_command, stop_serving, finish;
  repeat case_match; intros [= <-]; simplify_eq/=; rewrite sview_set, lookup_insert_eq;
  intros [= <-]; cbn; naive_solver.
Qed.

Lemma current_of w n st : w_server w = Some n -> sview w !! n = Some st -> current w = alive st.
Proof. unfold current. intros -> H. cbn. by rewrite H. Qed.

Lemma server_step_inv ev n s w w' :
  w_servers w !! n = Some s -> server_step ev n s w = Some w' -> server_inv w -> server_inv w'.
Proof.
  intros Hn Hstep [Ha Hk Hf Hsn]. pose proof (sview_lookup _ _ _ Hn) as Hvn.
  destruct (server_step_part _ _ _ _ _ Hn Hstep) as (_ & Hx & Hs & Hne & st & Hv).
  assert (Hw : w_server w = Some n) by (by eapply Ha).
  assert (Hcur : current w = Some (sr_stage s)).
  { rewrite (current_of w n _ Hw Hvn). by destruct (sr_stage s). }
  split.
  - intros m st' Hm Hne'. rewrite Hv in Hm. rewrite Hs.
    destruct (decide (m = n)) as [->|]; [done|]. rewrite lookup_insert_ne in Hm by done. by eapply Ha.
  - intros m Hm. rewrite Hs in Hm. assert (m = n) as -> by congruence. rewrite Hv, lookup_insert_eq. eauto.
  - intros m. rewrite Hv, Hx. destruct (decide (m = n)) as [->|].
    + intros _. apply Hf. eauto.
    + rewrite lookup_insert_ne by done. apply Hf.
  - rewrite (current_of w' n st) by (rewrite ?Hs, ?Hv; by rewrite ?lookup_insert_eq).
    rewrite Hcur in Hsn. by eapply server_step_view.
Qed.

(** With no session alive, starting one or resetting the snapshot keeps the
    invariant, and forgetting the handle changes nothing. *)
Definition none_alive (w : World) : Prop := forall n st, sview w !! n = Some st -> st = SEnded.

Lemma server_open_view w n :
  server_open w n = match sview w !! n with Some SEnded | None => false | _ => true end.
Proof.
  unfold server_open, sview, sr_closed. rewrite lookup_fmap.
  destruct (w_servers w !! n) as [s|]; [|done]. cbn. by destruct (sr_stage s).
Qed.

Lemma live_server_current w :
  live_server w = match current w with Some _ => w_server w | None => None end.
Proof.
  unfold live_server, current. destruct (w_server w) as [n|]; [|done]. cbn. rewrite server_open_view.
  destruct (sview w !! n) as [st|]; [|done]. by destruct st.
Qed.

Lemma none_alive_of w : server_inv w -> current w = None -> none_alive w.
Proof.
  intros [Ha _ _ _] Hc n st Hn. destruct st; try done;
    (assert (Hw : w_server w = Some n) by (eapply Ha; [exact Hn|done]);
     rewrite (current_of _ _ _ Hw Hn) in Hc; done).
Qed.

Lemma server_inv_none_alive w w' :
  server_inv w -> current w = None -> w_server w' = None -> sview w' = sview w -> w_next w' = w_next w ->
  server_view None (w_server_snap w') -> server_inv w'.
Proof.
  intros Hi Hc Hs Hv Hx Hsn. pose proof (none_alive_of w Hi Hc) as Hna. destruct Hi as [_ _ Hf _].
  split; rewrite ?Hs, ?Hv, ?Hx; try done.
  - intros n st Hn Hne. by apply Hna in Hn.
  - unfold current. by rewrite Hs.
Qed.

Lemma spawn_server_inv sp c w :
  server_inv w -> current w = None -> server_inv (spawn_server sp c w).
Proof.
  intros Hi Hc. pose proof (none_alive_of w Hi Hc) as Hna. destruct sp as [[]|e]; cbn.
  - destruct Hi as [_ _ Hf Hsn]. rewrite Hc in Hsn.
    set (w' := with_next _).
    assert (Hv : sview w' = <[w_next w := SNew]> (sview w)) by apply fmap_insert.
    split; rewrite ?Hv; [cbn..|].
    + intros n st Hn Hne. destruct (decide (n = w_next w)) as [->|]; [done|].
      rewrite lookup_insert_ne in Hn by done. by apply Hna in Hn.
    + intros n [= <-]. rewrite lookup_insert_eq. eauto.
    + intros n. destruct (decide (n = w_next w)) as [->|]; [lia|].
      rewrite lookup_insert_ne by done. intros Hn%Hf. lia.
    + rewrite (current_of w' (w_next w) SNew) by (rewrite ?Hv, ?lookup_insert_eq; done). exact Hsn.
  - eapply server_inv_none_alive; try done. cbn. auto.
Qed.

Lemma reset_server_inv w : server_inv w -> current w = None -> server_inv (reset_server_snapshot w).
Proof.
  intros Hi Hc. destruct Hi as [Ha Hk Hf _]. split; try done.
  change (current (reset_server_snapshot w)) with (current w). rewrite Hc. cbn. auto.
Qed.

(** Dropping the handle of a session that has ended. *)
Lemma drop_handle_inv w p b :
  server_inv w -> server_inv (with_server_state w (live_server w) p b).
Proof.
  intros Hi. rewrite live_server_current. destruct (current w) eqn:Hc.
  - by eapply server_inv_part; [..|exact Hi].
  - eapply server_inv_none_alive; try done. cbn. pose proof (si_snap w Hi) as Hs. by rewrite Hc in Hs.
Qed.

(** The supervisor's state changes that leave the session and its snapshot alone. *)
Lemma server_state_inv w p b : server_inv w -> server_inv (with_server_state w (w_server w) p b).
Proof. intros Hi. by eapply server_inv_part; [..|exact Hi]. Qed.

Lemma loop_top_inv sp w : server_inv w -> server_inv (loop_top sp w).
Proof.
  intros Hi. unfold loop_top.
  assert (Hi' : forall p b, server_inv (with_pc (with_server_state w (live_server w) p b) Waiting)).
  { intros p b. apply (server_inv_part (with_server_state w (live_server w) p b)); [done|done|].
    by apply drop_handle_inv. }
  destruct (live_server w) as [n|] eqn:Hl; [apply Hi'|]. destruct (w_pending w) as [c|] eqn:Hp; cbn.
  - apply spawn_server_inv; [|done]. apply (Hi' None false).
  - apply Hi'.
Qed.

Lemma prune_inv w : server_inv w -> server_inv (prune w).
Proof.
  intros Hi. unfold prune. set (w1 := with_tracked w _).
  assert (Hi1 : server_inv w1) by (by eapply server_inv_part; [..|exact Hi]).
  destruct (w_server w1) eqn:Hs; [|done]. destruct (live_server w1) eqn:Hl; [done|].
  rewrite <- Hl. by apply drop_handle_inv.
Qed.

Lemma shutdown_clients_part ns w w' :
  shutdown_clients ns w = Some w' -> server_part w' = server_part w /\ client_part w' = client_part w
    /\ w_next w' = w_next w.
Proof.
  revert w. induction ns as [|n ns IH]; intros w; cbn; [by intros [= <-]|].
  destruct (send_client n CShutdown w) as [w1|] eqn:E; [|done]. cbn. intros Hr.
  apply send_client_part in E as (E1 & E2 & E3 & _). apply IH in Hr as (H1 & H2 & H3).
  split_and!; congruence.
Qed.

Lemma current_None w : w_server w = None -> current w = None.
Proof. unfold current. by intros ->. Qed.

Lemma on_start_server_inv sp c w : server_inv w -> server_inv (on_start_server sp c w).
Proof.
  intros Hi. unfold on_start_server. destruct (w_server w) as [n|] eqn:Hs.
  - destruct (w_stopping w); [|done]. rewrite <- Hs. by apply server_state_inv.
  - by apply spawn_server_inv, current_None.
Qed.

Lemma on_restart_server_inv c w w' : on_restart_server c w = Some w' -> server_inv w -> server_inv w'.
Proof.
  unfold on_restart_server. intros Hr Hi. destruct (w_server w) as [n|] eqn:Hs; [|by injection Hr as <-].
  destruct (w_stopping w).
  - injection Hr as <-. destruct (w_pending w); [|done]. rewrite <- Hs. by apply server_state_inv.
  - destruct (send_server n SStop w) as [w1|] eqn:E; [|done]. injection Hr as <-.
    apply send_server_part in E as (E1 & _ & E3 & _). rewrite <- Hs.
    assert (Hi1 : server_inv w1) by (eapply server_inv_part; [exact E1|by rewrite E3|exact Hi]).
    assert (w_server w = w_server w1) as -> by (unfold server_part in E1; congruence).
    by apply server_state_inv.
Qed.

Lemma on_stop_server_inv w w' : on_stop_server w = Some w' -> server_inv w -> server_inv w'.
Proof.
  unfold on_stop_server. cbn. intros Hr Hi. pose proof (server_state_inv w None (w_stopping w) Hi) as Hi0.
  destruct (w_server w) as [n|] eqn:Hs; [|by injection Hr as <-].
  destruct (send_server n SStop _) as [w1|] eqn:E; [|done]. injection Hr as <-.
  apply send_server_part in E as (E1 & _ & E3 & _).
  assert (Hi1 : server_inv w1) by (eapply server_inv_part; [exact E1|by rewrite E3|exact Hi0]).
  assert (Some n = w_server w1) as -> by (unfold server_part in E1; cbn in E1; congruence).
  by apply server_state_inv.
Qed.

Lemma on_remove_server_inv w w' : on_remove_server w = Some w' -> server_inv w -> server_inv w'.
Proof.
  unfold on_remove_server. intros Hr Hi.
  set (w0 := with_server_state w (w_server w) None _) in Hr.
  assert (Hi0 : server_inv w0) by (by apply server_state_inv).
  destruct (w_server w0) as [n|] eqn:Hs.
  - destruct (server_open w0 n) eqn:Ho.
    + apply send_server_part in Hr as (E1 & _ & E3 & _).
      eapply server_inv_part; [exact E1|by rewrite E3|exact Hi0].
    + injection Hr as <-. apply reset_server_inv; [done|].
      destruct (current w0) eqn:Hc; [|done]. pose proof (live_server_current w0) as Hl.
      unfold live_server in Hl. by rewrite Hs, Ho, Hc in Hl.
  - injection Hr as <-. by apply reset_server_inv, current_None.
Qed.

Lemma spawn_session_part sp p key w :
  server_part (spawn_session sp p key w) = server_part w
  /\ (w_next w <= w_next (spawn_session sp p key w))%nat.
Proof. unfold spawn_session. destruct sp; cbn; split; try done; lia. Qed.

Lemma on_connect_part sp p key w :
  server_part (on_connect sp p key w) = server_part w
  /\ (w_next w <= w_next (on_connect sp p key w))%nat.
Proof.
  unfold on_connect. repeat case_match; try apply spawn_session_part; split; try done; lia.
Qed.

Lemma to_session_part id cmd w w' :
  to_session id cmd w = Some w' -> server_part w' = server_part w /\ client_part w' = client_part w
    /\ w_next w' = w_next w.
Proof.
  unfold to_session. destruct (w_tracked w !! id); [|by intros [= <-]].
  intros (H1 & H2 & H3 & _)%send_client_part. done.
Qed.

Lemma on_remove_profile_part id w w' :
  on_remove_profile id w = Some w' -> server_part w' = server_part w /\ w_next w' = w_next w.
Proof.
  unfold on_remove_profile. destruct (w_tracked w !! id); [|by intros [= <-]].
  destruct (send_client _ _ _) as [w1|] eqn:E; [|done]. intros [= <-].
  apply send_client_part in E as (H1 & _ & H3 & _). done.
Qed.

Lemma on_shutdown_part w w' :
  on_shutdown w = Some w' -> server_part w' = server_part w /\ client_part w' = client_part w
    /\ w_next w' = w_next w.
Proof.
  unfold on_shutdown. destruct (shutdown_clients _ w) as [w1|] eqn:E1; [|done]. cbn.
  apply shutdown_clients_part in E1 as (H1 & H2 & H3).
  destruct (w_server w1) as [n|].
  - destruct (send_server n SShutdown w1) as [w2|] eqn:E2; [|done]. intros [= <-].
    apply send_server_part in E2 as (G1 & G2 & G3 & _).
    change (server_part (with_pc w2 Exited)) with (server_part w2).
    change (client_part (with_pc w2 Exited)) with (client_part w2).
    split_and!; [by rewrite G1|by rewrite G2|]. cbn. by rewrite G3.
  - intros [= <-]. done.
Qed.

(** Only the program counter differs. *)
Lemma with_pc_inv w pc : server_inv w -> server_inv (with_pc w pc).
Proof. intros Hi. by eapply server_inv_part; [..|exact Hi]. Qed.

Lemma handle_command_inv sp cmd w w' :
  handle_command sp cmd w = Some w' -> server_inv w -> server_inv w'.
Proof.
  intros Hh Hi.
  assert (Hnext : forall o, (w1 ← o; Some (with_pc w1 AtTop)) = Some w' ->
    (forall w1, o = Some w1 -> server_inv w1) -> server_inv w').
  { intros o Ho H1. destruct o as [w1|]; [|done]. injection Ho as <-. apply with_pc_inv. by apply H1. }
  assert (Hpart : forall w1, server_part w1 = server_part w -> (w_next w <= w_next w1)%nat -> server_inv w1)
    by (intros w1 H1 H2; by eapply server_inv_part; [..|exact Hi]).
  assert (Hdown : on_shutdown w = Some w' -> server_inv w').
  { intros (H1 & _ & H3)%on_shutdown_part. apply Hpart; [done|lia]. }
  destruct cmd as [[p key|id|id fs|id|id q|c|c| | | ]|]; cbn in Hh; try (by apply Hdown).
  - injection Hh as <-. apply with_pc_inv, Hpart; apply on_connect_part.
  - apply (Hnext _ Hh). intros w1 (H1 & _ & H3)%to_session_part. apply Hpart; [done|lia].
  - apply (Hnext _ Hh). intros w1 (H1 & _ & H3)%to_session_part. apply Hpart; [done|lia].
  - apply (Hnext _ Hh). intros w1 (H1 & H3)%on_remove_profile_part. apply Hpart; [done|lia].
  - apply (Hnext _ Hh). intros w1 (H1 & _ & H3)%to_session_part. apply Hpart; [done|lia].
  - injection Hh as <-. by apply with_pc_inv, on_start_server_inv.
  - apply (Hnext _ Hh). intros w1 H1. by eapply on_restart_server_inv.
  - apply (Hnext _ Hh). intros w1 H1. by eapply on_stop_server_inv.
  - apply (Hnext _ Hh). intros w1 H1. by eapply on_remove_server_inv.
Qed.

Lemma slot_removed_part k w w' :
  slot_removed k w = Some w' -> server_part w' = server_part w /\ w_next w' = w_next w
    /\ w_tracked w' = w_tracked w /\ cview w' = cview w
    /\ exists id n s, w_removals w !! k = Some (id, n) /\ w_clients w !! n = Some s
         /\ cl_done s = true /\ w_removals w' = delete k (w_removals w).
Proof.
  unfold slot_removed. destruct (w_removals w !! k) as [[id n]|] eqn:Hk; [|done]. cbn.
  destruct (w_clients w !! n) as [s|] eqn:Hn; [|done]. cbn.
  destruct (cl_done s) eqn:Hd; [|done]. intros [= <-]. split_and!; try done.
  by exists id, n, s.
Qed.

Lemma step_server_inv w ev w' : step w ev = Some w' -> server_inv w -> server_inv w'.
Proof.
  intros Hs Hi. destruct ev as [sp|cmd| | |sp|n ev|n ev|k]; cbn in Hs.
  - destruct (w_pc w); try done. injection Hs as <-. by apply loop_top_inv.
  - destruct (w_pc w); try done. injection Hs as <-. by apply with_pc_inv.
  - unfold sup_done in Hs. repeat case_match; simplify_eq. by apply with_pc_inv.
  - destruct (w_pc w); try done. injection Hs as <-. by apply with_pc_inv, prune_inv.
  - destruct (w_pc w); try done. by eapply handle_command_inv.
  - destruct (w_clients w !! n) as [s|] eqn:Hn; [|done]. cbn in Hs.
    apply client_step_part in Hs as (H1 & H2 & _); [|done].
    eapply server_inv_part; [exact H1|by rewrite H2|done].
  - destruct (w_servers w !! n) as [s|] eqn:Hn; [|done]. by eapply server_step_inv.
  - apply slot_removed_part in Hs as (H1 & H2 & _).
    eapply server_inv_part; [exact H1|by rewrite H2|done].
Qed.

(** ** Runs *)

Lemma run_snoc evs ev : run (evs ++ [ev]) = exec (run evs) ev.
Proof. unfold run. by rewrite foldl_app. Qed.

(** An invariant of the steps, with the events so far, holds of every run. *)
Lemma run_invariant (P : list Event -> World -> Prop) :
  P [] world_start ->
  (forall evs ev w, P evs w -> P (evs ++ [ev]) w) ->
  (forall evs ev w w', P (evs ++ [ev]) w -> step w ev = Some w' -> P (evs ++ [ev]) w') ->
  forall evs, P evs (run evs).
Proof.
  intros H0 Hmono Hstep evs. induction evs as [|ev evs IH] using rev_ind; [done|].
  rewrite run_snoc. unfold exec. apply (Hmono _ ev) in IH.
  destruct (step (run evs) ev) as [w'|] eqn:E; [|done]. by eapply Hstep.
Qed.

Lemma run_server_inv evs : server_inv (run evs).
Proof.
  apply (run_invariant (fun _ => server_inv)).
  - split; cbn; try done; [by intros ? [? [=]]|auto].
  - done.
  - intros. by eapply step_server_inv.
Qed.

(** ** Client sessions *)

Definition removed (id : bytes) (evs : list Event) : Prop :=
  SupRecv (Some (RemoveProfile id)) ∈ evs.

Record client_inv (evs : list Event) (w : World) : Prop := mkClientInv {
  ci_tracked : forall id n, w_tracked w !! id = Some n ->
    exists p st, cview w !! n = Some (p, st) /\ p_id p = id;
  ci_distinct : forall i j n m p q st st', w_tracked w !! i = Some n -> w_tracked w !! j = Some m ->
    cview w !! n = Some (p, st) -> cview w !! m = Some (q, st') -> p_server p = p_server q -> i = j;
  ci_open : forall n p st, cview w !! n = Some (p, st) -> closed_stage st = false ->
    w_tracked w !! p_id p = Some n \/ (p_id p, n) ∈ w_removals w;
  ci_fresh : forall n, is_Some (cview w !! n) -> (n < w_next w)%nat;
  ci_removals : forall id n, (id, n) ∈ w_removals w -> removed id evs;
  ci_command : forall cmd, w_pc w = Got cmd \/ w_pc w = Pruned cmd -> SupRecv cmd ∈ evs;
}.

Lemma client_inv_part evs w w' :
  client_part w' = client_part w -> (w_next w <= w_next w')%nat ->
  (w_pc w' = w_pc w \/ forall cmd, w_pc w' <> Got cmd /\ w_pc w' <> Pruned cmd) ->
  client_inv evs w -> client_inv evs w'.
Proof.
  unfold client_part. intros [= Ht Hc Hr] Hx Hpc [H1 H2 H3 H4 H5 H6].
  split; rewrite ?Ht, ?Hc, ?Hr; try done.
  - intros n Hn%H4. lia.
  - intros cmd Hcmd. destruct Hpc as [Hpc|Hpc].
    + rewrite Hpc in Hcmd. by apply H6.
    + destruct (Hpc cmd). naive_solver.
Qed.

(** Some tracked session on the server is found, if there is one. *)
Lemma other_on_None w server i n p st :
  other_on w server = None -> w_tracked w !! i = Some n -> cview w !! n = Some (p, st) ->
  p_server p <> server.
Proof.
  unfold other_on. intros Ho Hi Hn Heq.
  assert (Hin : (i, n) ∈ filter (fun e : bytes * nat => same_server w server e.2) (map_to_list (w_tracked w))).
  { apply list_elem_of_filter. split; [|by apply elem_of_map_to_list].
    unfold cview in Hn. rewrite lookup_fmap in Hn. destruct (w_clients w !! n) as [s|] eqn:E; [|done].
    injection Hn as <- _. by exists s. }
  destruct (filter _ _) as [|e l]; [by apply not_elem_of_nil in Hin|done].
Qed.

Lemma spawn_session_client_inv evs sp p key w :
  w_tracked w !! p_id p = None -> other_on w (p_server p) = None ->
  client_inv evs w -> client_inv evs (spawn_session sp p key w).
Proof.
  intros Ht Ho Hi. destruct sp as [[]|e]; [|by eapply client_inv_part; [..|exact Hi]; try done; left].
  destruct Hi as [H1 H2 H3 H4 H5 H6]. cbn. set (w' := with_next _).
  assert (Hv : cview w' = <[w_next w := (p, CNew)]> (cview w))
    by apply (fmap_insert (fun s => (cl_profile s, cl_stage s))).
  assert (Hnew : cview w !! w_next w = None).
  { apply eq_None_not_Some. intros Hn%H4. lia. }
  assert (Hold : forall i n, w_tracked w !! i = Some n -> n <> w_next w).
  { intros i n (q & st & Hn & _)%H1 ->. congruence. }
  split; rewrite ?Hv; cbn.
  - intros id n. rewrite lookup_insert_Some. intros [[<- <-]|[Hne Hn]].
    + exists p, CNew. by rewrite lookup_insert_eq.
    + rewrite lookup_insert_ne by (symmetry; by eapply Hold). by apply H1.
  - intros i j n m q q' st st'. rewrite !lookup_insert_Some.
    intros [[<- <-]|[Hi Hn]] [[<- <-]|[Hj Hm]] Hq Hq' Heq; [done|..].
    + exfalso. destruct Hq as [[_ [= <- <-]]|[]]; [|done].
      destruct Hq' as [[<- _]|[_ Hq']]; [by eapply Hold|]. by eapply other_on_None.
    + exfalso. destruct Hq' as [[_ [= <- <-]]|[]]; [|done].
      destruct Hq as [[<- _]|[_ Hq]]; [by eapply Hold|]. by eapply other_on_None.
    + destruct Hq as [[<- _]|[_ Hq]]; [by eapply Hold in Hn|].
      destruct Hq' as [[<- _]|[_ Hq']]; [by eapply Hold in Hm|]. by eapply (H2 i j).
  - intros n q st. rewrite lookup_insert_Some. intros [[<- [= <- <-]]|[Hne Hn]] Hst.
    + left. apply lookup_insert_eq.
    + destruct (H3 _ _ _ Hn Hst) as [Htr|]; [left|by right].
      rewrite lookup_insert_ne; [done|]. congruence.
  - intros n. destruct (decide (n = w_next w)) as [->|]; [lia|].
    rewrite lookup_insert_ne by done. intros Hn%H4. lia.
  - done.
  - done.
Qed.

(** Forgetting tracked sessions that have let go of their channel. *)
Lemma client_open_view w n :
  client_open w n = match cview w !! n with Some (_, st) => negb (closed_stage st) | None => false end.
Proof.
  unfold client_open, cview. rewrite lookup_fmap. by destruct (w_clients w !! n) as [s|].
Qed.

Lemma prune_client_inv evs w : client_inv evs w -> client_inv evs (prune w).
Proof.
  intros [H1 H2 H3 H4 H5 H6].
  assert (Hp : w_tracked (prune w) = filter (fun '(_, n) => client_open w n = true) (w_tracked w)
    /\ cview (prune w) = cview w /\ w_removals (prune w) = w_removals w
    /\ w_next (prune w) = w_next w /\ w_pc (prune w) = w_pc w)
    by (unfold prune; by repeat case_match).
  destruct Hp as (Ht & Hc & Hr & Hx & Hpc).
  split; rewrite ?Ht, ?Hc, ?Hr, ?Hx, ?Hpc; try done.
  - intros id n [Hn _]%map_lookup_filter_Some. by apply H1.
  - intros i j n m p q st st' [Hn _]%map_lookup_filter_Some [Hm _]%map_lookup_filter_Some. by apply H2.
  - intros n p st Hn Hst. destruct (H3 _ _ _ Hn Hst) as [Htr|]; [left|by right].
    apply map_lookup_filter_Some. split; [done|]. by rewrite client_open_view, Hn, Hst.
Qed.

Lemma on_remove_profile_client_inv evs id w w' :
  on_remove_profile id w = Some w' -> removed id evs -> client_inv evs w -> client_inv evs w'.
Proof.
  unfold on_remove_profile. intros Hr Hrem Hi. destruct (w_tracked w !! id) as [n|] eqn:Htr.
  2: { injection Hr as <-. by eapply client_inv_part; [..|exact Hi]; try done; left. }
  destruct (send_client _ _ _) as [w1|] eqn:E; [|done]. injection Hr as <-.
  apply send_client_part in E as (_ & E2 & E3 & E4). unfold client_part in E2.
  injection E2 as Et Ec Er. cbn in E3, E4.
  destruct Hi as [H1 H2 H3 H4 H5 H6].
  change (cview (with_tracked w (delete id (w_tracked w)))) with (cview w) in Ec.
  set (w' := with_removals w1 _). assert (Hv : cview w' = cview w) by exact Ec.
  split; rewrite ?Hv; cbn [w' with_removals w_tracked w_removals w_next w_pc]; rewrite ?Et, ?Er, ?E3, ?E4.
  - intros i m [_ Hm]%lookup_delete_Some. by apply H1.
  - intros i j k m p q st st' [_ Hk]%lookup_delete_Some [_ Hm]%lookup_delete_Some. by apply H2.
  - intros m p st Hm Hst. destruct (H3 _ _ _ Hm Hst) as [Hm'|Hm'].
    + destruct (decide (p_id p = id)) as [Heq|Hne].
      * right. apply elem_of_app. right. apply list_elem_of_singleton. congruence.
      * left. by rewrite lookup_delete_ne by done.
    + right. apply elem_of_app. by left.
  - done.
  - intros i m [Hm|Hm%list_elem_of_singleton]%elem_of_app; [by eapply H5|]. by injection Hm as -> _.
  - done.
Qed.

Lemma client_step_client_inv evs ev n s w w' :
  w_clients w !! n = Some s -> client_step ev n s w = Some w' -> w_pc w' = w_pc w ->
  client_inv evs w -> client_inv evs w'.
Proof.
  intros Hn Hstep Hpc [H1 H2 H3 H4 H5 H6].
  pose proof (cview_lookup _ _ _ Hn) as Hv.
  apply client_step_part in Hstep as (_ & Hx & Ht & Hr & st & Hc & Hcl); [|done].
  assert (Hback : forall m p st', cview w' !! m = Some (p, st') -> exists st0,
    cview w !! m = Some (p, st0) /\ (closed_stage st' = false -> closed_stage st0 = false)).
  { intros m p st'. rewrite Hc, lookup_insert_Some. intros [[<- [= <- <-]]|[Hne Hm]]; [|eauto].
    exists (cl_stage s). split; [done|]. destruct (closed_stage (cl_stage s)); [|done].
    by rewrite Hcl. }
  split; rewrite ?Ht, ?Hr, ?Hx, ?Hpc; try done.
  - intros i m (p & st' & Hm & Hp)%H1. rewrite Hc. destruct (decide (m = n)) as [->|].
    + rewrite lookup_insert_eq. exists (cl_profile s), st. split; [done|]. congruence.
    + rewrite lookup_insert_ne by done. eauto.
  - intros i j m k p q st1 st2 Hi Hj (? & Hm & _)%Hback (? & Hk & _)%Hback. by eapply H2.
  - intros m p st' (st0 & Hm & Hop)%Hback Hst. by apply (H3 m p st0); [|apply Hop].
  - intros m [[p st'] (st0 & Hm & _)%Hback]. eauto.
Qed.

Lemma slot_removed_client_inv evs k w w' :
  slot_removed k w = Some w' -> w_pc w' = w_pc w -> client_inv evs w -> client_inv evs w'.
Proof.
  intros Hs Hpc [H1 H2 H3 H4 H5 H6].
  apply slot_removed_part in Hs as (_ & Hx & Ht & Hc & id & n & s & Hk & Hn & Hd & Hr).
  split; rewrite ?Ht, ?Hc, ?Hx, ?Hpc; try done.
  - intros m p st Hm Hst. destruct (H3 _ _ _ Hm Hst) as [|Hin]; [by left|right].
    rewrite Hr. apply list_elem_of_lookup in Hin as [j Hj].
    assert (Hjk : j <> k).
    { intros ->. rewrite Hk in Hj. injection Hj as -> ->. apply cview_lookup in Hn.
      rewrite Hm in Hn. injection Hn as -> ->. unfold cl_done in Hd. by destruct (cl_stage s). }
    apply list_elem_of_lookup. destruct (decide (j < k)%nat).
    + exists j. by rewrite list_lookup_delete_lt.
    + exists (Nat.pred j). rewrite list_lookup_delete_ge by lia. by replace (S (Nat.pred j)) with j by lia.
  - intros i m. rewrite Hr. intros [j Hj]%list_elem_of_lookup. apply (H5 i m).
    apply list_elem_of_lookup. destruct (decide (j < k)%nat).
    + exists j. by rewrite list_lookup_delete_lt in Hj.
    + exists (S j). by rewrite list_lookup_delete_ge in Hj by lia.
Qed.

(** The server's commands leave the client sessions alone. *)
Lemma spawn_server_client sp c w :
  client_part (spawn_server sp c w) = client_part w /\ (w_next w <= w_next (spawn_server sp c w))%nat.
Proof. destruct sp; cbn; split; try done; lia. Qed.

Lemma on_start_server_client sp c w :
  client_part (on_start_server sp c w) = client_part w
  /\ (w_next w <= w_next (on_start_server sp c w))%nat.
Proof. unfold on_start_server. repeat case_match; try done. apply spawn_server_client. Qed.

Lemma server_commands_client w w' :
  (exists c, on_restart_server c w = Some w') \/ on_stop_server w = Some w' \/ on_remove_server w = Some w' ->
  client_part w' = client_part w /\ w_next w' = w_next w.
Proof.
  intros [[c H]|[H|H]];
    unfold on_restart_server, on_stop_server, on_remove_server in H; cbn in H; repeat case_match;
    simplify_eq/=; try done;
    first [ by apply send_server_part in H as (_ & H2 & H3 & _)
          | match type of H with context [send_server ?n ?cmd ?v] =>
              destruct (send_server n cmd v) as [w1|] eqn:E; [|done]; injection H as <-;
              by apply send_server_part in E as (_ & H2 & H3 & _) end ].
Qed.

Lemma handle_command_client_inv evs sp cmd w w' :
  handle_command sp cmd w = Some w' -> SupRecv cmd ∈ evs -> client_inv evs w -> client_inv evs w'.
Proof.
  intros Hh Hc Hi.
  assert (Htop : forall w1, client_inv evs w1 -> client_inv evs (with_pc w1 AtTop))
    by (intros w1 H1; eapply client_inv_part; [..|exact H1]; [done|done|by right]).
  assert (Hpart : forall w1, client_part w1 = client_part w -> (w_next w <= w_next w1)%nat ->
    client_inv evs (with_pc w1 AtTop)).
  { intros w1 H1 H2. eapply client_inv_part; [..|exact Hi]; [done|done|by right]. }
  assert (Hnext : forall o, (w1 ← o; Some (with_pc w1 AtTop)) = Some w' ->
    (forall w1, o = Some w1 -> client_inv evs (with_pc w1 AtTop)) -> client_inv evs w').
  { intros o Ho H1. destruct o as [w1|]; [|done]. injection Ho as <-. by apply H1. }
  assert (Hdown : on_shutdown w = Some w' -> client_inv evs w').
  { intros Hd. assert (Hpc : w_pc w' = Exited).
    { revert Hd. unfold on_shutdown. destruct (shutdown_clients _ w) as [w1|]; [|done]. cbn.
      destruct (match w_server w1 with Some _ => _ | None => _ end) as [w2|]; [|done]. by intros [= <-]. }
    apply on_shutdown_part in Hd as (_ & H2 & H3).
    eapply client_inv_part; [exact H2|by rewrite H3|by rewrite Hpc; right|exact Hi]. }
  destruct cmd as [[p key|id|id fs|id|id q|c|c| | | ]|]; cbn in Hh; try (by apply Hdown).
  - injection Hh as <-. apply Htop. unfold on_connect.
    destruct (w_tracked w !! p_id p) eqn:Ht; [done|]. destruct (other_on w (p_server p)) eqn:Ho.
    + by eapply client_inv_part; [..|exact Hi]; try done; left.
    + by apply spawn_session_client_inv.
  - apply (Hnext _ Hh). intros w1 (_ & H2 & H3)%to_session_part. apply Hpart; [done|lia].
  - apply (Hnext _ Hh). intros w1 (_ & H2 & H3)%to_session_part. apply Hpart; [done|lia].
  - apply (Hnext _ Hh). intros w1 H1. apply Htop. by eapply on_remove_profile_client_inv.
  - apply (Hnext _ Hh). intros w1 (_ & H2 & H3)%to_session_part. apply Hpart; [done|lia].
  - injection Hh as <-. apply Hpart; apply on_start_server_client.
  - apply (Hnext _ Hh). intros w1 H1. destruct (server_commands_client w w1) as [H2 H3]; [eauto|].
    apply Hpart; [done|lia].
  - apply (Hnext _ Hh). intros w1 H1. destruct (server_commands_client w w1) as [H2 H3]; [auto|].
    apply Hpart; [done|lia].
  - apply (Hnext _ Hh). intros w1 H1. destruct (server_commands_client w w1) as [H2 H3]; [auto|].
    apply Hpart; [done|lia].
Qed.

Lemma client_step_pc ev n s w w' : client_step ev n s w = Some w' -> w_pc w' = w_pc w.
Proof.
  destruct ev; cbn; unfold client_no_runtime, client_begin, client_created, client_recv, client_tick,
    client_run_ended, client_forward, client_closed, client_command, close_client;
  repeat case_match; intros [= <-]; cbn; congruence.
Qed.

Lemma server_step_pc ev n s w w' : server_step ev n s w = Some w' -> w_pc w' = w_pc w.
Proof.
  destruct ev; cbn; unfold server_no_runtime, server_begin, server_bound, server_recv, server_serve_ended,
    server_poll, server_closed, server_command, stop_serving, finish;
  repeat case_match; intros [= <-]; cbn; congruence.
Qed.

Lemma loop_top_client sp w :
  client_part (loop_top sp w) = client_part w /\ (w_next w <= w_next (loop_top sp w))%nat
  /\ w_pc (loop_top sp w) = Waiting.
Proof.
  unfold loop_top. destruct (live_server w); cbn; [done|]. destruct (w_pending w); cbn; [|done].
  destruct sp; cbn; split_and!; try done; lia.
Qed.

Lemma step_client_inv evs ev w w' :
  client_inv (evs ++ [ev]) w -> step w ev = Some w' -> client_inv (evs ++ [ev]) w'.
Proof.
  intros Hi Hs. destruct ev as [sp|cmd| | |sp|n ev|n ev|k]; cbn in Hs.
  - destruct (w_pc w); try done. injection Hs as <-. destruct (loop_top_client sp w) as (H1 & H2 & H3).
    eapply client_inv_part; [exact H1|exact H2|by rewrite H3; right|exact Hi].
  - destruct (w_pc w); try done. injection Hs as <-. destruct Hi as [H1 H2 H3 H4 H5 H6].
    split; try done. intros c [[= <-]|[=]]. apply elem_of_app. right. by apply list_elem_of_singleton.
  - unfold sup_done in Hs. repeat case_match; simplify_eq.
    by eapply client_inv_part; [..|exact Hi]; try done; right.
  - destruct (w_pc w) as [| |c|c|] eqn:Hpc; try done. injection Hs as <-.
    pose proof (ci_command _ _ Hi c (or_introl Hpc)) as Hc.
    apply prune_client_inv in Hi as [H1 H2 H3 H4 H5 H6].
    split; try done. by intros c' [[=]|[= <-]].
  - destruct (w_pc w) as [| |c|c|] eqn:Hpc; try done. eapply handle_command_client_inv; [exact Hs| |exact Hi].
    eapply ci_command; eauto.
  - destruct (w_clients w !! n) as [s|] eqn:Hn; [|done]. cbn in Hs.
    eapply client_step_client_inv; [exact Hn|exact Hs|by eapply client_step_pc|exact Hi].
  - destruct (w_servers w !! n) as [s|] eqn:Hn; [|done]. cbn in Hs.
    pose proof (server_step_pc _ _ _ _ _ Hs) as Hpc.
    apply server_step_part in Hs as (H1 & H2 & _); [|done].
    eapply client_inv_part; [exact H1|by rewrite H2|by left|exact Hi].
  - eapply slot_removed_client_inv; [exact Hs| |exact Hi].
    revert Hs. unfold slot_removed. destruct (w_removals w !! k) as [[id n]|]; [|done]. cbn.
    destruct (w_clients w !! n) as [s|]; [|done]. cbn. destruct (cl_done s); [|done]. by intros [= <-].
Qed.

Lemma client_inv_mono evs ev w : client_inv evs w -> client_inv (evs ++ [ev]) w.
Proof.
  intros [H1 H2 H3 H4 H5 H6]. split; try done.
  - intros id n Hin. unfold removed. apply elem_of_app. left. by eapply H5.
  - intros cmd Hc. apply elem_of_app. left. by apply H6.
Qed.

Lemma run_client_inv evs : client_inv evs (run evs).
Proof.
  apply run_invariant.
  - split; cbn; try done.
    + intros n [? [=]].
    + intros id n []%not_elem_of_nil.
    + naive_solver.
  - apply client_inv_mono.
  - intros. by eapply step_client_inv.
Qed.

(** ** What a client's snapshot promises *)

Definition live_phase (p : Phase) : bool :=
  match p with PConnected | PReconnecting => true | _ => false end.

(** Some session of the profile is running. *)
Definition has_running (id : bytes) (w : World) : Prop :=
  exists n p, cview w !! n = Some (p, CRunning) /\ p_id p = id.

Definition snaps_live (w : World) : Prop :=
  forall id t, w_snaps w !! id = Some t -> live_phase (sn_phase t) = true -> has_running id w.

(** Steps that add no live snapshot and end no running session. *)
Lemma snaps_live_weaken w w' :
  (forall n p, cview w !! n = Some (p, CRunning) -> cview w' !! n = Some (p, CRunning)) ->
  (forall id t, w_snaps w' !! id = Some t -> live_phase (sn_phase t) = true ->
     exists t', w_snaps w !! id = Some t' /\ live_phase (sn_phase t') = true) ->
  snaps_live w -> snaps_live w'.
Proof.
  intros Hc Hs Hi id t Ht Hp. destruct (Hs _ _ Ht Hp) as (t' & Ht' & Hp').
  destruct (Hi _ _ Ht' Hp') as (n & p & Hn & Hid). exists n, p. eauto.
Qed.

Lemma snaps_live_same w w' :
  cview w' = cview w -> w_snaps w' = w_snaps w -> snaps_live w -> snaps_live w'.
Proof. intros Hc Hs. apply snaps_live_weaken; rewrite ?Hc, ?Hs; eauto. Qed.

Lemma snaps_live_failed f id w :
  (forall t, live_phase (sn_phase (f t)) = false) -> snaps_live w -> snaps_live (update_slot f id w).
Proof.
  intros Hf. apply snaps_live_weaken; [done|]. intros i t. cbn.
  rewrite lookup_insert_Some. intros [[<- <-]|[_ Ht]] Hp; [by rewrite Hf in Hp|eauto].
Qed.

(** What one step of a session leaves in the slots: a live snapshot is its own and it
    runs, or was there before and its session did not stop running. *)
Lemma client_step_snaps ev n s w w' id t :
  client_step ev n s w = Some w' -> w_snaps w' !! id = Some t -> live_phase (sn_phase t) = true ->
  (id = cl_id s /\ cview w' !! n = Some (cl_profile s, CRunning))
  \/ ((exists t', w_snaps w !! id = Some t' /\ live_phase (sn_phase t') = true)
      /\ (cl_stage s = CRunning -> id = cl_id s -> cview w' !! n = Some (cl_profile s, CRunning))).
Proof.
  intros Hstep. destruct s as [p k stg inbox fs m ever]. revert Hstep.
  destruct ev; cbn; unfold client_no_runtime, client_begin, client_created, client_recv, client_tick,
    client_run_ended, client_forward, client_closed, client_command, close_client;
  repeat case_match; intros [= <-]; simplify_eq/=;
  rewrite cview_set, lookup_insert_eq; cbn; rewrite ?insert_insert_eq, ?lookup_insert_Some; cbn;
  intros Ht Hp; destruct_or? Ht; destruct_and? Ht; simplify_eq/=; try done; try (by left);
  try (right; split; [by eauto|done]).
  1: by left; split; [|left].
  right. split; [|done]. destruct (w_snaps w !! _) as [t'|]; [|done]. by exists t'.
Qed.

Lemma client_step_snaps_live ev n s w w' :
  w_clients w !! n = Some s -> client_step ev n s w = Some w' -> snaps_live w -> snaps_live w'.
Proof.
  intros Hn Hstep Hi id t Ht Hp. pose proof (cview_lookup _ _ _ Hn) as Hv.
  destruct (client_step_snaps _ _ _ _ _ _ _ Hstep Ht Hp) as [[-> Hr]|[(t' & Ht' & Hp') Hkeep]].
  - by exists n, (cl_profile s).
  - destruct (Hi _ _ Ht' Hp') as (m & p & Hm & Hid). exists m, p. split; [|done].
    apply client_step_part in Hstep as (_ & _ & _ & _ & st & Hc & _); [|done].
    destruct (decide (m = n)) as [->|].
    + rewrite Hv in Hm. injection Hm as <- Hst. apply Hkeep; [done|by rewrite <- Hid].
    + rewrite Hc, lookup_insert_ne by done. done.
Qed.

(** The supervisor's sends and the server's steps touch no snapshot slot. *)
Lemma send_client_snaps n cmd w w' : send_client n cmd w = Some w' -> w_snaps w' = w_snaps w.
Proof.
  unfold send_client. destruct (w_clients w !! n); [|done]. cbn.
  destruct (cl_closed _); [by intros [= <-]|]. case_bool_decide; [|done]. by intros [= <-].
Qed.

Lemma send_server_snaps n cmd w w' : send_server n cmd w = Some w' -> w_snaps w' = w_snaps w.
Proof.
  unfold send_server. destruct (w_servers w !! n); [|done]. cbn.
  destruct (sr_closed _); [by intros [= <-]|]. case_bool_decide; [|done]. by intros [= <-].
Qed.

Lemma server_step_snaps ev n s w w' : server_step ev n s w = Some w' -> w_snaps w' = w_snaps w.
Proof.
  destruct ev; cbn; unfold server_no_runtime, server_begin, server_bound, server_recv, server_serve_ended,
    server_poll, server_closed, server_command, stop_serving, finish;
  repeat case_match; intros [= <-]; done.
Qed.

Lemma shutdown_clients_snaps ns w w' : shutdown_clients ns w = Some w' -> w_snaps w' = w_snaps w.
Proof.
  revert w. induction ns as [|n ns IH]; intros w; cbn; [by intros [= <-]|].
  destruct (send_client n CShutdown w) as [w1|] eqn:E; [|done]. cbn. intros ->%IH.
  by eapply send_client_snaps.
Qed.

Lemma snaps_live_remove id w : snaps_live w -> snaps_live (remove_slot id w).
Proof.
  apply snaps_live_weaken; [done|]. intros i t. cbn. intros [_ Ht]%lookup_delete_Some. eauto.
Qed.

Lemma on_shutdown_snaps w w' : on_shutdown w = Some w' -> w_snaps w' = w_snaps w.
Proof.
  unfold on_shutdown. destruct (shutdown_clients _ w) as [w1|] eqn:E1; [|done]. cbn.
  apply shutdown_clients_snaps in E1. destruct (w_server w1) as [n|]; [|by intros [= <-]].
  destruct (send_server n SShutdown w1) as [w2|] eqn:E2; [|done]. intros [= <-]. cbn.
  apply send_server_snaps in E2. congruence.
Qed.

Lemma server_commands_snaps w w' :
  (exists c, on_restart_server c w = Some w') \/ on_stop_server w = Some w' \/ on_remove_server w = Some w' ->
  w_snaps w' = w_snaps w.
Proof.
  intros [[c H]|[H|H]];
    unfold on_restart_server, on_stop_server, on_remove_server in H; cbn in H; repeat case_match;
    simplify_eq/=; try done;
    first [ by apply send_server_snaps in H
          | match type of H with context [send_server ?n ?cmd ?v] =>
              destruct (send_server n cmd v) as [w1|] eqn:E; [|done]; injection H as <-;
              by apply send_server_snaps in E end ].
Qed.

Lemma spawn_session_snaps_live sp p key w :
  cview w !! w_next w = None -> snaps_live w -> snaps_live (spawn_session sp p key w).
Proof.
  intros Hnew. destruct sp as [[]|e]; [|by apply snaps_live_failed]. cbn.
  apply snaps_live_weaken; [|eauto]. intros n q Hn. set (w' := with_next _).
  assert (cview w' = <[w_next w := (p, CNew)]> (cview w)) as ->
    by apply (fmap_insert (fun s => (cl_profile s, cl_stage s))).
  rewrite lookup_insert_ne; [done|]. congruence.
Qed.

Lemma client_part_cview w w' : client_part w' = client_part w -> cview w' = cview w.
Proof. unfold client_part. congruence. Qed.

Lemma handle_command_snaps_live sp cmd w w' :
  cview w !! w_next w = None -> handle_command sp cmd w = Some w' -> snaps_live w -> snaps_live w'.
Proof.
  intros Hnew Hh Hi.
  assert (Hsame : forall w1 pc, client_part w1 = client_part w -> w_snaps w1 = w_snaps w ->
    snaps_live (with_pc w1 pc)).
  { intros w1 pc H1%client_part_cview H2. by apply (snaps_live_same w). }
  assert (Hnext : forall o, (w1 ← o; Some (with_pc w1 AtTop)) = Some w' ->
    (forall w1, o = Some w1 -> snaps_live (with_pc w1 AtTop)) -> snaps_live w').
  { intros o Ho H1. destruct o as [w1|]; [|done]. injection Ho as <-. by apply H1. }
  assert (Hto : forall id c w1, to_session id c w = Some w1 -> snaps_live (with_pc w1 AtTop)).
  { intros id c w1 H1. apply Hsame; [by apply to_session_part in H1 as (_ & ? & _)|].
    revert H1. unfold to_session. destruct (w_tracked w !! id); [apply send_client_snaps|by intros [= <-]]. }
  assert (Hdown : on_shutdown w = Some w' -> snaps_live w').
  { intros Hd. apply (snaps_live_same w); [|by apply on_shutdown_snaps|done].
    by apply client_part_cview; apply on_shutdown_part in Hd as (_ & ? & _). }
  assert (Hsrv : forall w1, (exists c, on_restart_server c w = Some w1) \/ on_stop_server w = Some w1
    \/ on_remove_server w = Some w1 -> snaps_live (with_pc w1 AtTop)).
  { intros w1 H1. apply Hsame; [by apply server_commands_client in H1 as []|by apply server_commands_snaps]. }
  destruct cmd as [[p key|id|id fs|id|id q|c|c| | | ]|]; cbn in Hh;
    try (by apply Hdown); try (by eapply (Hnext _ Hh), Hto);
    try (by eapply (Hnext _ Hh); intros w1 H1; apply Hsrv; eauto).
  - injection Hh as <-. eapply snaps_live_same; [done..|]. unfold on_connect.
    repeat case_match; [done|by apply snaps_live_failed|by apply spawn_session_snaps_live].
  - apply (Hnext _ Hh). unfold on_remove_profile. intros w1 H1.
    destruct (w_tracked w !! id) as [n|]; [|injection H1 as <-; by apply snaps_live_remove].
    destruct (send_client _ _ _) as [w2|] eqn:E; [|done]. injection H1 as <-.
    apply (snaps_live_same w); [| |done].
    + by apply send_client_part in E as (_ & E2%client_part_cview & _).
    + by apply send_client_snaps in E.
  - injection Hh as <-. apply Hsame; [apply on_start_server_client|].
    unfold on_start_server. repeat case_match; try done. by destruct sp.
Qed.

Lemma step_snaps_live ev w w' :
  cview w !! w_next w = None -> step w ev = Some w' -> snaps_live w -> snaps_live w'.
Proof.
  intros Hnew Hs Hi. destruct ev as [sp|cmd| | |sp|n ev|n ev|k]; cbn in Hs.
  - destruct (w_pc w); try done. injection Hs as <-. eapply snaps_live_same; [| |exact Hi].
    + apply client_part_cview, loop_top_client.
    + unfold loop_top. repeat case_match; try done. by destruct sp.
  - destruct (w_pc w); try done. by injection Hs as <-.
  - unfold sup_done in Hs. by repeat case_match; simplify_eq.
  - destruct (w_pc w); try done. injection Hs as <-.
    eapply snaps_live_same; [..|exact Hi]; unfold prune; by repeat case_match.
  - destruct (w_pc w); try done. by eapply handle_command_snaps_live.
  - destruct (w_clients w !! n) as [s|] eqn:Hn; [|done]. by eapply client_step_snaps_live.
  - destruct (w_servers w !! n) as [s|] eqn:Hn; [|done]. cbn in Hs.
    eapply snaps_live_same; [|by eapply server_step_snaps|exact Hi].
    by apply client_part_cview; apply server_step_part in Hs as (H1 & _).
  - revert Hs. unfold slot_removed. destruct (w_removals w !! k) as [[id n]|]; [|done]. cbn.
    destruct (w_clients w !! n) as [s|]; [|done]. cbn. destruct (cl_done s); [|done]. intros [= <-].
    by apply (snaps_live_same (remove_slot id w)); [done..|apply snaps_live_remove].
Qed.

Lemma run_snaps_live evs : snaps_live (run evs).
Proof.
  apply (run_invariant (fun evs w => client_inv evs w /\ snaps_live w)) with (evs := evs).
  - split; [apply (run_client_inv [])|by intros ? ? [=]].
  - intros evs' ev w [Hc Hi]. split; [by apply client_inv_mono|done].
  - intros evs' ev w w' [Hc Hi] Hs. split; [by eapply step_client_inv|].
    eapply step_snaps_live; [|exact Hs|exact Hi].
    apply eq_None_not_Some. intros Hn%(ci_fresh _ _ Hc). lia.
Qed.

(** ** A stop that was asked for has reached its session *)

(** A stop, a removal or a shutdown is in the session's channel, or it is closing. *)
Definition halting (s : ServerSession) : Prop :=
  sr_inbox s <> [] \/ exists cmd res, sr_stage s = SClosing cmd res.

Definition stop_part (w : World) := (w_server w, w_stopping w, w_servers w).

Definition stop_inv (w : World) : Prop :=
  w_stopping w = true -> exists n s, w_server w = Some n /\ w_servers w !! n = Some s
    /\ (sr_stage s = SEnded \/ halting s).

Lemma stop_inv_part w w' : stop_part w' = stop_part w -> stop_inv w -> stop_inv w'.
Proof. unfold stop_part, stop_inv. by intros [= -> -> ->]. Qed.

Lemma stop_inv_false w : w_stopping w = false -> stop_inv w.
Proof. unfold stop_inv. by intros ->. Qed.

Lemma send_client_stop_part n cmd w w' : send_client n cmd w = Some w' -> stop_part w' = stop_part w.
Proof. unfold send_client. intros (s & _ & H)%bind_Some. by repeat case_match; simplify_eq. Qed.

Lemma to_session_stop_part id cmd w w' : to_session id cmd w = Some w' -> stop_part w' = stop_part w.
Proof. unfold to_session. case_match; [apply send_client_stop_part|by intros [= <-]]. Qed.

Lemma shutdown_clients_stop_part ns w w' : shutdown_clients ns w = Some w' -> stop_part w' = stop_part w.
Proof.
  revert w. induction ns as [|n ns IH]; cbn; intros w; [by intros [= <-]|].
  intros (w1 & H1%send_client_stop_part & H2%IH)%bind_Some. congruence.
Qed.

Lemma client_step_stop_part ev n s w w' : client_step ev n s w = Some w' -> stop_part w' = stop_part w.
Proof.
  destruct ev; cbn; unfold client_no_runtime, client_begin, client_created, client_recv, client_tick,
    client_run_ended, client_forward, client_closed, client_command, close_client;
  repeat case_match; intros [= <-]; reflexivity.
Qed.

(** A command that is sent to a session that has not ended is in its channel. *)
Lemma send_server_halting n cmd w w' : send_server n cmd w = Some w' ->
  exists s, w_servers w' !! n = Some s /\ (sr_stage s = SEnded \/ halting s).
Proof.
  unfold send_server. intros (s & Hs & H)%bind_Some. destruct (sr_closed s) eqn:Hc.
  - injection H as <-. exists s. split; [done|left]. unfold sr_closed in Hc. by destruct (sr_stage s).
  - case_bool_decide; simplify_eq. eexists. split; [apply lookup_insert_eq|]. right. left. cbn.
    by destruct (sr_inbox s).
Qed.

Lemma send_server_keeps n cmd w w' : send_server n cmd w = Some w' ->
  w_server w' = w_server w /\ w_stopping w' = w_stopping w.
Proof. unfold send_server. intros (s & _ & H)%bind_Some. by repeat case_match; simplify_eq. Qed.

Lemma server_step_stop_inv ev n s w w' :
  w_servers w !! n = Some s -> server_step ev n s w = Some w' -> stop_inv w -> stop_inv w'.
Proof.
  intros Hn Hstep Hi.
  assert (exists s', w_servers w' = <[n := s']> (w_servers w) /\ w_server w' = w_server w
    /\ w_stopping w' = w_stopping w
    /\ (sr_stage s = SEnded \/ halting s -> sr_stage s' = SEnded \/ halting s'))
    as (s' & Hs & Hsrv & Hst & Hh).
  { clear Hn Hi. revert Hstep. unfold halting. destruct s as [c st inbox]; cbn.
    destruct ev; cbn; unfold server_no_runtime, server_begin, server_bound, server_recv, server_serve_ended,
      server_poll, server_closed, server_command, stop_serving, finish; cbn;
    repeat case_match; intros [= <-]; simplify_eq/=;
    (eexists; split; [reflexivity|]; cbn; split_and!; [done|done|]; naive_solver). }
  intros Ht. rewrite Hst in Ht. destruct (Hi Ht) as (m & t & Hm & Htm & Hht).
  rewrite Hsrv, Hs. destruct (decide (m = n)) as [->|Hne].
  - exists n, s'. rewrite lookup_insert_eq. split_and!; [done..|]. apply Hh. congruence.
  - exists m, t. by rewrite lookup_insert_ne.
Qed.

Lemma spawn_server_stopping sp c w : w_stopping (spawn_server sp c w) = w_stopping w.
Proof. by destruct sp. Qed.

Lemma loop_top_stop_inv sp w : stop_inv w -> stop_inv (loop_top sp w).
Proof.
  unfold loop_top, live_server. intros Hi. destruct (w_server w) as [n|] eqn:Hn; [destruct (server_open w n)|].
  1: { cbn. apply (stop_inv_part w); [|done]. unfold stop_part. cbn. by rewrite Hn. }
  all: apply stop_inv_false; cbn; by destruct (w_pending w); rewrite ?spawn_server_stopping.
Qed.

Lemma prune_stop_inv w : stop_inv w -> stop_inv (prune w).
Proof.
  intros Hi. unfold prune. cbn. repeat case_match; try (by apply stop_inv_false);
    by apply (stop_inv_part w).
Qed.

Lemma on_connect_stop_part sp q key w : stop_part (on_connect sp q key w) = stop_part w.
Proof. unfold on_connect. repeat case_match; try done. by destruct sp. Qed.

(** The commands to the server session. *)
Lemma on_start_server_stop_inv sp c w : (w_server w = None -> w_stopping w = false) ->
  stop_inv w -> stop_inv (on_start_server sp c w).
Proof.
  intros Hnone Hi. unfold on_start_server. destruct (w_server w) as [n|] eqn:Hn.
  - destruct (w_stopping w) eqn:Hs; [|done]. apply (stop_inv_part w); [|done]. unfold stop_part. cbn.
    by rewrite Hn, Hs.
  - apply stop_inv_false. rewrite spawn_server_stopping. by apply Hnone.
Qed.

Lemma sent_stop_inv n cmd w w' p b : send_server n cmd w = Some w' ->
  stop_inv (with_server_state w' (Some n) p b).
Proof. intros (s & Hs & Hh)%send_server_halting _. by exists n, s. Qed.

Lemma on_restart_server_stop_inv c w w' : on_restart_server c w = Some w' -> stop_inv w -> stop_inv w'.
Proof.
  unfold on_restart_server. destruct (w_server w) as [n|] eqn:Hn; [|by intros [= <-]].
  destruct (w_stopping w) eqn:Hs.
  - intros [= <-] Hi. case_match; [|done]. apply (stop_inv_part w); [|done]. unfold stop_part. cbn.
    by rewrite Hn, Hs.
  - intros (w1 & H1 & [= <-])%bind_Some _. by eapply sent_stop_inv.
Qed.

Lemma on_stop_server_stop_inv w w' : on_stop_server w = Some w' -> stop_inv w -> stop_inv w'.
Proof.
  unfold on_stop_server. cbn. destruct (w_server w) as [n|] eqn:Hn.
  - intros (w1 & H1 & [= <-])%bind_Some _. by eapply sent_stop_inv.
  - intros [= <-] Hi. apply (stop_inv_part w); [|done]. unfold stop_part. cbn. by rewrite Hn.
Qed.

Lemma on_remove_server_stop_inv w w' :
  (forall n, w_server w = Some n -> is_Some (w_servers w !! n)) ->
  on_remove_server w = Some w' -> stop_inv w -> stop_inv w'.
Proof.
  intros Hk. unfold on_remove_server. cbn. destruct (w_server w) as [n|] eqn:Hn.
  - destruct (server_open _ n) eqn:Ho.
    + intros H _ _. destruct (send_server_keeps _ _ _ _ H) as [Es _].
      destruct (send_server_halting _ _ _ _ H) as (s & Hs & Hh). exists n, s. by rewrite Es.
    + intros [= <-] _ _. destruct (Hk n eq_refl) as [s Hs]. exists n, s. split_and!; [done..|left].
      unfold server_open in Ho. cbn in Ho. rewrite Hs in Ho. unfold sr_closed in Ho. by destruct (sr_stage s).
  - intros [= <-] _. by apply stop_inv_false.
Qed.

Lemma on_shutdown_stop_inv w w' : on_shutdown w = Some w' -> stop_inv w -> stop_inv w'.
Proof.
  unfold on_shutdown. intros (w1 & H1%shutdown_clients_stop_part & H)%bind_Some Hi.
  apply (stop_inv_part _ w1) in Hi; [|done]. destruct (w_server w1) as [n|] eqn:Hn.
  - apply bind_Some in H as (w2 & H2 & [= <-]). intros Ht. cbn in Ht.
    destruct (send_server_keeps _ _ _ _ H2) as [Es Et].
    destruct (send_server_halting _ _ _ _ H2) as (s & Hs & Hh). exists n, s. cbn. by rewrite Es.
  - cbn in H. injection H as <-. by apply (stop_inv_part w1).
Qed.

Lemma handle_command_stop_inv sp cmd w w' : server_inv w -> (w_server w = None -> w_stopping w = false) ->
  handle_command sp cmd w = Some w' -> stop_inv w -> stop_inv w'.
Proof.
  intros Hsi Hnone Hh Hi.
  assert (Hk : forall n, w_server w = Some n -> is_Some (w_servers w !! n)).
  { intros n Hn. destruct (si_known _ Hsi n Hn) as [st Hst]. unfold sview in Hst.
    rewrite lookup_fmap in Hst. apply fmap_Some in Hst as (s & Hs & _). eauto. }
  assert (Hpc : forall w1, stop_inv w1 -> stop_inv (with_pc w1 AtTop)) by (intros w1; by apply stop_inv_part).
  destruct cmd as [[]|]; cbn in Hh; try (apply bind_Some in Hh as (w1 & H1 & [= <-]); apply Hpc).
  - injection Hh as <-. apply Hpc, (stop_inv_part w); [apply on_connect_stop_part|done].
  - by apply (stop_inv_part w); [eapply to_session_stop_part|].
  - by apply (stop_inv_part w); [eapply to_session_stop_part|].
  - apply (stop_inv_part w); [|done]. unfold on_remove_profile in H1. case_match.
    + apply bind_Some in H1 as (w2 & H2%send_client_stop_part & [= <-]). by etransitivity; [|exact H2].
    + by injection H1 as <-.
  - by apply (stop_inv_part w); [eapply to_session_stop_part|].
  - injection Hh as <-. by apply Hpc, on_start_server_stop_inv.
  - by eapply on_restart_server_stop_inv.
  - by eapply on_stop_server_stop_inv.
  - by eapply on_remove_server_stop_inv.
  - by eapply on_shutdown_stop_inv.
  - by eapply on_shutdown_stop_inv.
Qed.

Lemma stop_inv_none w : stop_inv w -> w_server w = None -> w_stopping w = false.
Proof.
  intros Hi Hn. destruct (w_stopping w) eqn:Hs; [|done]. destruct (Hi Hs) as (n & s & ? & _). congruence.
Qed.

Lemma step_stop_inv w ev w' : server_inv w -> step w ev = Some w' -> stop_inv w -> stop_inv w'.
Proof.
  intros Hsi Hs Hi. destruct ev as [sp|cmd| | |sp|n ev|n ev|k]; cbn in Hs.
  - destruct (w_pc w); try done. injection Hs as <-. by apply loop_top_stop_inv.
  - destruct (w_pc w); try done. injection Hs as <-. by apply (stop_inv_part w).
  - unfold sup_done in Hs. repeat case_match; simplify_eq. by apply (stop_inv_part w).
  - destruct (w_pc w); try done. injection Hs as <-.
    by apply (stop_inv_part (prune w)), prune_stop_inv.
  - destruct (w_pc w); try done. eapply handle_command_stop_inv; [..|exact Hi]; [done| |done].
    by apply stop_inv_none.
  - apply bind_Some in Hs as (s & Hn & Hs%client_step_stop_part). by apply (stop_inv_part w).
  - apply bind_Some in Hs as (s & Hn & Hs). by eapply server_step_stop_inv.
  - unfold slot_removed in Hs. apply bind_Some in Hs as ([id n] & _ & Hs).
    apply bind_Some in Hs as (s & _ & Hs). case_match; simplify_eq. by apply (stop_inv_part w).
Qed.

Lemma run_stop_inv evs : stop_inv (run evs).
Proof.
  apply (run_invariant (fun _ w => server_inv w /\ stop_inv w)).
  - split; [apply (run_server_inv [])|by apply stop_inv_false].
  - done.
  - intros evs' ev w w' [Hsi Hi] Hs. split; [by eapply step_server_inv|by eapply step_stop_inv].
Qed.

(** ** Concrete runs *)

Definition demo_config (name : bytes) : DesktopStore.ServerConfig :=
  mkServer name [] [] [] [] [] None true.

Definition demo_profile (id server : bytes) : Profile :=
  mkProfile id id server [] (Some 1080%Z) None [] None [].

(** The supervisor takes one command; a thread comes up. *)
Definition taken (cmd : Command) : list Event :=
  [SupTop (Ok tt); SupRecv (Some cmd); SupPrune; SupHandle (Ok tt)].
Definition serving (n : nat) : list Event :=
  [ServerStep n (SBegin (Ok tt)); ServerStep n (SBound (Ok tt) 1%Z)].
Definition running (n : nat) : list Event :=
  [ClientStep n (CBegin (Ok tt)); ClientStep n (CCreated (Ok tt) (Ok tt))].

(** ** Theorems *)

(** C14. Over every interleaving of commands, the supervisor and the session threads,
    at most one server session has not ended, and it is the one the supervisor holds:
    starting, stopping, restarting and removing never run two servers of one identity. *)
Theorem one_server_session (evs : list Event) (n m : nat) (s t : ServerSession) :
  w_servers (run evs) !! n = Some s -> w_servers (run evs) !! m = Some t ->
  sr_stage s <> SEnded -> sr_stage t <> SEnded ->
  n = m /\ w_server (run evs) = Some n.
Proof.
  intros Hn Hm Hs Ht. pose proof (run_server_inv evs) as [Ha _ _ _].
  pose proof (Ha _ _ (sview_lookup _ _ _ Hn) Hs). pose proof (Ha _ _ (sview_lookup _ _ _ Hm) Ht).
  split; congruence.
Qed.

(** A restart, between its two sessions. *)
Definition restarted : list Event :=
  taken (StartServer (demo_config (str "a"))) ++ serving 0
  ++ taken (RestartServer (demo_config (str "b"))) ++ [ServerStep 0 SRecv; SupTop (Ok tt);
     ServerStep 0 SClosed; SupDone; SupTop (Ok tt)].

Definition demo_server (evs : list Event) (n : nat) : ServerSession :=
  default (mkServerSession (demo_config []) SEnded []) (w_servers (run evs) !! n).

Lemma one_server_session_witness :
  w_servers (run restarted) !! 1%nat = Some (demo_server restarted 1)
  /\ sr_config (demo_server restarted 1) = demo_config (str "b")
  /\ 1%nat = 1%nat /\ w_server (run restarted) = Some 1%nat.
Proof.
  split; [vm_compute; reflexivity|]. split; [vm_compute; reflexivity|].
  apply (one_server_session restarted 1 1 (demo_server restarted 1) (demo_server restarted 1));
    [vm_compute; reflexivity|vm_compute; reflexivity|vm_compute; discriminate|vm_compute; discriminate].
Defined.

(** The server's snapshot tells the truth about that session in every reachable
    state: starting while it binds, running (with the time it started) exactly while it
    serves, stopping while it closes, and stopped or failed when there is none or it has
    not begun; only a running server shows connected clients. *)
Theorem server_snapshot_truthful (evs : list Event) :
  server_view (current (run evs)) (w_server_snap (run evs)).
Proof. apply si_snap, run_server_inv. Qed.

(** C15. Two sessions that still hold their command channel are never connected to the
    same server, unless the profile of one of them was deleted meanwhile. *)
Theorem one_session_per_server (evs : list Event) (n m : nat) (s t : ClientSession) :
  w_clients (run evs) !! n = Some s -> w_clients (run evs) !! m = Some t ->
  cl_closed s = false -> cl_closed t = false ->
  p_server (cl_profile s) = p_server (cl_profile t) ->
  ~ removed (cl_id s) evs -> ~ removed (cl_id t) evs -> n = m.
Proof.
  intros Hn Hm Hs Ht Heq Hrs Hrt. pose proof (run_client_inv evs) as [H1 H2 H3 H4 H5 H6].
  apply cview_lookup in Hn, Hm.
  destruct (H3 _ _ _ Hn Hs) as [Tn|Rn]; [|by apply H5 in Rn].
  destruct (H3 _ _ _ Hm Ht) as [Tm|Rm]; [|by apply H5 in Rm].
  pose proof (H2 _ _ _ _ _ _ _ _ Tn Tm Hn Hm Heq). congruence.
Qed.

Definition reconnected : list Event :=
  taken (Connect (demo_profile (str "p") (str "x")) (str "k")) ++ running 0
  ++ taken (Connect (demo_profile (str "q") (str "x")) (str "k")).

Definition demo_client (evs : list Event) (n : nat) : ClientSession :=
  default (mkClientSession (demo_profile [] []) [] CEnded [] [] None false) (w_clients (run evs) !! n).

Lemma one_session_per_server_witness :
  sn_phase <$> (w_snaps (run reconnected) !! str "q") = Some PFailed /\ 0%nat = 0%nat.
Proof.
  split; [vm_compute; reflexivity|].
  apply (one_session_per_server reconnected 0 0 (demo_client reconnected 0) (demo_client reconnected 0));
    try (vm_compute; reflexivity);
    (intros H; vm_compute in H;
     repeat (apply elem_of_cons in H as [H|H]; [discriminate|]); by apply elem_of_nil in H).
Defined.

(** A profile shown as connected or reconnecting has a session that runs: no
    session's end, failed start, refused duplicate or removal leaves such a snapshot
    behind. *)
Theorem connected_snapshot_live (evs : list Event) (id : bytes) (t : Snapshot) :
  w_snaps (run evs) !! id = Some t -> live_phase (sn_phase t) = true ->
  exists n s, w_clients (run evs) !! n = Some s /\ cl_stage s = CRunning /\ cl_id s = id.
Proof.
  intros Ht Hp. destruct (run_snaps_live evs id t Ht Hp) as (n & p & Hn & Hid).
  unfold cview in Hn. rewrite lookup_fmap in Hn.
  destruct (w_clients (run evs) !! n) as [s|] eqn:E; [|done]. injection Hn as <- Hst. by exists n, s.
Qed.

Definition demo_routes : TunnelRoutes := mkTunnelRoutes true [] [] [] [] [].
Definition went_up : list Event :=
  taken (Connect (demo_profile (str "p") (str "x")) (str "k")) ++ running 0
  ++ [ClientStep 0 (CTick demo_routes 5%Z)].
Definition demo_snap (evs : list Event) (id : bytes) : Snapshot :=
  default Snapshot_default (w_snaps (run evs) !! id).

Lemma connected_snapshot_live_witness :
  sn_phase (demo_snap went_up (str "p")) = PConnected
  /\ exists n s, w_clients (run went_up) !! n = Some s /\ cl_stage s = CRunning /\ cl_id s = str "p".
Proof.
  split; [vm_compute; reflexivity|].
  apply (connected_snapshot_live went_up (str "p") (demo_snap went_up (str "p")));
    vm_compute; reflexivity.
Defined.

(** The steps that carry out a restart of the session [n]. *)
Definition restart_schedule (sp : result bytes ()) (n : nat) : list Event :=
  [SupHandle sp; SupTop sp; ServerStep n SRecv; ServerStep n SClosed; SupDone; SupTop (Ok tt)].

Lemma run_step w ev w' evs : step w ev = Some w' -> foldl exec w (ev :: evs) = foldl exec w' evs.
Proof. cbn. unfold exec at 2. by intros ->. Qed.

Lemma send_server_takes n cmd w s :
  w_servers w !! n = Some s -> sr_stage s <> SEnded -> (length (sr_inbox s) < SESSION_CHANNEL)%nat ->
  send_server n cmd w = Some (set_server w n (mkServerSession (sr_config s) (sr_stage s) (sr_inbox s ++ [cmd]))).
Proof.
  intros Hn Hst Hl. unfold send_server. rewrite Hn. cbn.
  assert (sr_closed s = false) as -> by (unfold sr_closed; by destruct (sr_stage s)).
  by rewrite bool_decide_true.
Qed.

(** A session told to stop closes, then ends; the supervisor's own state is untouched. *)
Lemma stop_received n c st cmd rest w :
  st = SBinding \/ st = SServing ->
  exists w', server_recv n (mkServerSession c st (cmd :: rest)) w = Some w'
    /\ w_servers w' = <[n := mkServerSession c (SClosing (Some cmd) (Ok tt)) rest]> (w_servers w)
    /\ w_pc w' = w_pc w /\ w_server w' = w_server w /\ w_pending w' = w_pending w /\ w_next w' = w_next w.
Proof. unfold server_recv, server_command. cbn. intros [-> | ->]; by eexists. Qed.

Lemma stop_finished n c cmd rest w :
  exists w', server_closed n (mkServerSession c (SClosing (Some cmd) (Ok tt)) rest) w = Some w'
    /\ w_servers w' = <[n := mkServerSession c SEnded rest]> (w_servers w)
    /\ w_pc w' = w_pc w /\ w_server w' = w_server w /\ w_pending w' = w_pending w /\ w_next w' = w_next w.
Proof. unfold server_closed, finish. cbn. by destruct cmd; eexists. Qed.

(** A restart completes: a server that is binding or serving and was not told to
    stop, asked to restart with a new configuration, is stopped, closed, and followed by
    a session of that configuration as soon as its thread has ended; nothing is left
    pending. *)
Theorem restart_completes (evs : list Event) (sp : result bytes ()) (c : DesktopStore.ServerConfig) (n : nat)
    (s : ServerSession) :
  w_pc (run evs) = Pruned (Some (RestartServer c)) -> w_server (run evs) = Some n ->
  w_stopping (run evs) = false -> w_servers (run evs) !! n = Some s ->
  sr_stage s = SBinding \/ sr_stage s = SServing -> (length (sr_inbox s) < SESSION_CHANNEL)%nat ->
  let w := run (evs ++ restart_schedule sp n) in
  exists m, w_server w = Some m /\ m <> n /\ w_servers w !! m = Some (mkServerSession c SNew [])
    /\ sr_stage <$> (w_servers w !! n) = Some SEnded /\ w_pending w = None.
Proof.
  intros Hpc Hsrv Hstop Hn Hst Hlen w.
  assert (Hfresh : (n < w_next (run evs))%nat).
  { apply (si_fresh _ (run_server_inv evs)). rewrite (sview_lookup _ _ _ Hn). eauto. }
  subst w. unfold run in *. rewrite foldl_app. remember (foldl exec world_start evs) as w0 eqn:E0. clear E0.
  destruct w0 as [pc srv pend stop tr svs cls nx snap snaps rem reps], s as [c0 st inbox].
  cbn in Hpc, Hsrv, Hstop, Hn, Hst, Hlen, Hfresh. subst pc srv stop. unfold restart_schedule.
  assert (Hopen : forall l, sr_closed (mkServerSession c0 st l) = false) by (intros; by destruct Hst; subst).
  erewrite run_step.
  2: { cbn. rewrite (send_server_takes n SStop _ (mkServerSession c0 st inbox)); [|done| |done].
       - cbn. reflexivity.
       - by destruct Hst; subst. }
  erewrite run_step.
  2: { cbn. unfold loop_top, live_server, server_open. cbn. rewrite lookup_insert_eq, Hopen. cbn. reflexivity. }
  destruct (inbox ++ [SStop]) as [|cmd rest] eqn:Ein; [by destruct inbox|].
  match goal with |- context [foldl exec ?v _] => destruct (stop_received n c0 st cmd rest v Hst) as (w2 & E2 & F1 & F2 & F3 & F4 & F5) end.
  erewrite run_step; [|cbn; rewrite lookup_insert_eq; exact E2].
  cbn in F1, F2, F3, F4, F5. rewrite insert_insert_eq in F1.
  destruct w2 as [pc2 srv2 pend2 stop2 tr2 svs2 cls2 nx2 snap2 snaps2 rem2 reps2].
  cbn in F1, F2, F3, F4, F5. subst pc2 srv2 pend2 nx2 svs2.
  match goal with |- context [foldl exec ?v _] => destruct (stop_finished n c0 cmd rest v) as (w3 & E3 & F1 & F2 & F3 & F4 & F5) end.
  erewrite run_step; [|cbn; rewrite lookup_insert_eq; exact E3].
  destruct w3 as [pc2 srv2 pend2 stop3 tr3 svs2 cls3 nx2 snap3 snaps3 rem3 reps3].
  cbn in F1, F2, F3, F4, F5. rewrite insert_insert_eq in F1. subst pc2 srv2 pend2 nx2 svs2.
  erewrite run_step; [|cbn; unfold sup_done, server_open; cbn; rewrite lookup_insert_eq; cbn; reflexivity].
  erewrite run_step; [|cbn; reflexivity].
  cbn [foldl]. unfold loop_top, live_server, server_open. cbn. rewrite lookup_insert_eq. cbn.
  exists nx. split_and!; try done; [lia|apply lookup_insert_eq|].
  rewrite lookup_insert_ne by lia. by rewrite lookup_insert_eq.
Qed.

Definition asked_to_restart : list Event :=
  taken (StartServer (demo_config (str "a"))) ++ serving 0
  ++ [SupTop (Ok tt); SupRecv (Some (RestartServer (demo_config (str "b")))); SupPrune].

Lemma restart_completes_witness :
  let w := run (asked_to_restart ++ restart_schedule (Ok tt) 0) in
  exists m, w_server w = Some m /\ m <> 0%nat
    /\ w_servers w !! m = Some (mkServerSession (demo_config (str "b")) SNew [])
    /\ sr_stage <$> (w_servers w !! 0%nat) = Some SEnded /\ w_pending w = None.
Proof.
  apply (restart_completes asked_to_restart (Ok tt) (demo_config (str "b")) 0 (demo_server asked_to_restart 0));
    try (vm_compute; reflexivity).
  - right. vm_compute. reflexivity.
  - vm_compute. lia.
Defined.

(** ** Where the interleaving loses a command *)

(** A restart received after the old session has ended but before the supervisor has
    noticed: the newer configuration is dropped and the older one is started. *)
Definition restart_race : list Event :=
  taken (StartServer (demo_config (str "a"))) ++ serving 0
  ++ taken (RestartServer (demo_config (str "b")))
  ++ [SupTop (Ok tt); ServerStep 0 SRecv; ServerStep 0 SClosed;
      SupRecv (Some (RestartServer (demo_config (str "c")))); SupPrune; SupHandle (Ok tt); SupTop (Ok tt)].

Theorem restart_race_drops_newer :
  w_server (run restart_race) = Some 1%nat
  /\ w_servers (run restart_race) !! 1%nat = Some (mkServerSession (demo_config (str "b")) SNew [])
  /\ w_pending (run restart_race) = None.
Proof. by vm_compute. Qed.

(** A start in the same window runs at once but leaves the older configuration pending:
    when the new session ends by itself, the older one is started unasked. *)
Definition start_race : list Event :=
  taken (StartServer (demo_config (str "a"))) ++ serving 0
  ++ taken (RestartServer (demo_config (str "b")))
  ++ [SupTop (Ok tt); ServerStep 0 SRecv; ServerStep 0 SClosed;
      SupRecv (Some (StartServer (demo_config (str "c")))); SupPrune; SupHandle (Ok tt); SupTop (Ok tt)]
  ++ serving 1 ++ [ServerStep 1 (SServeEnded (Err (str "lost"))); ServerStep 1 SClosed; SupDone; SupTop (Ok tt)].

Theorem start_race_revives_older :
  sr_config <$> (w_servers (run start_race) !! 1%nat) = Some (demo_config (str "c"))
  /\ w_server (run start_race) = Some 2%nat
  /\ w_servers (run start_race) !! 2%nat = Some (mkServerSession (demo_config (str "b")) SNew []).
Proof. by vm_compute. Qed.

(** A profile deleted while connected gives its server free at once: another profile
    connects to it while the old session still serves. *)
Definition overlap : list Event :=
  taken (Connect (demo_profile (str "p") (str "x")) (str "k")) ++ running 0
  ++ taken (RemoveProfile (str "p"))
  ++ taken (Connect (demo_profile (str "q") (str "x")) (str "k")) ++ running 1.

Theorem removed_profile_overlaps :
  forall n, (n < 2)%nat ->
  cl_stage (demo_client overlap n) = CRunning
  /\ p_server (cl_profile (demo_client overlap n)) = str "x".
Proof. intros [|[|n]] Hn; [by vm_compute..|lia]. Qed.

(** A server removed while its session is closing after a failure keeps the failure in
    the snapshot. *)
Definition removed_failing : list Event :=
  taken (StartServer (demo_config (str "a"))) ++ serving 0
  ++ [ServerStep 0 (SServeEnded (Err (str "lost")))]
  ++ taken RemoveServer ++ [ServerStep 0 SClosed; SupTop (Ok tt)].

Theorem removed_server_shows_failure :
  w_server_snap (run removed_failing) = mkServerSnapshot SvFailed None [] (Some (str "lost"))
  /\ w_server (run removed_failing) = None.
Proof. by vm_compute. Qed.
