(* ===== verification/Controller.v ===== *)
(** * The desktop's controller ([tunnel.rs]: [Controller])

    The window's side of the supervisor: a channel of sixteen commands, filled by
    blocking sends from the window's thread and emptied by the supervisor's loop. A send
    that would block is [None], like every step that cannot happen; once the supervisor
    has returned, the channel is gone and a send does nothing. *)

From S2P Require Import Prelude RustStr Net Stream Signaling Socks5 RoutedSet DnsForward Dial Blocklist.
From S2P Require Import Registry Server Client Http LocalConn Accept Forward ForwardProofs PortForwards.
From S2P Require Import Config Ipc Session DesktopStore Supervisor SupervisorProofs.

Definition COMMAND_CHANNEL : nat := 16.

Record Controller : Type := mkController {
  ct_queue : list Command;
  ct_world : World;
  ct_joined : bool;            (* [thread.take()] was joined *)
}.

Definition controller_start : Controller := mkController [] world_start false.

Definition with_queue (c : Controller) (q : list Command) : Controller := mkController q (ct_world c) (ct_joined c).

Definition exited (w : World) : bool := match w_pc w with Exited => true | _ => false end.

(** [blocking_send]: whether the command was taken. *)
Definition blocking_send (cmd : Command) (c : Controller) : option (bool * Controller) :=
  if exited (ct_world c) then Some (false, c)
  else if bool_decide (length (ct_queue c) < COMMAND_CHANNEL)%nat
  then Some (true, with_queue c (ct_queue c ++ [cmd])) else None.

Definition send_ignored (cmd : Command) (c : Controller) : option Controller := snd <$> blocking_send cmd c.

Definition start_server (s : ServerConfig) : Controller -> option Controller := send_ignored (StartServer s).
Definition restart_server (s : ServerConfig) : Controller -> option Controller := send_ignored (RestartServer s).
Definition stop_server : Controller -> option Controller := send_ignored StopServer.
Definition remove_server : Controller -> option Controller := send_ignored RemoveServer.
Definition connect (p : Profile) (auth_key : bytes) : Controller -> option Controller := send_ignored (Connect p auth_key).
Definition disconnect (id : bytes) : Controller -> option Controller := send_ignored (Disconnect id).
Definition set_forwards (id : bytes) (fs : list PortForward) : Controller -> option Controller :=
  send_ignored (SetForwards id fs).
Definition remove_profile (id : bytes) : Controller -> option Controller := send_ignored (RemoveProfile id).

Definition snapshots (c : Controller) : gmap bytes Snapshot := w_snaps (ct_world c).
Definition server_snapshot (c : Controller) : ServerSnapshot := w_server_snap (ct_world c).

(** The first half of [query_conn_path]: whether there is an answer to wait for. *)
Definition query_conn_path (id : bytes) (reply : Z) (c : Controller) : option (bool * Controller) :=
  blocking_send (QueryConnPath id reply) c.

(** The two halves of [shutdown]. *)
Definition ask_shutdown : Controller -> option Controller := send_ignored Shutdown.
Definition join (c : Controller) : option Controller :=
  if ct_joined c then Some c
  else if exited (ct_world c) then Some (mkController (ct_queue c) (ct_world c) true) else None.

Inductive CtlEvent : Type :=
| Sends (cmd : Command)          (* the window's thread *)
| Joins
| Receives                       (* the supervisor takes a command *)
| Moves (ev : Event).            (* any other step of the threads *)

Definition ctl_step (c : Controller) (ev : CtlEvent) : option Controller :=
  match ev with
  | Sends cmd => send_ignored cmd c
  | Joins => join c
  | Receives =>
      match ct_queue c with
      | cmd :: q => w ← step (ct_world c) (SupRecv (Some cmd)); Some (mkController q w (ct_joined c))
      | [] => None
      end
  | Moves (SupRecv _) => None
  | Moves ev => w ← step (ct_world c) ev; Some (mkController (ct_queue c) w (ct_joined c))
  end.

(** A run in which every step could happen. *)
Fixpoint ctl_run (c : Controller) (evs : list CtlEvent) : option Controller :=
  match evs with
  | [] => Some c
  | ev :: evs => c ← ctl_step c ev; ctl_run c evs
  end.

(** ** Commands arrive in order *)

(** The supervisor's step in one of the controller's. *)
Definition sup_event (c : Controller) (ev : CtlEvent) : list Event :=
  match ev, ct_queue c with
  | Receives, cmd :: _ => [SupRecv (Some cmd)]
  | Moves ev, _ => [ev]
  | _, _ => []
  end.

Fixpoint sup_events (c : Controller) (evs : list CtlEvent) : list Event :=
  match evs with
  | [] => []
  | ev :: evs => sup_event c ev ++ match ctl_step c ev with Some c => sup_events c evs | None => [] end
  end.

Definition commands_sent (evs : list CtlEvent) : list Command :=
  omap (fun ev => match ev with Sends cmd => Some cmd | _ => None end) evs.
Definition commands_received (evs : list Event) : list Command :=
  omap (fun ev => match ev with SupRecv (Some cmd) => Some cmd | _ => None end) evs.

Lemma exec_step w ev w' : step w ev = Some w' -> exec w ev = w'.
Proof. unfold exec. by intros ->. Qed.


Lemma exited_stays w ev w' : step w ev = Some w' -> exited w = true -> exited w' = true.
Proof.
  unfold exited. intros Hs He. destruct (w_pc w) eqn:Hpc; try done. unfold step in Hs. rewrite Hpc in Hs.
  destruct ev; try done.
  - unfold sup_done in Hs. by rewrite Hpc in Hs.
  - apply bind_Some in Hs as (s & _ & Hs%client_step_pc). by rewrite Hs, Hpc.
  - apply bind_Some in Hs as (s & _ & Hs%server_step_pc). by rewrite Hs, Hpc.
  - unfold slot_removed in Hs. apply bind_Some in Hs as ([id n] & _ & (s & _ & Hs)%bind_Some).
    destruct (cl_done s); [|done]. injection Hs as <-. cbn. by rewrite Hpc.
Qed.

Lemma move_step c ev c' :
  ctl_step c (Moves ev) = Some c' ->
  step (ct_world c) ev = Some (ct_world c') /\ ct_queue c' = ct_queue c /\ commands_received [ev] = [].
Proof. destruct ev; try done; cbn; intros (w & Hw & [= <-])%bind_Some; by rewrite Hw. Qed.

(** One step of the controller, as a step of the supervisor. *)
Lemma ctl_step_sup c ev c' :
  ctl_step c ev = Some c' -> (length (ct_queue c) <= COMMAND_CHANNEL)%nat ->
  ct_world c' = foldl exec (ct_world c) (sup_event c ev)
  /\ (length (ct_queue c') <= COMMAND_CHANNEL)%nat
  /\ (exited (ct_world c) = true -> exited (ct_world c') = true)
  /\ (exited (ct_world c) = false ->
      ct_queue c ++ commands_sent [ev] = commands_received (sup_event c ev) ++ ct_queue c').
Proof.
  intros Hs Hq. destruct ev as [cmd| | |ev].
  - cbn in Hs. unfold send_ignored, blocking_send in Hs. destruct (exited (ct_world c)) eqn:He; cbn in *.
    { by injection Hs as <-. }
    case_bool_decide; [|done]. injection Hs as <-. cbn. rewrite He, length_app. cbn. split_and!; [done|lia|done|done].
  - cbn in Hs. unfold join in Hs. cbn. rewrite app_nil_r.
    destruct (ct_joined c); [by injection Hs as <-|]. destruct (exited (ct_world c)) eqn:He; [|done].
    injection Hs as <-. cbn. by rewrite He.
  - cbn in Hs. unfold sup_event. destruct (ct_queue c) as [|cmd q] eqn:Hc; [done|].
    destruct (w_pc (ct_world c)) eqn:Hpc; try done. injection Hs as <-. cbn. unfold exec. cbn. rewrite Hpc. cbn.
    rewrite app_nil_r. cbn in Hq. split_and!; [done|lia| |done]. unfold exited. by rewrite Hpc.
  - apply move_step in Hs as (Hs & Hqueue & Hr). cbn [sup_event foldl]. rewrite Hqueue, Hr, app_nil_r.
    split_and!; [by rewrite (exec_step _ _ _ Hs)|done|by eapply exited_stays|done].
Qed.

Lemma ctl_run_sup c evs c' :
  ctl_run c evs = Some c' -> (length (ct_queue c) <= COMMAND_CHANNEL)%nat ->
  ct_world c' = foldl exec (ct_world c) (sup_events c evs)
  /\ (length (ct_queue c') <= COMMAND_CHANNEL)%nat
  /\ (exited (ct_world c) = true -> exited (ct_world c') = true)
  /\ (exited (ct_world c') = false ->
      ct_queue c ++ commands_sent evs = commands_received (sup_events c evs) ++ ct_queue c').
Proof.
  revert c. induction evs as [|ev evs IH]; intros c.
  - cbn. intros [= <-] Hq. by rewrite app_nil_r.
  - cbn [ctl_run sup_events]. intros (c1 & Hs & Hrun)%bind_Some Hq. rewrite Hs.
    destruct (ctl_step_sup _ _ _ Hs Hq) as (Hw & Hq1 & He & Hc).
    destruct (IH _ Hrun Hq1) as (Hw' & Hq' & He' & Hc'). split_and!; [|done|tauto|].
    + by rewrite foldl_app, <- Hw.
    + intros Hn. assert (exited (ct_world c1) = false) as H1 by (by destruct (exited (ct_world c1)); [rewrite He' in Hn|]).
      assert (exited (ct_world c) = false) as H0 by (by destruct (exited (ct_world c)); [rewrite He in H1|]).
      unfold commands_sent, commands_received in *. change (ev :: evs) with ([ev] ++ evs). rewrite !omap_app.
      by rewrite (assoc_L (++)), Hc, <- (assoc_L (++)), Hc', (assoc_L (++)) by done.
Qed.

(** The window's commands reach the supervisor, each once and in the order of the
    clicks: along every run of the threads the supervisor's state is one of its own runs,
    and until it returns the commands sent are those it has received followed by the at
    most sixteen in the channel. *)
Theorem commands_in_order evs c :
  ctl_run controller_start evs = Some c ->
  ct_world c = run (sup_events controller_start evs)
  /\ (length (ct_queue c) <= COMMAND_CHANNEL)%nat
  /\ (exited (ct_world c) = false ->
      commands_sent evs = commands_received (sup_events controller_start evs) ++ ct_queue c).
Proof.
  intros Hrun. destruct (ctl_run_sup _ _ _ Hrun) as (Hw & Hq & _ & Hc); [cbn; lia|done].
Qed.

(** ** A session that does not read its channel *)

(** A wedged session stops the window. The deadline of [query_conn_path] covers the wait
    for the answer only: while session [n] has its channel full and the supervisor holds
    another command for it, none of the supervisor's steps can happen and it receives
    nothing; with its own channel full as well every further command of the window, a
    query included, blocks, and so does the join at shutdown. *)
Theorem wedged_session_blocks_window c id q n s :
  w_pc (ct_world c) = Pruned (Some (QueryConnPath id q)) -> w_tracked (ct_world c) !! id = Some n ->
  w_clients (ct_world c) !! n = Some s -> cl_closed s = false -> length (cl_inbox s) = SESSION_CHANNEL ->
  length (ct_queue c) = COMMAND_CHANNEL -> ct_joined c = false ->
  (forall id' q', query_conn_path id' q' c = None) /\ (forall cmd, ctl_step c (Sends cmd) = None)
  /\ ctl_step c Receives = None /\ ctl_step c Joins = None
  /\ (forall sp, ctl_step c (Moves (SupTop sp)) = None /\ ctl_step c (Moves (SupHandle sp)) = None)
  /\ ctl_step c (Moves SupPrune) = None /\ ctl_step c (Moves SupDone) = None.
Proof.
  intros Hpc Ht Hs Hcl Hin Hq Hj.
  assert (Hex : exited (ct_world c) = false) by (unfold exited; by rewrite Hpc).
  assert (Hsend : forall cmd, blocking_send cmd c = None).
  { intros cmd. unfold blocking_send. rewrite Hex, bool_decide_eq_false_2; [done|lia]. }
  split_and!; [intros; apply Hsend|intros cmd; cbn; unfold send_ignored; by rewrite Hsend| | | | |].
  - cbn. rewrite Hpc. by destruct (ct_queue c).
  - cbn. unfold join. by rewrite Hj, Hex.
  - intros sp. cbn. rewrite Hpc. split; [done|]. cbn. unfold to_session. rewrite Ht. unfold send_client.
    rewrite Hs. cbn. rewrite Hcl, bool_decide_eq_false_2 by (rewrite Hin; lia). done.
  - cbn. by rewrite Hpc.
  - cbn. unfold sup_done. by rewrite Hpc.
Qed.

(** Such a state is reached by clicking while a session's thread does not come round to
    its channel. *)
Definition wedge_profile : Profile :=
  mkProfile (str "p") (str "home") (str "server") [] None None [] None [].

Definition handled (cmd : Command) : list CtlEvent :=
  [Moves (SupTop (Ok tt)); Sends cmd; Receives; Moves SupPrune; Moves (SupHandle (Ok tt))].

Definition clicks : list CtlEvent :=
  handled (Connect wedge_profile (str "key")) ++ concat (repeat (handled (QueryConnPath (str "p") 0)) 8)
  ++ take 4 (handled (QueryConnPath (str "p") 0)) ++ repeat (Sends (QueryConnPath (str "p") 0)) 16.

Example clicks_block_window :
  (c ← ctl_run controller_start clicks; Some (query_conn_path (str "p") 0 c)) = Some None.
Proof. vm_compute. reflexivity. Qed.

Lemma commands_in_order_witness :
  exists c, ctl_run controller_start clicks = Some c
    /\ commands_sent clicks = commands_received (sup_events controller_start clicks) ++ ct_queue c.
Proof.
  destruct (ctl_run controller_start clicks) as [c|] eqn:Hrun; [|by vm_compute in Hrun].
  exists c. split; [done|]. apply (commands_in_order clicks c Hrun).
  assert (exited <$> (ct_world <$> ctl_run controller_start clicks) = Some false) as He by (vm_compute; reflexivity).
  rewrite Hrun in He. by injection He.
Defined.
