(* ===== verification/Paths.v ===== *)
(** * Connection paths ([transport/paths.rs])

    The snapshot behind the status displays (every path, and the health of each custom
    relay) and the watcher that logs the selected path when it changes. What iroh
    reports of a path and what the relays' [/healthz] answer are inputs. *)

From S2P Require Import Prelude RustStr Net.

Inductive ConnPathKind : Type := Direct | RelayPath | OtherPath.

Record ConnPath : Type := mkConnPath { cp_kind : ConnPathKind; cp_display : bytes; cp_selected : bool }.

Record CustomRelayStatus : Type := mkCustomRelay {
  cr_url : bytes; cr_working : option bool; cr_error : option bytes;
}.

Record ConnectionSnapshot : Type := mkConnSnapshot {
  cs_paths : list ConnPath;
  cs_relays : list CustomRelayStatus;
  cs_tx : Z;
  cs_rx : Z;
}.

Definition ConnectionSnapshot_default : ConnectionSnapshot := mkConnSnapshot [] [] 0 0.

(** A path as iroh reports it: its remote address printed, and printed for debugging,
    and its round trip. *)
Inductive TransportAddr : Type := Ip (addr : bytes) | Relay (url : bytes) | OtherAddr.

Record PathInfo : Type := mkPath {
  pi_addr : TransportAddr;
  pi_debug : bytes;
  pi_rtt : bytes;
  pi_selected : bool;
}.

Definition rtt_note (p : PathInfo) : bytes := str " (rtt " ++ pi_rtt p ++ str ")".

Definition path_display (p : PathInfo) : bytes :=
  match pi_addr p with
  | Ip addr => str "Direct " ++ addr ++ rtt_note p
  | Relay url => str "Relay " ++ url ++ rtt_note p
  | OtherAddr => pi_debug p ++ rtt_note p
  end.

Definition path_kind (p : PathInfo) : ConnPathKind :=
  match pi_addr p with Ip _ => Direct | Relay _ => RelayPath | OtherAddr => OtherPath end.

Definition connection_paths_from (paths : list PathInfo) : list ConnPath :=
  (fun p => mkConnPath (path_kind p) (path_display p) (pi_selected p)) <$> paths.

(** A relay's answer: the health URL cannot be made, an HTTP status, or an error. *)
Inductive Healthz : Type :=
| BadUrl (why : bytes)
| Status (code : Z) (status : bytes)
| Unreachable (why : bytes).

Definition probe_relay_healthz (url : bytes) (answer : Healthz) : CustomRelayStatus :=
  match answer with
  | BadUrl why => mkCustomRelay url (Some false) (Some (str "invalid relay URL: " ++ why))
  | Status code status =>
      if (200 <=? code) && (code <? 300) then mkCustomRelay url (Some true) None
      else mkCustomRelay url (Some false) (Some (str "/healthz returned HTTP " ++ status))
  | Unreachable why => mkCustomRelay url (Some false) (Some why)
  end.

(** [built] is whether the HTTP client could be built. *)
Definition probe_custom_relay_health (built : result bytes ()) (answers : bytes -> Healthz) (urls : list bytes)
  : list CustomRelayStatus :=
  match built with
  | Ok _ => (fun url => probe_relay_healthz url (answers url)) <$> urls
  | Err e => (fun url => mkCustomRelay url None (Some (str "failed to build health-check client: " ++ e))) <$> urls
  end.

(** [transport::paths::connection_snapshot]. *)
Definition connection_snapshot (paths : list PathInfo) (built : result bytes ()) (answers : bytes -> Healthz)
  (custom_urls : list bytes) (tx rx : Z) : ConnectionSnapshot :=
  mkConnSnapshot (connection_paths_from paths) (probe_custom_relay_health built answers custom_urls) tx rx.

(** [ProxyClient::connection_snapshot]: nothing without a connection; a relay
    configuration that does not parse again counts as the default relays. *)
Definition client_connection_snapshot (conn : option (list PathInfo)) (relays : result bytes (list bytes))
  (built : result bytes ()) (answers : bytes -> Healthz) (tx rx : Z) : ConnectionSnapshot :=
  match conn with
  | None => ConnectionSnapshot_default
  | Some paths => connection_snapshot paths built answers (match relays with Ok urls => urls | Err _ => [] end) tx rx
  end.

(** ** The watcher *)

Fixpoint comma_join (l : list bytes) : bytes :=
  match l with
  | [] => []
  | [s] => s
  | s :: l' => s ++ str ", " ++ comma_join l'
  end.

Definition selected (paths : list PathInfo) : list PathInfo := filter (fun p => pi_selected p = true) paths.

Definition format_paths (paths : list PathInfo) : bytes :=
  if bool_decide (paths = []) then str "establishing..."
  else
    let parts := path_display <$> selected paths in
    if bool_decide (parts = []) then str "no selected path" else comma_join parts.

Definition paths_key (paths : list PathInfo) : bool * list bytes :=
  (bool_decide (paths = []), pi_debug <$> selected paths).

#[export] Instance TransportAddr_eq_dec : EqDecision TransportAddr.
Proof. solve_decision. Defined.
#[export] Instance PathInfo_eq_dec : EqDecision PathInfo.
Proof. solve_decision. Defined.

(** The loop over the snapshots of the stream: the lines it logs. *)
Fixpoint watch_from (last : option (bool * list bytes)) (snapshots : list (list PathInfo)) : list bytes :=
  match snapshots with
  | [] => []
  | paths :: rest =>
      let key := paths_key paths in
      if bool_decide (last = Some key) then watch_from last rest
      else format_paths paths :: watch_from (Some key) rest
  end.

Definition watch_connection_paths (debug : bool) (snapshots : list (list PathInfo)) : list bytes :=
  if debug then watch_from None snapshots else [].

(** A snapshot is logged when the one before it in the stream has another key. *)
Definition changes (snapshots : list (list PathInfo)) : list bool :=
  zip_with (fun before now => bool_decide (before <> Some now)) (None :: (Some <$> (paths_key <$> snapshots)))
    (paths_key <$> snapshots).

Lemma watch_from_changes last snapshots :
  watch_from last snapshots
  = (zip_with (fun before now => (bool_decide (before <> Some (paths_key now)), format_paths now))
       (last :: (Some <$> (paths_key <$> snapshots))) snapshots)
    ≫= (fun '(changed, line) => if changed : bool then [line] else []).
Proof.
  revert last. induction snapshots as [|paths rest IH]; intros last; [done|]. cbn.
  destruct (decide (last = Some (paths_key paths))) as [->|Hne].
  - rewrite bool_decide_true, bool_decide_false by naive_solver. cbn. by rewrite IH.
  - rewrite bool_decide_false, bool_decide_true by done. cbn. by rewrite IH.
Qed.

(** The watcher logs a snapshot exactly when its selected paths differ from those of
    the snapshot before it, so a change of the round trip alone is never logged. *)
Theorem paths_logged_on_change (snapshots : list (list PathInfo)) :
  watch_connection_paths true snapshots
  = zip (changes snapshots) (format_paths <$> snapshots)
    ≫= (fun '(changed, line) => if changed : bool then [line] else []).
Proof.
  unfold watch_connection_paths, changes. rewrite watch_from_changes. f_equal.
  generalize (None : option (bool * list bytes)).
  induction snapshots as [|paths rest IH]; intros last; [done|]. cbn. f_equal. apply IH.
Qed.
