(* ===== verification/Ffi.v ===== *)
(** * The C interface of the mobile app ([lib.rs] of the ffi crate)

    What crosses the boundary is memory: a pointer is [None] (null) or the bytes it
    points to, a C string ends at its first NUL, and [write_cstr] is what the library
    does to the caller's buffer. A [Process] is the one-instance guard, the calls of
    [flextunnel_start] and [flextunnel_stop] that are under way, and the handles the
    caller owns; [ffi_step] interleaves them as threads of the app would. What the
    network and the operating system answer to a start is [StartAnswers]. *)

From S2P Require Import Prelude RustStr Net Stream Signaling Socks5 RoutedSet DnsForward Dial Blocklist.
From S2P Require Import Registry Server ServerProofs Startup Client Http LocalConn Accept Forward.
From S2P Require Import ForwardProofs PortForwards Config Ipc Session DesktopStore DesktopExport Paths.

(** ** Memory *)

Abbreviation Ptr := (option bytes).

(** [CStr::from_ptr]: the bytes before the first NUL. *)
Fixpoint c_str (mem : bytes) : bytes :=
  match mem with
  | [] => []
  | b :: mem' => if bool_decide (b = x00) then [] else b :: c_str mem'
  end.

(** [CStr::to_str]. *)
Definition to_str (mem : bytes) : option bytes :=
  let s := c_str mem in if utf8_valid s then Some s else None.

Definition write_cstr (buf : Ptr) (len : nat) (s : bytes) : bool * Ptr :=
  match buf with
  | None => (false, None)
  | Some mem =>
      if bool_decide (len = 0%nat) then (false, Some mem)
      else
        let copy := Nat.min (length s) (len - 1) in
        (bool_decide (copy = length s), Some (take copy s ++ x00 :: drop (S copy) mem))
  end.

(** A message left in the caller's buffer. *)
Definition told (buf : Ptr) (len : nat) (s : bytes) : Ptr := (write_cstr buf len s).2.

(** The convention of the calls that return JSON: 1 when it fitted, else 0. *)
Definition answer (buf : Ptr) (len : nat) (s : bytes) : Z * Ptr :=
  let '(ok, buf) := write_cstr buf len s in ((if ok then 1 else 0), buf).

(** ** Data *)

Record FfiConfig : Type := mkFfiConfig {
  fc_server_node_id : bytes;
  fc_auth_key : bytes;
  fc_socks_port : option Z;
  fc_relay_urls : list bytes;
  fc_relay_auth_token : option bytes;
}.

Record FfiForward : Type := mkFfiForward {
  ff_id : bytes;
  ff_local_port : Z;
  ff_remote_host : bytes;
  ff_remote_port : Z;
  ff_enabled : bool;
}.

(** [serde_json]'s printer and parser of values. *)
Class JsonText := {
  to_string : Value -> bytes;
  from_str : bytes -> result bytes Value;
}.

(** Control characters are escaped, and what was printed is parsed back. *)
Class JsonTextLaws `{JsonText} := {
  to_string_no_nul : forall v, x00 ∉ to_string v;
  to_string_utf8 : forall v, utf8_valid (to_string v) = true;
  from_to_string : forall v, canonical v -> from_str (to_string v) = Ok v;
}.

(** The secret half of a client key. *)
Class SecretKeys `{ClientKeyApi} := {
  from_secret_str : bytes -> result bytes ClientKey;
  secret_str : ClientKey -> bytes;
}.

Definition opt_str (o : option bytes) : Value := match o with Some s => VStr s | None => VNull end.
Definition opt_bool (o : option bool) : Value := match o with Some b => VBool b | None => VNull end.
Definition strings (l : list bytes) : Value := VArr (VStr <$> l).

(** [json!], its members in key order. *)
Definition status_value (st : ForwardStatus) : Value :=
  let '(state, error) := match st_state st with
    | Starting => (str "starting", None)
    | Listening => (str "listening", None)
    | Failed e => (str "failed", Some e)
    end in
  VObj [(str "active", VInt (st_active st)); (str "error", opt_str error); (str "id", VStr (st_id st));
        (str "last_conn_error", opt_str (st_last_conn_error st)); (str "state", VStr state)].

Definition statuses_value (sts : list ForwardStatus) : Value :=
  VObj [(str "forwards", VArr (status_value <$> sts))].

Definition dns_value (e : bytes * list bytes) : Value :=
  VObj [(str "servers", strings e.2); (str "suffix", VStr e.1)].

Definition bridge_value (b : BridgeSummary) : Value :=
  VObj [(str "cidrs", strings (bs_cidrs b)); (str "domains", strings (bs_domains b));
        (str "endpoint_id", VStr (bs_endpoint_id b)); (str "name", VStr (bs_name b))].

Definition alias_value (a : bytes * bytes) : Value := VArr [VStr a.1; VStr a.2].

Definition routes_value (r : TunnelRoutes) : Value :=
  VObj [(str "bridges", VArr (bridge_value <$> tr_bridges r)); (str "cidrs", strings (tr_cidrs r));
        (str "connected", VBool (connected r));
        (str "dns_forwards", VArr (dns_value <$> tr_dns_forwards r));
        (str "domains", strings (domains r));
        (str "host_aliases", VArr (alias_value <$> tr_host_aliases r))].

Definition path_value (p : ConnPath) : Value :=
  let kind := match cp_kind p with
    | Direct => str "direct" | RelayPath => str "relay" | OtherPath => str "other" end in
  VObj [(str "display", VStr (cp_display p)); (str "kind", VStr kind);
        (str "selected", VBool (cp_selected p))].

Definition relay_value (r : CustomRelayStatus) : Value :=
  VObj [(str "error", opt_str (cr_error r)); (str "url", VStr (cr_url r));
        (str "working", opt_bool (cr_working r))].

Definition conn_path_value (s : ConnectionSnapshot) : Value :=
  VObj [(str "custom_relays", VArr (relay_value <$> cs_relays s));
        (str "paths", VArr (path_value <$> cs_paths s));
        (str "udp_rx_datagrams", VInt (cs_rx s)); (str "udp_tx_datagrams", VInt (cs_tx s))].

Definition start_value (port : option Z) : Value := VObj [(str "socks_port", opt_value port)].

Definition key_value (created public secret : bytes) : Value :=
  VObj [(str "created", VStr created); (str "public_key", VStr public); (str "secret_key", VStr secret)].

Section ffi.
Context {ID : Identity} {CK : ClientKeyApi} {SK : SecretKeys} {SA : StartupApi} {JT : JsonText}.
Context `{Json FfiConfig} `{Json (list FfiForward)}.

(** ** Keys *)

(** [generated] is what drawing a key gives, [created] the time it was drawn. *)
Definition flextunnel_generate_client_key (generated : result bytes ClientKey) (created : bytes)
  (buf : Ptr) (len : nat) : Z * Ptr :=
  match generated with
  | Err e => (0, told buf len e)
  | Ok key => answer buf len (to_string (key_value created (key_public_str key) (secret_str key)))
  end.

Definition flextunnel_client_public_key (secret_key buf : Ptr) (len : nat) : Z * Ptr :=
  match secret_key with
  | None => (0, told buf len (str "secret_key is null"))
  | Some mem =>
      match to_str mem with
      | None => (0, told buf len (str "secret_key is not valid UTF-8"))
      | Some secret =>
          match from_secret_str (trim secret) with
          | Ok key => answer buf len (key_public_str key)
          | Err e => (0, told buf len (str "invalid secret key: " ++ e))
          end
      end
  end.

(** ** Handles *)

Record Handle : Type := mkHandle {
  h_config : Client.ClientConfig;
  h_finished : bool;             (* the serve loop has ended *)
  h_routes : TunnelRoutes;
  h_forwards : ForwardManager;
  h_poisoned : bool;             (* a lock of the handle is poisoned *)
  h_local_close : bool;
  h_background : bool;
  h_network : bool;
}.

Definition with_forwards (m : ForwardManager) (h : Handle) : Handle :=
  mkHandle (h_config h) (h_finished h) (h_routes h) m (h_poisoned h) (h_local_close h)
    (h_background h) (h_network h).

(** What the machine answers to a start. *)
Record StartAnswers : Type := mkAnswers {
  a_runtime : result bytes ();
  a_bind : Z -> result bytes ();
  a_local_port : Z -> result bytes Z;
  a_endpoint : RelayConfig -> result bytes ();
}.

Definition bind_socks (a : StartAnswers) (requested : option Z) : result bytes (option Z) :=
  match requested with
  | None => Ok None
  | Some r =>
      _ ← map_err (fun e => str "failed to bind a loopback SOCKS port: " ++ e) (a_bind a r);
      port ← map_err (fun e => str "failed to read bound SOCKS port: " ++ e) (a_local_port a r);
      Ok (Some port)
  end.

Definition start_inner (a : StartAnswers) (json : bytes) : result bytes (Handle * bytes) :=
  cfg ← map_err (fun e => str "invalid config JSON: " ++ e) (from_slice json);
  _ ← map_err (fun e => str "failed to build tokio runtime: " ++ e) (a_runtime a);
  port ← bind_socks a (fc_socks_port cfg);
  relays ← map_err (fun e => str "invalid relay configuration: " ++ e)
             (from_urls_with_token (fc_relay_urls cfg) (fc_relay_auth_token cfg));
  key ← map_err (fun e => str "invalid auth key: " ++ e) (from_secret_str (trim (fc_auth_key cfg)));
  _ ← map_err (fun e => str "failed to create iroh endpoint: " ++ e) (a_endpoint a relays);
  let client := {|
    Client.server_node_id := fc_server_node_id cfg;
    cfg_auth := Key key;
    socks_listen := SockV4 IPV4_LOCALHOST <$> port;
    http_listen := None;
    Client.relay_urls := fc_relay_urls cfg;
    cfg_relay_auth_token := fc_relay_auth_token cfg;
    Client.auto_reconnect := true;
    Client.max_reconnect_attempts := None |} in
  Ok (mkHandle client false TunnelRoutes_default (manager_new []) false false false true,
      to_string (start_value port)).

(** ** The process *)

(** A call of [flextunnel_start] that holds the guard. *)
Record PendingStart : Type := mkPending { ps_json : bytes; ps_buf : Ptr; ps_len : nat }.

Record Process : Type := mkProcess {
  RUNNING : bool;
  starting : list PendingStart;
  handles : gmap nat Handle;     (* those the caller owns *)
  stopping : list Handle;        (* calls of [flextunnel_stop] that hold the guard *)
  next : nat;
}.

Definition process_init : Process := mkProcess false [] ∅ [] 0.

Definition with_running (b : bool) (p : Process) : Process :=
  mkProcess b (starting p) (handles p) (stopping p) (next p).

(** Up to the claim of the guard: the message of a refusal, or the configuration. *)
Definition start_claim (config buf : Ptr) (len : nat) (p : Process) : (Ptr + bytes) * Process :=
  match config with
  | None => (inl (told buf len (str "config_json is null")), p)
  | Some mem =>
      match to_str mem with
      | None => (inl (told buf len (str "config_json is not valid UTF-8")), p)
      | Some json =>
          if RUNNING p
          then (inl (told buf len (str "a flextunnel proxy is already running; stop it first")), p)
          else (inr json, with_running true p)
      end
  end.

(** From there on; the handle is the number the pointer stands for. *)
Definition start_finish (a : StartAnswers) (json : bytes) (buf : Ptr) (len : nat) (p : Process)
  : option nat * Ptr * Process :=
  match start_inner a json with
  | Ok (h, result_json) =>
      let '(fits, buf) := write_cstr buf len result_json in
      if fits
      then (Some (next p), buf,
            mkProcess (RUNNING p) (starting p) (<[next p := h]> (handles p)) (stopping p) (S (next p)))
      else (None, told buf len (str "out_buf too small for result JSON"), with_running false p)
  | Err msg => (None, told buf len msg, with_running false p)
  end.

Definition flextunnel_start (a : StartAnswers) (config buf : Ptr) (len : nat) (p : Process)
  : option nat * Ptr * Process :=
  match start_claim config buf len p with
  | (inl buf, p) => (None, buf, p)
  | (inr json, p) => start_finish a json buf len p
  end.

(** [stop_handle]: the forwards go, the task is aborted, the endpoint closed. *)
Definition stop_handle (h : Handle) : Handle :=
  mkHandle (h_config h) true (h_routes h) (manager_drop (h_forwards h)) (h_poisoned h)
    (h_local_close h) (h_background h) (h_network h).

(** The handle is taken from the caller; the guard is released at the end. *)
Definition stop_begin (h : nat) (p : Process) : option Process :=
  s ← handles p !! h;
  Some (mkProcess (RUNNING p) (starting p) (delete h (handles p)) (stopping p ++ [stop_handle s]) (next p)).

Definition stop_end (p : Process) : option Process :=
  match stopping p with
  | [] => None
  | _ :: rest => Some (mkProcess false (starting p) (handles p) rest (next p))
  end.

Definition flextunnel_stop (h : option nat) (p : Process) : option Process :=
  match h with
  | None => Some p
  | Some h => p ← stop_begin h p; stop_end p
  end.

(** ** Calls on a handle; [None] is the null handle *)

Fixpoint check_forwards (ids : gset bytes) (ports : gset Z) (l : list FfiForward)
  : result bytes (list ForwardSpec) :=
  match l with
  | [] => Ok []
  | f :: l' =>
      if negb (ff_enabled f) then check_forwards ids ports l'
      else if bool_decide (ff_id f = []) || bool_decide (ff_id f ∈ ids)
      then Err (str "forward ids must be non-empty and unique")
      else if (ff_local_port f =? 0) || bool_decide (ff_local_port f ∈ ports)
      then Err (str "enabled forward local ports must be nonzero and unique")
      else
        let host := trim (ff_remote_host f) in
        if bool_decide (host = []) || (ff_remote_port f =? 0)
        then Err (str "forward targets require a host and nonzero port")
        else
          specs ← check_forwards ({[ff_id f]} ∪ ids) ({[ff_local_port f]} ∪ ports) l';
          Ok (mkSpec (ff_id f) (ff_local_port f) (Domain host (ff_remote_port f)) :: specs)
  end.

Definition flextunnel_set_forwards (handle : option Handle) (forwards_json buf : Ptr) (len : nat)
  : Z * Ptr * option Handle :=
  match handle with
  | None => (-1, told buf len (str "null handle or forwards_json"), None)
  | Some h =>
      match forwards_json with
      | None => (0, told buf len (str "null handle or forwards_json"), Some h)
      | Some mem =>
          match to_str mem with
          | None => (0, told buf len (str "forwards_json is not valid UTF-8"), Some h)
          | Some json =>
              match from_slice json with
              | Err e => (0, told buf len (str "invalid forwards JSON: " ++ e), Some h)
              | Ok configured =>
                  match check_forwards ∅ ∅ configured with
                  | Err e => (0, told buf len e, Some h)
                  | Ok specs =>
                      if h_poisoned h then (0, told buf len (str "forward manager lock failed"), Some h)
                      else (1, told buf len [], Some (with_forwards (manager_apply (h_forwards h) specs) h))
                  end
              end
          end
      end
  end.

Definition flextunnel_forward_statuses (handle : option Handle) (buf : Ptr) (len : nat) : Z * Ptr :=
  match handle with
  | None => (-1, told buf len [])
  | Some h =>
      if h_poisoned h then (-1, told buf len [])
      else
        let json := to_string (statuses_value (statuses (h_forwards h))) in
        (Z.of_nat (length json) + 1, told buf len json)
  end.

Definition flextunnel_close_listeners (handle : option Handle) : Z * option Handle :=
  match handle with
  | None => (-1, None)
  | Some h =>
      let h := mkHandle (h_config h) (h_finished h) (h_routes h) (h_forwards h) (h_poisoned h) true
                 (h_background h) (h_network h) in
      if h_poisoned h then (0, Some h) else (1, Some (with_forwards (manager_apply (h_forwards h) []) h))
  end.

Definition flextunnel_set_background (handle : option Handle) (background : Z) : Z * option Handle :=
  match handle with
  | None => (-1, None)
  | Some h => (1, Some (mkHandle (h_config h) (h_finished h) (h_routes h) (h_forwards h) (h_poisoned h)
                          (h_local_close h) (negb (background =? 0)) (h_network h)))
  end.

Definition flextunnel_set_network_available (handle : option Handle) (available : Z) : Z * option Handle :=
  match handle with
  | None => (-1, None)
  | Some h => (1, Some (mkHandle (h_config h) (h_finished h) (h_routes h) (h_forwards h) (h_poisoned h)
                          (h_local_close h) (h_background h) (negb (available =? 0))))
  end.

Definition flextunnel_health (handle : option Handle) : Z :=
  match handle with None => -1 | Some h => if h_finished h then 0 else 1 end.

Definition flextunnel_routes (handle : option Handle) (buf : Ptr) (len : nat) : Z * Ptr :=
  match handle with
  | None => (-1, told buf len [])
  | Some h =>
      if h_poisoned h then (-1, told buf len [])
      else answer buf len (to_string (routes_value (h_routes h)))
  end.

(** [snapshot] is what the client's [connection_snapshot] gives. *)
Definition flextunnel_conn_path (snapshot : Handle -> ConnectionSnapshot) (handle : option Handle)
  (buf : Ptr) (len : nat) : Z * Ptr :=
  match handle with
  | None => (-1, told buf len [])
  | Some h => answer buf len (to_string (conn_path_value (snapshot h)))
  end.

(** ** The calls of the app's threads, interleaved *)

Inductive FfiEvent : Type :=
| StartClaim (config buf : Ptr) (len : nat)
| StartFinish (k : nat) (a : StartAnswers)
| StopBegin (h : nat)
| StopEnd
| Call (h : nat) (f : Handle -> Handle)   (* any other call, or a task of the handle *)
.

Definition ffi_step (p : Process) (ev : FfiEvent) : option Process :=
  match ev with
  | StartClaim config buf len =>
      match start_claim config buf len p with
      | (inl _, p) => Some p
      | (inr json, p) => Some (mkProcess (RUNNING p) (starting p ++ [mkPending json buf len]) (handles p)
                                 (stopping p) (next p))
      end
  | StartFinish k a =>
      c ← starting p !! k;
      Some (start_finish a (ps_json c) (ps_buf c) (ps_len c)
              (mkProcess (RUNNING p) (delete k (starting p)) (handles p) (stopping p) (next p))).2
  | StopBegin h => stop_begin h p
  | StopEnd => stop_end p
  | Call h f => Some (mkProcess (RUNNING p) (starting p) (alter f h (handles p)) (stopping p) (next p))
  end.

Definition ffi_run (evs : list FfiEvent) : Process :=
  foldl (fun p ev => default p (ffi_step p ev)) process_init evs.
End ffi.
