(* ===== verification/FfiProofs.v ===== *)
(** * Theorems on the C interface

    The library stays within the caller's buffer and what it leaves there reads back;
    a set of forwards is applied whole or not at all; and over every interleaving of
    the app's threads one instance at most is starting, running or stopping. *)

From S2P Require Import Prelude RustStr Net Stream Signaling Socks5 RoutedSet DnsForward Dial Blocklist.
From S2P Require Import Registry Server ServerProofs Startup Client Http LocalConn Accept Forward.
From S2P Require Import ForwardProofs PortForwards Config Ipc Session DesktopStore DesktopExport Paths Ffi.

(** ** Buffers *)

(** The buffer after a call: as long as before, untouched from [len] on, and a C
    string within [len] unless [len] is zero. *)
Definition within (mem : bytes) (len : nat) (b : Ptr) : Prop :=
  exists mem', b = Some mem' /\ length mem' = length mem /\ drop len mem' = drop len mem
    /\ ((0 < len)%nat -> x00 ∈ take len mem').

Lemma c_str_app_nul s rest : (x00 ∉ s) -> c_str (s ++ x00 :: rest) = s.
Proof.
  induction s as [|b s IH]; cbn; [done|]. rewrite not_elem_of_cons. intros [Hb Hs].
  rewrite bool_decide_false by congruence. by rewrite IH.
Qed.

Lemma write_cstr_mem mem len s :
  (0 < len)%nat ->
  write_cstr (Some mem) len s
  = (bool_decide (length s < len)%nat,
     Some (take (len - 1) s ++ x00 :: drop (S (Nat.min (length s) (len - 1))) mem)).
Proof.
  intros Hl. unfold write_cstr. rewrite bool_decide_false by lia. cbv zeta.
  assert (take (Nat.min (length s) (len - 1)) s = take (len - 1) s) as ->.
  { destruct (decide (length s <= len - 1)%nat); [by rewrite !take_ge by lia|f_equal; lia]. }
  f_equal. apply bool_decide_ext. lia.
Qed.

Lemma write_cstr_within mem len s :
  (len <= length mem)%nat -> within mem len (write_cstr (Some mem) len s).2.
Proof.
  intros Hmem. destruct (decide (len = 0%nat)) as [->|Hl].
  - exists mem. cbn. split_and!; try done. lia.
  - rewrite write_cstr_mem by lia. eexists. split; [reflexivity|].
    set (c := Nat.min (length s) (len - 1)).
    assert (Hc : length (take (len - 1) s) = c) by (rewrite length_take; lia).
    split_and!.
    + rewrite length_app, Hc. cbn. rewrite length_drop. lia.
    + rewrite drop_app_ge by lia. rewrite Hc.
      replace (len - c)%nat with (S (len - S c)) by lia. cbn. rewrite drop_drop. f_equal. lia.
    + intros _. rewrite take_app_ge by lia. rewrite Hc. apply elem_of_app. right.
      replace (len - c)%nat with (S (len - S c)) by lia. cbn. apply elem_of_cons. by left.
Qed.

Lemma told_within mem len s : (len <= length mem)%nat -> within mem len (told (Some mem) len s).
Proof. apply write_cstr_within. Qed.

Lemma answer_within mem len s : (len <= length mem)%nat -> within mem len (answer (Some mem) len s).2.
Proof.
  intros H. pose proof (write_cstr_within mem len s H) as Hw. unfold answer.
  by destruct (write_cstr (Some mem) len s).
Qed.

(** A second write over the first. *)
Lemma within_told mem len b s : (len <= length mem)%nat -> within mem len b -> within mem len (told b len s).
Proof.
  intros Hm (mem' & -> & Hl & Hd & _).
  destruct (told_within mem' len s) as (mem2 & -> & Hl2 & Hd2 & Hn2); [lia|].
  exists mem2. split_and!; [done|congruence|congruence|done].
Qed.

Create HintDb ffi.
#[export] Hint Resolve told_within answer_within within_told write_cstr_within : ffi.

(** What the app reads where the answer fitted. *)
Lemma answer_fits mem len s n b :
  (x00 ∉ s) -> answer (Some mem) len s = (n, b) ->
  (n = 1 \/ n = 0) /\ (n = 1 <-> (length s < len)%nat)
  /\ (n = 1 -> exists mem', b = Some mem' /\ c_str mem' = s).
Proof.
  intros Hs. destruct (decide (len = 0%nat)) as [->|Hl].
  { unfold answer. cbn. intros [= <- <-]. split_and!; [auto|lia|lia]. }
  unfold answer. rewrite write_cstr_mem by lia. case_bool_decide; intros [= <- <-].
  - split_and!; [auto|lia|]. intros _. eexists. split; [done|].
    rewrite take_ge by lia. by apply c_str_app_nul.
  - split_and!; [auto|lia|lia].
Qed.

(** ** Sets of forwards *)

Definition enabled_of (l : list FfiForward) : list FfiForward := filter (fun f => ff_enabled f = true) l.

Definition spec_of (f : FfiForward) : ForwardSpec :=
  mkSpec (ff_id f) (ff_local_port f) (Domain (trim (ff_remote_host f)) (ff_remote_port f)).

(** What the documentation asks of the enabled forwards. *)
Record valid_forwards (l : list FfiForward) : Prop := mkValid {
  vf_ids : NoDup (ff_id <$> enabled_of l);
  vf_ports : NoDup (ff_local_port <$> enabled_of l);
  vf_each : Forall (fun f => ff_id f <> [] /\ ff_local_port f <> 0 /\ trim (ff_remote_host f) <> []
                             /\ ff_remote_port f <> 0) (enabled_of l);
}.

Lemma enabled_of_cons f l :
  enabled_of (f :: l) = if ff_enabled f then f :: enabled_of l else enabled_of l.
Proof. unfold enabled_of. rewrite filter_cons. by destruct (ff_enabled f). Qed.

Lemma check_forwards_ok ids ports l specs :
  check_forwards ids ports l = Ok specs <->
  valid_forwards l /\ Forall (fun f => (ff_id f ∉ ids) /\ (ff_local_port f ∉ ports)) (enabled_of l)
  /\ specs = spec_of <$> enabled_of l.
Proof.
  revert ids ports specs. induction l as [|f l IH]; intros ids ports specs.
  { cbn. split; [intros [= <-]|by intros (_ & _ & ->)]. split_and!; try done. by split; constructor. }
  rewrite enabled_of_cons. cbn. destruct (ff_enabled f) eqn:Hen; cbn.
  2: { rewrite IH. split; intros ([H1 H2 H3] & Hf & ->); (split; [|done]);
       split; rewrite enabled_of_cons, Hen in *; done. }
  assert (Hv : valid_forwards (f :: l) <-> valid_forwards l
    /\ (ff_id f ∉ ff_id <$> enabled_of l) /\ (ff_local_port f ∉ ff_local_port <$> enabled_of l)
    /\ ff_id f <> [] /\ ff_local_port f <> 0 /\ trim (ff_remote_host f) <> [] /\ ff_remote_port f <> 0).
  { split.
    - intros [H1 H2 H3]. rewrite enabled_of_cons, Hen in H1, H2, H3. cbn in H1, H2.
      apply NoDup_cons in H1 as [? ?], H2 as [? ?]. apply Forall_cons in H3 as [(? & ? & ? & ?) ?].
      by split_and!.
    - intros ([H1 H2 H3] & Hi & Hp & Hrest). split; rewrite enabled_of_cons, Hen; cbn;
        [by apply NoDup_cons..|by apply Forall_cons]. }
  rewrite Hv, Forall_cons.
  destruct (bool_decide (ff_id f = []) || bool_decide (ff_id f ∈ ids)) eqn:E1.
  { split; [done|]. apply orb_true_iff in E1 as [E%bool_decide_eq_true|E%bool_decide_eq_true];
      intros ((_ & _ & _ & ? & _) & [[? _] _] & _); contradiction. }
  apply orb_false_iff in E1 as [Ea%bool_decide_eq_false Eb%bool_decide_eq_false].
  destruct ((ff_local_port f =? 0) || bool_decide (ff_local_port f ∈ ports)) eqn:E2.
  { split; [done|]. apply orb_true_iff in E2 as [E%Z.eqb_eq|E%bool_decide_eq_true];
      intros ((_ & _ & _ & _ & ? & _) & [[_ ?] _] & _); contradiction. }
  apply orb_false_iff in E2 as [Ec%Z.eqb_neq Ed%bool_decide_eq_false].
  destruct (bool_decide (trim (ff_remote_host f) = []) || (ff_remote_port f =? 0)) eqn:E3.
  { split; [done|]. apply orb_true_iff in E3 as [E%bool_decide_eq_true|E%Z.eqb_eq];
      intros ((_ & _ & _ & _ & _ & ? & ?) & _); contradiction. }
  apply orb_false_iff in E3 as [Ee%bool_decide_eq_false Ef%Z.eqb_neq].
  assert (Hfresh : Forall (fun g => (ff_id g ∉ {[ff_id f]} ∪ ids) /\ (ff_local_port g ∉ {[ff_local_port f]} ∪ ports))
      (enabled_of l) <->
    Forall (fun g => (ff_id g ∉ ids) /\ (ff_local_port g ∉ ports)) (enabled_of l)
    /\ (ff_id f ∉ ff_id <$> enabled_of l) /\ (ff_local_port f ∉ ff_local_port <$> enabled_of l)).
  { rewrite !Forall_forall, !list_elem_of_fmap. split.
    - intros Hg. split_and!; [intros g ?%Hg; set_solver|intros (g & E & ?%Hg); set_solver..].
    - intros (Hg & Hi & Hp) g Hin. pose proof (Hg g Hin). split; set_solver. }
  destruct (check_forwards _ _ l) as [specs'|e] eqn:E.
  - apply IH in E as (Hvl & Hfl & ->). cbn. apply Hfresh in Hfl as (? & ? & ?).
    split; [intros [= <-]; by split_and!|]. by intros (_ & _ & ->).
  - cbn. split; [done|]. intros ((Hvl & Hi & Hp & _) & [_ Hfl] & _). exfalso.
    assert (check_forwards ({[ff_id f]} ∪ ids) ({[ff_local_port f]} ∪ ports) l = Ok (spec_of <$> enabled_of l))
      by (apply IH; split_and!; [done|by apply Hfresh|done]). congruence.
Qed.

Section ffi_theorems.
Context {ID : Identity} {CK : ClientKeyApi} {SK : SecretKeys} {SA : StartupApi} {JT : JsonText}.
Context `{Json FfiConfig} `{Json (list FfiForward)}.

(** ** One instance *)

(** The calls and handles that hold the guard. *)
Definition holders (p : Process) : nat := length (starting p) + size (handles p) + length (stopping p).

Definition guarded (p : Process) : Prop :=
  holders p = (if RUNNING p then 1%nat else 0%nat)
  /\ forall h, is_Some (handles p !! h) -> (h < next p)%nat.

Lemma guarded_start_finish a json buf len p :
  holders p = 0%nat -> RUNNING p = true -> (forall h, is_Some (handles p !! h) -> (h < next p)%nat) ->
  guarded (start_finish a json buf len p).2.
Proof.
  intros Hz Hr Hf. unfold holders in Hz. unfold start_finish.
  destruct (start_inner a json) as [[h out]|e]; [|cbn; split; [unfold holders; cbn; lia|done]].
  destruct (write_cstr buf len out) as [[] b]; cbn; [|split; [unfold holders; cbn; lia|done]].
  rewrite Hr. split.
  - unfold holders. cbn. rewrite map_size_insert_None; [lia|].
    apply eq_None_not_Some. intros Hn%Hf. lia.
  - intros i. cbn. destruct (decide (i = next p)) as [->|]; [lia|].
    rewrite lookup_insert_ne by done. intros Hi%Hf. lia.
Qed.

Lemma guarded_step p ev p' : ffi_step p ev = Some p' -> guarded p -> guarded p'.
Proof.
  intros Hs [Hh Hf]. destruct ev as [config buf len|k a|h| |h f]; cbn in Hs.
  - unfold start_claim in Hs. destruct config as [mem|]; [|by injection Hs as <-].
    destruct (to_str mem); [|by injection Hs as <-]. destruct (RUNNING p) eqn:Hr; injection Hs as <-.
    + by split; [rewrite Hr|].
    + split; [|done]. unfold holders in *. cbn. rewrite length_app. cbn. lia.
  - destruct (starting p !! k) as [c|] eqn:Hk; [|done]. cbn in Hs. injection Hs as <-.
    pose proof (lookup_lt_Some _ _ _ Hk). unfold holders in Hh.
    destruct (RUNNING p) eqn:Hr; [|lia].
    apply guarded_start_finish; cbn; try done. unfold holders. cbn. rewrite length_delete by eauto. lia.
  - unfold stop_begin in Hs. destruct (handles p !! h) as [s|] eqn:Hs'; [|done]. injection Hs as <-.
    split; cbn.
    + rewrite <- Hh. unfold holders. cbn. rewrite length_app, map_size_delete_Some by eauto. cbn.
      assert (size (handles p) <> 0%nat); [|lia].
      intros E%map_size_empty_inv. rewrite E in Hs'. done.
    + intros i [x [_ Hx]%lookup_delete_Some]. eauto.
  - unfold stop_end in Hs. destruct (stopping p) as [|s rest] eqn:Es; [done|]. injection Hs as <-.
    unfold holders in Hh. rewrite Es in Hh. cbn in Hh. split; [|done]. unfold holders. cbn.
    destruct (RUNNING p); lia.
  - injection Hs as <-. split; cbn.
    + rewrite <- Hh. unfold holders. cbn. rewrite <- (size_dom (handles p)), <- size_dom.
      by rewrite dom_alter_L.
    + intros i. rewrite <- elem_of_dom, dom_alter_L, elem_of_dom. apply Hf.
Qed.

(** C24. Over every interleaving of starts, stops and other calls from any number of
    threads, at most one instance exists (starting, owned by the app, or stopping), and
    the process-wide guard is held exactly while one does: no failure leaves it taken,
    and none runs without it. *)
Theorem single_instance (evs : list FfiEvent) :
  (length (starting (ffi_run evs)) + size (handles (ffi_run evs)) + length (stopping (ffi_run evs)))%nat
  = (if RUNNING (ffi_run evs) then 1 else 0)%nat.
Proof.
  assert (guarded (ffi_run evs)) as [Hh _]; [|exact Hh].
  unfold ffi_run. induction evs as [|ev evs IH] using rev_ind.
  - split; [done|]. cbn. intros h [? [=]].
  - rewrite foldl_app. cbn. destruct (ffi_step _ ev) as [p'|] eqn:E; [|done].
    by eapply guarded_step.
Qed.

(** ** Bounds *)

Lemma start_within a arg mem len p :
  (len <= length mem)%nat -> within mem len (flextunnel_start a arg (Some mem) len p).1.2.
Proof.
  intros Hm. unfold flextunnel_start, start_claim.
  destruct arg as [cmem|]; [|by apply told_within]. destruct (to_str cmem); [|by apply told_within].
  destruct (RUNNING p); [by apply told_within|]. unfold start_finish.
  destruct (start_inner _ _) as [[h out]|e]; [|by apply told_within].
  pose proof (write_cstr_within mem len out Hm) as Hw. destruct (write_cstr _ _ _) as [[] b']; [done|].
  by apply within_told.
Qed.

(** C25. No call writes outside the caller's buffer, whatever its arguments and the
    state of the handle: the bytes from [len] on are as before, and a buffer of at least
    one byte holds a terminated string afterwards. *)
Theorem calls_within_bounds (mem : bytes) (len : nat) (generated : result bytes ClientKey) (created : bytes)
    (arg : Ptr) (a : StartAnswers) (p : Process) (snapshot : Handle -> ConnectionSnapshot)
    (handle : option Handle) :
  (len <= length mem)%nat ->
  within mem len (flextunnel_generate_client_key generated created (Some mem) len).2
  /\ within mem len (flextunnel_client_public_key arg (Some mem) len).2
  /\ within mem len (flextunnel_start a arg (Some mem) len p).1.2
  /\ within mem len (flextunnel_set_forwards handle arg (Some mem) len).1.2
  /\ within mem len (flextunnel_forward_statuses handle (Some mem) len).2
  /\ within mem len (flextunnel_routes handle (Some mem) len).2
  /\ within mem len (flextunnel_conn_path snapshot handle (Some mem) len).2.
Proof.
  intros Hm. split_and!.
  - unfold flextunnel_generate_client_key. destruct generated; cbn; auto with ffi.
  - unfold flextunnel_client_public_key. repeat case_match; cbn; auto with ffi.
  - by apply start_within.
  - unfold flextunnel_set_forwards. repeat case_match; cbn; auto with ffi.
  - unfold flextunnel_forward_statuses. repeat case_match; cbn; auto with ffi.
  - unfold flextunnel_routes. repeat case_match; cbn; auto with ffi.
  - unfold flextunnel_conn_path. repeat case_match; cbn; auto with ffi.
Qed.

(** ** Forwards *)

(** C26. A set of forwards is taken whole or not at all: the call returns 1 exactly when
    the document parses, its enabled entries have distinct non-empty ids, distinct
    non-zero local ports and a target, and no lock is poisoned, and then the manager is
    given exactly those; otherwise the handle is as before and the buffer says why. *)
Theorem set_forwards_all_or_nothing (h : Handle) (arg : Ptr) (mem : bytes) (len : nat) :
  (exists cmem json l, arg = Some cmem /\ to_str cmem = Some json /\ from_slice json = Ok l
     /\ valid_forwards l /\ h_poisoned h = false
     /\ flextunnel_set_forwards (Some h) arg (Some mem) len
        = (1, told (Some mem) len [],
           Some (with_forwards (manager_apply (h_forwards h) (spec_of <$> enabled_of l)) h)))
  \/ ((forall cmem json l, arg = Some cmem -> to_str cmem = Some json -> from_slice json = Ok l ->
        valid_forwards l -> h_poisoned h = true)
      /\ exists why, why <> [] /\ flextunnel_set_forwards (Some h) arg (Some mem) len
           = (0, told (Some mem) len why, Some h)).
Proof.
  unfold flextunnel_set_forwards.
  destruct arg as [cmem|]; [|right; split; [done|by eexists; split; [|reflexivity]]].
  destruct (to_str cmem) as [json|] eqn:Hj.
  2: { right. split; [intros ? ? ? [= <-]; congruence|by eexists; split; [|reflexivity]]. }
  destruct (from_slice json) as [l|e] eqn:Hl.
  2: { right. split; [intros ? ? ? [= <-]; congruence|by eexists; split; [|reflexivity]]. }
  destruct (check_forwards ∅ ∅ l) as [specs|e] eqn:Hc.
  - apply check_forwards_ok in Hc as (Hv & _ & ->). destruct (h_poisoned h) eqn:Hp.
    + right. split; [done|by eexists; split; [|reflexivity]].
    + left. by exists cmem, json, l.
  - right. split.
    + intros ? ? ? [= <-] Hj' Hl' Hv. rewrite Hj in Hj'. injection Hj' as <-. rewrite Hl in Hl'.
      injection Hl' as <-. exfalso.
      assert (check_forwards ∅ ∅ l = Ok (spec_of <$> enabled_of l)); [|congruence].
      apply check_forwards_ok. split_and!; try done. apply Forall_forall. set_solver.
    + exists e. split; [|done]. intros ->. clear -Hc. revert Hc.
      generalize (∅ : gset bytes) (∅ : gset Z). induction l as [|f l IH]; intros ids ports; cbn; [done|].
      repeat (case_match; try done); try (by intros [=]); eauto.
      destruct (check_forwards _ _ l) eqn:E; cbn; [done|]. intros [= ->]. by eapply IH.
Qed.

(** ** Reading back *)

Context {JL : JsonTextLaws}.

Lemma canonical_strings l : canonical (strings l).
Proof. apply (canonical_arr VStr). by apply Forall_forall. Qed.

Lemma canonical_opt_str o : canonical (opt_str o).
Proof. by destruct o. Qed.

Lemma canonical_obj o : keys_sorted o.*1 -> Forall (fun e => canonical e.2) o -> canonical (VObj o).
Proof. intros Hk Ho. split; [done|]. clear Hk. induction Ho; cbn; auto. Qed.

Lemma canonical_routes r : canonical (routes_value r).
Proof.
  apply canonical_obj; [unfold keys_sorted; cbn; keys_sorted|].
  repeat (apply Forall_cons; split; cbn [snd]); try done; try apply canonical_strings;
    apply canonical_arr, Forall_forall; intros x _.
  - apply canonical_obj; [unfold keys_sorted; cbn; keys_sorted|].
    repeat (apply Forall_cons; split; cbn [snd]); try done; apply canonical_strings.
  - apply canonical_obj; [unfold keys_sorted; cbn; keys_sorted|].
    repeat (apply Forall_cons; split; cbn [snd]); try done; apply canonical_strings.
  - done.
Qed.

Lemma canonical_statuses sts :
  Forall (fun st => 0 <= st_active st < 2 ^ 64) sts -> canonical (statuses_value sts).
Proof.
  intros Hs. apply canonical_obj; [unfold keys_sorted; cbn; keys_sorted|].
  apply Forall_cons. split; [|done]. cbn [snd]. apply canonical_arr.
  eapply Forall_impl; [exact Hs|]. intros st [Ha1 Ha2]. unfold status_value.
  assert (Hobj : forall state e, canonical (VObj
    [(str "active", VInt (st_active st)); (str "error", opt_str e); (str "id", VStr (st_id st));
     (str "last_conn_error", opt_str (st_last_conn_error st)); (str "state", VStr state)])).
  { intros state e. apply canonical_obj; [unfold keys_sorted; cbn; keys_sorted|].
    repeat (apply Forall_cons; split; cbn [snd]); try done; try apply canonical_opt_str.
    change (- 2 ^ 63 <= st_active st < 2 ^ 64). lia. }
  destruct (st_state st); apply Hobj.
Qed.

(** The app learns the routes: the call returns 1 exactly when the buffer is longer
    than the document, and then what the app reads up to the NUL parses to the routes
    of the handle. *)
Theorem routes_read_back (h : Handle) (mem : bytes) (len : nat) (n : Z) (b : Ptr) :
  (len <= length mem)%nat -> h_poisoned h = false ->
  flextunnel_routes (Some h) (Some mem) len = (n, b) ->
  (n = 1 <-> (length (to_string (routes_value (h_routes h))) < len)%nat)
  /\ (n = 1 -> exists mem', b = Some mem' /\ to_str mem' = Some (to_string (routes_value (h_routes h)))
        /\ from_str (c_str mem') = Ok (routes_value (h_routes h))).
Proof.
  intros Hm Hp. unfold flextunnel_routes. rewrite Hp. intros Ha.
  apply answer_fits in Ha as (_ & Hn & Hr); [|apply to_string_no_nul]. split; [done|].
  intros E. destruct (Hr E) as (mem' & -> & Hc). exists mem'. unfold to_str. rewrite Hc, to_string_utf8.
  split_and!; [done|done|]. apply from_to_string, canonical_routes.
Qed.

(** Two calls are enough to read the forwards' states: whatever buffer the first is
    given, its result is the size that the second needs, and with a buffer of that size
    (and the same states) the app reads the whole document. *)
Theorem statuses_in_two_calls (h : Handle) (buf : Ptr) (len : nat) (n : Z) (b : Ptr) (mem : bytes)
    (len' : nat) :
  h_poisoned h = false -> Forall (fun st => 0 <= st_active st < 2 ^ 64) (statuses (h_forwards h)) ->
  flextunnel_forward_statuses (Some h) buf len = (n, b) ->
  n <= Z.of_nat len' -> (len' <= length mem)%nat ->
  exists mem', flextunnel_forward_statuses (Some h) (Some mem) len' = (n, Some mem')
    /\ from_str (c_str mem') = Ok (statuses_value (statuses (h_forwards h))).
Proof.
  intros Hp Hs. unfold flextunnel_forward_statuses. rewrite Hp. intros [= <- <-] Hn Hm.
  set (json := to_string _) in *. unfold told. rewrite write_cstr_mem by lia. cbn [snd].
  eexists. split; [reflexivity|]. rewrite take_ge by lia.
  rewrite c_str_app_nul by apply to_string_no_nul. by apply from_to_string, canonical_statuses.
Qed.
End ffi_theorems.

(** ** Witnesses *)

(** A printer of values in two characters. *)
Definition RefJsonText : JsonText := {|
  to_string v := positive_bytes (encode v);
  from_str bs := ok_or (decode (bytes_positive bs)) (str "invalid value");
|}.

Lemma positive_bytes_ascii p : Forall (fun b => u8 b < 128 /\ b <> x00) (positive_bytes p).
Proof. induction p; cbn; auto; (constructor; [|done]); by vm_compute. Qed.

#[export] Instance RefJsonTextLaws : @JsonTextLaws RefJsonText.
Proof.
  split.
  - intros v Hin. cbn in Hin. pose proof (positive_bytes_ascii (encode v)) as Hp.
    rewrite Forall_forall in Hp. by destruct (Hp _ Hin).
  - intros v. apply utf8_valid_ascii. eapply Forall_impl; [apply positive_bytes_ascii|]. by intros b [].
  - intros v _. cbn. by rewrite bytes_positive_bytes, decode_encode.
Qed.

Section witnesses.
#[local] Existing Instances RefIdentity RefClientKey RefJsonText.
#[local] Instance RefSecretKeys : SecretKeys := {|
  from_secret_str s := ok_or (read_number s) (str "not a key");
  secret_str := print_number;
|}.
#[local] Instance RefFfiStartup : StartupApi := {|
  RelayConfig := list bytes;
  from_urls_with_token urls _ := Ok urls;
  custom_urls c := c;
  keys_is_empty (l : @AuthorizedKeys RefIdentity) := bool_decide (l = []);
|}.
#[local] Instance RefFfiConfig : Json FfiConfig := {|
  to_vec _ := Err [];
  from_slice _ := Ok (mkFfiConfig (print_number 100) (print_number 5) (Some 0) [] None);
|}.
#[local] Instance RefFfiForwards : Json (list FfiForward) := {|
  to_vec _ := Err [];
  from_slice _ := Ok [mkFfiForward (str "f") 8080 (str " db.corp ") 5432 true;
                      mkFfiForward [] 0 [] 0 false];
|}.

Definition ref_answers : StartAnswers :=
  mkAnswers (Ok tt) (fun _ => Ok tt) (fun _ => Ok 40000) (fun _ => Ok tt).
Definition ref_buffer : bytes := replicate 2000 xff.
Definition ref_handle : Handle :=
  mkHandle (ref_config 5 None) false (mkTunnelRoutes true [str "*.corp"] [] [] [] [])
    (manager_new []) false false false true.
Definition ref_set : Z * Ptr * option Handle :=
  flextunnel_set_forwards (Some ref_handle) (Some [x00]) (Some ref_buffer) 100.
Definition ref_forwarding : Handle := default ref_handle ref_set.2.

Lemma calls_within_bounds_witness :
  within ref_buffer 4 (flextunnel_start ref_answers (Some (str "{}" ++ [x00])) (Some ref_buffer) 4
                         process_init).1.2.
Proof.
  apply (calls_within_bounds ref_buffer 4 (Err []) [] (Some (str "{}" ++ [x00])) ref_answers process_init
           (fun _ => mkConnSnapshot [] [] 0 0) None).
  vm_compute. lia.
Defined.

Lemma routes_read_back_witness :
  exists b, flextunnel_routes (Some ref_handle) (Some ref_buffer) 2000 = (1, b)
    /\ exists mem', b = Some mem'
        /\ to_str mem' = Some (to_string (routes_value (h_routes ref_handle)))
        /\ from_str (c_str mem') = Ok (routes_value (h_routes ref_handle)).
Proof.
  destruct (flextunnel_routes (Some ref_handle) (Some ref_buffer) 2000) as [n b] eqn:E.
  destruct (routes_read_back ref_handle ref_buffer 2000 n b) as [Hn Hr];
    [unfold ref_buffer; rewrite length_replicate; lia|reflexivity|exact E|].
  assert (n = 1) as -> by (apply Hn; vm_compute; lia).
  exists b. split; [reflexivity|]. exact (Hr eq_refl).
Defined.

Lemma statuses_in_two_calls_witness :
  exists n, exists mem', flextunnel_forward_statuses (Some ref_forwarding) (Some ref_buffer) 2000 = (n, Some mem')
    /\ from_str (c_str mem') = Ok (statuses_value (statuses (h_forwards ref_forwarding))).
Proof.
  destruct (flextunnel_forward_statuses (Some ref_forwarding) None 0) as [n b] eqn:E.
  exists n. apply (statuses_in_two_calls ref_forwarding None 0 n b ref_buffer 2000);
    [reflexivity| |exact E| |unfold ref_buffer; rewrite length_replicate; lia].
  - assert (statuses (h_forwards ref_forwarding) = [mkStatus (str "f") Starting 0 None]) as ->
      by (vm_compute; reflexivity).
    constructor; [cbn; lia|constructor].
  - assert (n = fst (flextunnel_forward_statuses (Some ref_forwarding) None 0)) as -> by (by rewrite E).
    vm_compute. discriminate.
Defined.
End witnesses.
