(* ===== verification/DesktopForms.v ===== *)
(** * The desktop application's forms ([app.rs] of the desktop crate)

    The editable buffers of the window (profiles, shared keys, the server, its clients,
    its identity, port forwards), what each form accepts, and the merge of an import.
    A fresh id is an argument, as is everything drawn at random. The client keys and the
    server identities of the key crates are the classes [KeyPairs] and [Identities]. *)

From S2P Require Import Prelude RustStr Secret Net Stream Signaling Socks5 RoutedSet Blocklist.
From S2P Require Import Forward PortForwards Config DesktopStore DesktopExport.

(** [ClientKey::from_secret_str(..).map(public_str)], and [load_secret_from_string]
    followed by the printed endpoint id. *)
Class KeyPairs := { public_of_secret : bytes -> result bytes bytes }.
Class Identities := { endpoint_of_secret : bytes -> result bytes bytes }.

(** What the core's key files promise the forms; [text] prints an error. *)
Definition secret_identities `{SecretApi} (text : SecretError -> bytes) : Identities := {|
  endpoint_of_secret s :=
    k ← map_err text (load_secret_from_string s); Ok (secret_to_endpoint_id k);
|}.

(** ** Strings *)

Definition split_list (value : bytes) : list bytes :=
  filter (fun s => s <> []) (trim <$> split ","%byte value).

(** [split_whitespace]: [word] is what has been read of the current word. Every
    separator is nonempty, so [length s] rounds are enough. *)
Definition push_word (word : bytes) (l : list bytes) : list bytes :=
  if bool_decide (word = []) then l else word :: l.

Fixpoint split_words (fuel : nat) (word s : bytes) : list bytes :=
  match fuel, s with
  | S fuel', b :: s' =>
      match strip_any white_space s with
      | Some rest => push_word word (split_words fuel' [] rest)
      | None => split_words fuel' (word ++ [b]) s'
      end
  | _, _ => push_word word []
  end.

Definition split_whitespace (s : bytes) : list bytes := split_words (length s) [] s.

Definition normalize_name (name : bytes) : bytes := join (str " ") (split_whitespace name).

(** [split_once(char::is_whitespace)]. *)
Fixpoint split_once_ws (s : bytes) : option (bytes * bytes) :=
  match s with
  | [] => None
  | b :: s' =>
      match strip_any white_space s with
      | Some rest => Some ([], rest)
      | None => '(l, r) ← split_once_ws s'; Some (b :: l, r)
      end
  end.

Definition quoted (s : bytes) : bytes := x22 :: s ++ [x22].

(** ** Local ports *)

(** The owner among one profile's forwards. *)
Definition forward_owner (p : Profile) (port : Z) (exclude_forward : option bytes) : option bytes :=
  '(_, f) ← list_find (fun f => Some (pf_id f) <> exclude_forward /\ pf_local_port f = port) (p_forwards p);
  Some (str "forward " ++ quoted (display_name f) ++ str " in profile " ++ quoted (p_name p)).

Fixpoint port_owner (ps : list Profile) (port : Z) (exclude_profile exclude_forward : option bytes)
  : option bytes :=
  match ps with
  | [] => None
  | p :: ps' =>
      let own := bool_decide (Some (p_id p) = exclude_profile) in
      if negb own && bool_decide (p_socks p = Some port)
      then Some (str "the SOCKS5 port of profile " ++ quoted (p_name p))
      else if negb own && bool_decide (p_http p = Some port)
      then Some (str "the HTTP port of profile " ++ quoted (p_name p))
      else match forward_owner p port exclude_forward with
           | Some owner => Some owner
           | None => port_owner ps' port exclude_profile exclude_forward
           end
  end.

(** The loop ends at the last port, so the ports above the default are enough fuel. *)
Fixpoint free_port_from (fuel : nat) (ps : list Profile) (port : Z) : Z :=
  match fuel with
  | O => port
  | S fuel' =>
      if bool_decide (is_Some (port_owner ps port None None)) && (port <? U16_MAX)
      then free_port_from fuel' ps (port + 1)
      else port
  end.

Definition next_free_port (ps : list Profile) : Z :=
  free_port_from (Z.to_nat (U16_MAX - DEFAULT_SOCKS_PORT)) ps DEFAULT_SOCKS_PORT.

(** ** Replacing in place *)

(** The first entry of the same id is replaced, or a new one goes to the end. *)
Definition upsert {A} (id : A -> bytes) (x : A) (l : list A) : list A :=
  match list_find (fun y => id y = id x) l with
  | Some (pos, _) => <[pos := x]> l
  | None => l ++ [x]
  end.

Definition with_p_forwards (fs : list PortForward) (p : Profile) : Profile :=
  mkProfile (p_id p) (p_name p) (p_server p) (p_key_id p) (p_socks p) (p_http p) (p_relay_urls p)
    (p_token p) fs.

(** ** Unique names *)

(** [String::pop]: the last character, with its continuation bytes, on the reversed
    string. *)
Fixpoint pop_rev (r : bytes) : bytes :=
  match r with
  | [] => []
  | b :: r' => if utf8_cont b then pop_rev r' else r'
  end.

Definition pop (s : bytes) : bytes := reverse (pop_rev (reverse s)).

(** [while base.len() + suffix.len() > 64 { base.pop(); }]. *)
Fixpoint shorten (fuel : nat) (base : bytes) (room : Z) : bytes :=
  match fuel with
  | O => base
  | S fuel' => if room <? Z.of_nat (length base) then shorten fuel' (pop base) room else base
  end.

Definition numbered_name (desired : bytes) (n : Z) : bytes :=
  let suffix := str " - " ++ dec n in
  trim_end (shorten (length desired) desired (64 - Z.of_nat (length suffix))) ++ suffix.

(** The first free number from [n]. *)
Fixpoint free_name_from (fuel : nat) (desired : bytes) (n : Z) (taken : bytes -> bool) : option bytes :=
  match fuel with
  | O => None
  | S fuel' =>
      let candidate := numbered_name desired n in
      if taken candidate then free_name_from fuel' desired (n + 1) taken else Some candidate
  end.

(** With more numbers than names, one is free. *)
Definition unique_name (desired : bytes) (names : list bytes) : bytes :=
  let taken name := bool_decide (name ∈ names) in
  if taken desired
  then default desired (free_name_from (S (length names)) desired 2 taken)
  else desired.

(** ** Imports *)

Definition with_id (i : bytes) (f : PortForward) : PortForward :=
  mkPortForward i (pf_label f) (pf_local_port f) (pf_remote_host f) (pf_remote_port f) (pf_enabled f).

Definition fresh_forwards (ids : FreshIds) (i : nat) (p : Profile) : list PortForward :=
  imap (fun j f => with_id (fresh_forward ids i j) f) (p_forwards p).

(** The names of the other profiles. *)
Definition other_names (ps : list Profile) (own : option bytes) : list bytes :=
  p_name <$> filter (fun p => Some (p_id p) <> own) ps.

(** The incoming profile under an id, a key and a token. *)
Definition adopt (ids : FreshIds) (i : nat) (incoming : Profile) (id key : bytes) (token : option bytes)
  (names : list bytes) : Profile :=
  mkProfile id (unique_name (p_name incoming) names) (p_server incoming) key (p_socks incoming)
    (p_http incoming) (p_relay_urls incoming) token (fresh_forwards ids i incoming).

(** One imported profile: the list, and the id it replaced. *)
Definition merge_one (ids : FreshIds) (i : nat) (ps : list Profile) (incoming : Profile)
  : list Profile * option bytes :=
  match list_find (fun p => p_server p = p_server incoming) ps with
  | Some (pos, old) =>
      (<[pos := adopt ids i incoming (p_id old) (p_key_id old) (p_token old)
                  (other_names ps (Some (p_id old)))]> ps, Some (p_id old))
  | None =>
      (ps ++ [adopt ids i incoming (fresh_profile ids i) [] None (other_names ps None)], None)
  end.

Fixpoint merge_from (ids : FreshIds) (i : nat) (ps : list Profile) (imported : list Profile)
  : list Profile * nat * list bytes :=
  match imported with
  | [] => (ps, 0%nat, [])
  | incoming :: rest =>
      let '(ps, old) := merge_one ids i ps incoming in
      let '(ps, added, replaced) := merge_from ids (S i) ps rest in
      match old with
      | Some id => (ps, added, id :: replaced)
      | None => (ps, S added, replaced)
      end
  end.

Definition merge_imported (ids : FreshIds) (ps imported : list Profile) : list Profile * nat * list bytes :=
  merge_from ids 0 ps imported.

(** ** The profile form *)

Record ProfileForm : Type := mkProfileForm {
  pfm_editing : option bytes;
  pfm_name : bytes;
  pfm_server : bytes;
  pfm_key_id : bytes;
  pfm_new_key : option bytes;
  pfm_socks_enabled : bool;
  pfm_socks : bytes;
  pfm_http_enabled : bool;
  pfm_http : bytes;
  pfm_relay_urls : bytes;
  pfm_token : bytes;
}.

Definition ProfileForm_add (ps : list Profile) : ProfileForm :=
  mkProfileForm None [] [] [] None true (dec (next_free_port ps)) false (dec DEFAULT_HTTP_PORT) [] [].

Definition ProfileForm_edit (p : Profile) : ProfileForm :=
  mkProfileForm (Some (p_id p)) (p_name p) (p_server p) (p_key_id p) None
    (bool_decide (is_Some (p_socks p))) (dec (default DEFAULT_SOCKS_PORT (p_socks p)))
    (bool_decide (is_Some (p_http p))) (dec (default DEFAULT_HTTP_PORT (p_http p)))
    (join (str ", ") (p_relay_urls p)) (default [] (p_token p)).

Inductive FormError : Type :=
| Told (text : bytes)
| BadTunnelSet (e : RuleError).

Definition check (b : bool) (text : bytes) : result FormError () := if b then Ok tt else Err (Told text).

(** A port field: parsed, and not in use. *)
Definition form_port (ps : list Profile) (editing : option bytes) (input what : bytes)
  : result FormError Z :=
  port ← map_err Told (parse_port input what);
  match port_owner ps port editing None with
  | Some owner => Err (Told (what ++ str " " ++ dec port ++ str " is already used by " ++ owner))
  | None => Ok port
  end.

(** The HTTP port is compared with the SOCKS5 port before it is looked up. *)
Definition form_http_port (ps : list Profile) (editing : option bytes) (socks_port : option Z)
  (input : bytes) : result FormError Z :=
  port ← map_err Told (parse_port input (str "HTTP port"));
  _ ← check (negb (bool_decide (socks_port = Some port))) (str "HTTP port must differ from the SOCKS5 port");
  match port_owner ps port editing None with
  | Some owner => Err (Told (str "HTTP port " ++ dec port ++ str " is already used by " ++ owner))
  | None => Ok port
  end.

Definition form_token (text : bytes) (urls : list bytes) : result FormError (option bytes) :=
  let token := trim text in
  let token := if bool_decide (token = []) then None else Some token in
  _ ← check (negb (bool_decide (is_Some token) && bool_decide (urls = [])))
        (str "A relay auth token requires at least one relay URL");
  Ok token.

Definition find_profile (ps : list Profile) (i : bytes) : option Profile :=
  snd <$> list_find (fun p => p_id p = i) ps.

(** [new_id] is used when adding. *)
Definition ProfileForm_validate (f : ProfileForm) (new_id : bytes) (ps : list Profile) (ks : list AuthKey)
  : result FormError Profile :=
  let editing := pfm_editing f in
  let name := normalize_name (pfm_name f) in
  _ ← check (negb (bool_decide (name = []))) (str "Profile name is required");
  _ ← check (Z.of_nat (length name) <=? 64) (str "Profile name must be 64 characters or fewer");
  _ ← check (negb (bool_decide (name ∈ other_names ps editing)))
        (str "Another profile is already named " ++ quoted name);
  let sv := trim (pfm_server f) in
  _ ← check (negb (bool_decide (sv = []))) (str "Server node id is required");
  _ ← match list_find (fun p => p_server p = sv /\ Some (p_id p) <> editing) ps with
      | Some (_, other) => Err (Told (str "Profile " ++ quoted (p_name other)
                                        ++ str " already connects to this server"))
      | None => Ok tt
      end;
  _ ← check (bool_decide (is_Some (find_key ks (pfm_key_id f))))
        (str "Pick an auth key (or create one with New key)");
  socks ← (if pfm_socks_enabled f then Some <$> form_port ps editing (pfm_socks f) (str "SOCKS5 port")
           else Ok None);
  http ← (if pfm_http_enabled f then Some <$> form_http_port ps editing socks (pfm_http f)
          else Ok None);
  let urls := split_list (pfm_relay_urls f) in
  token ← form_token (pfm_token f) urls;
  let forwards := default [] (p_forwards <$> (editing ≫= find_profile ps)) in
  Ok (mkProfile (default new_id editing) name sv (pfm_key_id f) socks http urls token forwards).

(** ** Keys *)

Record KeyForm : Type := mkKeyForm { kf_editing : option bytes; kf_name : bytes; kf_secret : bytes }.

Definition KeyForm_default : KeyForm := mkKeyForm None [] [].
Definition KeyForm_edit (k : AuthKey) : KeyForm := mkKeyForm (Some (k_id k)) (k_name k) (k_secret k).

Definition validate_key_name (name : bytes) (ks : list AuthKey) (own : option bytes)
  : result FormError bytes :=
  let name := normalize_name name in
  _ ← check (negb (bool_decide (name = []))) (str "Key name is required");
  _ ← check (char_count name <=? 64) (str "Key name must be 64 characters or fewer");
  _ ← check (negb (bool_decide (name ∈ k_name <$> filter (fun k => Some (k_id k) <> own) ks)))
        (str "Another key is already named " ++ quoted name);
  Ok name.

Section forms.
Context `{KeyPairs} `{Identities} `{IpNetworkApi} `{PublicKeys}.

(** [KeyForm::public_key]. *)
Definition KeyForm_public_key (f : KeyForm) : option bytes :=
  match public_of_secret (trim (kf_secret f)) with Ok p => Some p | Err _ => None end.

Definition KeyForm_validate (f : KeyForm) (new_id : bytes) (ks : list AuthKey) : result FormError AuthKey :=
  name ← validate_key_name (kf_name f) ks (kf_editing f);
  let secret := trim (kf_secret f) in
  _ ← check (negb (bool_decide (secret = [])))
        (str "Secret key is required (generate one, or paste an ed25519-sec: key)");
  public ← map_err (fun e => Told (str "Invalid secret key: " ++ e)) (public_of_secret secret);
  _ ← match list_find (fun k => k_public k = public /\ Some (k_id k) <> kf_editing f) ks with
      | Some (_, other) => Err (Told (str "Key " ++ quoted (k_name other) ++ str " already holds this secret"))
      | None => Ok tt
      end;
  Ok (mkAuthKey (default new_id (kf_editing f)) name public secret).

(** ** The server *)

Record IdentityChoice : Type := mkIdentity { ic_generated : bytes; ic_import : option bytes }.

Definition IdentityChoice_new (generated : bytes) : IdentityChoice := mkIdentity generated None.
Definition IdentityChoice_importing (generated : bytes) : IdentityChoice := mkIdentity generated (Some []).
Definition IdentityChoice_regenerate (generated : bytes) (c : IdentityChoice) : IdentityChoice :=
  mkIdentity generated (ic_import c).
Definition IdentityChoice_secret (c : IdentityChoice) : bytes := trim (default (ic_generated c) (ic_import c)).

Definition IdentityChoice_resolve (c : IdentityChoice) : result FormError (bytes * bytes) :=
  let secret := IdentityChoice_secret c in
  _ ← check (negb (bool_decide (secret = []))) (str "Paste the identity key to import");
  endpoint ← map_err (fun e => Told (str "Invalid identity key: " ++ e)) (endpoint_of_secret secret);
  Ok (secret, endpoint).

Record ServerForm : Type := mkServerForm {
  sf_identity : option IdentityChoice;
  sf_domains : bytes;
  sf_cidrs : bytes;
  sf_relays : bytes;
  sf_token : bytes;
}.

Definition ServerForm_add (generated : bytes) : ServerForm :=
  mkServerForm (Some (IdentityChoice_new generated)) [] [] [] [].

Definition ServerForm_edit (s : DesktopStore.ServerConfig) : ServerForm :=
  mkServerForm None (join (str ", ") (sv_domains s)) (join (str ", ") (sv_cidrs s))
    (join (str ", ") (sv_relay_urls s)) (default [] (sv_token s)).

(** What the form keeps or chooses: secret, endpoint id, clients, switch. *)
Definition ServerForm_base (f : ServerForm) (current : option DesktopStore.ServerConfig)
  : result FormError (bytes * bytes * list AuthorizedClient * bool) :=
  match sf_identity f, current with
  | Some identity, _ => r ← IdentityChoice_resolve identity; Ok (r.1, r.2, [], true)
  | None, Some s => Ok (sv_secret s, sv_endpoint_id s, sv_clients s, sv_enabled s)
  | None, None => Err (Told (str "The server was deleted"))
  end.

Definition ServerForm_validate (f : ServerForm) (current : option DesktopStore.ServerConfig)
  : result FormError DesktopStore.ServerConfig :=
  base ← ServerForm_base f current;
  let '(secret, endpoint, clients, enabled) := base in
  let domains := split_list (sf_domains f) in
  let cidrs := split_list (sf_cidrs f) in
  _ ← map_err BadTunnelSet (RoutedSet_new domains cidrs);
  let urls := split_list (sf_relays f) in
  token ← form_token (sf_token f) urls;
  Ok (mkServer endpoint secret clients domains cidrs urls token enabled).

(** ** Authorized clients *)

Record ClientForm : Type := mkClientForm { cf_name : bytes; cf_public : bytes }.

Definition ClientForm_default : ClientForm := mkClientForm [] [].

Definition set_public_key (value : bytes) (f : ClientForm) : ClientForm :=
  match split_once_ws (trim value) with
  | Some (key, comment) =>
      mkClientForm (if bool_decide (trim (cf_name f) = []) then normalize_name comment else cf_name f) key
  | None => mkClientForm (cf_name f) value
  end.

Definition ClientForm_validate (f : ClientForm) (cs : list AuthorizedClient)
  : result FormError AuthorizedClient :=
  let name := normalize_name (cf_name f) in
  _ ← check (negb (bool_decide (name = []))) (str "Name the client (e.g. the device it runs on)");
  _ ← check (char_count name <=? 64) (str "Client name must be 64 characters or fewer");
  _ ← check (negb (bool_decide (name ∈ ac_name <$> cs))) (str "Another client is already named " ++ quoted name);
  _ ← check (negb (bool_decide (trim (cf_public f) = []))) (str "Paste the client's public key (ed25519-pub:…)");
  public ← map_err Told (parse_client_public_key (cf_public f));
  _ ← match list_find (fun c => ac_public c = public) cs with
      | Some (_, other) => Err (Told (str "Client " ++ quoted (ac_name other) ++ str " already has this key"))
      | None => Ok tt
      end;
  Ok (mkAuthorized name public).

(** ** Forwards *)

Record ForwardForm : Type := mkForwardForm {
  fo_editing : option bytes;
  fo_label : bytes;
  fo_local : bytes;
  fo_host : bytes;
  fo_remote : bytes;
  fo_enabled : bool;
}.

Definition ForwardForm_add : ForwardForm := mkForwardForm None [] [] [] [] true.

Definition ForwardForm_edit (f : PortForward) : ForwardForm :=
  mkForwardForm (Some (pf_id f)) (pf_label f) (dec (pf_local_port f)) (pf_remote_host f)
    (dec (pf_remote_port f)) (pf_enabled f).

Definition ForwardForm_validate (f : ForwardForm) (new_id : bytes) (ps : list Profile)
  : result FormError PortForward :=
  label ← map_err Told (validate_label (fo_label f));
  local_port ← map_err Told (parse_port (fo_local f) (str "Local port"));
  host ← map_err Told (validate_remote_host (fo_host f));
  remote_port ← map_err Told (parse_port (fo_remote f) (str "Remote port"));
  _ ← match port_owner ps local_port None (fo_editing f) with
      | Some owner => Err (Told (str "Local port " ++ dec local_port ++ str " is already used by " ++ owner))
      | None => Ok tt
      end;
  Ok (mkPortForward (default new_id (fo_editing f)) label local_port host remote_port (fo_enabled f)).
End forms.

(** ** Durations, in whole seconds *)

Definition two_digits (n : Z) : bytes := if n <? 10 then str "0" ++ dec n else dec n.

Definition format_duration (secs : Z) : bytes :=
  let h := secs / 3600 in
  let m := secs mod 3600 / 60 in
  let s := secs mod 60 in
  if 0 <? h then dec h ++ str "h " ++ two_digits m ++ str "m " ++ two_digits s ++ str "s"
  else if 0 <? m then dec m ++ str "m " ++ two_digits s ++ str "s"
  else dec s ++ str "s".
