(* ===== verification/DesktopFormsProofs.v ===== *)
(** * What the desktop application's forms accept

    Names: the words of an input joined by single spaces are a valid name, and a name
    made unique by a number is a valid one that is not taken. Forms: what a form lets
    through keeps the lists it goes into well formed. *)

From S2P Require Import Prelude RustStr Net Stream Signaling Socks5 RoutedSet Blocklist.
From S2P Require Import Forward PortForwards Config DesktopStore DesktopStoreProofs DesktopExport DesktopForms.

(** ** Substrings *)

Definition infix (p s : bytes) : Prop := exists a b, s = a ++ p ++ b.

Lemma contains_str_true p s : contains_str p s = true <-> infix p s.
Proof.
  unfold infix. induction s as [|c s IH]; simpl; rewrite orb_true_iff, starts_with_true.
  - split; [intros [(r & ->)|[=]]; by exists [], r|intros (a & b & E); left].
    symmetry in E. apply app_nil in E as [_ E]. by exists b.
  - rewrite IH. split.
    + intros [(r & ->)|(a & b & ->)]; [by exists [], r|by exists (c :: a), b].
    + intros (a & b & E). destruct a as [|x a]; [left; by exists b|].
      injection E as -> ->. right. by exists a, b.
Qed.

Lemma infix_app_l p a b : infix p a -> infix p (a ++ b).
Proof. intros (x & y & ->). exists x, (y ++ b). by rewrite !(assoc_L (++)). Qed.

Lemma infix_space p a b : x20 ∉ p -> infix p (a ++ x20 :: b) -> infix p a \/ infix p b.
Proof.
  intros Hp (x & y & E). apply app_eq_inv in E as [(k & -> & E)|(k & -> & E)].
  - apply app_eq_inv in E as [(k' & -> & E)|(k' & -> & _)].
    + destruct k' as [|c k'].
      * left. exists x, []. by rewrite !app_nil_r.
      * injection E as <- _. destruct Hp. set_solver.
    + left. by exists x, k'.
  - destruct k as [|c k].
    + destruct p as [|c p]; [left; by exists a, []; rewrite !app_nil_r|].
      injection E as <- _. destruct Hp. set_solver.
    + injection E as <- ->. right. by exists k, y.
Qed.

(** No white space but single spaces, none of them at either end. *)
Record tidy (s : bytes) : Prop := mkTidy {
  tidy_nonempty : s <> [];
  tidy_start : forall r, s <> x20 :: r;
  tidy_end : forall r, s <> r ++ [x20];
  tidy_single : ~ infix [x20; x20] s;
  tidy_clean : forall w, w ∈ white_space -> w <> [x20] -> ~ infix w s;
}.

Lemma white_space_no_space w : w ∈ white_space -> w <> [x20] -> x20 ∉ w.
Proof.
  intros Hw. assert (Hall : forallb (fun w => bool_decide (w = [x20]) || bool_decide (x20 ∉ w)) white_space)
    by (vm_compute; exact I).
  apply forallb_True in Hall. rewrite Forall_forall in Hall. specialize (Hall w Hw).
  case_bool_decide; [done|]. simpl in Hall. by apply bool_decide_unpack in Hall.
Qed.

Lemma infix_two_spaces a b :
  infix [x20; x20] (a ++ x20 :: b) ->
  infix [x20; x20] a \/ infix [x20; x20] b \/ (exists r, a = r ++ [x20]) \/ (exists r, b = x20 :: r).
Proof.
  intros (x & y & E). apply app_eq_inv in E as [(k & -> & E)|(k & -> & E)].
  - destruct k as [|c k]; simplify_eq/=; [right; right; right; by exists y|].
    destruct k as [|c' k]; simplify_eq/=; [right; right; left; by exists x|].
    left. by exists x, k.
  - destruct k as [|c k]; simplify_eq/=; [right; right; right; by exists y|].
    right; left. by exists k, y.
Qed.

Lemma tidy_join a b : tidy a -> tidy b -> tidy (a ++ x20 :: b).
Proof.
  intros Ha Hb. split.
  - by destruct a.
  - intros r E. destruct a as [|c a]; [by destruct (tidy_nonempty _ Ha)|].
    simplify_eq/=. by destruct (tidy_start _ Ha a).
  - intros r E. destruct b as [|c b _] using rev_ind; [by destruct (tidy_nonempty _ Hb)|].
    rewrite app_comm_cons, (assoc_L (++)) in E. apply app_inj_tail in E as [_ ->]. by destruct (tidy_end _ Hb b).
  - intros [?|[?|[(r & ->)|(r & ->)]]]%infix_two_spaces.
    + by apply (tidy_single _ Ha).
    + by apply (tidy_single _ Hb).
    + by apply (tidy_end _ Ha r).
    + by apply (tidy_start _ Hb r).
  - intros w Hw Hne [?|?]%infix_space; [| |by apply white_space_no_space].
    + by apply (tidy_clean _ Ha w).
    + by apply (tidy_clean _ Hb w).
Qed.

Lemma is_valid_name_spec s : is_valid_name s = true <-> tidy s /\ char_count s <= 64.
Proof.
  unfold is_valid_name. rewrite !andb_true_iff, !negb_true_iff, bool_decide_eq_false, Z.leb_le, forallb_forall.
  rewrite <- !not_true_iff_false, starts_with_true, ends_with_true, contains_str_true.
  change (str " ") with [x20]. change (str "  ") with [x20; x20]. split.
  - intros (((((Hne & Hc) & Hs) & He) & Hd) & Hw). split; [|done]. split; [done|..].
    + intros r ->. apply Hs. by exists r.
    + intros r ->. apply He. by exists r.
    + done.
    + intros w Hin Hn Hi. specialize (Hw w). rewrite orb_true_iff, negb_true_iff, <- not_true_iff_false in Hw.
      destruct Hw as [Hw|Hw]; [by apply list_elem_of_In|by apply bool_decide_eq_true in Hw|].
      apply Hw. by apply contains_str_true.
  - intros [[Hne Hs He Hd Hw] Hc]. repeat split; try done.
    + intros (r & ->). by apply (Hs r).
    + intros (r & ->). by apply (He r).
    + intros w Hin%list_elem_of_In. rewrite orb_true_iff, negb_true_iff, <- not_true_iff_false, contains_str_true.
      destruct (decide (w = [x20])) as [->|Hn]; [left; by apply bool_decide_eq_true|right]. by apply Hw.
Qed.

(** ** Words *)

Lemma strip_any_complete ps p r : p ∈ ps -> strip_any ps (p ++ r) <> None.
Proof.
  induction ps as [|q ps IH]; intros Hp; [by apply not_elem_of_nil in Hp|]. simpl.
  destruct (strip_prefix q (p ++ r)) eqn:E; [done|]. apply IH.
  apply elem_of_cons in Hp as [->|]; [|done]. exfalso.
  by rewrite (proj2 (strip_prefix_Some q (q ++ r) r) eq_refl) in E.
Qed.

(** No separator starts within [word], which [s] follows. *)
Definition unbroken (word s : bytes) : Prop :=
  forall a b, word = a ++ b -> b <> [] -> strip_any white_space (b ++ s) = None.

Lemma unbroken_nil s : unbroken [] s.
Proof. intros a b E Hb. symmetry in E. by apply app_nil in E as [_ ->]. Qed.

Lemma unbroken_snoc word c s :
  unbroken word (c :: s) -> strip_any white_space (c :: s) = None -> unbroken (word ++ [c]) s.
Proof.
  intros Hw Hc a b E Hb. destruct b as [|x b _] using rev_ind; [done|].
  rewrite (assoc_L (++)) in E. apply app_inj_tail in E as [-> ->].
  rewrite <- (assoc_L (++)). simpl. destruct (decide (b = [])) as [->|Hne]; [done|]. by apply (Hw a b).
Qed.

Definition is_word (w : bytes) : Prop := w <> [] /\ forall p, p ∈ white_space -> ~ infix p w.

Lemma unbroken_word word s : unbroken word s -> word <> [] -> is_word word.
Proof.
  intros Hw Hne. split; [done|]. intros p Hp (a & b & ->).
  destruct p as [|c p].
  { assert (Hall : Forall (fun p => p <> []) white_space) by (repeat constructor; done).
    rewrite Forall_forall in Hall. by apply (Hall []). }
  apply (strip_any_complete white_space (c :: p) (b ++ s) Hp).
  rewrite (assoc_L (++)). apply (Hw a); done.
Qed.

Lemma split_words_words fuel word s : unbroken word s -> Forall is_word (split_words fuel word s).
Proof.
  assert (Hpush : forall word s l, unbroken word s -> Forall is_word l -> Forall is_word (push_word word l)).
  { intros w t l Hw Hl. unfold push_word. case_bool_decide; [done|]. constructor; [by eapply unbroken_word|done]. }
  revert word s. induction fuel as [|fuel IH]; intros word s Hw; cbn [split_words].
  { by eapply Hpush. }
  destruct s as [|c s]; [by eapply Hpush|].
  destruct (strip_any white_space (c :: s)) eqn:E.
  - eapply Hpush; [done|]. apply IH, unbroken_nil.
  - apply IH. by apply unbroken_snoc.
Qed.

Lemma word_tidy w : is_word w -> tidy w.
Proof.
  intros [Hne Hp]. assert (Hs : ~ infix [x20] w) by (apply Hp; cbn; set_solver).
  split; [done|..].
  - intros r ->. apply Hs. by exists [], r.
  - intros r ->. apply Hs. by exists r, [].
  - intros (a & b & ->). apply Hs. by exists a, (x20 :: b).
  - intros v Hv _. by apply Hp.
Qed.

Lemma join_tidy ws : Forall is_word ws -> ws <> [] -> tidy (join (str " ") ws).
Proof.
  intros Hws Hne. induction Hws as [|w ws Hw Hws IH]; [done|].
  destruct ws as [|w' ws]; [by apply word_tidy|].
  change (tidy (w ++ x20 :: join (str " ") (w' :: ws))).
  apply tidy_join; [by apply word_tidy|by apply IH].
Qed.

Lemma normalize_name_valid name :
  normalize_name name <> [] -> char_count (normalize_name name) <= 64 ->
  is_valid_name (normalize_name name) = true.
Proof.
  intros Hne Hc. apply is_valid_name_spec. split; [|done]. apply join_tidy.
  - apply split_words_words, unbroken_nil.
  - intros E. apply Hne. unfold normalize_name. by rewrite E.
Qed.

Lemma char_count_length s : char_count s <= Z.of_nat (length s).
Proof. unfold char_count. pose proof (length_filter (fun b => utf8_cont b = false) s). lia. Qed.

(** ** Trimming the end *)

Lemma strip_while_spec fuel ps s :
  Forall (fun p => p <> []) ps -> (length s <= fuel)%nat ->
  exists l, Forall (.∈ ps) l /\ s = concat l ++ strip_while fuel ps s
    /\ strip_any ps (strip_while fuel ps s) = None.
Proof.
  intros Hps. revert s. induction fuel as [|fuel IH]; intros s Hf; cbn [strip_while].
  - destruct s; [|simpl in Hf; lia]. exists []. split_and!; [done..|].
    clear -Hps. induction Hps as [|[|c p] ps Hp Hps IH]; simpl; congruence.
  - destruct (strip_any ps s) as [r|] eqn:E; [|by exists []].
    apply strip_any_Some in E as (p & Hp & ->).
    assert (p <> []) by (by eapply Forall_forall in Hps).
    destruct (IH r) as (l & Hl & E & Hn); [rewrite length_app in Hf; destruct p; simpl in *; [done|lia]|].
    exists (p :: l). split_and!; [by constructor| |done]. simpl. rewrite <- (assoc_L (++)). by f_equal.
Qed.

Lemma concat_reversed (l : list bytes) : reverse (concat l) = concat (reverse (reverse <$> l)).
Proof.
  induction l as [|x l IH]; [done|]. cbn [concat fmap list_fmap].
  rewrite reverse_app, IH, reverse_cons, concat_app. simpl. by rewrite app_nil_r.
Qed.

Lemma trim_end_spec s :
  exists l, Forall (.∈ white_space) l /\ s = trim_end s ++ concat l
    /\ forall w r, w ∈ white_space -> trim_end s <> r ++ w.
Proof.
  destruct (strip_while_spec (length s) (map reverse white_space) (reverse s)) as (l & Hl & E & Hn).
  { repeat constructor; done. }
  { by rewrite length_reverse. }
  exists (reverse (reverse <$> l)). split_and!.
  - apply Forall_forall. intros w (v & -> & Hv)%elem_of_reverse%list_elem_of_fmap.
    rewrite Forall_forall in Hl. apply Hl, list_elem_of_In, in_map_iff in Hv as (u & <- & Hu).
    rewrite reverse_involutive. by apply list_elem_of_In.
  - rewrite <- concat_reversed. unfold trim_end. rewrite <- reverse_app, <- E. by rewrite reverse_involutive.
  - intros w r Hw Er. apply (f_equal reverse) in Er. unfold trim_end in Er.
    rewrite reverse_involutive, reverse_app in Er. rewrite Er in Hn.
    eapply strip_any_complete, Hn. by apply list_elem_of_In, in_map, list_elem_of_In.
Qed.

(** A nonempty prefix of a tidy text, its end trimmed, is tidy. *)
Lemma tidy_trimmed_prefix s t u : tidy s -> s = t ++ u -> t <> [] -> tidy (trim_end t).
Proof.
  intros Hs Es Ht. destruct (trim_end_spec t) as (l & Hl & Et & Hn).
  assert (Hpre : s = trim_end t ++ concat l ++ u) by (rewrite (assoc_L (++)); congruence).
  assert (Hin : forall p, infix p (trim_end t) -> infix p s) by (intros p Hp; rewrite Hpre; by apply infix_app_l).
  assert (Hne : trim_end t <> []).
  { intros E. rewrite E in Et. destruct Hl as [|w l Hw Hl]; [done|].
    destruct (decide (w = [x20])) as [->|Hw'].
    - subst t. by apply (tidy_start _ Hs (concat l ++ u)).
    - apply (tidy_clean _ Hs w Hw Hw'). rewrite Hpre, E. exists [], (concat l ++ u).
      simpl. by rewrite (assoc_L (++)). }
  split; [done|..].
  - intros r E. apply (tidy_start _ Hs (r ++ concat l ++ u)). by rewrite Hpre, E.
  - intros r. apply Hn. cbn. set_solver.
  - intros Hi. by apply (tidy_single _ Hs), Hin.
  - intros w Hw Hw' Hi. by apply (tidy_clean _ Hs w Hw Hw'), Hin.
Qed.

(** ** Shortening *)

(** A UTF-8 text ends in one whole character. *)
Definition is_char (c : bytes) : Prop :=
  exists b r, c = b :: r /\ utf8_cont b = false /\ Forall (fun b => utf8_cont b = true) r /\ (length r <= 3)%nat.

Lemma utf8_second_cont x b : utf8_second x b = true -> utf8_cont b = true.
Proof. unfold utf8_second, utf8_cont. repeat case_match; lia. Qed.

Lemma utf8_last_char s :
  utf8_valid s = true -> s <> [] -> exists t c, s = t ++ c /\ utf8_valid t = true /\ is_char c.
Proof.
  remember (length s) as n eqn:Hn. revert s Hn. induction n as [n IH] using lt_wf_ind. intros s -> Hv Hne.
  assert (Hfirst : exists c r, s = c ++ r /\ is_char c /\ utf8_valid r = true
                     /\ forall r', utf8_valid (c ++ r') = utf8_valid r').
  { destruct s as [|b0 s1]; [done|]. cbn in Hv.
    destruct (u8 b0 <? 128) eqn:H1.
    { exists [b0], s1. split_and!; [done| |done|intros; simpl; by rewrite H1].
      exists b0, []. split_and!; [done| |done|simpl; lia]. apply utf8_cont_ascii. lia. }
    assert (Hlead : 192 <= u8 b0 -> utf8_cont b0 = false) by (unfold utf8_cont; lia).
    destruct ((194 <=? u8 b0) && (u8 b0 <=? 223)) eqn:H2.
    { destruct s1 as [|b1 s2]; [done|]. apply andb_true_iff in Hv as [Hb1 Hv].
      exists [b0; b1], s2. split_and!; [done| |done|intros; cbn; by rewrite H1, H2, Hb1].
      exists b0, [b1]. split_and!; [done|apply Hlead; lia|by repeat constructor|simpl; lia]. }
    destruct ((224 <=? u8 b0) && (u8 b0 <=? 239)) eqn:H3.
    { destruct s1 as [|b1 [|b2 s3]]; [done..|]. apply andb_true_iff in Hv as [[Hb1 Hb2]%andb_true_iff Hv].
      exists [b0; b1; b2], s3. split_and!; [done| |done|intros; cbn; by rewrite H1, H2, H3, Hb1, Hb2].
      exists b0, [b1; b2]. split_and!; [done|apply Hlead; lia| |simpl; lia].
      repeat constructor; by eauto using utf8_second_cont. }
    destruct ((240 <=? u8 b0) && (u8 b0 <=? 244)) eqn:H4; [|done].
    destruct s1 as [|b1 [|b2 [|b3 s4]]]; [done..|].
    apply andb_true_iff in Hv as [[[Hb1 Hb2]%andb_true_iff Hb3]%andb_true_iff Hv].
    exists [b0; b1; b2; b3], s4. split_and!; [done| |done|intros; cbn; by rewrite H1, H2, H3, H4, Hb1, Hb2, Hb3].
    exists b0, [b1; b2; b3]. split_and!; [done|apply Hlead; lia| |simpl; lia].
    repeat constructor; by eauto using utf8_second_cont. }
  destruct Hfirst as (c & r & -> & Hc & Hr & Happ).
  destruct (decide (r = [])) as [->|Hrne]; [by exists [], c; rewrite app_nil_r|].
  destruct (IH (length r)) with (s := r) as (t & c' & -> & Ht & Hc'); [|done..|].
  { rewrite length_app. destruct Hc as (b & ? & -> & _). simpl. lia. }
  exists (c ++ t), c'. by rewrite (assoc_L (++)), Happ.
Qed.

Lemma pop_char t c : is_char c -> pop (t ++ c) = t.
Proof.
  intros (b & r & -> & Hb & Hr & _). unfold pop. rewrite reverse_app, reverse_cons.
  assert (Hp : forall l, Forall (fun b => utf8_cont b = true) l ->
            pop_rev ((l ++ [b]) ++ reverse t) = reverse t).
  { induction 1 as [|x l Hx Hl IH]; simpl; [by rewrite Hb|]. by rewrite Hx. }
  rewrite Hp; [by rewrite reverse_involutive|]. by apply Forall_reverse.
Qed.

(** The base is a prefix that fits, and at most three bytes shorter than the room. *)
Lemma shorten_spec fuel base room :
  (length base <= fuel)%nat -> utf8_valid base = true -> 3 <= room ->
  exists u, base = shorten fuel base room ++ u
    /\ Z.of_nat (length (shorten fuel base room)) <= room
    /\ (Z.of_nat (length (shorten fuel base room)) >= room - 3 \/ u = []).
Proof.
  revert base. induction fuel as [|fuel IH]; intros base Hf Hv Hr; cbn [shorten].
  - exists []. rewrite app_nil_r. split_and!; [done|lia|by right].
  - destruct (room <? Z.of_nat (length base)) eqn:Hl.
    2: { exists []. rewrite app_nil_r. split_and!; [done|lia|by right]. }
    destruct (utf8_last_char base Hv) as (t & c & -> & Ht & Hc); [by intros ->; apply Z.ltb_lt in Hl; simpl in Hl; lia|].
    rewrite pop_char by done. rewrite length_app in Hf, Hl.
    assert (1 <= length c <= 4)%nat by (destruct Hc as (b & r & -> & _ & _ & ?); simpl; lia).
    destruct (IH t) as (u & E & Hle & Hge); [lia|done|done|].
    exists (u ++ c). split_and!; [rewrite (assoc_L (++)); congruence|done|].
    destruct Hge as [Hge| ->]; [by left|]. left. rewrite app_nil_r in E. rewrite <- E. apply Z.ltb_lt in Hl. lia.
Qed.

(** ** Unique names *)

Lemma dec_fuel_digits fuel z : 0 <= z -> Forall (fun b => is_ascii_digit b = true) (dec_fuel fuel z).
Proof.
  revert z. induction fuel as [|fuel IH]; intros z Hz; simpl; [done|].
  assert (Hd : forall k, 0 <= k < 10 -> is_ascii_digit (b8 (48 + k)) = true).
  { intros k Hk. unfold is_ascii_digit. rewrite u8_b8_small by lia. lia. }
  destruct (z <? 10) eqn:E; [constructor; [apply Hd; lia|done]|].
  apply Forall_app. split; [apply IH, Z.div_pos; lia|]. constructor; [|done].
  apply Hd, Z.mod_pos_bound. lia.
Qed.

Lemma dec_fuel_length fuel z : (length (dec_fuel fuel z) <= fuel)%nat.
Proof.
  revert z. induction fuel as [|fuel IH]; intros z; simpl; [lia|].
  case_match; simpl; [lia|]. rewrite length_app. specialize (IH (z / 10)). simpl. lia.
Qed.

Lemma dec_inj_wide a b : 0 <= a < 10 ^ 39 -> 0 <= b < 10 ^ 39 -> dec a = dec b -> a = b.
Proof.
  intros Ha Hb E. pose proof (parse_uint_dec (10 ^ 39) a ltac:(lia) ltac:(lia)) as Hpa.
  rewrite E, parse_uint_dec in Hpa by lia. congruence.
Qed.

Lemma digit_word s : Forall (fun b => is_ascii_digit b = true) s -> s <> [] -> is_word s.
Proof.
  intros Hs Hne. split; [done|]. intros p Hp (a & b & ->).
  apply Forall_app in Hs as [_ [Hs _]%Forall_app].
  assert (Hall : forallb (fun p => match p with c :: _ => negb (is_ascii_digit c) | [] => false end) white_space)
    by (vm_compute; exact I).
  apply forallb_True in Hall. rewrite Forall_forall in Hall. specialize (Hall p Hp).
  destruct p as [|c p]; [done|]. apply Forall_cons in Hs as [Hc _]. by rewrite Hc in Hall.
Qed.

Lemma dec_nonempty z : 0 <= z -> dec z <> [].
Proof. intros Hz. unfold dec. destruct (dec_fuel_head 39 z) as (b & s & -> & _); [lia|lia|done]. Qed.

Lemma dash_tidy : tidy (str "-").
Proof.
  apply word_tidy. split; [vm_compute; done|]. intros p Hp Hi. apply contains_str_true in Hi.
  assert (Hall : forallb (fun p => negb (contains_str p (str "-"))) white_space) by (vm_compute; exact I).
  apply forallb_True in Hall. rewrite Forall_forall in Hall. specialize (Hall p Hp). by rewrite Hi in Hall.
Qed.

Definition suffix_of (n : Z) : bytes := str " - " ++ dec n.

Lemma suffix_length n : (length (suffix_of n) <= 42)%nat.
Proof.
  unfold suffix_of. rewrite length_app. change (length (str " - ")) with 3%nat.
  pose proof (dec_fuel_length 39 n). unfold dec. lia.
Qed.

Lemma trim_end_length s : (length (trim_end s) <= length s)%nat.
Proof. destruct (trim_end_spec s) as (l & _ & E & _). rewrite E at 2. rewrite length_app. lia. Qed.

Lemma numbered_name_valid desired n :
  is_valid_name desired = true -> utf8_valid desired = true -> 0 <= n ->
  is_valid_name (numbered_name desired n) = true.
Proof.
  rewrite !is_valid_name_spec. intros [Ht _] Hu Hn. unfold numbered_name. fold (suffix_of n).
  pose proof (suffix_length n) as Hsl. set (room := 64 - _).
  destruct (shorten_spec (length desired) desired room) as (u & E & Hle & Hge); [lia|done|lia|].
  set (base := shorten _ _ _) in *.
  assert (Hb : tidy (trim_end base)).
  { apply (tidy_trimmed_prefix desired base u); [done..|]. intros Hb. rewrite Hb in E, Hge.
    destruct Hge as [Hge| ->]; [simpl in Hge; lia|]. by apply (tidy_nonempty _ Ht). }
  split.
  - change (suffix_of n) with (x20 :: str "-" ++ x20 :: dec n).
    apply tidy_join; [done|]. apply tidy_join; [apply dash_tidy|].
    apply word_tidy, digit_word; [by apply dec_fuel_digits|by apply dec_nonempty].
  - etrans; [apply char_count_length|]. rewrite length_app. pose proof (trim_end_length base). lia.
Qed.

(** The digits after the last space tell the numbers apart. *)
Lemma last_space_inj (a b c d : bytes) :
  (x20 ∉ c) -> (x20 ∉ d) -> a ++ x20 :: c = b ++ x20 :: d -> c = d.
Proof.
  intros Hc Hd E. apply app_eq_inv in E as [([|x k] & -> & E)|([|x k] & -> & E)]; simplify_eq/=; try done.
  - destruct Hd. set_solver.
  - destruct Hc. set_solver.
Qed.

Lemma dec_no_space z : 0 <= z -> x20 ∉ dec z.
Proof.
  intros Hz Hin. pose proof (dec_fuel_digits 39 z Hz) as Hd. rewrite Forall_forall in Hd.
  by specialize (Hd _ Hin).
Qed.

Lemma numbered_name_inj desired a b :
  0 <= a < 10 ^ 39 -> 0 <= b < 10 ^ 39 -> numbered_name desired a = numbered_name desired b -> a = b.
Proof.
  intros Ha Hb E. apply dec_inj_wide; [done..|]. unfold numbered_name in E.
  change (str " - ") with ([x20; "-"%byte] ++ [x20]) in E. rewrite <- !(assoc_L (++)), !(assoc_L (++)) in E.
  eapply last_space_inj; [by apply dec_no_space; lia..|].
  rewrite <- !(assoc_L (++)) in E. rewrite !(assoc_L (++) (trim_end _)) in E. exact E.
Qed.

Lemma free_name_from_None fuel desired n taken :
  free_name_from fuel desired n taken = None <->
  Forall (fun i => taken (numbered_name desired (n + Z.of_nat i)) = true) (seq 0 fuel).
Proof.
  revert n. induction fuel as [|fuel IH]; intros n; cbn [free_name_from seq]; [by split|].
  rewrite Forall_cons, <- seq_shift, Forall_fmap. replace (n + Z.of_nat 0) with n by lia.
  destruct (taken (numbered_name desired n)); [|by split; [|intros [? _]]].
  rewrite IH. assert (Heq : forall i, n + 1 + Z.of_nat i = n + Z.of_nat (S i)) by lia.
  setoid_rewrite Heq. naive_solver.
Qed.

Lemma free_name_from_Some fuel desired n taken s :
  0 <= n -> free_name_from fuel desired n taken = Some s ->
  taken s = false /\ exists k, 0 <= k /\ s = numbered_name desired k.
Proof.
  revert n. induction fuel as [|fuel IH]; intros n Hn; cbn [free_name_from]; [done|].
  destruct (taken (numbered_name desired n)) eqn:E; [apply IH; lia|]. intros [= <-]. by eauto.
Qed.

Lemma some_number_free desired names :
  Z.of_nat (length names) < 2 ^ 31 ->
  free_name_from (S (length names)) desired 2 (fun s => bool_decide (s ∈ names)) <> None.
Proof.
  intros Hlen. rewrite free_name_from_None. intros Hall.
  set (l := (fun i => numbered_name desired (2 + Z.of_nat i)) <$> seq 0 (S (length names))).
  assert (Hnd : NoDup l).
  { apply NoDup_fmap_2_strong; [|apply NoDup_seq].
    intros i j Hi%elem_of_seq Hj%elem_of_seq E. apply numbered_name_inj in E; lia. }
  assert (Hsub : l ⊆+ names).
  { apply NoDup_submseteq; [done|]. intros s (i & -> & Hi)%list_elem_of_fmap.
    rewrite Forall_forall in Hall. by eapply bool_decide_eq_true_1, Hall. }
  apply submseteq_length in Hsub. unfold l in Hsub. rewrite length_fmap, length_seq in Hsub. lia.
Qed.

Lemma unique_name_spec desired names :
  is_valid_name desired = true -> utf8_valid desired = true -> Z.of_nat (length names) < 2 ^ 31 ->
  (unique_name desired names ∉ names) /\ is_valid_name (unique_name desired names) = true.
Proof.
  intros Hv Hu Hlen. unfold unique_name. case_bool_decide as Hin; [|done].
  destruct (free_name_from _ _ _ _) as [s|] eqn:E; [|by apply some_number_free in E].
  apply free_name_from_Some in E as [Ht (k & Hk & ->)]; [|lia]. simpl.
  split; [by apply bool_decide_eq_false in Ht|by apply numbered_name_valid].
Qed.

(** ** Lists with unique ids *)

Lemma filter_all {A} (P : A -> Prop) `{!forall x, Decision (P x)} l : Forall P l -> filter P l = l.
Proof. induction 1 as [|x l Hx Hl IH]; [done|]. by rewrite filter_cons_True, IH. Qed.

Lemma elem_of_ids {A} (id : A -> bytes) x (l : list A) : x ∈ l -> id x ∈ id <$> l.
Proof. intros Hx. apply list_elem_of_fmap. by exists x. Qed.

Lemma upsert_Permutation {A} (id : A -> bytes) (x : A) (l : list A) :
  NoDup (id <$> l) -> upsert id x l ≡ₚ x :: filter (fun y => id y <> id x) l.
Proof.
  intros Hnd. unfold upsert. destruct (list_find _ l) as [[pos old]|] eqn:E.
  - apply list_find_Some in E as (Hpos & Hold & Hbefore).
    rewrite (insert_take_drop l pos x) by (by eapply lookup_lt_Some).
    rewrite <- Permutation_middle. constructor.
    rewrite <- (take_drop_middle l pos old Hpos), fmap_app, fmap_cons in Hnd.
    apply NoDup_app in Hnd as (_ & Hdis & [Hrest _]%NoDup_cons).
    rewrite <- (take_drop_middle l pos old Hpos) at 3. rewrite filter_app, filter_cons_False by tauto.
    rewrite !filter_all; [done|..]; apply Forall_forall; intros y Hy Ey.
    + apply Hrest. rewrite Hold, <- Ey. by apply elem_of_ids.
    + apply (Hdis (id y)); [by apply elem_of_ids|]. rewrite Ey, <- Hold. by left.
  - apply list_find_None in E. rewrite filter_all by done. symmetry. apply Permutation_cons_append.
Qed.

Lemma Forall_filtered {A} (P Q : A -> Prop) `{!forall x, Decision (Q x)} l : Forall P l -> Forall P (filter Q l).
Proof. rewrite !Forall_forall. intros HP x [_ Hx]%list_elem_of_filter. by apply HP. Qed.

Lemma NoDup_filtered {A B} (f : A -> B) (Q : A -> Prop) `{!forall x, Decision (Q x)} l :
  NoDup (f <$> l) -> NoDup (f <$> filter Q l).
Proof. intros Hl. eapply sublist_NoDup; [exact Hl|]. apply fmap_sublist, sublist_filter. Qed.

(** What a replacement or an addition keeps. *)
Lemma upsert_NoDup {A} (id f : A -> bytes) x (l : list A) :
  NoDup (id <$> l) -> NoDup (f <$> l) -> (forall y, y ∈ l -> id y <> id x -> f y <> f x) ->
  NoDup (f <$> upsert id x l).
Proof.
  intros Hid Hf Hx. rewrite upsert_Permutation, fmap_cons by done. apply NoDup_cons. split.
  - intros (y & Ey & [Hy Hin]%list_elem_of_filter)%list_elem_of_fmap. by apply (Hx y).
  - by apply NoDup_filtered.
Qed.

Lemma upsert_Forall {A} (id : A -> bytes) (P : A -> Prop) x l :
  Forall P l -> P x -> Forall P (upsert id x l).
Proof.
  intros Hl Hx. unfold upsert. case_match; [case_match; by apply Forall_insert|].
  apply Forall_app. by repeat constructor.
Qed.

Lemma upsert_ids {A} (id : A -> bytes) x (l : list A) : NoDup (id <$> l) -> NoDup (id <$> upsert id x l).
Proof. intros Hid. by apply upsert_NoDup. Qed.

(** ** The forms *)

Lemma bind_ok {E A B} (r : result E A) (k : A -> result E B) b :
  (x ← r; k x) = Ok b -> exists a, r = Ok a /\ k a = Ok b.
Proof. destruct r as [a|e]; [by exists a|done]. Qed.

Lemma fmap_ok {E A B} (g : A -> B) (r : result E A) b : g <$> r = Ok b -> exists a, r = Ok a /\ b = g a.
Proof. destruct r as [a|e]; [|done]. intros [= <-]. by exists a. Qed.

Lemma check_ok b t u : check b t = Ok u -> b = true.
Proof. by destruct b. Qed.

Lemma map_err_ok {E F A} (g : E -> F) (r : result E A) a : map_err g r = Ok a -> r = Ok a.
Proof. destruct r; [|done]. cbn. congruence. Qed.

Lemma parse_port_ok input what n : parse_port input what = Ok n -> 1 <= n <= 65535.
Proof.
  unfold parse_port. destruct (parse_u16 (trim input)) as [p|] eqn:E; [|done]. cbn.
  case_bool_decide; [done|]. intros [= <-]. apply parse_u16_range in E. lia.
Qed.

Definition port_free (ps : list Profile) (editing : option bytes) (o : option Z) : Prop :=
  forall n, o = Some n -> 1 <= n <= 65535 /\ port_owner ps n editing None = None.

Lemma form_port_ok ps editing input what n :
  form_port ps editing input what = Ok n -> port_free ps editing (Some n).
Proof.
  intros (p & Hp & Hr)%bind_ok. apply map_err_ok, parse_port_ok in Hp.
  destruct (port_owner ps p editing None) eqn:E; [done|]. injection Hr as <-. by intros m [= <-].
Qed.

Lemma form_http_port_ok ps editing socks input n :
  form_http_port ps editing socks input = Ok n -> port_free ps editing (Some n) /\ socks <> Some n.
Proof.
  intros (p & Hp & Hr)%bind_ok. apply map_err_ok, parse_port_ok in Hp.
  apply bind_ok in Hr as (u & Hc%check_ok & Hr). apply negb_true_iff, bool_decide_eq_false in Hc.
  destruct (port_owner ps p editing None) eqn:E; [done|]. injection Hr as <-. split; [by intros m [= <-]|done].
Qed.

Lemma form_token_ok text urls t : form_token text urls = Ok t -> token_set t.
Proof.
  unfold form_token. intros (u & _ & Ht)%bind_ok. injection Ht as <-. unfold token_set.
  case_bool_decide; congruence.
Qed.

(** What the profile form has made sure of. *)
Record profile_accepted (editing : option bytes) (ps : list Profile) (ks : list AuthKey) (p : Profile)
  : Prop := mkAccepted {
  acc_name : is_valid_name (p_name p) = true;
  acc_names : forall q, q ∈ ps -> Some (p_id q) <> editing -> p_name q <> p_name p;
  acc_servers : forall q, q ∈ ps -> Some (p_id q) <> editing -> p_server q <> p_server p;
  acc_key : is_Some (find_key ks (p_key_id p));
  acc_socks : port_free ps editing (p_socks p);
  acc_http : port_free ps editing (p_http p);
  acc_differ : forall n, p_http p = Some n -> p_socks p <> Some n;
  acc_token : token_set (p_token p);
  acc_forwards : p_forwards p = default [] (p_forwards <$> (editing ≫= find_profile ps));
}.

Lemma other_names_spec ps own n :
  (n ∉ other_names ps own) <-> forall q, q ∈ ps -> Some (p_id q) <> own -> p_name q <> n.
Proof.
  unfold other_names. split.
  - intros Hn q Hq Ho <-. apply Hn, elem_of_ids, list_elem_of_filter. by split.
  - intros Hall (q & -> & [Ho Hq]%list_elem_of_filter)%list_elem_of_fmap. by apply (Hall q).
Qed.

Lemma ProfileForm_validate_ok f new_id ps ks p :
  ProfileForm_validate f new_id ps ks = Ok p ->
  p_id p = default new_id (pfm_editing f) /\ profile_accepted (pfm_editing f) ps ks p.
Proof.
  unfold ProfileForm_validate. cbv zeta. set (name := normalize_name _). set (sv := trim _). intros Hv.
  apply bind_ok in Hv as (? & Hne%check_ok & Hv). apply bind_ok in Hv as (? & Hlen%check_ok & Hv).
  apply bind_ok in Hv as (? & Hnames%check_ok & Hv). apply bind_ok in Hv as (? & Hsv%check_ok & Hv).
  apply bind_ok in Hv as (? & Hdup & Hv). apply bind_ok in Hv as (? & Hkey%check_ok & Hv).
  apply bind_ok in Hv as (socks & Hsocks & Hv). apply bind_ok in Hv as (http & Hhttp & Hv).
  apply bind_ok in Hv as (token & Htoken%form_token_ok & Hv). injection Hv as <-.
  rewrite negb_true_iff, bool_decide_eq_false in Hne, Hnames, Hsv. apply bool_decide_eq_true in Hkey.
  apply Z.leb_le in Hlen. split; [done|].
  destruct (list_find _ ps) as [[? ?]|] eqn:Hs in Hdup; [done|]. apply list_find_None in Hs.
  rewrite Forall_forall in Hs.
  assert (Hso : port_free ps (pfm_editing f) socks).
  { destruct (pfm_socks_enabled f); [|by injection Hsocks as <-].
    apply fmap_ok in Hsocks as (n & Hn%form_port_ok & ->). done. }
  assert (Hht : port_free ps (pfm_editing f) http /\ forall n, http = Some n -> socks <> Some n).
  { destruct (pfm_http_enabled f); [|by injection Hhttp as <-].
    apply fmap_ok in Hhttp as (n & [Hn Hd]%form_http_port_ok & ->). split; [done|]. by intros m [= <-]. }
  destruct Hht as [Hht Hd]. split; cbn; try done.
  - apply normalize_name_valid; [done|]. etrans; [apply char_count_length|exact Hlen].
  - by apply other_names_spec.
  - intros q Hq Ho E. by apply (Hs q Hq).
Qed.

Lemma validate_key_name_ok name ks own n :
  validate_key_name name ks own = Ok n ->
  is_valid_name n = true /\ forall k, k ∈ ks -> Some (k_id k) <> own -> k_name k <> n.
Proof.
  unfold validate_key_name. cbv zeta. set (nm := normalize_name _). intros Hv.
  apply bind_ok in Hv as (? & Hne%check_ok & Hv). apply bind_ok in Hv as (? & Hlen%check_ok & Hv).
  apply bind_ok in Hv as (? & Hnames%check_ok & Hv). injection Hv as <-.
  rewrite negb_true_iff, bool_decide_eq_false in Hne, Hnames. apply Z.leb_le in Hlen.
  split; [by apply normalize_name_valid|]. intros k Hk Ho E. apply Hnames. rewrite <- E.
  apply elem_of_ids, list_elem_of_filter. by split.
Qed.

Section forms.
Context `{KeyPairs} `{Identities} `{IpNetworkApi} `{PublicKeys}.

Lemma KeyForm_validate_ok f new_id ks k :
  KeyForm_validate f new_id ks = Ok k ->
  k_id k = default new_id (kf_editing f) /\ is_valid_name (k_name k) = true /\ k_secret k <> []
  /\ public_of_secret (k_secret k) = Ok (k_public k)
  /\ (forall q, q ∈ ks -> Some (k_id q) <> kf_editing f -> k_name q <> k_name k /\ k_public q <> k_public k).
Proof.
  unfold KeyForm_validate. cbv zeta. intros (name & [Hname Hnames]%validate_key_name_ok & Hv)%bind_ok.
  apply bind_ok in Hv as (? & Hne%check_ok & Hv). apply bind_ok in Hv as (public & Hpub%map_err_ok & Hv).
  apply bind_ok in Hv as (? & Hdup & Hv). injection Hv as <-. cbn.
  apply negb_true_iff, bool_decide_eq_false in Hne.
  destruct (list_find _ ks) as [[? ?]|] eqn:Hs in Hdup; [done|]. apply list_find_None in Hs.
  rewrite Forall_forall in Hs. split_and!; try done.
  intros q Hq Ho. split; [by apply Hnames|]. intros E. by apply (Hs q Hq).
Qed.

Lemma ServerForm_validate_ok f current s :
  ServerForm_validate f current = Ok s ->
  token_set (sv_token s)
  /\ (exists set, RoutedSet_new (sv_domains s) (sv_cidrs s) = Ok set)
  /\ match sf_identity f with
     | Some c => exists secret, IdentityChoice_resolve c = Ok (secret, sv_endpoint_id s) /\ sv_secret s = secret
                   /\ sv_clients s = []
     | None => exists old, current = Some old /\ sv_clients s = sv_clients old
                  /\ sv_secret s = sv_secret old /\ sv_enabled s = sv_enabled old
     end.
Proof.
  unfold ServerForm_validate. intros ([[[secret endpoint] clients] enabled] & Hb & Hv)%bind_ok. cbv zeta in Hv.
  apply bind_ok in Hv as (set & Hset%map_err_ok & Hv). apply bind_ok in Hv as (t & Ht%form_token_ok & Hv).
  injection Hv as <-. cbn. split_and!; [done|by exists set|]. unfold ServerForm_base in Hb.
  destruct (sf_identity f) as [c|].
  - apply bind_ok in Hb as ([sec ep] & Hr & Hb). injection Hb as -> -> <- <-. by exists secret.
  - destruct current as [old|]; [|done]. injection Hb as <- <- <- <-. by exists old.
Qed.

(** Parsing a printed client key gives it back. *)
Class PublicKeyLaws := {
  public_token_again s t : public_token s = Ok t -> public_token (trim t) = Ok t;
}.

Lemma ClientForm_validate_ok `{!PublicKeyLaws} f cs c :
  ClientForm_validate f cs = Ok c ->
  is_valid_name (ac_name c) = true /\ canonical_public c = true
  /\ (ac_name c ∉ ac_name <$> cs) /\ (ac_public c ∉ ac_public <$> cs).
Proof.
  unfold ClientForm_validate. cbv zeta. set (name := normalize_name _). intros Hv.
  apply bind_ok in Hv as (? & Hne%check_ok & Hv). apply bind_ok in Hv as (? & Hlen%check_ok & Hv).
  apply bind_ok in Hv as (? & Hnames%check_ok & Hv). apply bind_ok in Hv as (? & Hp%check_ok & Hv).
  apply bind_ok in Hv as (public & Hpub%map_err_ok & Hv). apply bind_ok in Hv as (? & Hdup & Hv).
  injection Hv as <-. cbn. rewrite negb_true_iff, bool_decide_eq_false in Hne, Hnames. apply Z.leb_le in Hlen.
  destruct (list_find _ cs) as [[? ?]|] eqn:Hs in Hdup; [done|]. apply list_find_None in Hs.
  rewrite Forall_forall in Hs. split_and!; [by apply normalize_name_valid| |done|].
  - unfold canonical_public, parse_client_public_key in *. cbn [ac_public].
    apply map_err_ok, public_token_again in Hpub. rewrite Hpub. by apply bool_decide_eq_true.
  - intros (c & Ec & Hc)%list_elem_of_fmap. by apply (Hs c Hc).
Qed.

Lemma ForwardForm_validate_ok f new_id ps fwd :
  ForwardForm_validate f new_id ps = Ok fwd ->
  pf_id fwd = default new_id (fo_editing f) /\ 1 <= pf_local_port fwd <= 65535 /\ 1 <= pf_remote_port fwd <= 65535
  /\ validate_remote_host (pf_remote_host fwd) = Ok (pf_remote_host fwd)
  /\ port_owner ps (pf_local_port fwd) None (fo_editing f) = None.
Proof.
  unfold ForwardForm_validate. intros (label & _ & Hv)%bind_ok.
  apply bind_ok in Hv as (lp & Hlp%map_err_ok%parse_port_ok & Hv).
  apply bind_ok in Hv as (host & Hh%map_err_ok & Hv).
  apply bind_ok in Hv as (rp & Hrp%map_err_ok%parse_port_ok & Hv).
  apply bind_ok in Hv as (? & Hown & Hv). injection Hv as <-. cbn.
  destruct (port_owner _ _ _ _) eqn:Ho; [done|]. apply validate_remote_host_shape in Hh as (_ & _ & _ & Hidem).
  done.
Qed.
End forms.
