(* ===== verification/DesktopDataProofs.v ===== *)
(** * The desktop application's lists stay well formed

    What may be stored ([good_profiles], [good_keys], [good_server]) and that every
    change the application makes to them keeps it: a form's addition or replacement, a
    removal, a change of forwards, the merge of an import. *)

From S2P Require Import Prelude RustStr Net Stream Signaling Socks5 RoutedSet Blocklist.
From S2P Require Import Forward PortForwards Config DesktopStore DesktopStoreProofs DesktopExport.
From S2P Require Import DesktopForms DesktopFormsProofs.

(** ** Profiles *)

Definition good_profile (p : Profile) : Prop := wf_profile_doc (profile_doc p) /\ token_set (p_token p).
Definition good_profiles (ps : list Profile) : Prop := wf_profiles ps /\ Forall good_profile ps.

Lemma wf_profiles_iff ps :
  wf_profiles ps <-> Forall (fun p => is_valid_name (p_name p) = true) ps
    /\ NoDup (p_id <$> ps) /\ NoDup (p_name <$> ps) /\ NoDup (p_server <$> ps).
Proof. unfold wf_profiles_from. by rewrite !fresh_empty. Qed.

Lemma good_ids ps : good_profiles ps -> NoDup (p_id <$> ps).
Proof. intros [Hwf _]. by apply wf_profiles_iff in Hwf as (_ & ? & _). Qed.

#[export] Hint Resolve good_ids : core.

(** Every profile keeps its documents and secrets: nothing to check again. *)
Lemma good_same_docs ps ps' :
  Forall2 (fun p p' => profile_doc p' = profile_doc p /\ p_token p' = p_token p) ps ps' ->
  good_profiles ps -> good_profiles ps'.
Proof.
  intros Hall [Hwf Hgood]. rewrite wf_profiles_iff in Hwf.
  assert (Hmap : forall f : ProfileDoc -> bytes, (fun p => f (profile_doc p)) <$> ps' = (fun p => f (profile_doc p)) <$> ps).
  { intros f. clear Hwf Hgood. induction Hall as [|p p' ps ps' [Hp _] _ IH]; [done|]. rewrite !fmap_cons, Hp. by rewrite IH. }
  split.
  - rewrite wf_profiles_iff. destruct Hwf as (Hv & Hi & Hn & Hs). split_and!.
    + clear -Hall Hv. induction Hall as [|p p' ps ps' [Hp _] _ IH]; [done|].
      apply Forall_cons in Hv as [Hv1 Hv]. constructor; [|by apply IH].
      change (p_name p') with (pd_name (profile_doc p')). by rewrite Hp.
    + change (NoDup ((fun p => pd_id (profile_doc p)) <$> ps')). by rewrite (Hmap pd_id).
    + change (NoDup ((fun p => pd_name (profile_doc p)) <$> ps')). by rewrite (Hmap pd_name).
    + change (NoDup ((fun p => pd_server (profile_doc p)) <$> ps')). by rewrite (Hmap pd_server).
  - clear -Hall Hgood. induction Hall as [|p p' ps ps' [Hp Ht] _ IH]; [done|].
    apply Forall_cons in Hgood as [[Hd Hk] Hgood]. constructor; [|by apply IH]. split; congruence.
Qed.

Lemma good_sublist ps ps' : ps' `sublist_of` ps -> good_profiles ps -> good_profiles ps'.
Proof.
  intros Hsub [Hwf Hgood]. unfold good_profiles. rewrite wf_profiles_iff in *.
  destruct Hwf as (Hv & Hi & Hn & Hs).
  assert (Hsubs : forall f : Profile -> bytes, NoDup (f <$> ps) -> NoDup (f <$> ps')).
  { intros f Hf. eapply sublist_NoDup; [exact Hf|]. by apply fmap_sublist. }
  assert (Hfor : forall P : Profile -> Prop, Forall P ps -> Forall P ps').
  { intros P. rewrite !Forall_forall. intros HP x Hx. apply HP. by eapply elem_of_sublist. }
  split_and!; auto.
Qed.

(** The profile is new under its id, or replaces the one of that id. *)
Lemma good_upsert p ps :
  good_profiles ps -> good_profile p -> is_valid_name (p_name p) = true ->
  (forall q, q ∈ ps -> p_id q <> p_id p -> p_name q <> p_name p /\ p_server q <> p_server p) ->
  good_profiles (upsert p_id p ps).
Proof.
  intros Hps Hp Hn Hq. pose proof (good_ids _ Hps) as Hids. destruct Hps as [Hwf Hgood].
  unfold good_profiles. rewrite wf_profiles_iff in *. destruct Hwf as (Hv & Hi & Hns & Hs). split_and!.
  - by apply upsert_Forall.
  - by apply upsert_ids.
  - apply upsert_NoDup; [done..|]. intros y Hy Hne. by apply Hq.
  - apply upsert_NoDup; [done..|]. intros y Hy Hne. by apply Hq.
  - by apply upsert_Forall.
Qed.

(** What the profile form accepts. *)
Lemma good_accepted editing p ps ks :
  good_profiles ps -> profile_accepted editing ps ks p ->
  (editing = Some (p_id p) \/ (editing = None /\ (p_id p ∉ p_id <$> ps))) ->
  good_profiles (upsert p_id p ps).
Proof.
  intros Hps Hacc Hed. apply good_upsert; [done| |by apply Hacc|].
  - split; [|by apply Hacc]. split_and!.
    + cbn. destruct (p_socks p) as [n|] eqn:E; [|done]. destruct (acc_socks _ _ _ _ Hacc n) as [? _]; [done|].
      cbn. unfold wf_u16. lia.
    + cbn. destruct (p_http p) as [n|] eqn:E; [|done]. destruct (acc_http _ _ _ _ Hacc n) as [? _]; [done|].
      cbn. unfold wf_u16. lia.
    + cbn. rewrite (acc_forwards _ _ _ _ Hacc). destruct (editing ≫= find_profile ps) as [old|] eqn:E; [|done].
      apply bind_Some in E as (i & _ & E). unfold find_profile in E.
      apply fmap_Some in E as ([pos q] & (Hq & _)%list_find_Some & ->).
      destruct Hps as [_ Hgood]. rewrite Forall_lookup in Hgood. by apply (Hgood pos q) in Hq as [(_ & _ & ?) _].
  - intros q Hq Hne.
    assert (Some (p_id q) <> editing) by (destruct Hed as [->|[-> _]]; congruence).
    split; [by apply (acc_names _ _ _ _ Hacc)|by apply (acc_servers _ _ _ _ Hacc)].
Qed.

(** ** Replacing in place is an upsert *)

Lemma insert_upsert {A} (id : A -> bytes) (x old : A) pos (l : list A) :
  NoDup (id <$> l) -> l !! pos = Some old -> id x = id old -> <[pos := x]> l = upsert id x l.
Proof.
  intros Hnd Hpos Hid. unfold upsert. destruct (list_find _ l) as [[pos' y]|] eqn:E.
  - apply list_find_Some in E as (Hpos' & Hy & _). f_equal. eapply NoDup_lookup; [exact Hnd|..].
    + rewrite list_lookup_fmap, Hpos. done.
    + rewrite list_lookup_fmap, Hpos'. cbn. congruence.
  - apply list_find_None in E. rewrite Forall_lookup in E. by destruct (E pos old Hpos).
Qed.

Lemma app_upsert {A} (id : A -> bytes) (x : A) (l : list A) :
  id x ∉ id <$> l -> l ++ [x] = upsert id x l.
Proof.
  intros Hx. unfold upsert. destruct (list_find _ l) as [[pos y]|] eqn:E; [|done].
  apply list_find_Some in E as (Hpos & Hy & _). destruct Hx. rewrite <- Hy.
  apply elem_of_ids. by eapply list_elem_of_lookup_2.
Qed.

(** Entries that differ in their id differ in every field that is unique. *)
Lemma unique_differ {A} (f id : A -> bytes) (l : list A) x y :
  NoDup (f <$> l) -> x ∈ l -> y ∈ l -> id x <> id y -> f x <> f y.
Proof.
  intros Hf (i & Hi)%list_elem_of_lookup (j & Hj)%list_elem_of_lookup Hne E. apply Hne.
  assert (i = j) as ->; [|congruence].
  apply (NoDup_lookup (f <$> l) i j (f x)); [done|..]; rewrite list_lookup_fmap, ?Hi, ?Hj; cbn; congruence.
Qed.

(** ** Forwards *)

Definition good_forward (f : PortForward) : Prop := wf_u16 (pf_local_port f) /\ wf_u16 (pf_remote_port f).

Lemma good_profile_forwards p : good_profile p -> Forall good_forward (p_forwards p).
Proof. intros [(_ & _ & Hf) _]. cbn in Hf. by apply Forall_fmap in Hf. Qed.

Lemma good_change_forwards ps pos p fs :
  good_profiles ps -> ps !! pos = Some p -> Forall good_forward fs ->
  good_profiles (<[pos := with_p_forwards fs p]> ps).
Proof.
  intros Hps Hpos Hfs. pose proof (good_ids _ Hps) as Hids.
  rewrite (insert_upsert p_id (with_p_forwards fs p) p pos ps) by done.
  destruct Hps as [Hwf Hgood]. apply good_upsert; [done|..].
  - rewrite Forall_lookup in Hgood. destruct (Hgood pos p Hpos) as [(Hs & Hh & _) Ht].
    split; [|done]. split_and!; [done..|]. cbn. by apply Forall_fmap.
  - apply wf_profiles_iff in Hwf as (Hv & _). rewrite Forall_lookup in Hv. by apply (Hv pos p).
  - apply wf_profiles_iff in Hwf as (_ & _ & Hn & Hs). intros q Hq Hne. apply list_elem_of_lookup_2 in Hpos.
    split; [apply (unique_differ p_name p_id ps q p)|apply (unique_differ p_server p_id ps q p)]; done.
Qed.

(** ** Imports *)

(** What an import brings: well formed, UTF-8 names. *)
Definition good_import (ps : list Profile) : Prop :=
  Forall (fun p => is_valid_name (p_name p) = true /\ utf8_valid (p_name p) = true
                   /\ wf_profile_doc (profile_doc p)) ps.

Lemma good_adopt ids i incoming id key token names :
  is_valid_name (p_name incoming) = true -> utf8_valid (p_name incoming) = true ->
  wf_profile_doc (profile_doc incoming) -> token_set token -> Z.of_nat (length names) < 2 ^ 31 ->
  let p := adopt ids i incoming id key token names in
  good_profile p /\ is_valid_name (p_name p) = true /\ (p_name p ∉ names).
Proof.
  intros Hn Hu (Hs & Hh & Hf) Ht Hlen p. destruct (unique_name_spec (p_name incoming) names) as [Hni Hv]; [done..|].
  split_and!; [|done..]. split; [|done]. split_and!; [done..|]. cbn in *. unfold fresh_forwards.
  apply Forall_fmap in Hf. apply Forall_fmap. apply Forall_lookup. intros j f.
  rewrite list_lookup_imap. intros (g & Hg & ->)%fmap_Some. rewrite Forall_lookup in Hf. by apply (Hf j g).
Qed.

Lemma other_names_length ps own : (length (other_names ps own) <= length ps)%nat.
Proof. unfold other_names. rewrite length_fmap. apply length_filter. Qed.

Lemma good_merge_one ids i ps incoming :
  good_profiles ps -> is_valid_name (p_name incoming) = true -> utf8_valid (p_name incoming) = true ->
  wf_profile_doc (profile_doc incoming) -> (fresh_profile ids i ∉ p_id <$> ps) ->
  Z.of_nat (length ps) < 2 ^ 31 ->
  let ps' := (merge_one ids i ps incoming).1 in
  good_profiles ps' /\ (length ps' <= S (length ps))%nat
  /\ forall x, x ∈ p_id <$> ps' -> x ∈ p_id <$> ps \/ x = fresh_profile ids i.
Proof.
  intros Hps Hn Hu Hd Hfresh Hlen. pose proof (good_ids _ Hps) as Hids. unfold merge_one.
  destruct (list_find _ ps) as [[pos old]|] eqn:E; cbn -[adopt].
  - apply list_find_Some in E as (Hpos & Hserver & _).
    pose proof (list_elem_of_lookup_2 _ _ _ Hpos) as Hin.
    destruct (good_adopt ids i incoming (p_id old) (p_key_id old) (p_token old)
                (other_names ps (Some (p_id old)))) as (Hg & Hv & Hni); [done..| | |].
    { destruct Hps as [_ Hgood]. rewrite Forall_forall in Hgood. by apply (Hgood old). }
    { pose proof (other_names_length ps (Some (p_id old))). lia. }
    set (p := adopt _ _ _ _ _ _ _) in *. split_and!.
    + rewrite (insert_upsert p_id p old) by done. apply good_upsert; [done..|].
      intros q Hq Hne. rewrite other_names_spec in Hni. split; [apply Hni; [done|]; cbn in *; congruence|].
      change (p_server p) with (p_server incoming). rewrite <- Hserver.
      destruct Hps as [(_ & _ & _ & Hs)%wf_profiles_iff _]. by apply (unique_differ p_server p_id ps q old).
    + rewrite length_insert. lia.
    + intros x. rewrite list_fmap_insert. cbn. rewrite list_insert_id; [by left|].
      by rewrite list_lookup_fmap, Hpos.
  - apply list_find_None in E. rewrite Forall_forall in E.
    destruct (good_adopt ids i incoming (fresh_profile ids i) [] None (other_names ps None))
      as (Hg & Hv & Hni); [done..| |].
    { pose proof (other_names_length ps None). lia. }
    set (p := adopt _ _ _ _ _ _ _) in *. split_and!.
    + rewrite (app_upsert p_id p) by done. apply good_upsert; [done..|].
      intros q Hq Hne. rewrite other_names_spec in Hni. split; [by apply Hni|]. by apply E.
    + rewrite length_app. simpl. lia.
    + intros x. rewrite fmap_app. intros [?|Hx]%elem_of_app; [by left|right]. by apply list_elem_of_singleton in Hx.
Qed.

(** The random ids of a merge: new, and all different. *)
Definition fresh_merge_ids (ids : FreshIds) (ps : list Profile) : Prop :=
  (forall i, fresh_profile ids i ∉ p_id <$> ps) /\ (forall i j, fresh_profile ids i = fresh_profile ids j -> i = j).

Lemma good_merge_from ids i ps incoming :
  good_profiles ps -> good_import incoming ->
  (forall j, (i <= j)%nat -> fresh_profile ids j ∉ p_id <$> ps) ->
  (forall i j, fresh_profile ids i = fresh_profile ids j -> i = j) ->
  Z.of_nat (length ps + length incoming) < 2 ^ 31 ->
  good_profiles (merge_from ids i ps incoming).1.1.
Proof.
  revert i ps. induction incoming as [|p incoming IH]; intros i ps Hps Himp Hfresh Hinj Hlen; [done|].
  apply Forall_cons in Himp as [(Hv & Hu & Hd) Himp]. cbn [merge_from].
  destruct (good_merge_one ids i ps p) as (Hg & Hl & Hids); [done..|by apply Hfresh| |].
  { simpl in Hlen. lia. }
  destruct (merge_one ids i ps p) as [ps1 old]. cbn [fst] in Hg, Hl, Hids.
  specialize (IH (S i) ps1 Hg Himp).
  assert (Hgoal : good_profiles (merge_from ids (S i) ps1 incoming).1.1).
  { apply IH; [|done|simpl in Hlen; lia]. intros j Hj Hin.
    destruct (Hids _ Hin) as [Hin'|E%Hinj]; [|lia]. by apply (Hfresh j); [lia|]. }
  destruct (merge_from ids (S i) ps1 incoming) as [[ps2 added] replaced]. by destruct old.
Qed.

(** Each merged profile was there under the same key, or has none picked. *)
Lemma merge_keys ids i ps incoming p :
  p ∈ (merge_from ids i ps incoming).1.1 -> p_key_id p = [] \/ exists q, q ∈ ps /\ p_key_id p = p_key_id q.
Proof.
  revert i ps. induction incoming as [|x incoming IH]; intros i ps; cbn [merge_from].
  { intros Hp. right. by exists p. }
  assert (Hone : forall q, q ∈ (merge_one ids i ps x).1 ->
            p_key_id q = [] \/ exists q', q' ∈ ps /\ p_key_id q = p_key_id q').
  { intros q. unfold merge_one. destruct (list_find _ ps) as [[pos old]|] eqn:E; cbn [fst].
    - apply list_find_Some in E as (Hpos & _ & _). intros Hq.
      apply list_elem_of_lookup in Hq as (j & Hj). destruct (decide (j = pos)) as [->|Hne].
      + rewrite list_lookup_insert_eq in Hj by (by eapply lookup_lt_Some). injection Hj as <-.
        right. exists old. split; [by eapply list_elem_of_lookup_2|done].
      + rewrite list_lookup_insert_ne in Hj by done. right. exists q. split; [by eapply list_elem_of_lookup_2|done].
    - intros [Hq|Hq]%elem_of_app; [right; by exists q|]. apply list_elem_of_singleton in Hq as ->. by left. }
  destruct (merge_one ids i ps x) as [ps1 old]. specialize (IH (S i) ps1).
  destruct (merge_from ids (S i) ps1 incoming) as [[ps2 added] replaced]. cbn in Hone, IH.
  intros Hp. assert (Hp' : p ∈ ps2) by (by destruct old).
  destruct (IH Hp') as [?|(q & Hq & ->)]; [by left|]. by apply Hone.
Qed.

Lemma merge_keeps_ids ids i ps incoming x :
  x ∈ p_id <$> ps -> x ∈ p_id <$> (merge_from ids i ps incoming).1.1.
Proof.
  revert i ps. induction incoming as [|y incoming IH]; intros i ps Hx; cbn [merge_from]; [done|].
  assert (Hone : x ∈ p_id <$> (merge_one ids i ps y).1).
  { unfold merge_one. destruct (list_find _ ps) as [[pos old]|] eqn:E; cbn [fst].
    - apply list_find_Some in E as (Hpos & _ & _). rewrite list_fmap_insert, list_insert_id; [done|].
      by rewrite list_lookup_fmap, Hpos.
    - rewrite fmap_app. set_solver. }
  destruct (merge_one ids i ps y) as [ps1 old]. specialize (IH (S i) ps1 Hone).
  destruct (merge_from ids (S i) ps1 incoming) as [[ps2 added] replaced]. by destruct old.
Qed.

Lemma mapM_Forall {A B} (g : A -> option B) (P : B -> Prop) l k :
  (forall a b, g a = Some b -> P b) -> mapM g l = Some k -> Forall P k.
Proof.
  intros HP E. apply mapM_Some in E. induction E as [|a b l k Hab _ IH]; constructor; [|done]. by eapply HP.
Qed.

Lemma as_u16_range v n : as_u16 v = Some n -> wf_u16 n.
Proof. destruct v; try done. cbn. unfold wf_u16, U16_MAX. case_match; [|done]. intros [= <-]. lia. Qed.

Lemma as_opt_u16_range v o : as_opt_u16 v = Some o -> port_ok o.
Proof.
  assert (Hs : forall o', Some <$> o' = Some o -> (forall n, o' = Some n -> wf_u16 n) -> port_ok o).
  { intros [n|]; cbn; [|done]. intros [= <-] Hn. by apply Hn. }
  destruct v; cbn -[as_u16]; try (intros [= <-]; done); intros E; eapply Hs; try exact E; apply as_u16_range.
Qed.

Lemma defaulted_port o k x : defaulted None as_opt_u16 k o = Some x -> port_ok x.
Proof.
  unfold defaulted. destruct (obj_get k o); [apply as_opt_u16_range|]. by intros [= <-].
Qed.

Lemma forward_of_value_ports v f : forward_of_value v = Some f -> good_forward f.
Proof.
  unfold forward_of_value. intros E. repeat (apply bind_Some in E as (? & ? & E)). injection E as <-.
  unfold required in *. repeat match goal with H : _ ≫= _ = Some _ |- _ => apply bind_Some in H as (? & ? & ?) end.
  split; cbn; by eapply as_u16_range.
Qed.

Lemma profile_of_value_ports v p : profile_of_value v = Some p -> wf_profile_doc (profile_doc p).
Proof.
  unfold profile_of_value. intros E. repeat (apply bind_Some in E as (? & ? & E)). injection E as <-.
  split_and!; cbn; [by eapply defaulted_port..|]. apply Forall_fmap.
  match goal with H : defaulted [] (as_list forward_of_value) _ _ = Some ?l |- _ => rename H into Hf end.
  unfold defaulted in Hf. case_match; [|by injection Hf as <-]. unfold as_list in Hf. case_match; try done.
  eapply Forall_impl; [eapply mapM_Forall, Hf; apply forward_of_value_ports|]. done.
Qed.

Lemma drop_invalid_subset ps ids names servers p : p ∈ drop_invalid_from ids names servers ps -> p ∈ ps.
Proof.
  revert ids names servers. induction ps as [|q ps IH]; intros ids names servers; cbn; [done|].
  repeat case_match; rewrite ?elem_of_cons; naive_solver.
Qed.

Lemma import_profiles_ok `{Json Value} f ids path m ps m' :
  import_profiles f ids path m = (Ok ps, m') ->
  m' = m /\ wf_profiles ps /\ Forall (fun p => wf_profile_doc (profile_doc p)) ps.
Proof.
  unfold import_profiles. intros (o & m1 & Hr & E)%bind_Ok_inv.
  assert (m1 = m) as -> by (unfold read_json in Hr; congruence).
  apply bind_Ok_inv in E as (v & m2 & [= _ <-] & E). apply bind_Ok_inv in E as (l & m3 & [= Hl <-] & E).
  injection E as <- <-. split; [done|]. split; [apply drop_invalid_wf|].
  apply Forall_forall. intros p Hp%drop_invalid_subset.
  destruct (as_list _ _) as [k|] eqn:Ek in Hl; [|done]. injection Hl as ->.
  unfold as_list in Ek. case_match; try done.
  eapply mapM_Forall in Ek; [|apply profile_of_value_ports]. rewrite Forall_forall in Ek. by apply Ek.
Qed.

Lemma import_profiles_frame `{Json Value} f ids path m r m' :
  import_profiles f ids path m = (r, m') -> m' = m.
Proof.
  unfold import_profiles, mbind, M_bind, lift, mret, M_ret. unfold read_json.
  repeat case_match; intros; simplify_eq; done.
Qed.

(** ** Keys *)

Lemma wf_keys_iff ks :
  wf_keys ks <-> Forall valid_key ks /\ NoDup (k_id <$> ks) /\ NoDup (k_name <$> ks) /\ NoDup (k_public <$> ks).
Proof. unfold wf_keys_from. by rewrite !fresh_empty. Qed.

Lemma good_keys_upsert k ks :
  wf_keys ks -> valid_key k ->
  (forall q, q ∈ ks -> k_id q <> k_id k -> k_name q <> k_name k /\ k_public q <> k_public k) ->
  wf_keys (upsert k_id k ks).
Proof.
  rewrite !wf_keys_iff. intros (Hv & Hi & Hn & Hp) Hk Hq. split_and!.
  - by apply upsert_Forall.
  - by apply upsert_ids.
  - apply upsert_NoDup; [done..|]. intros y Hy Hne. by apply Hq.
  - apply upsert_NoDup; [done..|]. intros y Hy Hne. by apply Hq.
Qed.

Lemma good_keys_filter (Q : AuthKey -> Prop) `{!forall k, Decision (Q k)} ks : wf_keys ks -> wf_keys (filter Q ks).
Proof.
  rewrite !wf_keys_iff. intros (Hv & Hi & Hn & Hp).
  split_and!; [by apply Forall_filtered|by apply NoDup_filtered..].
Qed.

Lemma find_key_known ks i : is_Some (find_key ks i) <-> i ∈ k_id <$> ks.
Proof.
  unfold find_key. split.
  - intros [k E]. apply bind_Some in E as ([pos k'] & (Hpos & <- & _)%list_find_Some & _).
    apply elem_of_ids. by eapply list_elem_of_lookup_2.
  - intros (k & -> & Hk)%list_elem_of_fmap.
    destruct (list_find _ ks) as [[pos k']|] eqn:E; [by eexists|].
    apply list_find_None in E. rewrite Forall_forall in E. by destruct (E k Hk).
Qed.

Lemma upsert_keeps_ids {A} (id : A -> bytes) x (l : list A) i :
  i ∈ id <$> l -> i ∈ id <$> upsert id x l.
Proof.
  unfold upsert. destruct (list_find _ l) as [[pos y]|] eqn:E.
  - apply list_find_Some in E as (Hpos & Hy & _). rewrite list_fmap_insert, list_insert_id; [done|].
    rewrite list_lookup_fmap, Hpos. cbn. by rewrite Hy.
  - rewrite fmap_app. set_solver.
Qed.

(** ** Clients *)

Section clients.
Context `{PublicKeys}.

Lemma wf_clients_iff cs :
  wf_clients cs <-> Forall (fun c => is_valid_name (ac_name c) = true /\ canonical_public c = true) cs
    /\ NoDup (ac_name <$> cs) /\ NoDup (ac_public <$> cs).
Proof. unfold wf_clients_from. by rewrite !fresh_empty. Qed.

Lemma good_clients_filter (Q : AuthorizedClient -> Prop) `{!forall c, Decision (Q c)} cs :
  wf_clients cs -> wf_clients (filter Q cs).
Proof.
  rewrite !wf_clients_iff. intros (Hv & Hn & Hp).
  split_and!; [by apply Forall_filtered|by apply NoDup_filtered..].
Qed.

Lemma good_clients_snoc c cs :
  wf_clients cs -> is_valid_name (ac_name c) = true -> canonical_public c = true ->
  (ac_name c ∉ ac_name <$> cs) -> (ac_public c ∉ ac_public <$> cs) -> wf_clients (cs ++ [c]).
Proof.
  rewrite !wf_clients_iff. intros (Hv & Hn & Hp) Hvc Hcc Hnc Hpc. rewrite !fmap_app.
  assert (Hsnoc : forall (l : list bytes) x, NoDup l -> (x ∉ l) -> NoDup (l ++ [x])).
  { intros l x Hl Hx. apply NoDup_app. split_and!; [done| |apply NoDup_singleton].
    intros y Hy ->%list_elem_of_singleton. done. }
  split_and!; [|by apply Hsnoc..]. apply Forall_app. split; [done|]. by constructor.
Qed.
End clients.
