(* ===== verification/DesktopShell.v ===== *)
(** * The desktop application's shell ([tray.rs], [logging.rs], [autostart.rs])

    The tray's menu and icon with the cache that spares native calls, the log's ring
    and rotated file, and the login item on either platform. What the operating system
    shows or keeps is part of the state ([Native], [LogDisk], [Registry], [Agents]), so
    the theorems speak of it; its failures are arguments. *)

From S2P Require Import Prelude RustStr Net Stream Signaling Socks5 RoutedSet DnsForward Dial Blocklist.
From S2P Require Import Registry Server Client Http LocalConn Accept Forward ForwardProofs PortForwards.
From S2P Require Import Config Ipc Session DesktopStore Supervisor.

(** ** The tray *)

Inductive TrayState : Type := TrayOff | TrayBusy | TrayActive | TrayChanging | TrayRunning | TrayDisabled.

#[export] Instance TrayState_eq_dec : EqDecision TrayState.
Proof. solve_decision. Defined.

#[export] Instance Phase_eq_dec : EqDecision Supervisor.Phase.
Proof. solve_decision. Defined.

#[export] Instance ServerPhase_eq_dec : EqDecision ServerPhase.
Proof. solve_decision. Defined.

Definition MENU_OPEN : bytes := str "open".
Definition MENU_QUIT : bytes := str "quit".
Definition MENU_TOGGLE_SERVER : bytes := str "toggle-server".
Definition MENU_COPY_SERVER_ID : bytes := str "copy-server-id".
Definition MENU_SET_UP_SERVER : bytes := str "set-up-server".
Definition MENU_LAUNCH_AT_LOGIN : bytes := str "launch-at-login".

Definition clients_connected (count : nat) : bytes :=
  match count with
  | 0%nat => str "no clients connected"
  | 1%nat => str "1 client connected"
  | n => dec (Z.of_nat n) ++ str " clients connected"
  end.

Abbreviation ServerPair := (option (DesktopStore.ServerConfig * ServerSnapshot)).

Definition server_line (sv : ServerPair) : bytes :=
  match sv with
  | None => str "No server set up"
  | Some (s, snap) =>
      match ss_phase snap with
      | SvStopped =>
          if negb (sv_enabled s) then str "Server disabled"
          else if bool_decide (sv_clients s = []) then str "Server stopped · no clients authorized"
          else str "Server stopped"
      | SvRunning => str "Server running · " ++ clients_connected (length (ss_clients snap))
      | SvStarting => str "Server starting…"
      | SvStopping => str "Server stopping…"
      | SvFailed => str "Server failed to start"
      end
  end.

Definition server_toggle (s : DesktopStore.ServerConfig) (phase : ServerPhase) : bytes * bool :=
  (if sv_enabled s then str "Disable Server" else str "Enable Server",
   negb (bool_decide (phase = SvStopping))).

Definition is_progress (p : Supervisor.Phase) : bool :=
  match p with PConnecting | PReconnecting => true | _ => false end.

Definition connections_line (phases : list Supervisor.Phase) : option bytes :=
  if bool_decide (phases = []) then None
  else
    let up := length (filter (fun p => p = PConnected) phases) in
    Some (if bool_decide (0 < up)%nat
          then str "Connections: " ++ dec (Z.of_nat up) ++ str " of " ++ dec (Z.of_nat (length phases))
                 ++ str " connected"
          else if bool_decide (PFailed ∈ phases) then str "Connections: failed"
          else if existsb is_progress phases then str "Connections: connecting…"
          else str "Connections: none connected").

Definition tray_state (sv : ServerPair) (phases : list Supervisor.Phase) : TrayState :=
  let up := bool_decide (PConnected ∈ phases) in
  match sv with
  | Some (s, snap) =>
      if bool_decide (ss_phase snap = SvStopping) then TrayChanging
      else if negb (sv_enabled s) then (if up then TrayActive else TrayDisabled)
      else match ss_phase snap with
           | SvRunning => TrayRunning
           | SvStarting | SvStopping => TrayChanging
           | SvStopped | SvFailed => TrayOff
           end
  | None => if up then TrayActive else if existsb is_progress phases then TrayBusy else TrayOff
  end.

Abbreviation Layout := (bool * bool)%type.
Abbreviation SyncKey := (TrayState * bytes * option bytes * option (bytes * bool))%type.

(** What the user sees: the items of the menu that is set (fresh ones are blank), the
    tooltip, the icon and the checkbox. *)
Record Native : Type := mkNative {
  n_status : bytes;
  n_toggle : option (bytes * bool);
  n_connections : option bytes;
  n_tooltip : bytes;
  n_icon : TrayState;
  n_checked : bool;
}.

Record Tray : Type := mkTray {
  tr_layout : option Layout;
  tr_synced : option SyncKey;
  tr_native : Native;
}.

Definition Tray_new : Tray :=
  mkTray None None (mkNative [] None None (str "flextunnel") TrayOff false).

(** The new menu's items; [built] is whether the system built it. *)
Definition rebuild_menu (built : bool) (l : Layout) (n : Native) : option Native :=
  if built
  then Some (mkNative [] (if l.1 then Some (str "Disable Server", false) else None)
               (if l.2 then Some [] else None) (n_tooltip n) (n_icon n) (n_checked n))
  else None.

Definition set_launch_at_login (enabled : bool) (t : Tray) : Tray :=
  let n := tr_native t in
  mkTray (tr_layout t) (tr_synced t)
    (mkNative (n_status n) (n_toggle n) (n_connections n) (n_tooltip n) (n_icon n) enabled).

Definition client_phases (ps : list Profile) (snaps : gmap bytes Snapshot) : list Supervisor.Phase :=
  (fun p => from_option sn_phase PIdle (snaps !! p_id p)) <$> ps.

Definition sync_key (sv : ServerPair) (phases : list Supervisor.Phase) : SyncKey :=
  (tray_state sv phases, server_line sv, connections_line phases,
   (fun x => server_toggle x.1 (ss_phase x.2)) <$> sv).

(** The native calls for a changed key; an item that is not in the menu is left out. *)
Definition show (icon_made has_server : bool) (old : option SyncKey) (key : SyncKey) (n : Native) : Native :=
  let '(state, line, connections, toggle) := key in
  let icon_changed := negb (bool_decide ((fun k : SyncKey => k.1.1.1) <$> old = Some state)) in
  mkNative line
    (match n_toggle n, toggle with Some _, Some t => Some t | t, _ => t end)
    (match n_connections n, connections with Some _, Some c => Some c | c, _ => c end)
    (str "flextunnel — " ++ match connections with
                           | Some c => if has_server then line else c
                           | None => line
                           end)
    (if icon_changed && icon_made then state else n_icon n)
    (n_checked n).

(** [Tray::sync]. *)
Definition tray_sync (built icon_made : bool) (ps : list Profile) (snaps : gmap bytes Snapshot)
    (server : option DesktopStore.ServerConfig) (server_snap : ServerSnapshot) (t : Tray) : Tray :=
  let phases := client_phases ps snaps in
  let layout := (bool_decide (is_Some server), negb (bool_decide (phases = []))) in
  let fresh :=
    if bool_decide (tr_layout t = Some layout) then Some t
    else n ← rebuild_menu built layout (tr_native t); Some (mkTray (Some layout) None n) in
  match fresh with
  | None => t
  | Some t =>
      let key := sync_key ((fun s => (s, server_snap)) <$> server) phases in
      if bool_decide (tr_synced t = Some key) then t
      else mkTray (tr_layout t) (Some key)
             (show icon_made (bool_decide (is_Some server)) (tr_synced t) key (tr_native t))
  end.

(** ** The log *)

Definition RING_CAPACITY : nat := 2000.
Definition MAX_LOG_BYTES : Z := 5 * 1024 * 1024.

(** The two files of the log directory. *)
Record LogDisk : Type := mkLogDisk { log_current : option bytes; log_rotated : option bytes }.

Record Sink : Type := mkSink {
  ring : list bytes;
  log_written : option Z;        (* the open file's counter; [None] without a file *)
  revision : Z;
}.

(** What fails of one record: the rename, reopening, the write (a failed write is taken to
    have written nothing of its line). *)
Record LogFaults : Type := mkLogFaults { rename_fails : bool; open_fails : bool; write_fails : bool }.

Definition ring_push (line : bytes) (r : list bytes) : list bytes :=
  (if bool_decide (length r = RING_CAPACITY) then drop 1 r else r) ++ [line].

(** The rename fails for a file that is not there. *)
Definition rotate (f : LogFaults) (d : LogDisk) : LogDisk :=
  match log_current d with
  | Some c => if rename_fails f then d else mkLogDisk None (Some c)
  | None => d
  end.

(** [open_log]: the file is created if need be, and its length read. *)
Definition open_log (f : LogFaults) (d : LogDisk) : option (Z * LogDisk) :=
  if open_fails f then None
  else let c := default [] (log_current d) in
       Some (Z.of_nat (length c), mkLogDisk (Some c) (log_rotated d)).

Definition append_line (f : LogFaults) (line : bytes) (written : Z) (d : LogDisk) : Z * LogDisk :=
  if write_fails f then (written, d)
  else (written + Z.of_nat (length line) + 1,
        mkLogDisk (Some (default [] (log_current d) ++ line ++ [x0a])) (log_rotated d)).

(** [LogFile::write_line]: the counter and the files. *)
Definition write_line (f : LogFaults) (line : bytes) (written : Z) (d : LogDisk) : Z * LogDisk :=
  if MAX_LOG_BYTES <? written
  then
    let d := rotate f d in
    match open_log f d with
    | Some (written, d) => append_line f line written d
    | None => (written, d)
    end
  else append_line f line written d.

Definition log_record (f : LogFaults) (line : bytes) (s : Sink) (d : LogDisk) : Sink * LogDisk :=
  let ring := ring_push line (ring s) in
  match log_written s with
  | Some w =>
      let '(w, d) := write_line f line w d in
      (mkSink ring (Some w) ((revision s + 1) mod 2 ^ 64), d)
  | None => (mkSink ring None ((revision s + 1) mod 2 ^ 64), d)
  end.

(** ** The login item *)

Definition LOGIN_ITEM_ARG : bytes := str "--launched-at-login".

Definition launched_at_login (args : list bytes) : bool :=
  existsb (fun a => bool_decide (a = LOGIN_ITEM_ARG)) (drop 1 args).

(** Windows: the [Run] value and the approval record. *)
Record Registry : Type := mkRegistry { reg_run : option bytes; reg_approved : option bytes }.

Definition run_command (exe : bytes) : bytes := [x22] ++ exe ++ [x22] ++ str " " ++ LOGIN_ITEM_ARG.

Definition approval_disabled (record : bytes) : bool :=
  match record with b :: _ => Z.land (u8 b) 1 =? 1 | [] => false end.

Definition win_is_enabled (r : Registry) : bool :=
  bool_decide (is_Some (reg_run r)) && negb (from_option approval_disabled false (reg_approved r)).

Definition win_register (exe : bytes) (r : Registry) : Registry :=
  mkRegistry (Some (run_command exe)) (reg_approved r).

Definition win_clear_approval (r : Registry) : Registry := mkRegistry (reg_run r) None.

Definition win_unregister (r : Registry) : Registry := win_clear_approval (mkRegistry None (reg_approved r)).

Definition win_set_enabled (exe : bytes) (enabled : bool) (r : Registry) : Registry :=
  if enabled then win_clear_approval (win_register exe r) else win_unregister r.

Definition win_refresh (exe : bytes) (r : Registry) : Registry :=
  if win_is_enabled r then win_register exe r else r.

(** macOS: the agent's plist, and whether launchd's list disables it. *)
Record Agents : Type := mkAgents { ag_plist : option bytes; ag_disabled : option bool }.

Definition LABEL : bytes := str "com.flextunnel.desktop".

Fixpoint replace_byte (c : byte) (by_ : bytes) (s : bytes) : bytes :=
  match s with
  | [] => []
  | b :: s' => (if bool_decide (b = c) then by_ else [b]) ++ replace_byte c by_ s'
  end.

Definition xml_escape (s : bytes) : bytes :=
  replace_byte ">"%byte (str "&gt;") (replace_byte "<"%byte (str "&lt;") (replace_byte "&"%byte (str "&amp;") s)).

Definition tab : bytes := [x09].
Definition nl : bytes := [x0a].
Definition elem (depth : nat) (name text : bytes) : bytes :=
  concat (replicate depth tab) ++ str "<" ++ name ++ str ">" ++ text ++ str "</" ++ name ++ str ">" ++ nl.
Definition line (depth : nat) (text : bytes) : bytes := concat (replicate depth tab) ++ text ++ nl.

Definition plist_prolog : bytes :=
  str "<?xml version=" ++ [x22] ++ str "1.0" ++ [x22] ++ str " encoding=" ++ [x22] ++ str "UTF-8" ++ [x22]
  ++ str "?>" ++ nl
  ++ str "<!DOCTYPE plist PUBLIC " ++ [x22] ++ str "-//Apple//DTD PLIST 1.0//EN" ++ [x22] ++ str " " ++ [x22]
  ++ str "http://www.apple.com/DTDs/PropertyList-1.0.dtd" ++ [x22] ++ str ">" ++ nl
  ++ str "<plist version=" ++ [x22] ++ str "1.0" ++ [x22] ++ str ">" ++ nl.

Definition plist_xml (exe : bytes) : bytes :=
  plist_prolog ++ line 0 (str "<dict>")
  ++ elem 1 (str "key") (str "Label") ++ elem 1 (str "string") LABEL
  ++ elem 1 (str "key") (str "ProgramArguments") ++ line 1 (str "<array>")
  ++ elem 2 (str "string") (xml_escape exe) ++ elem 2 (str "string") LOGIN_ITEM_ARG
  ++ line 1 (str "</array>")
  ++ elem 1 (str "key") (str "RunAtLoad") ++ line 1 (str "<true/>")
  ++ elem 1 (str "key") (str "LimitLoadToSessionType") ++ elem 1 (str "string") (str "Aqua")
  ++ elem 1 (str "key") (str "ProcessType") ++ elem 1 (str "string") (str "Interactive")
  ++ line 0 (str "</dict>") ++ line 0 (str "</plist>").

Definition mac_is_enabled (a : Agents) : bool :=
  bool_decide (is_Some (ag_plist a)) && negb (default false (ag_disabled a)).

Definition mac_register (exe : bytes) (a : Agents) : Agents := mkAgents (Some (plist_xml exe)) (ag_disabled a).
Definition mac_unregister (a : Agents) : Agents := mkAgents None (ag_disabled a).

(** [launchctl enable], when it works. *)
Definition mac_reenable (works : bool) (a : Agents) : Agents :=
  if works then mkAgents (ag_plist a) (Some false) else a.

Definition mac_set_enabled (exe : bytes) (works enabled : bool) (a : Agents) : Agents :=
  if enabled then mac_reenable works (mac_register exe a) else mac_unregister a.

Definition mac_refresh (exe : bytes) (a : Agents) : Agents :=
  if mac_is_enabled a then mac_register exe a else a.
