(* ===== verification/DesktopShellProofs.v ===== *)
(** * The desktop application's shell shows and keeps what it should

    The tray's cache never leaves a stale menu or icon behind, the log keeps the last
    lines in memory and a bounded file on disk, and the login item reads back as it was
    set. *)

From S2P Require Import Prelude RustStr Net Stream Signaling Socks5 RoutedSet DnsForward Dial Blocklist.
From S2P Require Import Registry Server Client Http LocalConn Accept Forward ForwardProofs PortForwards.
From S2P Require Import Config Ipc Session DesktopStore Supervisor DesktopShell.

(** ** The tray *)

(** What a sync was last told. *)
Record TrayView : Type := mkTrayView {
  tv_profiles : list Profile;
  tv_snaps : gmap bytes Snapshot;
  tv_server : option DesktopStore.ServerConfig;
  tv_server_snap : ServerSnapshot;
}.

Definition tv_pair (v : TrayView) : ServerPair := (fun s => (s, tv_server_snap v)) <$> tv_server v.
Definition tv_phases (v : TrayView) : list Supervisor.Phase := client_phases (tv_profiles v) (tv_snaps v).

Definition key_of (v : TrayView) : SyncKey := sync_key (tv_pair v) (tv_phases v).

Definition sync (v : TrayView) (t : Tray) : Tray :=
  tray_sync true true (tv_profiles v) (tv_snaps v) (tv_server v) (tv_server_snap v) t.

(** The menu, the icon and the tooltip of a key. *)
Definition displays (n : Native) (key : SyncKey) : Prop :=
  let '(state, line, connections, toggle) := key in
  n_icon n = state /\ n_status n = line /\ n_connections n = connections /\ n_toggle n = toggle
  /\ n_tooltip n = str "flextunnel — " ++ match connections with
                                          | Some c => if bool_decide (is_Some toggle) then line else c
                                          | None => line
                                          end.

Definition layout_of (key : SyncKey) : Layout :=
  (bool_decide (is_Some key.2), bool_decide (is_Some key.1.2)).

Record tray_ok (t : Tray) : Prop := mkTrayOk {
  ok_items : forall l, tr_layout t = Some l ->
    bool_decide (is_Some (n_toggle (tr_native t))) = l.1
    /\ bool_decide (is_Some (n_connections (tr_native t))) = l.2;
  ok_synced : forall key, tr_synced t = Some key -> tr_layout t = Some (layout_of key) /\ displays (tr_native t) key;
}.

Lemma tray_new_ok : tray_ok Tray_new.
Proof. by split. Qed.

Lemma launch_at_login_ok b t : tray_ok t -> tray_ok (set_launch_at_login b t).
Proof.
  intros [Hi Hs]. split; [done|]. intros key Hk. destruct (Hs key Hk) as [Hl Hd]. split; [done|].
  by destruct key as [[[]]].
Qed.

Lemma is_Some_fmap_bool {A B} (f : A -> B) (o : option A) :
  bool_decide (is_Some (f <$> o)) = bool_decide (is_Some o).
Proof. by destruct o. Qed.

Lemma connections_some phases :
  bool_decide (is_Some (connections_line phases)) = negb (bool_decide (phases = [])).
Proof. unfold connections_line. by destruct (bool_decide (phases = [])). Qed.

Lemma key_layout v :
  layout_of (key_of v) = (bool_decide (is_Some (tv_server v)), negb (bool_decide (tv_phases v = []))).
Proof.
  unfold layout_of, key_of, sync_key, tv_pair. cbn. by rewrite !is_Some_fmap_bool, connections_some.
Qed.

(** The native calls on a menu that has the key's items. *)
Lemma show_displays old n v :
  bool_decide (is_Some (n_toggle n)) = bool_decide (is_Some (tv_server v)) ->
  bool_decide (is_Some (n_connections n)) = negb (bool_decide (tv_phases v = [])) ->
  (forall key, old = Some key -> n_icon n = key.1.1.1) ->
  displays (show true (bool_decide (is_Some (tv_server v))) old (key_of v) n) (key_of v).
Proof.
  intros Ht Hc Hicon. unfold key_of, sync_key, show, displays, tv_pair. cbn. split_and!.
  - rewrite andb_true_r. set (state := tray_state _ _).
    destruct (decide ((fun k : SyncKey => k.1.1.1) <$> old = Some state)) as [Ho|Ho].
    + rewrite bool_decide_eq_true_2 by done. apply fmap_Some in Ho as (key & -> & Hk).
      cbn. rewrite Hk. by apply Hicon.
    + by rewrite bool_decide_eq_false_2.
  - done.
  - rewrite <- connections_some in Hc. by destruct (n_connections n), (connections_line (tv_phases v)).
  - by destruct (n_toggle n), (tv_server v).
  - by destruct (tv_server v).
Qed.

Lemma sync_ok v t : tray_ok t -> tray_ok (sync v t) /\ displays (tr_native (sync v t)) (key_of v).
Proof.
  intros [Hi Hs]. unfold sync, tray_sync. fold (tv_phases v). fold (tv_pair v). fold (key_of v).
  set (l := (bool_decide (is_Some (tv_server v)), negb (bool_decide (tv_phases v = [])))).
  assert (Hlay : layout_of (key_of v) = l) by apply key_layout.
  assert (Hgo : forall t1, tray_ok t1 -> tr_layout t1 = Some l ->
    let t' := if bool_decide (tr_synced t1 = Some (key_of v)) then t1
              else mkTray (tr_layout t1) (Some (key_of v))
                     (show true (bool_decide (is_Some (tv_server v))) (tr_synced t1) (key_of v) (tr_native t1)) in
    tray_ok t' /\ displays (tr_native t') (key_of v)).
  { intros t1 [Hi1 Hs1] Hl1. destruct (Hi1 l Hl1) as [Hit Hic]. cbv zeta.
    destruct (decide (tr_synced t1 = Some (key_of v))) as [Hk|Hk].
    { rewrite bool_decide_eq_true_2 by done. by destruct (Hs1 _ Hk). }
    rewrite bool_decide_eq_false_2 by done.
    assert (Hd : displays (show true (bool_decide (is_Some (tv_server v))) (tr_synced t1) (key_of v) (tr_native t1))
                   (key_of v)).
    { apply show_displays; [done..|]. intros key Hkey. destruct (Hs1 key Hkey) as [_ Hd].
      destruct key as [[[]]]. by destruct Hd. }
    split; [|done]. split.
    - intros l' Hl'. rewrite Hl1 in Hl'. injection Hl' as <-. cbn [tr_native].
      destruct (key_of v) as [[[st ln] cn] tg] eqn:Ek. destruct Hd as (_ & _ & -> & -> & _).
      by rewrite <- Hlay.
    - intros key [= <-]. split; [by rewrite Hl1, Hlay|done]. }
  destruct (decide (tr_layout t = Some l)) as [Hl|Hl].
  { rewrite bool_decide_eq_true_2 by done. by apply Hgo. }
  rewrite bool_decide_eq_false_2 by done. cbn [rebuild_menu mbind option_bind].
  apply Hgo; [|done]. split; [|done]. intros l' [= <-]. cbn.
  by repeat case_match.
Qed.

(** The tray never shows a stale state: whatever came before, after each sync whose
    native calls succeed the icon, the status and connections lines, the server item and
    the tooltip are those of the profiles and the server it was given. *)
Theorem tray_shows_state (history : list TrayView) (checked : bool) (v : TrayView) :
  displays (tr_native (sync v (foldl (fun t v => sync v t) (set_launch_at_login checked Tray_new) history)))
    (key_of v).
Proof.
  apply sync_ok. assert (H0 : tray_ok (set_launch_at_login checked Tray_new))
    by apply launch_at_login_ok, tray_new_ok.
  revert H0. generalize (set_launch_at_login checked Tray_new). induction history as [|u history IH]; intros t Ht; [done|].
  apply IH. by apply sync_ok.
Qed.

(** ** The log *)

Definition log_run (records : list (LogFaults * bytes)) (st : Sink * LogDisk) : Sink * LogDisk :=
  foldl (fun st r => log_record r.1 r.2 st.1 st.2) st records.

Definition file_size (f : option bytes) : Z := Z.of_nat (length (default [] f)).

Definition last_lines (all : list bytes) : list bytes := drop (length all - RING_CAPACITY) all.

Lemma ring_push_last all line : ring_push line (last_lines all) = last_lines (all ++ [line]).
Proof.
  assert (Hcap : (0 < RING_CAPACITY)%nat) by (by apply Nat.ltb_lt).
  unfold ring_push, last_lines. rewrite length_drop, length_app. cbn [length].
  case_bool_decide as Hl.
  - rewrite drop_drop, drop_app_le by lia. f_equal. f_equal. lia.
  - rewrite drop_app_le by lia. do 2 f_equal. lia.
Qed.

(** The counter is the file's size, unless the file is gone and due to be reopened. *)
Record log_ok (bound : Z) (w : Z) (d : LogDisk) : Prop := mkLogOk {
  log_current_size : file_size (log_current d) <= bound;
  log_rotated_size : file_size (log_rotated d) <= bound;
  log_counter : w = file_size (log_current d) \/ (log_current d = None /\ MAX_LOG_BYTES < w);
}.

Lemma append_ok bound f line w d :
  log_ok bound w d -> w = file_size (log_current d) -> w + Z.of_nat (length line) + 1 <= bound ->
  let '(w', d') := append_line f line w d in log_ok bound w' d'.
Proof.
  intros Hok Hw Hle. unfold append_line. destruct (write_fails f); [done|].
  assert (Hs : file_size (Some (default [] (log_current d) ++ line ++ [x0a])) = w + Z.of_nat (length line) + 1).
  { unfold file_size in *. simpl. rewrite !length_app. simpl. lia. }
  split; cbn -[file_size]; [rewrite Hs; lia|apply Hok|left; by rewrite Hs].
Qed.

Lemma write_line_ok bound f line w d :
  rename_fails f = false -> MAX_LOG_BYTES + Z.of_nat (length line) + 1 <= bound -> log_ok bound w d ->
  let '(w', d') := write_line f line w d in log_ok bound w' d'.
Proof.
  intros Hr Hle Hok. unfold write_line. destruct (MAX_LOG_BYTES <? w) eqn:Hw.
  - assert (Hrot : log_current (rotate f d) = None /\ file_size (log_rotated (rotate f d)) <= bound).
    { unfold rotate. destruct (log_current d) as [c|] eqn:Ec; [rewrite Hr|split; [done|apply Hok]].
      split; [done|]. pose proof (log_current_size _ _ _ Hok) as Hc. by rewrite Ec in Hc. }
    destruct Hrot as [Hcur Hrot]. unfold open_log. destruct (open_fails f).
    + split; [rewrite Hcur|done|right; split; [done|lia]]. unfold file_size, MAX_LOG_BYTES in *. cbn. lia.
    + rewrite Hcur. cbn [default from_option length]. apply append_ok; [|done|cbn; unfold MAX_LOG_BYTES in *; lia].
      split; [|done|by left]. unfold file_size, MAX_LOG_BYTES in *. cbn. lia.
  - destruct (log_counter _ _ _ Hok) as [Hc|[_ Hgt]]; [|lia]. apply append_ok; [done|done|lia].
Qed.

(** The log stays small whatever is written: the window keeps exactly the last 2000
    lines, and each of the two files at most 5 MiB and one line, as long as a full file
    can be renamed. Failed writes and reopenings change nothing of that. *)
Theorem log_bounded (records : list (LogFaults * bytes)) (longest : Z) (s : Sink) (d : LogDisk) :
  ring s = [] -> log_written s = Some (file_size (log_current d)) ->
  file_size (log_current d) <= MAX_LOG_BYTES + longest + 1 ->
  file_size (log_rotated d) <= MAX_LOG_BYTES + longest + 1 ->
  Forall (fun r => rename_fails r.1 = false /\ Z.of_nat (length r.2) <= longest) records ->
  let '(s', d') := log_run records (s, d) in
  ring s' = last_lines records.*2 /\ (length (ring s') <= RING_CAPACITY)%nat
  /\ file_size (log_current d') <= MAX_LOG_BYTES + longest + 1
  /\ file_size (log_rotated d') <= MAX_LOG_BYTES + longest + 1.
Proof.
  intros Hring Hw Hc Hrot Hall. set (bound := MAX_LOG_BYTES + longest + 1) in *.
  assert (Hrun : ring (log_run records (s, d)).1 = last_lines records.*2
    /\ exists w, log_written (log_run records (s, d)).1 = Some w /\ log_ok bound w (log_run records (s, d)).2).
  { induction records as [|r records IH] using rev_ind.
    - split; [done|]. eexists. split; [done|]. split; [done..|by left].
    - apply Forall_app in Hall as [Hall [[Hrn Hlen] _]%Forall_cons].
      destruct (IH Hall) as (Hr & w & Hww & Hok). unfold log_run in *. rewrite foldl_snoc, fmap_app.
      destruct (foldl _ _ records) as [s1 d1]. cbn [fst snd] in *. unfold log_record. rewrite Hww.
      pose proof (write_line_ok bound r.1 r.2 w d1 Hrn ltac:(unfold bound; lia) Hok) as Hok'.
      destruct (write_line r.1 r.2 w d1) as [w' d']. cbn. rewrite Hr. split; [apply ring_push_last|eauto]. }
  destruct (log_run records (s, d)) as [s' d']. destruct Hrun as (Hr & w & _ & Hok). cbn [fst snd] in *.
  split_and!; [done| |apply Hok|apply Hok]. rewrite Hr. unfold last_lines. rewrite length_drop. lia.
Qed.

(** ** The login item *)

Lemma mac_unregistered a : mac_is_enabled (mac_unregister a) = false.
Proof. done. Qed.

(** The switch reads back as it was set, on either platform (on macOS when the system's
    own record can be cleared), and a launch re-points an item that is on without turning on
    one that is off, even one switched off in the system's settings. *)
Theorem login_item_reads_back (exe : bytes) (enabled : bool) (r : DesktopShell.Registry) (a : Agents) :
  win_is_enabled (win_set_enabled exe enabled r) = enabled
  /\ mac_is_enabled (mac_set_enabled exe true enabled a) = enabled
  /\ win_is_enabled (win_refresh exe r) = win_is_enabled r
  /\ mac_is_enabled (mac_refresh exe a) = mac_is_enabled a
  /\ (win_is_enabled r = true -> reg_run (win_refresh exe r) = Some (run_command exe))
  /\ (mac_is_enabled a = true -> ag_plist (mac_refresh exe a) = Some (plist_xml exe)).
Proof.
  unfold win_refresh, mac_refresh. split_and!.
  - by destruct enabled.
  - by destruct enabled.
  - destruct (win_is_enabled r) eqn:E; [|done]. revert E. unfold win_is_enabled. cbn.
    by destruct (bool_decide (is_Some (reg_run r))).
  - destruct (mac_is_enabled a) eqn:E; [|done]. revert E. unfold mac_is_enabled. cbn.
    by destruct (bool_decide (is_Some (ag_plist a))).
  - by intros ->.
  - by intros ->.
Qed.

(** A path in the property list cannot open or close an element. *)
Lemma replace_byte_elem c by_ s b : b ∈ replace_byte c by_ s -> b ∈ by_ \/ (b ∈ s /\ b <> c).
Proof.
  induction s as [|x s IH]; cbn; [by intros ?%not_elem_of_nil|]. intros [Hb|Hb]%elem_of_app.
  - case_bool_decide as Hx; [by left|]. apply list_elem_of_singleton in Hb as ->. right. split; [by left|done].
  - destruct (IH Hb) as [?|[? ?]]; [by left|]. right. split; [by right|done].
Qed.

Lemma xml_escape_plain s b : b ∈ xml_escape s -> b <> "<"%byte /\ b <> ">"%byte.
Proof.
  assert (Hsafe : forall e, e ∈ [str "&gt;"; str "&lt;"; str "&amp;"] -> b ∈ e -> b <> "<"%byte /\ b <> ">"%byte).
  { intros e He Hb. assert (Hall : forallb (fun e => forallb (fun c => negb (bool_decide (c = "<"%byte))
      && negb (bool_decide (c = ">"%byte))) e) [str "&gt;"; str "&lt;"; str "&amp;"]) by (vm_compute; exact I).
    apply forallb_True in Hall. rewrite Forall_forall in Hall. specialize (Hall e He).
    apply forallb_True in Hall. rewrite Forall_forall in Hall. specialize (Hall b Hb).
    apply Is_true_true, andb_true_iff in Hall as [H1 H2]. by rewrite negb_true_iff, bool_decide_eq_false in H1, H2. }
  intros [Hb|[Hb Hgt]]%replace_byte_elem; [apply (Hsafe (str "&gt;")); [by left|done]|].
  apply replace_byte_elem in Hb as [Hb|[_ Hlt]]; [apply (Hsafe (str "&lt;")); [right; by left|done]|done].
Qed.

(** ** Witness *)

Definition ref_records : list (LogFaults * bytes) :=
  [(mkLogFaults false false false, str "started"); (mkLogFaults false true true, str "connected")].

Lemma log_bounded_witness :
  let '(s', d') := log_run ref_records (mkSink [] (Some 0) 0, mkLogDisk None None) in
  ring s' = [str "started"; str "connected"] /\ (length (ring s') <= RING_CAPACITY)%nat
  /\ file_size (log_current d') <= MAX_LOG_BYTES + 20 + 1 /\ file_size (log_rotated d') <= MAX_LOG_BYTES + 20 + 1.
Proof.
  apply (log_bounded ref_records 20 (mkSink [] (Some 0) 0) (mkLogDisk None None));
    [done|done|done|done|repeat constructor; by vm_compute].
Defined.
