(* ===== verification/DesktopState.v ===== *)
(** * The desktop application's state ([app.rs] of the desktop crate: the types and [App])

    The fields of [App] in three groups: what is persisted ([Data]), what closing the
    forms resets ([Forms]), and the rest. A [Desk] is the application beside everything
    it acts on: the machine that holds its store, the commands it has sent to the
    supervisor, the texts it has put on the clipboard and its login-item requests.
    [Answers] is what the outside answers while one message is handled. *)

From S2P Require Import Prelude RustStr Net Stream Signaling Socks5 RoutedSet DnsForward Dial Blocklist.
From S2P Require Import Registry Server Client Http LocalConn Accept Forward ForwardProofs PortForwards.
From S2P Require Import Config Ipc Session DesktopStore DesktopExport Supervisor.
From S2P Require Import Paths DesktopForms DesktopShell.

Declare Scope desk_scope.
Delimit Scope desk_scope with desk.
Notation "d |> f" := (f d) (at level 50, left associativity, only parsing) : desk_scope.

(** Why the saved store could not be used whole. *)
Inductive StoreReset : Type :=
| ResetVersion (version : Z)
| ResetUnsealable
| ResetUnreadable (why : bytes).

Inductive Selection : Type := SelEmpty | SelProfile (id : bytes) | SelServer | SelKeys | SelLogs.

#[export] Instance Selection_eq_dec : EqDecision Selection.
Proof. solve_decision. Defined.

Inductive LogFilter : Type := FilterAll | FilterProfile (name : bytes) | FilterServer.

#[export] Instance LogFilter_eq_dec : EqDecision LogFilter.
Proof. solve_decision. Defined.

#[export] Instance DesktopServer_eq_dec : EqDecision DesktopStore.ServerConfig.
Proof. solve_decision. Defined.

Record KeyChoice : Type := mkKeyChoice { kc_id : bytes; kc_name : bytes }.

(** Domains, CIDRs and the set they parse to, if they do. *)
Abbreviation RoutedCache := (option (list bytes * list bytes * option RoutedSet)).

Module Msg.
Inductive Message : Type :=
| Tick
| SetupTray
| TrayMenu (id : bytes)
| TrayIcon (left_released : bool)
| WindowOpened
| WindowClosed (id : Z)
| Select (s : Selection)
| CopyText (text : bytes)
| ReadOnlyEdited
| ShowConnPath
| DismissConnPath
| StoreResetQuit
| StoreResetContinue
| AddProfile
| EditProfile (id : bytes)
| DeleteProfile (id : bytes)
| Connect (id : bytes)
| Disconnect (id : bytes)
| ExportProfiles
| ImportProfiles
| ExportPicked (path : option bytes)
| ImportPicked (path : option bytes)
| ProfileNameChanged (value : bytes)
| ServerNodeIdChanged (value : bytes)
| AuthKeyPicked (choice : KeyChoice)
| NewKeyPrompt
| NewKeyNameChanged (value : bytes)
| NewKeyCreate
| NewKeyCancel
| AddKey
| EditKey (id : bytes)
| DeleteKey (id : bytes)
| ExportKey (id : bytes)
| KeyNameChanged (value : bytes)
| KeySecretChanged (value : bytes)
| KeyGenerateSecret
| KeyFormSave
| KeyFormCancel
| SocksEnabledToggled (enabled : bool)
| SocksPortChanged (value : bytes)
| HttpEnabledToggled (enabled : bool)
| HttpPortChanged (value : bytes)
| RelayUrlsChanged (value : bytes)
| RelayAuthTokenChanged (value : bytes)
| ProfileFormSave
| ProfileFormCancel
| AddForward (profile_id : bytes)
| EditForward (profile_id forward_id : bytes)
| DeleteForward (profile_id forward_id : bytes)
| ToggleForward (profile_id forward_id : bytes) (enabled : bool)
| FormLabelChanged (value : bytes)
| FormLocalPortChanged (value : bytes)
| FormRemoteHostChanged (value : bytes)
| FormRemotePortChanged (value : bytes)
| FormEnabledToggled (enabled : bool)
| FormSave
| FormCancel
| SetUpServer
| BeginServerSetup
| EditServer
| DeleteServer
| SetServerEnabled (enabled : bool)
| RestartServer
| ServerImportToggled (import : bool)
| ServerImportSecretChanged (value : bytes)
| ServerRegenerateIdentity
| ServerRoutedDomainsChanged (value : bytes)
| ServerRoutedCidrsChanged (value : bytes)
| ServerRelayUrlsChanged (value : bytes)
| ServerRelayAuthTokenChanged (value : bytes)
| ServerFormSave
| ServerFormCancel
| AuthorizeClient
| ClientNameChanged (value : bytes)
| ClientPublicKeyChanged (value : bytes)
| ClientUseOwnKey (choice : KeyChoice)
| ClientFormSave
| ClientFormCancel
| RemoveClient (public_key : bytes)
| ExportServerSecret
| ReplaceIdentity (import : bool)
| IdentityImportToggled (import : bool)
| IdentitySecretChanged (value : bytes)
| IdentityRegenerate
| IdentityFormSave
| IdentityFormCancel
| LogFilterChanged (filter : LogFilter)
| OpenLogFolder
| CopyLogs.
End Msg.

(** What a handler hands back to the runtime. *)
Inductive Task : Type :=
| NoTask
| OpenWindow (id : Z)
| CloseWindow (id : Z)
| FocusWindow (id : Z)
| PickExport
| PickImport
| Exit.

(** What is persisted. *)
Record Data : Type := mkData {
  a_profiles : list Profile;
  a_keys : list AuthKey;
  a_server : option DesktopStore.ServerConfig;
  a_login_set_up : bool;
}.

Definition put_profiles (x : list Profile) (d : Data) : Data :=
  mkData x (a_keys d) (a_server d) (a_login_set_up d).
Definition put_keys (x : list AuthKey) (d : Data) : Data :=
  mkData (a_profiles d) x (a_server d) (a_login_set_up d).
Definition put_server (x : option DesktopStore.ServerConfig) (d : Data) : Data :=
  mkData (a_profiles d) (a_keys d) x (a_login_set_up d).
Definition put_login_set_up (x : bool) (d : Data) : Data :=
  mkData (a_profiles d) (a_keys d) (a_server d) x.

(** The open forms, the two-click guards and the status line: what [close_forms] resets. *)
Record Forms : Type := mkForms {
  profile_form : option ProfileForm;
  key_form : option KeyForm;
  server_form : option ServerForm;
  client_form : option ClientForm;
  identity_form : option IdentityChoice;
  forward_form : option (bytes * ForwardForm);
  confirm_delete : option bytes;
  confirm_delete_key : option bytes;
  confirm_delete_server : bool;
  confirm_export_key : option bytes;
  confirm_remove_client : option bytes;
  confirm_export_server_secret : bool;
  notice : option bytes;
}.

Definition put_profile_form (x : option ProfileForm) (f : Forms) : Forms :=
  mkForms x (key_form f) (server_form f) (client_form f) (identity_form f) (forward_form f)
    (confirm_delete f) (confirm_delete_key f) (confirm_delete_server f) (confirm_export_key f)
    (confirm_remove_client f) (confirm_export_server_secret f) (notice f).
Definition put_key_form (x : option KeyForm) (f : Forms) : Forms :=
  mkForms (profile_form f) x (server_form f) (client_form f) (identity_form f) (forward_form f)
    (confirm_delete f) (confirm_delete_key f) (confirm_delete_server f) (confirm_export_key f)
    (confirm_remove_client f) (confirm_export_server_secret f) (notice f).
Definition put_server_form (x : option ServerForm) (f : Forms) : Forms :=
  mkForms (profile_form f) (key_form f) x (client_form f) (identity_form f) (forward_form f)
    (confirm_delete f) (confirm_delete_key f) (confirm_delete_server f) (confirm_export_key f)
    (confirm_remove_client f) (confirm_export_server_secret f) (notice f).
Definition put_client_form (x : option ClientForm) (f : Forms) : Forms :=
  mkForms (profile_form f) (key_form f) (server_form f) x (identity_form f) (forward_form f)
    (confirm_delete f) (confirm_delete_key f) (confirm_delete_server f) (confirm_export_key f)
    (confirm_remove_client f) (confirm_export_server_secret f) (notice f).
Definition put_identity_form (x : option IdentityChoice) (f : Forms) : Forms :=
  mkForms (profile_form f) (key_form f) (server_form f) (client_form f) x (forward_form f)
    (confirm_delete f) (confirm_delete_key f) (confirm_delete_server f) (confirm_export_key f)
    (confirm_remove_client f) (confirm_export_server_secret f) (notice f).
Definition put_forward_form (x : option (bytes * ForwardForm)) (f : Forms) : Forms :=
  mkForms (profile_form f) (key_form f) (server_form f) (client_form f) (identity_form f) x
    (confirm_delete f) (confirm_delete_key f) (confirm_delete_server f) (confirm_export_key f)
    (confirm_remove_client f) (confirm_export_server_secret f) (notice f).
Definition put_confirm_delete (x : option bytes) (f : Forms) : Forms :=
  mkForms (profile_form f) (key_form f) (server_form f) (client_form f) (identity_form f)
    (forward_form f) x (confirm_delete_key f) (confirm_delete_server f) (confirm_export_key f)
    (confirm_remove_client f) (confirm_export_server_secret f) (notice f).
Definition put_confirm_delete_key (x : option bytes) (f : Forms) : Forms :=
  mkForms (profile_form f) (key_form f) (server_form f) (client_form f) (identity_form f)
    (forward_form f) (confirm_delete f) x (confirm_delete_server f) (confirm_export_key f)
    (confirm_remove_client f) (confirm_export_server_secret f) (notice f).
Definition put_confirm_delete_server (x : bool) (f : Forms) : Forms :=
  mkForms (profile_form f) (key_form f) (server_form f) (client_form f) (identity_form f)
    (forward_form f) (confirm_delete f) (confirm_delete_key f) x (confirm_export_key f)
    (confirm_remove_client f) (confirm_export_server_secret f) (notice f).
Definition put_confirm_export_key (x : option bytes) (f : Forms) : Forms :=
  mkForms (profile_form f) (key_form f) (server_form f) (client_form f) (identity_form f)
    (forward_form f) (confirm_delete f) (confirm_delete_key f) (confirm_delete_server f) x
    (confirm_remove_client f) (confirm_export_server_secret f) (notice f).
Definition put_confirm_remove_client (x : option bytes) (f : Forms) : Forms :=
  mkForms (profile_form f) (key_form f) (server_form f) (client_form f) (identity_form f)
    (forward_form f) (confirm_delete f) (confirm_delete_key f) (confirm_delete_server f)
    (confirm_export_key f) x (confirm_export_server_secret f) (notice f).
Definition put_confirm_export_server_secret (x : bool) (f : Forms) : Forms :=
  mkForms (profile_form f) (key_form f) (server_form f) (client_form f) (identity_form f)
    (forward_form f) (confirm_delete f) (confirm_delete_key f) (confirm_delete_server f)
    (confirm_export_key f) (confirm_remove_client f) x (notice f).
Definition put_notice (x : option bytes) (f : Forms) : Forms :=
  mkForms (profile_form f) (key_form f) (server_form f) (client_form f) (identity_form f)
    (forward_form f) (confirm_delete f) (confirm_delete_key f) (confirm_delete_server f)
    (confirm_export_key f) (confirm_remove_client f) (confirm_export_server_secret f) x.

Section state.
Context `{IpNetworkApi}.

(** [App]; the clipboard is whether one has been opened. *)
Record App : Type := mkApp {
  a_data : Data;
  a_forms : Forms;
  a_tray : option Tray;
  a_window : option Z;
  a_selection : Selection;
  a_applied : option DesktopStore.ServerConfig;
  conn_path_modal : option ConnectionSnapshot;
  io_notice : option bytes;
  store_reset : option StoreReset;
  forward_errors : gmap bytes bytes;
  routed_caches : gmap bytes RoutedCache;
  log_revision : Z;
  log_filter : LogFilter;
  log_text : bytes;
  a_clipboard : bool;
  a_snapshots : gmap bytes Snapshot;
  a_server_snapshot : ServerSnapshot;
  launch_at_login : bool;
}.

Definition put_data (x : Data) (a : App) : App :=
  mkApp x (a_forms a) (a_tray a) (a_window a) (a_selection a) (a_applied a) (conn_path_modal a)
    (io_notice a) (store_reset a) (forward_errors a) (routed_caches a) (log_revision a)
    (log_filter a) (log_text a) (a_clipboard a) (a_snapshots a) (a_server_snapshot a)
    (launch_at_login a).
Definition put_forms (x : Forms) (a : App) : App :=
  mkApp (a_data a) x (a_tray a) (a_window a) (a_selection a) (a_applied a) (conn_path_modal a)
    (io_notice a) (store_reset a) (forward_errors a) (routed_caches a) (log_revision a)
    (log_filter a) (log_text a) (a_clipboard a) (a_snapshots a) (a_server_snapshot a)
    (launch_at_login a).
Definition put_tray (x : option Tray) (a : App) : App :=
  mkApp (a_data a) (a_forms a) x (a_window a) (a_selection a) (a_applied a) (conn_path_modal a)
    (io_notice a) (store_reset a) (forward_errors a) (routed_caches a) (log_revision a)
    (log_filter a) (log_text a) (a_clipboard a) (a_snapshots a) (a_server_snapshot a)
    (launch_at_login a).
Definition put_window (x : option Z) (a : App) : App :=
  mkApp (a_data a) (a_forms a) (a_tray a) x (a_selection a) (a_applied a) (conn_path_modal a)
    (io_notice a) (store_reset a) (forward_errors a) (routed_caches a) (log_revision a)
    (log_filter a) (log_text a) (a_clipboard a) (a_snapshots a) (a_server_snapshot a)
    (launch_at_login a).
Definition put_selection (x : Selection) (a : App) : App :=
  mkApp (a_data a) (a_forms a) (a_tray a) (a_window a) x (a_applied a) (conn_path_modal a)
    (io_notice a) (store_reset a) (forward_errors a) (routed_caches a) (log_revision a)
    (log_filter a) (log_text a) (a_clipboard a) (a_snapshots a) (a_server_snapshot a)
    (launch_at_login a).
Definition put_applied (x : option DesktopStore.ServerConfig) (a : App) : App :=
  mkApp (a_data a) (a_forms a) (a_tray a) (a_window a) (a_selection a) x (conn_path_modal a)
    (io_notice a) (store_reset a) (forward_errors a) (routed_caches a) (log_revision a)
    (log_filter a) (log_text a) (a_clipboard a) (a_snapshots a) (a_server_snapshot a)
    (launch_at_login a).
Definition put_conn_path_modal (x : option ConnectionSnapshot) (a : App) : App :=
  mkApp (a_data a) (a_forms a) (a_tray a) (a_window a) (a_selection a) (a_applied a) x (io_notice a)
    (store_reset a) (forward_errors a) (routed_caches a) (log_revision a) (log_filter a)
    (log_text a) (a_clipboard a) (a_snapshots a) (a_server_snapshot a) (launch_at_login a).
Definition put_io_notice (x : option bytes) (a : App) : App :=
  mkApp (a_data a) (a_forms a) (a_tray a) (a_window a) (a_selection a) (a_applied a)
    (conn_path_modal a) x (store_reset a) (forward_errors a) (routed_caches a) (log_revision a)
    (log_filter a) (log_text a) (a_clipboard a) (a_snapshots a) (a_server_snapshot a)
    (launch_at_login a).
Definition put_store_reset (x : option StoreReset) (a : App) : App :=
  mkApp (a_data a) (a_forms a) (a_tray a) (a_window a) (a_selection a) (a_applied a)
    (conn_path_modal a) (io_notice a) x (forward_errors a) (routed_caches a) (log_revision a)
    (log_filter a) (log_text a) (a_clipboard a) (a_snapshots a) (a_server_snapshot a)
    (launch_at_login a).
Definition put_forward_errors (x : gmap bytes bytes) (a : App) : App :=
  mkApp (a_data a) (a_forms a) (a_tray a) (a_window a) (a_selection a) (a_applied a)
    (conn_path_modal a) (io_notice a) (store_reset a) x (routed_caches a) (log_revision a)
    (log_filter a) (log_text a) (a_clipboard a) (a_snapshots a) (a_server_snapshot a)
    (launch_at_login a).
Definition put_routed_caches (x : gmap bytes RoutedCache) (a : App) : App :=
  mkApp (a_data a) (a_forms a) (a_tray a) (a_window a) (a_selection a) (a_applied a)
    (conn_path_modal a) (io_notice a) (store_reset a) (forward_errors a) x (log_revision a)
    (log_filter a) (log_text a) (a_clipboard a) (a_snapshots a) (a_server_snapshot a)
    (launch_at_login a).
Definition put_log_revision (x : Z) (a : App) : App :=
  mkApp (a_data a) (a_forms a) (a_tray a) (a_window a) (a_selection a) (a_applied a)
    (conn_path_modal a) (io_notice a) (store_reset a) (forward_errors a) (routed_caches a) x
    (log_filter a) (log_text a) (a_clipboard a) (a_snapshots a) (a_server_snapshot a)
    (launch_at_login a).
Definition put_log_filter (x : LogFilter) (a : App) : App :=
  mkApp (a_data a) (a_forms a) (a_tray a) (a_window a) (a_selection a) (a_applied a)
    (conn_path_modal a) (io_notice a) (store_reset a) (forward_errors a) (routed_caches a)
    (log_revision a) x (log_text a) (a_clipboard a) (a_snapshots a) (a_server_snapshot a)
    (launch_at_login a).
Definition put_log_text (x : bytes) (a : App) : App :=
  mkApp (a_data a) (a_forms a) (a_tray a) (a_window a) (a_selection a) (a_applied a)
    (conn_path_modal a) (io_notice a) (store_reset a) (forward_errors a) (routed_caches a)
    (log_revision a) (log_filter a) x (a_clipboard a) (a_snapshots a) (a_server_snapshot a)
    (launch_at_login a).
Definition put_clipboard (x : bool) (a : App) : App :=
  mkApp (a_data a) (a_forms a) (a_tray a) (a_window a) (a_selection a) (a_applied a)
    (conn_path_modal a) (io_notice a) (store_reset a) (forward_errors a) (routed_caches a)
    (log_revision a) (log_filter a) (log_text a) x (a_snapshots a) (a_server_snapshot a)
    (launch_at_login a).
Definition put_snapshots (x : gmap bytes Snapshot) (a : App) : App :=
  mkApp (a_data a) (a_forms a) (a_tray a) (a_window a) (a_selection a) (a_applied a)
    (conn_path_modal a) (io_notice a) (store_reset a) (forward_errors a) (routed_caches a)
    (log_revision a) (log_filter a) (log_text a) (a_clipboard a) x (a_server_snapshot a)
    (launch_at_login a).
Definition put_server_snapshot (x : ServerSnapshot) (a : App) : App :=
  mkApp (a_data a) (a_forms a) (a_tray a) (a_window a) (a_selection a) (a_applied a)
    (conn_path_modal a) (io_notice a) (store_reset a) (forward_errors a) (routed_caches a)
    (log_revision a) (log_filter a) (log_text a) (a_clipboard a) (a_snapshots a) x
    (launch_at_login a).
Definition put_launch_at_login (x : bool) (a : App) : App :=
  mkApp (a_data a) (a_forms a) (a_tray a) (a_window a) (a_selection a) (a_applied a)
    (conn_path_modal a) (io_notice a) (store_reset a) (forward_errors a) (routed_caches a)
    (log_revision a) (log_filter a) (log_text a) (a_clipboard a) (a_snapshots a)
    (a_server_snapshot a) x.

(** The application and what it has acted on: the machine with the store, the commands sent to
    the supervisor, the texts put on the clipboard, the login-item requests. *)
Record Desk : Type := mkDesk {
  d_app : App;
  d_machine : Machine;
  d_sent : list Command;
  d_copied : list bytes;
  d_login : list bool;
}.

Definition put_d_app (x : App) (d : Desk) : Desk :=
  mkDesk x (d_machine d) (d_sent d) (d_copied d) (d_login d).
Definition put_d_machine (x : Machine) (d : Desk) : Desk :=
  mkDesk (d_app d) x (d_sent d) (d_copied d) (d_login d).
Definition put_d_sent (x : list Command) (d : Desk) : Desk :=
  mkDesk (d_app d) (d_machine d) x (d_copied d) (d_login d).
Definition put_d_copied (x : list bytes) (d : Desk) : Desk :=
  mkDesk (d_app d) (d_machine d) (d_sent d) x (d_login d).
Definition put_d_login (x : list bool) (d : Desk) : Desk :=
  mkDesk (d_app d) (d_machine d) (d_sent d) (d_copied d) x.

End state.

(** ** What the outside answers *)

Record Answers : Type := mkAnswers {
  an_faults : Faults;                  (* the store and file operations *)
  an_ids : FreshIds;                   (* the ids an import draws while it reads *)
  an_merge_ids : FreshIds;             (* and while it merges *)
  an_id : bytes;                       (* a new profile's, key's or forward's id *)
  an_key : bytes * bytes;              (* a generated client key: secret, public *)
  an_identity : bytes;                 (* a generated server identity *)
  an_snaps : gmap bytes Snapshot;
  an_server_snap : ServerSnapshot;
  an_path : ConnectionSnapshot;
  an_window : Z;
  an_clip_opens : bool;
  an_clip_sets : bool;
  an_login_enabled : bool;             (* read after any change of it *)
  an_login_works : bool;
  an_revision : Z;
  an_lines : list bytes;
  an_tray : bool;
  an_menu_built : bool;
  an_icon_made : bool;
}.

