(* ===== verification/DesktopApp.v ===== *)
(** * The desktop application ([app.rs] of the desktop crate: [boot], [update] and the handlers)

    Every handler is a function on [Desk]; the answers of the outside are its first
    argument. A store error's text and the platform (Windows or macOS) are parameters. *)

From S2P Require Import Prelude RustStr Net Stream Signaling Socks5 RoutedSet DnsForward Dial Blocklist.
From S2P Require Import Registry Server Client Http LocalConn Accept Forward ForwardProofs PortForwards.
From S2P Require Import Config Ipc Session DesktopStore DesktopExport Supervisor.
From S2P Require Import Paths DesktopForms DesktopShell DesktopState.

Open Scope desk_scope.

(** ** Reading and changing the desk *)

Abbreviation Act := (Desk -> Desk).
Abbreviation app_profiles d := (a_profiles (a_data (d_app d))).
Abbreviation app_keys d := (a_keys (a_data (d_app d))).
Abbreviation app_server d := (a_server (a_data (d_app d))).
Abbreviation app_forms d := (a_forms (d_app d)).

Section app.
Context `{SafeBox} `{Json (gmap bytes bytes)} (data_local_dir : option bytes).
Context `{Json StoreDoc} `{Json DevDoc} `{PublicKeys} `{Json Value}.
Context `{KeyPairs} `{Identities} `{IpNetworkApi}.
Context (error_text : StoreError -> bytes) (windows : bool).

Definition on_app (f : App -> App) (d : Desk) : Desk := put_d_app (f (d_app d)) d.
Definition on_forms (f : Forms -> Forms) : Act := on_app (fun a => put_forms (f (a_forms a)) a).
Definition on_data (f : Data -> Data) : Act := on_app (fun a => put_data (f (a_data a)) a).

Definition set_profiles (ps : list Profile) : Act := on_data (put_profiles ps).
Definition set_keys (ks : list AuthKey) : Act := on_data (put_keys ks).
Definition set_server (s : option DesktopStore.ServerConfig) : Act := on_data (put_server s).
Definition set_notice (text : option bytes) : Act := on_forms (put_notice text).
Definition set_selection (s : Selection) : Act := on_app (put_selection s).

(** [self.tx.blocking_send]: the supervisor's queue. *)
Definition send (c : Command) : Act := fun d => put_d_sent (d_sent d ++ [c]) d.

Definition no_task (f : Act) : Desk -> Desk * Task := fun d => (f d, NoTask).

(** An open form is edited, a closed one left alone. *)
Definition edit_form {F} (get : Forms -> option F) (put : option F -> Forms -> Forms) (f : F -> F) : Act :=
  on_forms (fun fs => match get fs with Some x => put (Some (f x)) fs | None => fs end).

Definition edit_profile_form := edit_form profile_form put_profile_form.
Definition edit_key_form := edit_form key_form put_key_form.
Definition edit_server_form := edit_form server_form put_server_form.
Definition edit_client_form := edit_form client_form put_client_form.
Definition edit_identity_form := edit_form identity_form put_identity_form.
Definition edit_forward_form (f : ForwardForm -> ForwardForm) : Act :=
  edit_form forward_form put_forward_form (fun x => (x.1, f x.2)).

Definition Forms_closed : Forms :=
  mkForms None None None None None None None None false None None false None.

Definition close_forms : Act := on_forms (fun _ => Forms_closed).

(** ** The advisory badge ([view.rs]) *)

Definition refresh_routed_cache (cache : RoutedCache) (routes : TunnelRoutes) : RoutedCache :=
  let fresh := match cache with
               | Some (ds, cs, _) => bool_decide (ds = Client.domains routes) && bool_decide (cs = tr_cidrs routes)
               | None => false
               end in
  if fresh then cache
  else Some (Client.domains routes, tr_cidrs routes,
             match RoutedSet_new (Client.domains routes) (tr_cidrs routes) with Ok s => Some s | Err _ => None end).

Definition is_full_tunnel (routes : TunnelRoutes) : bool :=
  existsb (fun d => bool_decide (d = str "*")) (Client.domains routes)
  || existsb (fun c => bool_decide (c = str "0.0.0.0/0") || bool_decide (c = str "::/0")) (tr_cidrs routes).

Definition forward_badge (phase : Supervisor.Phase) (routes : TunnelRoutes) (set : option RoutedSet)
    (f : PortForward) : option bool :=
  if negb (bool_decide (phase = PConnected)) then None
  else if is_full_tunnel routes || is_reserved_host (pf_remote_host f) then Some true
  else s ← set; Some (allows s (Domain (pf_remote_host f) (pf_remote_port f))).
(** ** Windows and texts *)

Definition open_window (an : Answers) (d : Desk) : Desk * Task :=
  (on_app (put_window (Some (an_window an))) d, OpenWindow (an_window an)).

Definition show_window (an : Answers) (d : Desk) : Desk * Task :=
  match a_window (d_app d) with
  | Some id => (d, FocusWindow id)
  | None => open_window an d
  end.

Definition log_tag (f : LogFilter) : option bytes :=
  match f with
  | FilterAll => None
  | FilterProfile name => Some (str "[tunnel-" ++ name ++ str "]")
  | FilterServer => Some (str "[server]")
  end.

Definition rebuild_log_text (an : Answers) : Act := on_app (fun a =>
  put_log_text (join [x0a] (match log_tag (log_filter a) with
                            | Some tag => filter (fun l => contains_str tag l = true) (an_lines an)
                            | None => an_lines an
                            end)) a).

Definition set_log_filter (an : Answers) (f : LogFilter) : Act := fun d =>
  d |> on_app (put_log_filter f) |> rebuild_log_text an.

(** Copy to the clipboard, opened at its first use. *)
Definition copy_text (an : Answers) (text : bytes) (d : Desk) : bool * Desk :=
  let opened := a_clipboard (d_app d) || an_clip_opens an in
  let d := on_app (put_clipboard opened) d in
  if opened && an_clip_sets an then (true, put_d_copied (d_copied d ++ [text]) d) else (false, d).

Definition sync_launch_at_login (an : Answers) (force : bool) : Act := on_app (fun a =>
  let enabled := an_login_enabled an in
  let changed := negb (eqb enabled (launch_at_login a)) in
  let a := put_launch_at_login enabled a in
  if changed || force then put_tray (set_launch_at_login enabled <$> a_tray a) a else a).

(** [autostart::set_enabled]: the request, and whether it works. *)
Definition ask_login_item (enabled : bool) : Act := fun d => put_d_login (d_login d ++ [enabled]) d.

(** ** Persisting *)

Definition start_blocker_text (b : StartBlocker) : bytes :=
  match b with
  | NoIdentity => str "The identity key is missing from the keychain — import it, or generate a new identity, under Endpoint ID."
  | NoClients => str "Authorize at least one client to start the server."
  end.

Definition server_ready (s : DesktopStore.ServerConfig) : bool := bool_decide (start_blocker s = None).

Definition snapshot_for (a : App) (id : bytes) : Snapshot := default Snapshot_default (a_snapshots a !! id).

(** The write itself: what it gives and the machine after it. *)
Definition saved (an : Answers) (d : Desk) : result StoreError () * Machine :=
  save_store data_local_dir (an_faults an) (app_keys d) (app_profiles d) (app_server d)
    (a_login_set_up (a_data (d_app d))) (d_machine d).

Definition persist_store (an : Answers) : Act := fun d =>
  match store_reset (d_app d) with
  | Some _ => d
  | None =>
      let '(r, m) := saved an d in
      let d := put_d_machine m d in
      match r with
      | Ok _ => d
      | Err e => set_notice (Some (str "Failed to save profiles: " ++ error_text e)) d
      end
  end.

(** Persist, then a notice unless the save has left its own. *)
Definition notice_unless_told (text : bytes) : Act := fun d =>
  if bool_decide (notice (app_forms d) = None) then set_notice (Some text) d else d.

(** ** The server *)

Definition start_server (s : DesktopStore.ServerConfig) : Act := fun d =>
  d |> send (Supervisor.StartServer s) |> on_app (put_applied (Some s)).

Definition restart_server (s : DesktopStore.ServerConfig) : Act := fun d =>
  d |> send (Supervisor.RestartServer s) |> on_app (put_applied (Some s)).

Definition server_needs_restart (a : App) : bool :=
  match ss_phase (a_server_snapshot a), a_server (a_data a) with
  | (SvStarting | SvRunning), Some s => sv_enabled s && negb (bool_decide (a_applied a = Some s))
  | _, _ => false
  end.

Definition resume_server (an : Answers) : Act := fun d =>
  let down := match ss_phase (an_server_snap an) with
              | SvStopped | SvFailed | SvStopping => true
              | SvStarting | SvRunning => false
              end in
  match app_server d with
  | Some s => if down && sv_enabled s && server_ready s then start_server s d else d
  | None => d
  end.

Definition with_enabled (enabled : bool) (s : DesktopStore.ServerConfig) : DesktopStore.ServerConfig :=
  mkServer (sv_endpoint_id s) (sv_secret s) (sv_clients s) (sv_domains s) (sv_cidrs s) (sv_relay_urls s)
    (sv_token s) enabled.

Definition set_server_enabled (an : Answers) (enabled : bool) (d : Desk) : Desk * Task :=
  match app_server d with
  | None => (d, NoTask)
  | Some old =>
      let s := with_enabled enabled old in
      let d := if eqb (sv_enabled old) enabled then d
               else d |> set_server (Some s) |> set_notice None |> persist_store an in
      if negb enabled then (send StopServer d, NoTask)
      else if server_ready s then (start_server s d, NoTask)
      else
        let d := d |> set_selection SelServer |> close_forms in
        let d := if bool_decide (sv_secret s = []) then d
                 else on_forms (put_client_form (Some ClientForm_default)) d in
        show_window an (set_notice (start_blocker_text <$> start_blocker s) d)
  end.

Definition set_up_server (an : Answers) (d : Desk) : Desk * Task :=
  let d := if negb (bool_decide (a_selection (d_app d) = SelServer))
              || bool_decide (is_Some (profile_form (app_forms d)))
           then close_forms d else d in
  show_window an (set_selection SelServer d).

Definition delete_server (an : Answers) : Act := fun d =>
  if negb (confirm_delete_server (app_forms d)) then on_forms (put_confirm_delete_server true) d
  else
    let d := on_forms (put_confirm_delete_server false) d in
    match app_server d with
    | None => d
    | Some _ =>
        let d := d |> set_server None |> send RemoveServer
                   |> on_app (put_server_snapshot ServerSnapshot_default)
                   |> on_app (put_applied None) |> close_forms in
        let d := if bool_decide (log_filter (d_app d) = FilterServer) then set_log_filter an FilterAll d else d in
        let d := persist_store an d in
        if bool_decide (a_selection (d_app d) = SelServer)
        then set_selection (from_option (fun p => SelProfile (p_id p)) SelLogs (head (app_profiles d))) d
        else d
    end.

Definition save_server_form (an : Answers) : Act := fun d =>
  match server_form (app_forms d) with
  | None => d
  | Some form =>
      match ServerForm_validate form (app_server d) with
      | Err _ => d
      | Ok s =>
          let setting_up := bool_decide (app_server d = None) in
          let d := d |> set_server (Some s) |> set_notice None |> persist_store an
                     |> set_selection SelServer |> on_forms (put_server_form None) in
          if bool_decide (is_Some (notice (app_forms d))) then d
          else if bool_decide (sv_clients s = [])
          then d |> on_forms (put_client_form (Some ClientForm_default))
                 |> set_notice (Some (if setting_up
                      then str "Server created. Authorize the first client to start it."
                      else str "Saved. Authorize a client to start the server."))
          else set_notice (Some (str "Saved.")) d
      end
  end.

Definition save_client_form (an : Answers) : Act := fun d =>
  match client_form (app_forms d), app_server d with
  | Some form, Some s =>
      match ClientForm_validate form (sv_clients s) with
      | Err _ => d
      | Ok c =>
          d |> set_server (Some (with_clients (sv_clients s ++ [c]) s))
            |> on_forms (put_client_form None) |> set_notice None |> persist_store an
            |> notice_unless_told (str "Authorized " ++ quoted (ac_name c) ++ str ".")
            |> resume_server an
      end
  | _, _ => d
  end.

(** A revocation reaches the running server at once. *)
Definition revoke (s : DesktopStore.ServerConfig) : Act := fun d =>
  if negb (sv_enabled s) then d
  else if server_ready s then restart_server s d
  else send StopServer d.

Definition remove_client (an : Answers) (public_key : bytes) : Act := fun d =>
  let d := on_forms (put_confirm_export_server_secret false) d in
  if negb (bool_decide (confirm_remove_client (app_forms d) = Some public_key))
  then on_forms (put_confirm_remove_client (Some public_key)) d
  else
    let d := on_forms (put_confirm_remove_client None) d in
    match app_server d with
    | None => d
    | Some s =>
        let clients := filter (fun c => ac_public c <> public_key) (sv_clients s) in
        if bool_decide (length clients = length (sv_clients s)) then d
        else
          let s := with_clients clients s in
          d |> set_server (Some s) |> set_notice None |> persist_store an |> revoke s
    end.

Definition export_server_secret (an : Answers) : Act := fun d =>
  let d := on_forms (put_confirm_remove_client None) d in
  if negb (confirm_export_server_secret (app_forms d))
  then on_forms (put_confirm_export_server_secret true) d
  else
    let d := on_forms (put_confirm_export_server_secret false) d in
    match app_server d with
    | None => d
    | Some s =>
        if bool_decide (sv_secret s = []) then d
        else let '(copied, d) := copy_text an (sv_secret s) d in
             set_notice (Some (if copied
               then str "Identity key copied — import it on the other computer, then delete the server here: one identity must run on one server only."
               else str "Clipboard unavailable — the identity key was not copied.")) d
    end.

Definition with_identity (secret endpoint_id : bytes) (s : DesktopStore.ServerConfig)
  : DesktopStore.ServerConfig :=
  mkServer endpoint_id secret (sv_clients s) (sv_domains s) (sv_cidrs s) (sv_relay_urls s) (sv_token s)
    (sv_enabled s).

Definition save_identity_form (an : Answers) : Act := fun d =>
  match identity_form (app_forms d), app_server d with
  | Some identity, Some s =>
      match IdentityChoice_resolve identity with
      | Err _ => d
      | Ok (secret, endpoint_id) =>
          d |> set_server (Some (with_identity secret endpoint_id s))
            |> on_forms (put_identity_form None) |> set_notice None |> persist_store an
            |> notice_unless_told (if bool_decide (endpoint_id = sv_endpoint_id s)
                 then str "Identity key restored."
                 else str "New identity saved — every client must switch to the new endpoint id.")
            |> resume_server an
      end
  | _, _ => d
  end.

Definition restart_message : Act := fun d =>
  match app_server d with
  | None => d
  | Some s =>
      match start_blocker s with
      | None => restart_server s d
      | Some b => d |> send StopServer |> set_notice (Some (start_blocker_text b))
      end
  end.

(** ** Profiles *)

Definition connect_profile (an : Answers) (id : bytes) (d : Desk) : Desk * Task :=
  match find_profile (app_profiles d) id with
  | None => (d, NoTask)
  | Some p =>
      match find_key (app_keys d) (p_key_id p) with
      | Some k =>
          if bool_decide (k_secret k = []) then
            d |> set_selection SelKeys |> on_forms (put_profile_form None)
              |> on_forms (put_key_form (Some (KeyForm_edit k)))
              |> set_notice (Some (str "Re-enter the secret of key " ++ quoted (k_name k) ++ str " to connect."))
              |> show_window an
          else if bool_decide (p_server p = []) then
            d |> set_selection (SelProfile (p_id p)) |> on_forms (put_profile_form (Some (ProfileForm_edit p)))
              |> set_notice (Some (str "Enter the server node id to connect.")) |> show_window an
          else (send (Supervisor.Connect p (k_secret k)) d, NoTask)
      | None =>
          d |> set_selection (SelProfile (p_id p)) |> on_forms (put_profile_form (Some (ProfileForm_edit p)))
            |> set_notice (Some (str "Pick an auth key to connect.")) |> show_window an
      end
  end.

(** Where a deletion at [pos] leaves the selection. *)
Definition selection_after (pos : nat) (d : Desk) : Selection :=
  match app_profiles d !! Nat.min pos (length (app_profiles d) - 1) with
  | Some p => SelProfile (p_id p)
  | None => if bool_decide (is_Some (app_server d)) then SelServer else SelLogs
  end.

Definition forget_profile (p : Profile) : Act := on_app (fun a =>
  a |> put_forward_errors (foldl (fun m f => delete (pf_id f) m) (forward_errors a) (p_forwards p))
    |> put_routed_caches (delete (p_id p) (routed_caches a))
    |> put_snapshots (delete (p_id p) (a_snapshots a))).

Definition delete_profile (an : Answers) (id : bytes) : Act := fun d =>
  if negb (bool_decide (confirm_delete (app_forms d) = Some id))
  then on_forms (put_confirm_delete (Some id)) d
  else
    let d := on_forms (put_confirm_delete None) d in
    match list_find (fun p => p_id p = id) (app_profiles d) with
    | None => d
    | Some (pos, removed) =>
        let d := d |> send (RemoveProfile id) |> set_profiles (delete pos (app_profiles d))
                   |> forget_profile removed |> on_forms (put_forward_form None) in
        let d := if bool_decide (log_filter (d_app d) = FilterProfile (p_name removed))
                 then set_log_filter an FilterAll d else d in
        let d := persist_store an d in
        if bool_decide (a_selection (d_app d) = SelProfile id) then set_selection (selection_after pos d) d else d
    end.

Definition session_running (a : App) (id : bytes) : bool :=
  match sn_phase <$> a_snapshots a !! id with
  | Some (PConnecting | PConnected | PReconnecting) => true
  | _ => false
  end.

(** A rename takes the log filter along. *)
Definition follow_rename (an : Answers) (old new : bytes) : Act := fun d =>
  if bool_decide (log_filter (d_app d) = FilterProfile old) && negb (bool_decide (old = new))
  then set_log_filter an (FilterProfile new) d else d.

(** The profile in its place, or at the end. *)
Definition put_profile (an : Answers) (p : Profile) : Act := fun d =>
  let renamed := match list_find (fun q => p_id q = p_id p) (app_profiles d) with
                 | Some (_, old) => follow_rename an (p_name old) (p_name p) d
                 | None => d
                 end in
  set_profiles (upsert p_id p (app_profiles d)) renamed.

Definition save_profile_form (an : Answers) : Act := fun d =>
  match profile_form (app_forms d) with
  | None => d
  | Some form =>
      match ProfileForm_validate form (an_id an) (app_profiles d) (app_keys d) with
      | Err _ => d
      | Ok p =>
          let running := session_running (d_app d) (p_id p) in
          d |> put_profile an p |> persist_store an
            |> notice_unless_told (if running then str "Saved — reconnect to apply." else str "Saved.")
            |> set_selection (SelProfile (p_id p)) |> on_forms (put_profile_form None)
      end
  end.

(** ** Keys *)

Definition create_key_for_profile_form (an : Answers) : Act := fun d =>
  match profile_form (app_forms d) ≫= pfm_new_key with
  | None => d
  | Some name =>
      match validate_key_name name (app_keys d) None with
      | Err _ => d
      | Ok name =>
          d |> set_keys (app_keys d ++ [mkAuthKey (an_id an) name (an_key an).2 (an_key an).1])
            |> persist_store an
            |> edit_profile_form (fun f =>
                 mkProfileForm (pfm_editing f) (pfm_name f) (pfm_server f) (an_id an) None
                   (pfm_socks_enabled f) (pfm_socks f) (pfm_http_enabled f) (pfm_http f)
                   (pfm_relay_urls f) (pfm_token f))
      end
  end.

Definition save_key_form (an : Answers) : Act := fun d =>
  match key_form (app_forms d) with
  | None => d
  | Some form =>
      match KeyForm_validate form (an_id an) (app_keys d) with
      | Err _ => d
      | Ok k =>
          d |> set_keys (upsert k_id k (app_keys d)) |> persist_store an
            |> notice_unless_told (str "Saved — profiles using this key apply it on reconnect.")
            |> on_forms (put_key_form None)
      end
  end.

Definition delete_key (an : Answers) (id : bytes) : Act := fun d =>
  let d := on_forms (put_confirm_export_key None) d in
  match list_find (fun p => p_key_id p = id) (app_profiles d) with
  | Some (_, user) =>
      d |> set_notice (Some (str "This key is used by profile " ++ quoted (p_name user)
                             ++ str " — repoint or delete that profile first."))
        |> on_forms (put_confirm_delete_key None)
  | None =>
      if negb (bool_decide (confirm_delete_key (app_forms d) = Some id))
      then on_forms (put_confirm_delete_key (Some id)) d
      else d |> on_forms (put_confirm_delete_key None)
             |> set_keys (filter (fun k => k_id k <> id) (app_keys d))
             |> on_forms (put_key_form None) |> persist_store an
  end.

Definition export_key (an : Answers) (id : bytes) : Act := fun d =>
  let d := on_forms (put_confirm_delete_key None) d in
  if negb (bool_decide (confirm_export_key (app_forms d) = Some id))
  then on_forms (put_confirm_export_key (Some id)) d
  else
    let d := on_forms (put_confirm_export_key None) d in
    match find_key (app_keys d) id with
    | Some k =>
        if bool_decide (k_secret k = []) then d
        else let '(copied, d) := copy_text an (k_secret k) d in
             set_notice (Some (if copied
               then str "Secret key of " ++ quoted (k_name k)
                      ++ str " copied — paste it into the key form of another install."
               else str "Clipboard unavailable — the secret key was not copied.")) d
    | None => d
    end.

(** ** Forwards *)

Definition push_forwards (id : bytes) : Act := fun d =>
  match find_profile (app_profiles d) id with
  | Some p => send (SetForwards id (p_forwards p)) d
  | None => d
  end.

Definition commit_forwards (an : Answers) (id : bytes) : Act := fun d =>
  d |> persist_store an |> push_forwards id.

(** The first profile of that id gets other forwards. *)
Definition change_forwards (pos : nat) (p : Profile) (fs : list PortForward) : Act := fun d =>
  set_profiles (<[pos := with_p_forwards fs p]> (app_profiles d)) d.

Definition forget_error (id : bytes) : Act :=
  on_app (fun a => put_forward_errors (delete id (forward_errors a)) a).

Definition save_forward_form (an : Answers) : Act := fun d =>
  match forward_form (app_forms d) with
  | None => d
  | Some (profile_id, form) =>
      match ForwardForm_validate form (an_id an) (app_profiles d),
            list_find (fun p => p_id p = profile_id) (app_profiles d) with
      | Ok f, Some (pos, p) =>
          let d := if pf_enabled f then forget_error (pf_id f) d else d in
          d |> change_forwards pos p (upsert pf_id f (p_forwards p))
            |> commit_forwards an profile_id |> on_forms (put_forward_form None)
      | _, _ => d
      end
  end.

Definition delete_forward (an : Answers) (profile_id forward_id : bytes) : Act := fun d =>
  match list_find (fun p => p_id p = profile_id) (app_profiles d) with
  | None => d
  | Some (pos, p) =>
      let fs := filter (fun f => pf_id f <> forward_id) (p_forwards p) in
      if bool_decide (length fs = length (p_forwards p)) then d
      else d |> change_forwards pos p fs |> forget_error forward_id |> commit_forwards an profile_id
  end.

Definition with_pf_enabled (enabled : bool) (f : PortForward) : PortForward :=
  mkPortForward (pf_id f) (pf_label f) (pf_local_port f) (pf_remote_host f) (pf_remote_port f) enabled.

Definition toggle_forward (an : Answers) (profile_id forward_id : bytes) (enabled : bool) : Act := fun d =>
  match list_find (fun p => p_id p = profile_id) (app_profiles d) with
  | None => d
  | Some (pos, p) =>
      match list_find (fun f => pf_id f = forward_id) (p_forwards p) with
      | None => d
      | Some (i, f) =>
          let d := change_forwards pos p (<[i := with_pf_enabled enabled f]> (p_forwards p)) d in
          let d := if enabled then forget_error forward_id d else d in
          commit_forwards an profile_id d
      end
  end.

(** ** Imports and exports *)

Definition import_message (an : Answers) (path : bytes) : Act := fun d =>
  let '(r, m) := import_profiles (an_faults an) (an_ids an) path (d_machine d) in
  let d := put_d_machine m d in
  match r with
  | Err e => on_app (put_io_notice (Some (str "Import failed: " ++ error_text e))) d
  | Ok incoming =>
      let '(ps, added, replaced) := merge_imported (an_merge_ids an) (app_profiles d) incoming in
      let d := set_profiles ps d in
      let d := foldl (fun d id => push_forwards id d) d replaced in
      let d := d |> persist_store an
                 |> on_app (put_io_notice (Some (str "Imported: " ++ dec (Z.of_nat added) ++ str " added, "
                                                 ++ dec (Z.of_nat (length replaced)) ++ str " replaced."))) in
      let shown := match a_selection (d_app d) with
                   | SelProfile id => bool_decide (is_Some (find_profile (app_profiles d) id))
                   | _ => false
                   end in
      let d := match head (app_profiles d) with
               | Some p => if shown then d else set_selection (SelProfile (p_id p)) d
               | None => d
               end in
      on_forms (put_profile_form None) d
  end.

Definition export_message (an : Answers) (path : bytes) : Act := fun d =>
  let '(r, m) := export_profiles (an_faults an) path (app_profiles d) (d_machine d) in
  let d := put_d_machine m d in
  on_app (put_io_notice (Some (match r with
    | Ok _ => str "Exported " ++ dec (Z.of_nat (length (app_profiles d))) ++ str " profile(s)."
    | Err e => str "Export failed: " ++ error_text e
    end))) d.

(** ** The tick *)

(** One profile's part of a refresh: its forwards, the errors, the caches, and whether a
    forward of it failed. *)
Definition refresh_profile (snaps : gmap bytes Snapshot) (p : Profile)
    (st : gmap bytes bytes * gmap bytes RoutedCache)
  : Profile * (gmap bytes bytes * gmap bytes RoutedCache) * bool :=
  match snaps !! p_id p with
  | None => (p, st, false)
  | Some snap =>
      let '(fs, failed) := disable_failed_forwards (p_forwards p) (sn_forwards snap) in
      (with_p_forwards fs p,
       (foldl (fun m e => <[e.1 := e.2]> m) st.1 failed,
        <[p_id p := refresh_routed_cache (default None (st.2 !! p_id p)) (sn_routes snap)]> st.2),
       negb (bool_decide (failed = [])))
  end.

Fixpoint refresh_profiles (snaps : gmap bytes Snapshot) (ps : list Profile)
    (st : gmap bytes bytes * gmap bytes RoutedCache)
  : list Profile * (gmap bytes bytes * gmap bytes RoutedCache) * list bytes :=
  match ps with
  | [] => ([], st, [])
  | p :: ps' =>
      let '(p, st, failed) := refresh_profile snaps p st in
      let '(ps', st, failed_in) := refresh_profiles snaps ps' st in
      (p :: ps', st, if failed then p_id p :: failed_in else failed_in)
  end.

Definition refresh_log (an : Answers) : Act := fun d =>
  if bool_decide (an_revision an = log_revision (d_app d)) then d
  else d |> on_app (put_log_revision (an_revision an)) |> rebuild_log_text an.

Definition refresh_tray (an : Answers) : Act := fun d =>
  on_app (fun a => put_tray (tray_sync (an_menu_built an) (an_icon_made an) (a_profiles (a_data a))
                               (a_snapshots a) (a_server (a_data a)) (a_server_snapshot a) <$> a_tray a) a) d.

Definition refresh (an : Answers) : Act := fun d =>
  let d := d |> on_app (put_snapshots (an_snaps an)) |> on_app (put_server_snapshot (an_server_snap an))
             |> sync_launch_at_login an false in
  let '(ps, (errors, caches), failed_in) :=
    refresh_profiles (an_snaps an) (app_profiles d) (forward_errors (d_app d), routed_caches (d_app d)) in
  let d := d |> set_profiles ps |> on_app (put_forward_errors errors) |> on_app (put_routed_caches caches) in
  let d := foldl (fun d id => push_forwards id d) d failed_in in
  let d := if bool_decide (failed_in = []) then d else persist_store an d in
  d |> refresh_log an |> refresh_tray an.

(** ** The tray's menu *)

Definition toggle_login_item (an : Answers) : Act := fun d =>
  if dev_store (d_machine d) then d
  else d |> ask_login_item (negb (launch_at_login (d_app d))) |> sync_launch_at_login an true.

Definition handle_menu_event (an : Answers) (id : bytes) (d : Desk) : Desk * Task :=
  if bool_decide (id = MENU_OPEN) then show_window an d
  else if bool_decide (id = MENU_QUIT) then (send Shutdown d, Exit)
  else if bool_decide (id = MENU_TOGGLE_SERVER) then
    match app_server d with
    | Some s => set_server_enabled an (negb (sv_enabled s)) d
    | None => (d, NoTask)
    end
  else if bool_decide (id = MENU_SET_UP_SERVER) then set_up_server an d
  else if bool_decide (id = MENU_COPY_SERVER_ID) then
    (match app_server d with Some s => (copy_text an (sv_endpoint_id s) d).2 | None => d end, NoTask)
  else if bool_decide (id = MENU_LAUNCH_AT_LOGIN) then (toggle_login_item an d, NoTask)
  else (d, NoTask).

Definition setup_tray (an : Answers) : Act := fun d =>
  let d := if an_tray an
           then on_app (fun a => put_tray (Some (set_launch_at_login (launch_at_login a) Tray_new)) a) d
           else d in
  refresh an d.

Definition tray_click (an : Answers) (left_released : bool) (d : Desk) : Desk * Task :=
  if windows && left_released then
    match a_window (d_app d) with
    | Some id => (on_app (put_window None) d, CloseWindow id)
    | None => open_window an d
    end
  else (d, NoTask).

(** ** The forms' fields *)

Definition pfm_set_name v f := mkProfileForm (pfm_editing f) v (pfm_server f) (pfm_key_id f) (pfm_new_key f)
  (pfm_socks_enabled f) (pfm_socks f) (pfm_http_enabled f) (pfm_http f) (pfm_relay_urls f) (pfm_token f).
Definition pfm_set_server v f := mkProfileForm (pfm_editing f) (pfm_name f) v (pfm_key_id f) (pfm_new_key f)
  (pfm_socks_enabled f) (pfm_socks f) (pfm_http_enabled f) (pfm_http f) (pfm_relay_urls f) (pfm_token f).
Definition pfm_set_key v f := mkProfileForm (pfm_editing f) (pfm_name f) (pfm_server f) v (pfm_new_key f)
  (pfm_socks_enabled f) (pfm_socks f) (pfm_http_enabled f) (pfm_http f) (pfm_relay_urls f) (pfm_token f).
Definition pfm_set_new_key v f := mkProfileForm (pfm_editing f) (pfm_name f) (pfm_server f) (pfm_key_id f) v
  (pfm_socks_enabled f) (pfm_socks f) (pfm_http_enabled f) (pfm_http f) (pfm_relay_urls f) (pfm_token f).
Definition pfm_set_socks_enabled v f := mkProfileForm (pfm_editing f) (pfm_name f) (pfm_server f) (pfm_key_id f)
  (pfm_new_key f) v (pfm_socks f) (pfm_http_enabled f) (pfm_http f) (pfm_relay_urls f) (pfm_token f).
Definition pfm_set_socks v f := mkProfileForm (pfm_editing f) (pfm_name f) (pfm_server f) (pfm_key_id f)
  (pfm_new_key f) (pfm_socks_enabled f) v (pfm_http_enabled f) (pfm_http f) (pfm_relay_urls f) (pfm_token f).
Definition pfm_set_http_enabled v f := mkProfileForm (pfm_editing f) (pfm_name f) (pfm_server f) (pfm_key_id f)
  (pfm_new_key f) (pfm_socks_enabled f) (pfm_socks f) v (pfm_http f) (pfm_relay_urls f) (pfm_token f).
Definition pfm_set_http v f := mkProfileForm (pfm_editing f) (pfm_name f) (pfm_server f) (pfm_key_id f)
  (pfm_new_key f) (pfm_socks_enabled f) (pfm_socks f) (pfm_http_enabled f) v (pfm_relay_urls f) (pfm_token f).
Definition pfm_set_relay_urls v f := mkProfileForm (pfm_editing f) (pfm_name f) (pfm_server f) (pfm_key_id f)
  (pfm_new_key f) (pfm_socks_enabled f) (pfm_socks f) (pfm_http_enabled f) (pfm_http f) v (pfm_token f).
Definition pfm_set_token v f := mkProfileForm (pfm_editing f) (pfm_name f) (pfm_server f) (pfm_key_id f)
  (pfm_new_key f) (pfm_socks_enabled f) (pfm_socks f) (pfm_http_enabled f) (pfm_http f) (pfm_relay_urls f) v.

Definition fo_set_label v f := mkForwardForm (fo_editing f) v (fo_local f) (fo_host f) (fo_remote f) (fo_enabled f).
Definition fo_set_local v f := mkForwardForm (fo_editing f) (fo_label f) v (fo_host f) (fo_remote f) (fo_enabled f).
Definition fo_set_host v f := mkForwardForm (fo_editing f) (fo_label f) (fo_local f) v (fo_remote f) (fo_enabled f).
Definition fo_set_remote v f := mkForwardForm (fo_editing f) (fo_label f) (fo_local f) (fo_host f) v (fo_enabled f).
Definition fo_set_enabled v f := mkForwardForm (fo_editing f) (fo_label f) (fo_local f) (fo_host f) (fo_remote f) v.

Definition sf_set_identity v f := mkServerForm v (sf_domains f) (sf_cidrs f) (sf_relays f) (sf_token f).
Definition sf_set_domains v f := mkServerForm (sf_identity f) v (sf_cidrs f) (sf_relays f) (sf_token f).
Definition sf_set_cidrs v f := mkServerForm (sf_identity f) (sf_domains f) v (sf_relays f) (sf_token f).
Definition sf_set_relays v f := mkServerForm (sf_identity f) (sf_domains f) (sf_cidrs f) v (sf_token f).
Definition sf_set_token v f := mkServerForm (sf_identity f) (sf_domains f) (sf_cidrs f) (sf_relays f) v.

(** The identity choice of the setup form, if it has one. *)
Definition edit_server_identity (g : IdentityChoice -> IdentityChoice) : Act :=
  edit_server_form (fun f => sf_set_identity (g <$> sf_identity f) f).

Definition ic_set_import (import : bool) (c : IdentityChoice) : IdentityChoice :=
  mkIdentity (ic_generated c) (if import then Some [] else None).

Definition ic_set_secret (v : bytes) (c : IdentityChoice) : IdentityChoice :=
  mkIdentity (ic_generated c) ((fun _ => v) <$> ic_import c).

(** ** One message *)

Definition update (an : Answers) (msg : Msg.Message) (d : Desk) : Desk * Task :=
  match msg with
  | Msg.Tick => no_task (refresh an) d
  | Msg.SetupTray => no_task (setup_tray an) d
  | Msg.TrayMenu id => handle_menu_event an id d
  | Msg.TrayIcon left_released => tray_click an left_released d
  | Msg.WindowOpened => (d, NoTask)
  | Msg.WindowClosed id =>
      no_task (on_app (fun a => if bool_decide (a_window a = Some id) then put_window None a else a)) d
  | Msg.Select s => no_task (fun d => d |> set_selection s |> close_forms |> on_app (put_conn_path_modal None)) d
  | Msg.ReadOnlyEdited => (d, NoTask)
  | Msg.CopyText text => no_task (fun d => (copy_text an text d).2) d
  | Msg.ShowConnPath =>
      no_task (fun d => match a_selection (d_app d) with
                        | SelProfile id => d |> send (QueryConnPath id 0)
                                             |> on_app (put_conn_path_modal (Some (an_path an)))
                        | _ => d
                        end) d
  | Msg.DismissConnPath => no_task (on_app (put_conn_path_modal None)) d
  | Msg.StoreResetQuit => (send Shutdown d, Exit)
  | Msg.StoreResetContinue => no_task (fun d => d |> on_app (put_store_reset None) |> persist_store an) d
  | Msg.AddProfile =>
      no_task (fun d => d |> close_forms
                          |> on_forms (put_profile_form (Some (ProfileForm_add (app_profiles d))))) d
  | Msg.EditProfile id =>
      no_task (fun d => match find_profile (app_profiles d) id with
                        | Some p => d |> close_forms |> on_forms (put_profile_form (Some (ProfileForm_edit p)))
                        | None => d
                        end) d
  | Msg.DeleteProfile id => no_task (delete_profile an id) d
  | Msg.Connect id => connect_profile an id d
  | Msg.Disconnect id => no_task (send (Supervisor.Disconnect id)) d
  | Msg.ExportProfiles => (d, PickExport)
  | Msg.ImportProfiles => (d, PickImport)
  | Msg.ExportPicked path => no_task (fun d => match path with Some p => export_message an p d | None => d end) d
  | Msg.ImportPicked path => no_task (fun d => match path with Some p => import_message an p d | None => d end) d
  | Msg.ProfileNameChanged v => no_task (edit_profile_form (pfm_set_name v)) d
  | Msg.ServerNodeIdChanged v => no_task (edit_profile_form (pfm_set_server v)) d
  | Msg.AuthKeyPicked c => no_task (edit_profile_form (pfm_set_key (kc_id c))) d
  | Msg.NewKeyPrompt =>
      no_task (edit_profile_form (fun f => match pfm_new_key f with
                                           | None => pfm_set_new_key (Some []) f
                                           | Some _ => f
                                           end)) d
  | Msg.NewKeyNameChanged v =>
      no_task (edit_profile_form (fun f => pfm_set_new_key ((fun _ => v) <$> pfm_new_key f) f)) d
  | Msg.NewKeyCreate => no_task (create_key_for_profile_form an) d
  | Msg.NewKeyCancel => no_task (edit_profile_form (pfm_set_new_key None)) d
  | Msg.AddKey =>
      no_task (on_forms (fun f => f |> put_key_form (Some KeyForm_default) |> put_confirm_delete_key None
                                    |> put_confirm_export_key None |> put_notice None)) d
  | Msg.EditKey id =>
      no_task (fun d => match find_key (app_keys d) id with
                        | Some k => on_forms (fun f => f |> put_key_form (Some (KeyForm_edit k))
                                      |> put_confirm_delete_key None |> put_confirm_export_key None
                                      |> put_notice None) d
                        | None => d
                        end) d
  | Msg.DeleteKey id => no_task (delete_key an id) d
  | Msg.ExportKey id => no_task (export_key an id) d
  | Msg.KeyNameChanged v => no_task (edit_key_form (fun f => mkKeyForm (kf_editing f) v (kf_secret f))) d
  | Msg.KeySecretChanged v => no_task (edit_key_form (fun f => mkKeyForm (kf_editing f) (kf_name f) v)) d
  | Msg.KeyGenerateSecret =>
      no_task (edit_key_form (fun f => mkKeyForm (kf_editing f) (kf_name f) (an_key an).1)) d
  | Msg.KeyFormSave => no_task (save_key_form an) d
  | Msg.KeyFormCancel => no_task (on_forms (put_key_form None)) d
  | Msg.SocksEnabledToggled b => no_task (edit_profile_form (pfm_set_socks_enabled b)) d
  | Msg.SocksPortChanged v => no_task (edit_profile_form (pfm_set_socks v)) d
  | Msg.HttpEnabledToggled b => no_task (edit_profile_form (pfm_set_http_enabled b)) d
  | Msg.HttpPortChanged v => no_task (edit_profile_form (pfm_set_http v)) d
  | Msg.RelayUrlsChanged v => no_task (edit_profile_form (pfm_set_relay_urls v)) d
  | Msg.RelayAuthTokenChanged v => no_task (edit_profile_form (pfm_set_token v)) d
  | Msg.ProfileFormSave => no_task (save_profile_form an) d
  | Msg.ProfileFormCancel => no_task (on_forms (put_profile_form None)) d
  | Msg.AddForward id => no_task (on_forms (put_forward_form (Some (id, ForwardForm_add)))) d
  | Msg.EditForward profile_id forward_id =>
      no_task (fun d => match find_profile (app_profiles d) profile_id
                                ≫= fun p => list_find (fun f => pf_id f = forward_id) (p_forwards p) with
                        | Some (_, f) => on_forms (put_forward_form (Some (profile_id, ForwardForm_edit f))) d
                        | None => d
                        end) d
  | Msg.DeleteForward profile_id forward_id => no_task (delete_forward an profile_id forward_id) d
  | Msg.ToggleForward profile_id forward_id b => no_task (toggle_forward an profile_id forward_id b) d
  | Msg.FormLabelChanged v => no_task (edit_forward_form (fo_set_label v)) d
  | Msg.FormLocalPortChanged v => no_task (edit_forward_form (fo_set_local v)) d
  | Msg.FormRemoteHostChanged v => no_task (edit_forward_form (fo_set_host v)) d
  | Msg.FormRemotePortChanged v => no_task (edit_forward_form (fo_set_remote v)) d
  | Msg.FormEnabledToggled b => no_task (edit_forward_form (fo_set_enabled b)) d
  | Msg.FormSave => no_task (save_forward_form an) d
  | Msg.FormCancel => no_task (on_forms (put_forward_form None)) d
  | Msg.SetUpServer => set_up_server an d
  | Msg.BeginServerSetup =>
      no_task (fun d => match app_server d with
                        | None => d |> close_forms |> set_selection SelServer
                                    |> on_forms (put_server_form (Some (ServerForm_add (an_identity an))))
                        | Some _ => d
                        end) d
  | Msg.EditServer =>
      no_task (fun d => match app_server d with
                        | Some s => d |> close_forms |> on_forms (put_server_form (Some (ServerForm_edit s)))
                        | None => d
                        end) d
  | Msg.DeleteServer => no_task (delete_server an) d
  | Msg.SetServerEnabled b => set_server_enabled an b d
  | Msg.RestartServer => no_task restart_message d
  | Msg.ServerImportToggled b => no_task (edit_server_identity (ic_set_import b)) d
  | Msg.ServerRegenerateIdentity => no_task (edit_server_identity (IdentityChoice_regenerate (an_identity an))) d
  | Msg.ServerImportSecretChanged v => no_task (edit_server_identity (ic_set_secret v)) d
  | Msg.ServerRoutedDomainsChanged v => no_task (edit_server_form (sf_set_domains v)) d
  | Msg.ServerRoutedCidrsChanged v => no_task (edit_server_form (sf_set_cidrs v)) d
  | Msg.ServerRelayUrlsChanged v => no_task (edit_server_form (sf_set_relays v)) d
  | Msg.ServerRelayAuthTokenChanged v => no_task (edit_server_form (sf_set_token v)) d
  | Msg.ServerFormSave => no_task (save_server_form an) d
  | Msg.ServerFormCancel => no_task (on_forms (put_server_form None)) d
  | Msg.AuthorizeClient =>
      no_task (on_forms (fun f => f |> put_client_form (Some ClientForm_default) |> put_identity_form None
                                    |> put_confirm_remove_client None |> put_notice None)) d
  | Msg.ClientNameChanged v => no_task (edit_client_form (fun f => mkClientForm v (cf_public f))) d
  | Msg.ClientPublicKeyChanged v => no_task (edit_client_form (set_public_key v)) d
  | Msg.ClientUseOwnKey c =>
      no_task (fun d => match find_key (app_keys d) (kc_id c) with
                        | Some k => edit_client_form (fun _ => mkClientForm (k_name k) (k_public k)) d
                        | None => d
                        end) d
  | Msg.ClientFormSave => no_task (save_client_form an) d
  | Msg.ClientFormCancel => no_task (on_forms (put_client_form None)) d
  | Msg.RemoveClient public_key => no_task (remove_client an public_key) d
  | Msg.ExportServerSecret => no_task (export_server_secret an) d
  | Msg.ReplaceIdentity import =>
      no_task (on_forms (fun f => f |> put_identity_form (Some (if import
                                         then IdentityChoice_importing (an_identity an)
                                         else IdentityChoice_new (an_identity an)))
                                    |> put_client_form None |> put_confirm_export_server_secret false
                                    |> put_notice None)) d
  | Msg.IdentityImportToggled b => no_task (edit_identity_form (ic_set_import b)) d
  | Msg.IdentityRegenerate => no_task (edit_identity_form (IdentityChoice_regenerate (an_identity an))) d
  | Msg.IdentitySecretChanged v => no_task (edit_identity_form (ic_set_secret v)) d
  | Msg.IdentityFormSave => no_task (save_identity_form an) d
  | Msg.IdentityFormCancel => no_task (on_forms (put_identity_form None)) d
  | Msg.LogFilterChanged f => no_task (set_log_filter an f) d
  | Msg.OpenLogFolder => (d, NoTask)
  | Msg.CopyLogs => no_task (fun d => (copy_text an (log_text (d_app d)) d).2) d
  end.

(** ** Launch *)

(** What the load gives: the store to run on, and why it is not the one on disk. *)
Definition loaded_or_default (r : result StoreError Store) : Store * option StoreReset :=
  match r with
  | Ok st =>
      (st, match sealed_reset_from st, unseal_failed st with
           | Some v, _ => Some (ResetVersion v)
           | None, true => Some ResetUnsealable
           | None, false => None
           end)
  | Err e => (Store_default, Some (ResetUnreadable (error_text e)))
  end.

Definition first_selection (st : Store) : Selection :=
  match profiles st, server st with
  | p :: _, _ => SelProfile (p_id p)
  | [], Some _ => SelServer
  | [], None => SelEmpty
  end.

Definition App_new (st : Store) (reset : option StoreReset) : App :=
  mkApp (mkData (profiles st) (keys st) (server st) (login_item_set_up st)) Forms_closed None None
    (first_selection st) None None None reset ∅ ∅ (2 ^ 64 - 1) FilterAll [] false ∅ ServerSnapshot_default false.

(** The login item at launch: set up once, on an intact store; re-pointed afterwards. *)
Definition boot_login_item (an : Answers) : Act := fun d =>
  if dev_store (d_machine d) then d
  else if a_login_set_up (a_data (d_app d)) then d
  else if bool_decide (is_Some (store_reset (d_app d))) then d
  else
    let d := ask_login_item true d in
    if an_login_works an then d |> on_data (put_login_set_up true) |> persist_store an else d.

(** [boot]; the tray's set-up message follows. *)
Definition boot (an : Answers) (args : list bytes) (m : Machine) : Desk * Task :=
  let '(r, m) := load_store data_local_dir (an_faults an) m in
  let '(st, reset) := loaded_or_default r in
  let d := mkDesk (App_new st reset) m [] [] [] in
  let d := d |> boot_login_item an |> on_app (put_launch_at_login (an_login_enabled an)) |> resume_server an in
  if launched_at_login args && negb (bool_decide (is_Some (store_reset (d_app d)))) then (d, NoTask)
  else open_window an d.

Definition run_messages (d : Desk) (msgs : list (Answers * Msg.Message)) : Desk :=
  foldl (fun d x => (update x.1 x.2 d).1) d msgs.
End app.
