(* ===== verification/DesktopAppProofs.v ===== *)
(** * The desktop application keeps its store

    What each message does to the persistent data ([edit]), and what follows for whole
    runs: the data stay storable, every change is saved by the message that makes it,
    nothing is written over a store that did not load until the user says so, nothing
    goes without a second click, local ports stay distinct, and a revoked client is cut
    off. *)

From S2P Require Import SupervisorProofs.
From S2P Require Import Prelude RustStr Net Stream Signaling Socks5 RoutedSet DnsForward Dial Blocklist.
From S2P Require Import Registry Server Client Http LocalConn Accept Forward ForwardProofs PortForwards.
From S2P Require Import Config Ipc Session DesktopStore DesktopStoreProofs DesktopExport Supervisor.
From S2P Require Import Paths DesktopForms DesktopFormsProofs DesktopDataProofs DesktopShell DesktopState DesktopApp.

Open Scope desk_scope.

Abbreviation data d := (a_data (d_app d)).

(** ** What leaves the store alone *)

Section core.
Context `{IpNetworkApi}.

(** The persistent data, the machine, and whether the store is held back. *)
Definition core (d : Desk) : Data * Machine * option StoreReset :=
  (data d, d_machine d, store_reset (d_app d)).

Lemma core_inv d x m r : core d = (x, m, r) -> data d = x /\ d_machine d = m /\ store_reset (d_app d) = r.
Proof. intros Hc. pose proof (f_equal snd Hc). pose proof (f_equal (snd ∘ fst) Hc). by pose proof (f_equal (fst ∘ fst) Hc). Qed.

Lemma core_forms f d : core (on_forms f d) = core d.
Proof. done. Qed.

Lemma core_notice t d : core (set_notice t d) = core d.
Proof. done. Qed.

Lemma core_close d : core (close_forms d) = core d.
Proof. done. Qed.

Lemma core_selection s d : core (set_selection s d) = core d.
Proof. done. Qed.

Lemma core_send c d : core (send c d) = core d.
Proof. done. Qed.

Lemma core_start s d : core (start_server s d) = core d.
Proof. done. Qed.

Lemma core_restart s d : core (restart_server s d) = core d.
Proof. done. Qed.

Lemma core_forget_error i d : core (forget_error i d) = core d.
Proof. done. Qed.

Lemma core_log_filter an f d : core (set_log_filter an f d) = core d.
Proof. done. Qed.

Lemma core_refresh_tray an d : core (refresh_tray an d) = core d.
Proof. done. Qed.

Lemma core_push id d : core (push_forwards id d) = core d.
Proof. unfold push_forwards. by case_match. Qed.

Lemma core_push_all ids d : core (foldl (fun d id => push_forwards id d) d ids) = core d.
Proof. revert d. induction ids as [|i ids IH]; intros d; [done|]. cbn. by rewrite IH, core_push. Qed.

Lemma core_notice_unless t d : core (notice_unless_told t d) = core d.
Proof. unfold notice_unless_told. by case_bool_decide. Qed.

Lemma core_resume an d : core (resume_server an d) = core d.
Proof. unfold resume_server. by repeat case_match. Qed.

Lemma core_revoke s d : core (revoke s d) = core d.
Proof. unfold revoke. by repeat case_match. Qed.

Lemma core_copy an t d : core (copy_text an t d).2 = core d.
Proof. unfold copy_text. by case_match. Qed.

Lemma core_open_window an d : core (open_window an d).1 = core d.
Proof. done. Qed.

Lemma core_show_window an d : core (show_window an d).1 = core d.
Proof. unfold show_window. by case_match. Qed.

Lemma core_refresh_log an d : core (refresh_log an d) = core d.
Proof. unfold refresh_log. by case_bool_decide. Qed.

Lemma core_follow_rename an a b d : core (follow_rename an a b d) = core d.
Proof. unfold follow_rename. by case_match. Qed.

Lemma core_sync_launch an b d : core (sync_launch_at_login an b d) = core d.
Proof. unfold sync_launch_at_login, on_app, core. cbn. by case_match. Qed.

Lemma core_set_up_server an d : core (set_up_server an d).1 = core d.
Proof. unfold set_up_server. rewrite core_show_window. by case_match. Qed.

Lemma core_toggle_login_item an d : core (toggle_login_item an d) = core d.
Proof. unfold toggle_login_item. case_match; [done|]. by rewrite core_sync_launch. Qed.

Lemma core_tray_click win an b d : core (tray_click win an b d).1 = core d.
Proof. unfold tray_click. by repeat case_match. Qed.

Lemma core_connect an id d : core (connect_profile an id d).1 = core d.
Proof. unfold connect_profile. repeat case_match; by rewrite ?core_show_window. Qed.

Lemma core_restart_message d : core (restart_message d) = core d.
Proof. unfold restart_message. by repeat case_match. Qed.

Ltac copied :=
  match goal with
  | E : copy_text ?an ?t ?d = (_, ?d') |- _ => pose proof (core_copy an t d) as Hcopied; rewrite E in Hcopied; exact Hcopied
  end.

Lemma core_export_server_secret an d : core (export_server_secret an d) = core d.
Proof.
  unfold export_server_secret. repeat case_match; try done; by copied.
Qed.

Lemma core_export_key an id d : core (export_key an id d) = core d.
Proof.
  unfold export_key. repeat case_match; try done; by copied.
Qed.
End core.

Create Rewrite HintDb desk.
#[export] Hint Rewrite @core_forms @core_notice @core_close @core_selection @core_send @core_start
  @core_restart @core_forget_error @core_log_filter @core_refresh_tray @core_push @core_push_all
  @core_notice_unless @core_resume @core_revoke @core_copy @core_open_window @core_show_window
  @core_refresh_log @core_follow_rename @core_sync_launch @core_set_up_server @core_toggle_login_item @core_tray_click @core_connect
  @core_restart_message @core_export_server_secret @core_export_key : desk.

Section app.
Context `{SafeBox} `{Json (gmap bytes bytes)} (data_local_dir : option bytes).
Context `{Json StoreDoc} `{Json DevDoc} `{PublicKeys} `{Json Value}.
Context `{KeyPairs} `{Identities} `{IpNetworkApi}.
Context (error_text : StoreError -> bytes) (windows : bool).

Abbreviation persist := (persist_store data_local_dir error_text).
Abbreviation handle := (update data_local_dir error_text windows).

(** ** What a message does to the data *)

(** [edit an fs msg x x']: with the forms [fs] open, [msg] may turn the data [x] into
    [x']. *)
Inductive edit (an : Answers) (m : Machine) (fs : Forms) : Msg.Message -> Data -> Data -> Prop :=
| edit_nothing msg x : edit an m fs msg x x
| edit_save_profile form p x :
    profile_form fs = Some form ->
    ProfileForm_validate form (an_id an) (a_profiles x) (a_keys x) = Ok p ->
    edit an m fs Msg.ProfileFormSave x (put_profiles (upsert p_id p (a_profiles x)) x)
| edit_delete_profile id pos p x :
    confirm_delete fs = Some id -> a_profiles x !! pos = Some p -> p_id p = id ->
    edit an m fs (Msg.DeleteProfile id) x (put_profiles (delete pos (a_profiles x)) x)
| edit_save_forward form id f pos p x :
    forward_form fs = Some (id, form) -> ForwardForm_validate form (an_id an) (a_profiles x) = Ok f ->
    a_profiles x !! pos = Some p -> p_id p = id ->
    edit an m fs Msg.FormSave x
      (put_profiles (<[pos := with_p_forwards (upsert pf_id f (p_forwards p)) p]> (a_profiles x)) x)
| edit_delete_forward id fid pos p x :
    a_profiles x !! pos = Some p -> p_id p = id ->
    edit an m fs (Msg.DeleteForward id fid) x
      (put_profiles (<[pos := with_p_forwards (filter (fun f => pf_id f <> fid) (p_forwards p)) p]> (a_profiles x)) x)
| edit_toggle_forward id fid b pos p i f x :
    a_profiles x !! pos = Some p -> p_id p = id -> p_forwards p !! i = Some f ->
    edit an m fs (Msg.ToggleForward id fid b) x
      (put_profiles (<[pos := with_p_forwards (<[i := with_pf_enabled b f]> (p_forwards p)) p]> (a_profiles x)) x)
| edit_failed_forwards msg st x :
    msg = Msg.Tick \/ msg = Msg.SetupTray ->
    edit an m fs msg x (put_profiles (refresh_profiles (an_snaps an) (a_profiles x) st).1.1 x)
| edit_import path incoming m' x :
    import_profiles (an_faults an) (an_ids an) path m = (Ok incoming, m') ->
    edit an m fs (Msg.ImportPicked (Some path)) x
      (put_profiles (merge_imported (an_merge_ids an) (a_profiles x) incoming).1.1 x)
| edit_new_key name n x :
    validate_key_name name (a_keys x) None = Ok n ->
    edit an m fs Msg.NewKeyCreate x
      (put_keys (a_keys x ++ [mkAuthKey (an_id an) n (an_key an).2 (an_key an).1]) x)
| edit_save_key form k x :
    key_form fs = Some form -> KeyForm_validate form (an_id an) (a_keys x) = Ok k ->
    edit an m fs Msg.KeyFormSave x (put_keys (upsert k_id k (a_keys x)) x)
| edit_delete_key id x :
    confirm_delete_key fs = Some id -> Forall (fun p => p_key_id p <> id) (a_profiles x) ->
    edit an m fs (Msg.DeleteKey id) x (put_keys (filter (fun k => k_id k <> id) (a_keys x)) x)
| edit_save_server form s x :
    server_form fs = Some form -> ServerForm_validate form (a_server x) = Ok s ->
    edit an m fs Msg.ServerFormSave x (put_server (Some s) x)
| edit_delete_server x :
    confirm_delete_server fs = true -> edit an m fs Msg.DeleteServer x (put_server None x)
| edit_enable msg b s x :
    msg = Msg.SetServerEnabled b \/ msg = Msg.TrayMenu MENU_TOGGLE_SERVER -> a_server x = Some s ->
    edit an m fs msg x (put_server (Some (with_enabled b s)) x)
| edit_authorize form c s x :
    client_form fs = Some form -> a_server x = Some s -> ClientForm_validate form (sv_clients s) = Ok c ->
    edit an m fs Msg.ClientFormSave x (put_server (Some (with_clients (sv_clients s ++ [c]) s)) x)
| edit_revoke pk s x :
    confirm_remove_client fs = Some pk -> a_server x = Some s ->
    edit an m fs (Msg.RemoveClient pk) x
      (put_server (Some (with_clients (filter (fun c => ac_public c <> pk) (sv_clients s)) s)) x)
| edit_identity choice secret endpoint s x :
    identity_form fs = Some choice -> a_server x = Some s -> IdentityChoice_resolve choice = Ok (secret, endpoint) ->
    edit an m fs Msg.IdentityFormSave x (put_server (Some (with_identity secret endpoint s)) x).

Hint Constructors edit : core.

Lemma persist_frame an d :
  data (persist an d) = data d /\ store_reset (d_app (persist an d)) = store_reset (d_app d).
Proof.
  unfold persist_store. destruct (store_reset (d_app d)) eqn:E; [done|].
  destruct (saved _ _ _) as [[]]; done.
Qed.

(** ** One step *)

(** [d'] is [d] as far as the store goes, or some [d0] of the same machine after its save. *)
Definition settled (an : Answers) (d d' : Desk) : Prop :=
  (data d' = data d /\ d_machine d' = d_machine d)
  \/ exists d0, d_machine d0 = d_machine d /\ store_reset (d_app d') = store_reset (d_app d0)
       /\ data d' = data d0 /\ d_machine d' = d_machine (persist an d0).

Record stepped (an : Answers) (msg : Msg.Message) (d d' : Desk) : Prop := mkStepped {
  st_edit : edit an (d_machine d) (app_forms d) msg (data d) (data d');
  st_reset : store_reset (d_app d') = store_reset (d_app d)
    \/ (msg = Msg.StoreResetContinue /\ store_reset (d_app d') = None);
  st_saved : (forall p, msg <> Msg.ExportPicked p) -> settled an d d';
}.

Lemma stepped_quiet an msg d d' : core d' = core d -> stepped an msg d d'.
Proof. intros [= Hd Hm Hr]. split; [rewrite Hd; auto|by left|]. intros _. by left. Qed.

Lemma stepped_persist an msg d d0 d' :
  d_machine d0 = d_machine d -> store_reset (d_app d0) = store_reset (d_app d) ->
  edit an (d_machine d) (app_forms d) msg (data d) (data d0) -> core d' = core (persist an d0) ->
  stepped an msg d d'.
Proof.
  intros Hm Hr He [= Hd' Hm' Hr']. destruct (persist_frame an d0) as [Hd Hp].
  split; [by rewrite Hd', Hd|left; congruence|]. intros _. right. exists d0. split_and!; congruence.
Qed.

(** Close a step: unfold, split the program's cases, and use one of the two lemmas. *)
Ltac quiet := solve [apply stepped_quiet; cbn [fst]; autorewrite with desk; reflexivity].
Ltac saves d0 := apply (stepped_persist _ _ _ d0); [reflexivity|reflexivity| |autorewrite with desk; reflexivity].

Lemma step_delete_profile an id d : stepped an (Msg.DeleteProfile id) d (delete_profile data_local_dir error_text an id d).
Proof.
  unfold delete_profile. case_bool_decide as Hc; cbn [negb]; [|quiet].
  destruct (list_find _ _) as [[pos p]|] eqn:E; [|quiet].
  apply list_find_Some in E as (Hpos & Hid & _).
  set (d0 := if bool_decide (log_filter _ = _) then _ else _).
  apply (stepped_persist _ _ _ d0).
  - unfold d0. by case_bool_decide.
  - unfold d0. by case_bool_decide.
  - replace (data d0) with (put_profiles (delete pos (app_profiles d)) (data d))
      by (unfold d0; by case_bool_decide).
    by apply edit_delete_profile with p.
  - by case_bool_decide.
Qed.

Lemma put_profile_core an p d :
  data (put_profile an p d) = put_profiles (upsert p_id p (app_profiles d)) (data d)
  /\ d_machine (put_profile an p d) = d_machine d
  /\ store_reset (d_app (put_profile an p d)) = store_reset (d_app d).
Proof.
  unfold put_profile. destruct (list_find _ _) as [[pos old]|]; [|done]. unfold follow_rename. by case_match.
Qed.

Lemma step_save_profile an d : stepped an Msg.ProfileFormSave d (save_profile_form data_local_dir error_text an d).
Proof.
  unfold save_profile_form. destruct (profile_form _) as [form|] eqn:Ef; [|quiet].
  destruct (ProfileForm_validate _ _ _ _) as [p|] eqn:Ev; [|quiet].
  destruct (put_profile_core an p d) as (Hd & Hm & Hr).
  apply (stepped_persist _ _ _ (put_profile an p d)); [done|done| |autorewrite with desk; reflexivity].
  rewrite Hd. by eapply edit_save_profile.
Qed.

Lemma step_save_forward an d : stepped an Msg.FormSave d (save_forward_form data_local_dir error_text an d).
Proof.
  unfold save_forward_form. destruct (forward_form _) as [[id form]|] eqn:Ef; [|quiet].
  destruct (ForwardForm_validate _ _ _) as [f|] eqn:Ev; [|quiet].
  destruct (list_find _ _) as [[pos p]|] eqn:E; [|quiet].
  apply list_find_Some in E as (Hpos & Hid & _). unfold commit_forwards.
  destruct (pf_enabled f).
  - saves (change_forwards pos p (upsert pf_id f (p_forwards p)) (forget_error (pf_id f) d)).
    by eapply edit_save_forward.
  - saves (change_forwards pos p (upsert pf_id f (p_forwards p)) d). by eapply edit_save_forward.
Qed.

Lemma step_delete_forward an id fid d :
  stepped an (Msg.DeleteForward id fid) d (delete_forward data_local_dir error_text an id fid d).
Proof.
  unfold delete_forward. destruct (list_find _ _) as [[pos p]|] eqn:E; [|quiet].
  apply list_find_Some in E as (Hpos & Hid & _). case_bool_decide; [quiet|]. unfold commit_forwards.
  saves (forget_error fid (change_forwards pos p (filter (fun f => pf_id f <> fid) (p_forwards p)) d)).
  by apply edit_delete_forward.
Qed.

Lemma step_toggle_forward an id fid b d :
  stepped an (Msg.ToggleForward id fid b) d (toggle_forward data_local_dir error_text an id fid b d).
Proof.
  unfold toggle_forward. destruct (list_find _ (app_profiles d)) as [[pos p]|] eqn:E; [|quiet].
  apply list_find_Some in E as (Hpos & Hid & _).
  destruct (list_find _ (p_forwards p)) as [[i f]|] eqn:Ei; [|quiet].
  apply list_find_Some in Ei as (Hi & _). unfold commit_forwards.
  set (d0 := change_forwards pos p (<[i := with_pf_enabled b f]> (p_forwards p)) d).
  destruct b; [saves (forget_error fid d0)|saves d0]; by eapply edit_toggle_forward.
Qed.

Lemma step_new_key an d : stepped an Msg.NewKeyCreate d (create_key_for_profile_form data_local_dir error_text an d).
Proof.
  unfold create_key_for_profile_form. destruct (_ ≫= _) as [name|]; [|quiet].
  destruct (validate_key_name _ _ _) as [n|] eqn:Ev; [|quiet].
  saves (set_keys (app_keys d ++ [mkAuthKey (an_id an) n (an_key an).2 (an_key an).1]) d).
  by eapply edit_new_key.
Qed.

Lemma step_save_key an d : stepped an Msg.KeyFormSave d (save_key_form data_local_dir error_text an d).
Proof.
  unfold save_key_form. destruct (key_form _) as [form|] eqn:Ef; [|quiet].
  destruct (KeyForm_validate _ _ _) as [k|] eqn:Ev; [|quiet].
  saves (set_keys (upsert k_id k (app_keys d)) d). by eapply edit_save_key.
Qed.

Lemma step_delete_key an id d : stepped an (Msg.DeleteKey id) d (delete_key data_local_dir error_text an id d).
Proof.
  unfold delete_key. destruct (list_find _ _) as [[pos p]|] eqn:E; [quiet|].
  apply list_find_None in E. case_bool_decide as Hc; cbn [negb]; [|quiet].
  apply (stepped_persist _ _ _ (d |> on_forms (put_confirm_export_key None)
    |> on_forms (put_confirm_delete_key None) |> set_keys (filter (fun k => k_id k <> id) (app_keys d))
    |> on_forms (put_key_form None))); [done..| |done].
  by apply edit_delete_key.
Qed.

Lemma step_save_server an d : stepped an Msg.ServerFormSave d (save_server_form data_local_dir error_text an d).
Proof.
  unfold save_server_form. destruct (server_form _) as [form|] eqn:Ef; [|quiet].
  destruct (ServerForm_validate _ _) as [sv|] eqn:Ev; [|quiet].
  apply (stepped_persist _ _ _ (d |> set_server (Some sv) |> set_notice None)); [done..| |].
  - by eapply edit_save_server.
  - by repeat case_bool_decide.
Qed.

Lemma step_delete_server an d : stepped an Msg.DeleteServer d (delete_server data_local_dir error_text an d).
Proof.
  unfold delete_server. destruct (confirm_delete_server _) eqn:Hc; cbn [negb]; [|quiet].
  destruct (app_server _) as [sv|] eqn:Es in |- *; [|quiet].
  set (d0 := if bool_decide (log_filter _ = _) then _ else _).
  apply (stepped_persist _ _ _ d0).
  - unfold d0. by case_bool_decide.
  - unfold d0. by case_bool_decide.
  - replace (data d0) with (put_server None (data d)) by (unfold d0; by case_bool_decide).
    by apply edit_delete_server.
  - by case_bool_decide.
Qed.

Lemma step_enable an msg b d :
  msg = Msg.SetServerEnabled b \/ msg = Msg.TrayMenu MENU_TOGGLE_SERVER ->
  stepped an msg d (set_server_enabled data_local_dir error_text an b d).1.
Proof.
  intros Hmsg. unfold set_server_enabled. destruct (app_server d) as [old|] eqn:Es; [|quiet].
  set (s := with_enabled b old). destruct (eqb (sv_enabled old) b) eqn:Eb.
  - destruct (negb b); [quiet|]. destruct (server_ready s); [quiet|]. case_bool_decide; quiet.
  - set (d0 := d |> set_server (Some s) |> set_notice None).
    apply (stepped_persist _ _ _ d0); [done..|by eapply edit_enable|].
    destruct (negb b); [done|]. destruct (server_ready s); [done|].
    case_bool_decide; by autorewrite with desk.
Qed.

Lemma step_authorize an d : stepped an Msg.ClientFormSave d (save_client_form data_local_dir error_text an d).
Proof.
  unfold save_client_form. destruct (client_form _) as [form|] eqn:Ef; [|quiet].
  destruct (app_server d) as [sv|] eqn:Es; [|quiet].
  destruct (ClientForm_validate _ _) as [c|] eqn:Ev; [|quiet].
  saves (d |> set_server (Some (with_clients (sv_clients sv ++ [c]) sv))
           |> on_forms (put_client_form None) |> set_notice None).
  by eapply edit_authorize.
Qed.

Lemma step_revoke an pk d : stepped an (Msg.RemoveClient pk) d (remove_client data_local_dir error_text an pk d).
Proof.
  unfold remove_client. case_bool_decide as Hc; cbn [negb]; [|quiet].
  cbn in Hc. change (app_server _) with (app_server d). destruct (app_server d) as [sv|] eqn:Es; [|quiet].
  case_bool_decide; [quiet|]. set (s := with_clients _ sv).
  saves (d |> on_forms (put_confirm_export_server_secret false) |> on_forms (put_confirm_remove_client None)
           |> set_server (Some s) |> set_notice None).
  by apply edit_revoke.
Qed.

Lemma step_identity an d : stepped an Msg.IdentityFormSave d (save_identity_form data_local_dir error_text an d).
Proof.
  unfold save_identity_form. destruct (identity_form _) as [choice|] eqn:Ef; [|quiet].
  destruct (app_server d) as [sv|] eqn:Es; [|quiet].
  destruct (IdentityChoice_resolve _) as [[secret endpoint]|] eqn:Ev; [|quiet].
  saves (d |> set_server (Some (with_identity secret endpoint sv))
           |> on_forms (put_identity_form None) |> set_notice None).
  by eapply edit_identity.
Qed.

(** No failure reported, nothing switched off. *)
Lemma disable_none fs sts : (disable_failed_forwards fs sts).2 = [] -> (disable_failed_forwards fs sts).1 = fs.
Proof.
  revert fs. induction sts as [|st sts IH]; intros fs; [done|]. cbn.
  destruct (st_state st); try apply IH. destruct (disable_first _ _); [|apply IH].
  by destruct (disable_failed_forwards _ _).
Qed.

Lemma refresh_profiles_quiet snaps ps st :
  (refresh_profiles snaps ps st).2 = [] -> (refresh_profiles snaps ps st).1.1 = ps.
Proof.
  revert st. induction ps as [|p ps IH]; intros st; [done|]. cbn [refresh_profiles].
  destruct (refresh_profile snaps p st) as [[p' st'] failed] eqn:E.
  specialize (IH st'). destruct (refresh_profiles snaps ps st') as [[ps' st''] failed_in]. cbn in IH |- *.
  destruct failed; [done|]. intros ->. rewrite IH by done. f_equal.
  unfold refresh_profile in E. destruct (snaps !! p_id p); [|congruence].
  pose proof (disable_none (p_forwards p) (sn_forwards s)) as Hd.
  destruct (disable_failed_forwards _ _) as [fs disabled]. cbn in Hd. injection E as <- _ Hn.
  apply negb_false_iff, bool_decide_eq_true in Hn. rewrite Hd by done. by destruct p.
Qed.

Lemma step_refresh an msg d0 d :
  msg = Msg.Tick \/ msg = Msg.SetupTray -> core d = core d0 -> app_forms d = app_forms d0 ->
  stepped an msg d0 (refresh data_local_dir error_text an d).
Proof.
  intros Hmsg Hcore Hforms. unfold refresh.
  set (d1 := sync_launch_at_login an false _).
  assert (Hc1 : core d1 = core d0) by (unfold d1; by rewrite core_sync_launch).
  apply core_inv in Hc1 as (Hd1 & Hm1 & Hr1). clearbody d1.
  set (st := (forward_errors (d_app d1), routed_caches (d_app d1))).
  pose proof (refresh_profiles_quiet (an_snaps an) (app_profiles d1) st) as Hq.
  destruct (refresh_profiles (an_snaps an) (app_profiles d1) st) as [[ps [errors caches]] failed_in] eqn:E.
  cbn [fst snd] in Hq.
  set (d2 := on_app (put_routed_caches caches) _). set (d3 := foldl _ d2 failed_in).
  assert (Hc3 : core d3 = (put_profiles ps (data d0), d_machine d0, store_reset (d_app d0))).
  { unfold d3. rewrite core_push_all, <- Hd1, <- Hm1, <- Hr1. done. }
  apply core_inv in Hc3 as (Hd3 & Hm3 & Hr3). case_bool_decide as Hf.
  - apply stepped_quiet. autorewrite with desk. unfold core. rewrite Hd3, Hm3, Hr3, Hq by done.
    rewrite Hd1. by destruct (data d0).
  - apply (stepped_persist _ _ _ d3); [done|done| |by autorewrite with desk].
    rewrite Hd3, <- Hd1. replace ps with (refresh_profiles (an_snaps an) (app_profiles d1) st).1.1 by (by rewrite E).
    by apply edit_failed_forwards.
Qed.

Lemma step_import an path d :
  stepped an (Msg.ImportPicked (Some path)) d (import_message data_local_dir error_text an path d).
Proof.
  unfold import_message. destruct (import_profiles _ _ _ _) as [r m] eqn:E.
  pose proof (import_profiles_frame _ _ _ _ _ _ E) as ->.
  destruct r as [incoming|e]; [|quiet].
  destruct (merge_imported _ _ _) as [[ps added] replaced] eqn:Em.
  set (d1 := foldl _ (set_profiles ps _) replaced).
  assert (Hc1 : core d1 = (put_profiles ps (data d), d_machine d, store_reset (d_app d))).
  { unfold d1. by rewrite core_push_all. }
  apply core_inv in Hc1 as (Hd1 & Hm1 & Hr1). apply (stepped_persist _ _ _ d1); [done|done|..].
  - rewrite Hd1. replace ps with (merge_imported (an_merge_ids an) (app_profiles d) incoming).1.1
      by (exact (f_equal (fun x => x.1.1) Em)).
    by eapply edit_import.
  - set (d2 := on_app (put_io_notice _) _). destruct (head (app_profiles d2)); [|done].
    by destruct (match a_selection (d_app d2) with SelProfile _ => _ | _ => _ end).
Qed.

Lemma step_export an path d :
  stepped an (Msg.ExportPicked (Some path)) d (export_message error_text an path d).
Proof.
  unfold export_message. destruct (export_profiles _ _ _ _) as [r m]. split; [apply edit_nothing|by left|].
  intros Hne. by destruct (Hne (Some path)).
Qed.

Lemma step_menu an id d : stepped an (Msg.TrayMenu id) d (handle_menu_event data_local_dir error_text an id d).1.
Proof.
  unfold handle_menu_event. repeat (case_bool_decide; [|]); try quiet.
  all: destruct (app_server d) as [sv|]; try quiet.
  subst id. eapply step_enable. by right.
Qed.

Lemma step_setup_tray an d : stepped an Msg.SetupTray d (setup_tray data_local_dir error_text an d).
Proof. unfold setup_tray. apply step_refresh; [by right|by case_match..]. Qed.

Lemma step_continue an d :
  stepped an Msg.StoreResetContinue d (persist an (on_app (put_store_reset None) d)).
Proof.
  destruct (persist_frame an (on_app (put_store_reset None) d)) as [Hd Hr]. split.
  - rewrite Hd. apply edit_nothing.
  - by right.
  - intros _. right. by exists (on_app (put_store_reset None) d).
Qed.

Hint Resolve step_menu step_setup_tray step_continue step_delete_profile step_export step_import step_new_key
  step_delete_key step_save_key step_save_profile step_delete_forward step_toggle_forward step_save_forward
  step_delete_server step_save_server step_authorize step_revoke step_identity : core.

(** Every message makes one step. *)
Lemma update_stepped an msg d : stepped an msg d (handle an msg d).1.
Proof.
  destruct msg; cbn [update no_task fst]; try quiet; auto.
  all: try (repeat case_match; first [quiet | by auto]).
  - by apply step_refresh; [left|..].
  - unfold on_app. apply stepped_quiet. unfold core. cbn. by case_bool_decide.
  - apply step_enable. by left.
Qed.

(** ** What is storable stays storable *)

(** Every profile's key exists, unless none has been picked. *)
Definition keys_known (x : Data) : Prop :=
  Forall (fun p => p_key_id p = [] \/ is_Some (find_key (a_keys x) (p_key_id p))) (a_profiles x).

Record good_data (x : Data) : Prop := mkGoodData {
  good_storable : storable (a_keys x) (a_profiles x) (a_server x);
  good_keys_known : keys_known x;
}.

(** A key being edited has an id that a key may have. *)
Definition good_forms (fs : Forms) : Prop :=
  forall form id, key_form fs = Some form -> kf_editing form = Some id ->
  id <> [] /\ is_reserved_secret_id id = false.

(** The random and the imported values of one message: new ids, a new key, UTF-8 names. *)
Record sound (an : Answers) (m : Machine) (x : Data) : Prop := mkSound {
  sound_id : an_id an <> [] /\ is_reserved_secret_id (an_id an) = false;
  sound_profile_id : an_id an ∉ p_id <$> a_profiles x;
  sound_key_id : an_id an ∉ k_id <$> a_keys x;
  sound_public : (an_key an).2 ∉ k_public <$> a_keys x;
  sound_merge : fresh_merge_ids (an_merge_ids an) (a_profiles x);
  sound_import : forall path ps m', import_profiles (an_faults an) (an_ids an) path m = (Ok ps, m') ->
    Forall (fun p => utf8_valid (p_name p) = true) ps
    /\ Z.of_nat (length (a_profiles x) + length ps) < 2 ^ 31;
}.

Lemma good_data_iff x :
  good_data x <-> wf_keys (a_keys x) /\ good_profiles (a_profiles x)
    /\ (forall s, a_server x = Some s -> wf_clients (sv_clients s) /\ token_set (sv_token s)) /\ keys_known x.
Proof.
  split.
  - intros [[Hk Hp Hd Ht Hs] Hr]. split_and!; try done. split; [done|].
    rewrite Forall_forall in Hd, Ht. apply Forall_forall. intros p Hin. split; auto.
  - intros (Hk & [Hp Hg] & Hs & Hr). rewrite Forall_forall in Hg.
    split; [|done]. split; try done; apply Forall_forall; intros p Hin; by apply Hg.
Qed.

(** Refreshing changes forwards' switches only. *)
Lemma disable_first_docs id fs fs' : disable_first id fs = Some fs' -> forward_doc <$> fs' = forward_doc <$> fs.
Proof.
  revert fs'. induction fs as [|f fs IH]; intros fs'; [done|]. cbn. case_match.
  - by intros [= <-].
  - intros (fs1 & E & [= <-])%bind_Some. cbn. by rewrite (IH fs1).
Qed.

Lemma disable_failed_docs fs sts : forward_doc <$> (disable_failed_forwards fs sts).1 = forward_doc <$> fs.
Proof.
  revert fs. induction sts as [|st sts IH]; intros fs; [done|]. cbn.
  destruct (st_state st); try apply IH. destruct (disable_first _ _) as [fs'|] eqn:E; [|apply IH].
  specialize (IH fs'). destruct (disable_failed_forwards fs' sts) as [fs2 dis]. cbn in *. rewrite IH.
  by eapply disable_first_docs.
Qed.

Definition same_but_switches (p p' : Profile) : Prop :=
  profile_doc p' = profile_doc p /\ p_token p' = p_token p.

Lemma refresh_same snaps ps st : Forall2 same_but_switches ps (refresh_profiles snaps ps st).1.1.
Proof.
  revert st. induction ps as [|p ps IH]; intros st; [constructor|]. cbn [refresh_profiles].
  destruct (refresh_profile snaps p st) as [[p' st'] failed] eqn:E. specialize (IH st').
  destruct (refresh_profiles snaps ps st') as [[ps' st''] failed_in]. constructor; [|done].
  unfold refresh_profile in E. destruct (snaps !! p_id p) as [snap|]; [|by simplify_eq].
  pose proof (disable_failed_docs (p_forwards p) (sn_forwards snap)) as Hd.
  destruct (disable_failed_forwards _ _) as [fs dis]. simplify_eq. split; [|done].
  unfold profile_doc. cbn in *. by rewrite Hd.
Qed.

Lemma keys_known_same ks ps ps' :
  Forall2 same_but_switches ps ps' ->
  Forall (fun p => p_key_id p = [] \/ is_Some (find_key ks (p_key_id p))) ps ->
  Forall (fun p => p_key_id p = [] \/ is_Some (find_key ks (p_key_id p))) ps'.
Proof.
  induction 1 as [|p p' ps ps' [Hd _] _ IH]; [done|]. intros [Hp Hps]%Forall_cons. constructor; [|by apply IH].
  change (p_key_id p') with (pd_key_id (profile_doc p')). by rewrite Hd.
Qed.

(** New profiles, the same keys and server. *)
Lemma good_put_profiles x ps :
  good_data x -> good_profiles ps ->
  Forall (fun p => p_key_id p = [] \/ is_Some (find_key (a_keys x) (p_key_id p))) ps ->
  good_data (put_profiles ps x).
Proof. rewrite !good_data_iff. intros (Hk & _ & Hs & _) Hps Hr. done. Qed.

Lemma good_put_keys x ks :
  good_data x -> wf_keys ks ->
  (forall p, p ∈ a_profiles x -> p_key_id p ∈ k_id <$> a_keys x -> p_key_id p ∈ k_id <$> ks) ->
  good_data (put_keys ks x).
Proof.
  rewrite !good_data_iff. intros (_ & Hps & Hs & Hr) Hk Hin. split_and!; [done..|].
  unfold keys_known in *. rewrite Forall_forall in *. intros p Hp.
  destruct (Hr p Hp) as [?|Hf]; [by left|right]. apply find_key_known, Hin; [done|]. by apply find_key_known.
Qed.

Lemma good_put_server x sv :
  good_data x -> (forall s, sv = Some s -> wf_clients (sv_clients s) /\ token_set (sv_token s)) ->
  good_data (put_server sv x).
Proof. rewrite !good_data_iff. intros (Hk & Hps & _ & Hr) Hs. done. Qed.

(** The server after a change that keeps its token. *)
Lemma good_server_change x s s' :
  good_data x -> a_server x = Some s -> sv_token s' = sv_token s ->
  (wf_clients (sv_clients s) -> wf_clients (sv_clients s')) -> good_data (put_server (Some s') x).
Proof.
  intros Hg Hs Ht Hc. apply good_put_server; [done|]. intros ? [= <-].
  apply good_data_iff in Hg as (_ & _ & Hsv & _). destruct (Hsv s Hs) as [? ?]. rewrite Ht. auto.
Qed.

Context `{!PublicKeyLaws}.

(** *** Profiles *)

Section profiles.
Context (x : Data) (Hg : good_data x).

Let Hps : good_profiles (a_profiles x).
Proof. by destruct (proj1 (good_data_iff x) Hg) as (_ & ? & _). Qed.

Let Hknown : keys_known x.
Proof. by destruct (proj1 (good_data_iff x) Hg) as (_ & _ & _ & ?). Qed.

Lemma good_save_profile form new_id p :
  ProfileForm_validate form new_id (a_profiles x) (a_keys x) = Ok p -> (new_id ∉ p_id <$> a_profiles x) ->
  good_data (put_profiles (upsert p_id p (a_profiles x)) x).
Proof.
  intros [Hid Hacc]%ProfileForm_validate_ok Hnew. apply good_put_profiles; [done|..].
  - eapply good_accepted; [done|exact Hacc|]. destruct (pfm_editing form) as [e|]; cbn in Hid.
    + left. by rewrite Hid.
    + right. split; [done|]. by rewrite Hid.
  - apply upsert_Forall; [done|]. right. apply Hacc.
Qed.

Lemma good_delete_profile pos : good_data (put_profiles (delete pos (a_profiles x)) x).
Proof.
  apply good_put_profiles; [done|by eapply good_sublist; [apply sublist_delete|]|by apply Forall_delete].
Qed.

Lemma good_forwards_of pos p : a_profiles x !! pos = Some p -> Forall good_forward (p_forwards p).
Proof.
  intros Hpos. apply good_profile_forwards. destruct Hps as [_ Hgp]. rewrite Forall_lookup in Hgp. eauto.
Qed.

Lemma good_set_forwards pos p gs :
  a_profiles x !! pos = Some p -> Forall good_forward gs ->
  good_data (put_profiles (<[pos := with_p_forwards gs p]> (a_profiles x)) x).
Proof.
  intros Hpos Hgs. apply good_put_profiles; [done|by apply good_change_forwards|].
  apply Forall_insert; [done|]. pose proof Hknown as Hk. unfold keys_known in Hk.
  rewrite Forall_lookup in Hk. by apply (Hk pos p).
Qed.

Lemma good_import_merge incoming ids :
  good_import incoming -> fresh_merge_ids ids (a_profiles x) ->
  Z.of_nat (length (a_profiles x) + length incoming) < 2 ^ 31 ->
  good_data (put_profiles (merge_imported ids (a_profiles x) incoming).1.1 x).
Proof.
  intros Himp [Hfresh Hinj] Hlen. apply good_put_profiles; [done|by apply good_merge_from|].
  apply Forall_forall. intros p [?|(q & Hq & ->)]%merge_keys; [by left|].
  pose proof Hknown as Hk. unfold keys_known in Hk. rewrite Forall_forall in Hk. by apply Hk.
Qed.
End profiles.

(** *** Keys and the server *)

Section keys.
Context (x : Data) (Hg : good_data x).

Let Hks : wf_keys (a_keys x).
Proof. by destruct (proj1 (good_data_iff x) Hg) as (? & _). Qed.

Lemma good_new_key name n new_id public secret :
  validate_key_name name (a_keys x) None = Ok n ->
  new_id <> [] -> is_reserved_secret_id new_id = false -> (new_id ∉ k_id <$> a_keys x) ->
  (public ∉ k_public <$> a_keys x) ->
  good_data (put_keys (a_keys x ++ [mkAuthKey new_id n public secret]) x).
Proof.
  intros [Hvn Hns]%validate_key_name_ok Hne Hres Hki Hpub. apply good_put_keys; [done|..].
  - rewrite app_upsert with (id := k_id) by done. apply good_keys_upsert; [done..|].
    intros q Hq _. split; [by apply Hns|]. intros E. apply Hpub. cbn in E. rewrite <- E. by apply elem_of_ids.
  - intros p _ Hp. rewrite fmap_app. set_solver.
Qed.

Lemma good_save_key form new_id k :
  KeyForm_validate form new_id (a_keys x) = Ok k ->
  k_id k <> [] -> is_reserved_secret_id (k_id k) = false ->
  good_data (put_keys (upsert k_id k (a_keys x)) x).
Proof.
  intros (Hid & Hvn & _ & _ & Hq)%KeyForm_validate_ok Hne Hres. apply good_put_keys; [done|..].
  - apply good_keys_upsert; [done..|]. intros q Hin Hd. apply Hq; [done|].
    destruct (kf_editing form); cbn in Hid; congruence.
  - intros p _ Hp. by apply upsert_keeps_ids.
Qed.

Lemma good_delete_key id :
  Forall (fun p => p_key_id p <> id) (a_profiles x) ->
  good_data (put_keys (filter (fun k => k_id k <> id) (a_keys x)) x).
Proof.
  intros Hfree. apply good_put_keys; [done|by apply good_keys_filter|].
  intros p Hp (k & Ek & Hk)%list_elem_of_fmap. rewrite Ek. apply elem_of_ids, list_elem_of_filter.
  split; [|done]. rewrite Forall_forall in Hfree. rewrite <- Ek. by apply Hfree.
Qed.

Lemma good_save_server form s :
  ServerForm_validate form (a_server x) = Ok s -> good_data (put_server (Some s) x).
Proof.
  intros (Ht & _ & Hc)%ServerForm_validate_ok. apply good_put_server; [done|]. intros ? [= <-].
  split; [|done]. destruct (sf_identity form).
  - destruct Hc as (? & _ & _ & ->). apply wf_clients_iff. repeat split; constructor.
  - destruct Hc as (old & Hold & -> & _). pose proof Hg as (_ & _ & Hsv & _)%good_data_iff. by apply Hsv.
Qed.
End keys.

(** *** Every edit *)

(** The id of a saved key: the one being edited, or a new one. *)
Lemma saved_key_id an m fs x form k :
  good_forms fs -> sound an m x -> key_form fs = Some form ->
  KeyForm_validate form (an_id an) (a_keys x) = Ok k -> k_id k <> [] /\ is_reserved_secret_id (k_id k) = false.
Proof.
  intros Hf Hs Hform (Hid & _)%KeyForm_validate_ok. rewrite Hid.
  destruct (kf_editing form) as [e|] eqn:Ee; [by apply (Hf form)|apply Hs].
Qed.

Lemma edit_good an m fs msg x x' :
  good_data x -> good_forms fs -> sound an m x -> edit an m fs msg x x' -> good_data x'.
Proof.
  intros Hg Hf Hs He.
  destruct He as [| ? ? ? _ Hv | | ? ? ? ? ? ? _ Hv Hpos _ | ? ? ? ? ? Hpos _ | ? ? ? ? ? ? ? ? Hpos _ Hi
    | ? st ? _ | ? ? ? ? Himp | ? ? ? Hv | ? ? ? Hform Hv | | | | ? ? ? ? _ Hsv
    | ? ? ? ? _ Hsv Hv | ? ? ? _ Hsv | ? ? ? ? ? _ Hsv _].
  - done.
  - eapply good_save_profile; [done..|apply Hs].
  - by apply good_delete_profile.
  - apply ForwardForm_validate_ok in Hv as (_ & ? & ? & _).
    apply good_set_forwards; [done..|]. apply upsert_Forall; [by eapply good_forwards_of|].
    split; unfold wf_u16; lia.
  - apply good_set_forwards; [done..|]. apply Forall_filtered. by eapply good_forwards_of.
  - apply good_set_forwards; [done..|]. pose proof (good_forwards_of _ Hg _ _ Hpos) as Hfs.
    apply Forall_insert; [done|]. rewrite Forall_lookup in Hfs. by apply (Hfs i f).
  - pose proof (refresh_same (an_snaps an) (a_profiles x) st) as Hsame. pose proof Hg as (_ & Hps & _)%good_data_iff.
    apply good_put_profiles; [done|by eapply good_same_docs|eapply keys_known_same; [exact Hsame|apply Hg]].
  - destruct (sound_import _ _ _ Hs _ _ _ Himp) as [Hu Hlen].
    apply import_profiles_ok in Himp as (_ & Hwf & Hd). apply wf_profiles_iff in Hwf as (Hv & _).
    apply good_import_merge; [done| |apply Hs|done]. unfold good_import. rewrite Forall_forall in *. auto.
  - destruct Hs as [[Hne Hres] _ Hki Hpub _ _]. by eapply good_new_key.
  - destruct (saved_key_id _ _ _ _ _ _ Hf Hs Hform Hv). by eapply good_save_key.
  - by apply good_delete_key.
  - by eapply good_save_server.
  - by apply good_put_server.
  - by eapply good_server_change.
  - apply ClientForm_validate_ok in Hv as (? & ? & ? & ?). eapply good_server_change; [done..|].
    intros Hc. by apply good_clients_snoc.
  - eapply good_server_change; [done..|]. intros Hc. by apply good_clients_filter.
  - by eapply good_server_change.
Qed.

(** ** The forms *)

(** The open forms and the guards, whatever the status line says. *)
Definition shown (d : Desk) : Forms := put_notice None (app_forms d).

Lemma shown_persist an d : shown (persist an d) = shown d.
Proof. unfold persist_store. case_match; [done|]. destruct (saved _ _ _) as [[]]; done. Qed.

Lemma shown_push id d : shown (push_forwards id d) = shown d.
Proof. unfold push_forwards. by case_match. Qed.

Lemma shown_push_all ids d : shown (foldl (fun d id => push_forwards id d) d ids) = shown d.
Proof. revert d. induction ids as [|i ids IH]; intros d; [done|]. cbn. by rewrite IH, shown_push. Qed.

Lemma shown_notice_unless t d : shown (notice_unless_told t d) = shown d.
Proof. unfold notice_unless_told. by case_match. Qed.

Lemma shown_resume an d : shown (resume_server an d) = shown d.
Proof. unfold resume_server. by repeat case_match. Qed.

Lemma shown_revoke s d : shown (revoke s d) = shown d.
Proof. unfold revoke. by repeat case_match. Qed.

Lemma shown_show_window an d : shown (show_window an d).1 = shown d.
Proof. unfold show_window. by case_match. Qed.

Lemma shown_refresh_log an d : shown (refresh_log an d) = shown d.
Proof. unfold refresh_log. by case_match. Qed.

Lemma shown_put_profile an p d : shown (put_profile an p d) = shown d.
Proof. unfold put_profile, follow_rename. by repeat case_match. Qed.

Lemma shown_copy an t d : shown (copy_text an t d).2 = shown d.
Proof. unfold copy_text. by case_match. Qed.

Lemma shown_sync_launch an b d : shown (sync_launch_at_login an b d) = shown d.
Proof. unfold sync_launch_at_login, shown, on_app. cbn. by case_match. Qed.

Lemma shown_refresh_tray an d : shown (refresh_tray an d) = shown d.
Proof. done. Qed.

Lemma shown_refresh an d : shown (refresh data_local_dir error_text an d) = shown d.
Proof.
  unfold refresh. set (d1 := sync_launch_at_login an false _).
  assert (Hd1 : shown d1 = shown d) by (unfold d1; by rewrite shown_sync_launch). clearbody d1.
  destruct (refresh_profiles _ _ _) as [[ps [errors caches]] failed_in].
  rewrite shown_refresh_tray, shown_refresh_log, <- Hd1.
  case_match; by rewrite ?shown_persist, shown_push_all.
Qed.

(** *** The key form *)

Definition kform (d : Desk) : option KeyForm := key_form (shown d).

Lemma kform_shown d d' : shown d' = shown d -> kform d' = kform d.
Proof. unfold kform. by intros ->. Qed.

Lemma kform_persist an d : kform (persist an d) = kform d.
Proof. apply kform_shown, shown_persist. Qed.

Lemma kform_push_all ids d : kform (foldl (fun d id => push_forwards id d) d ids) = kform d.
Proof. apply kform_shown, shown_push_all. Qed.

Lemma kform_notice_unless t d : kform (notice_unless_told t d) = kform d.
Proof. apply kform_shown, shown_notice_unless. Qed.

Lemma kform_resume an d : kform (resume_server an d) = kform d.
Proof. apply kform_shown, shown_resume. Qed.

Lemma kform_revoke s d : kform (revoke s d) = kform d.
Proof. apply kform_shown, shown_revoke. Qed.

Lemma kform_push id d : kform (push_forwards id d) = kform d.
Proof. apply kform_shown, shown_push. Qed.

Lemma kform_show_window an d : kform (show_window an d).1 = kform d.
Proof. apply kform_shown, shown_show_window. Qed.

Lemma kform_put_profile an p d : kform (put_profile an p d) = kform d.
Proof. apply kform_shown, shown_put_profile. Qed.

Lemma kform_copy an t d : kform (copy_text an t d).2 = kform d.
Proof. apply kform_shown, shown_copy. Qed.

Lemma kform_sync_launch an b d : kform (sync_launch_at_login an b d) = kform d.
Proof. apply kform_shown, shown_sync_launch. Qed.

Lemma kform_refresh an d : kform (refresh data_local_dir error_text an d) = kform d.
Proof. apply kform_shown, shown_refresh. Qed.

Lemma kform_set_up_server an d : kform (set_up_server an d).1 = kform d \/ kform (set_up_server an d).1 = None.
Proof. unfold set_up_server. rewrite kform_show_window. case_match; auto. Qed.

Lemma kform_enable an b d :
  kform (set_server_enabled data_local_dir error_text an b d).1 = kform d
  \/ kform (set_server_enabled data_local_dir error_text an b d).1 = None.
Proof.
  unfold set_server_enabled. destruct (app_server d) as [old|]; [|by left]. destruct (eqb _ _).
  - destruct (negb b); [by left|]. destruct (server_ready _); [by left|]. rewrite kform_show_window.
    case_bool_decide; by right.
  - pose proof (kform_persist an (d |> set_server (Some (with_enabled b old)) |> set_notice None)) as Hp.
    destruct (negb b); [by left|]. destruct (server_ready _); [by left|].
    rewrite kform_show_window. case_bool_decide; by right.
Qed.

(** The forms other than the key form. *)
Lemma kform_edit_profile_form f d : kform (edit_profile_form f d) = kform d.
Proof. unfold edit_profile_form, edit_form, kform, on_forms, on_app. cbn. by case_match. Qed.
Lemma kform_edit_server_form f d : kform (edit_server_form f d) = kform d.
Proof. unfold edit_server_form, edit_form, kform, on_forms, on_app. cbn. by case_match. Qed.
Lemma kform_edit_client_form f d : kform (edit_client_form f d) = kform d.
Proof. unfold edit_client_form, edit_form, kform, on_forms, on_app. cbn. by case_match. Qed.
Lemma kform_edit_identity_form f d : kform (edit_identity_form f d) = kform d.
Proof. unfold edit_identity_form, edit_form, kform, on_forms, on_app. cbn. by case_match. Qed.
Lemma kform_edit_forward_form f d : kform (edit_forward_form f d) = kform d.
Proof. unfold edit_forward_form, edit_form, kform, on_forms, on_app. cbn. by case_match. Qed.
Lemma kform_edit_server_identity f d : kform (edit_server_identity f d) = kform d.
Proof. apply kform_edit_server_form. Qed.

Lemma kform_edit_key_form f d :
  (forall x, kf_editing (f x) = kf_editing x) ->
  (kform (edit_key_form f d) ≫= kf_editing) = (kform d ≫= kf_editing).
Proof.
  intros Hf. unfold edit_key_form, edit_form, kform, on_forms, on_app. cbn.
  destruct (key_form (app_forms d)) as [x|] eqn:E; cbn; [apply Hf|]. by rewrite E.
Qed.

(** The key being edited: none, the same one, or one of the list. *)
Definition edits_known_key (d d' : Desk) : Prop :=
  (kform d' ≫= kf_editing) = None \/ (kform d' ≫= kf_editing) = (kform d ≫= kf_editing)
  \/ exists k, k ∈ app_keys d /\ (kform d' ≫= kf_editing) = Some (k_id k).

Lemma edits_same d d' : kform d' = kform d -> edits_known_key d d'.
Proof. unfold edits_known_key. intros ->. auto. Qed.

Lemma edits_none d d' : kform d' = None -> edits_known_key d d'.
Proof. unfold edits_known_key. intros ->. auto. Qed.

Ltac same_form := solve [apply edits_same; cbn [fst];
  rewrite ?kform_resume, ?kform_revoke, ?kform_notice_unless, ?kform_push, ?kform_persist, ?kform_push_all,
    ?kform_put_profile, ?kform_edit_profile_form, ?kform_edit_server_form, ?kform_edit_server_identity,
    ?kform_edit_client_form, ?kform_edit_identity_form, ?kform_edit_forward_form, ?kform_show_window, ?kform_copy,
    ?kform_sync_launch, ?kform_refresh; reflexivity].

Lemma edits_either d d' : kform d' = kform d \/ kform d' = None -> edits_known_key d d'.
Proof. intros [?|?]; [by apply edits_same|by apply edits_none]. Qed.

Lemma edits_edit_key_form f d :
  (forall x, kf_editing (f x) = kf_editing x) -> edits_known_key d (edit_key_form f d).
Proof. intros Hf. right. left. by apply kform_edit_key_form. Qed.

Lemma edits_listed_key d d' i k :
  find_key (app_keys d) i = Some k -> kform d' = Some (KeyForm_edit k) -> edits_known_key d d'.
Proof.
  intros E Hk. right. right. exists k. rewrite Hk. split; [|done].
  apply bind_Some in E as ([pos k'] & (Hpos & _)%list_find_Some & [= <-]). by eapply list_elem_of_lookup_2.
Qed.

Ltac brute := repeat case_match; first [by apply edits_same | by apply edits_none].

Ltac copied_form :=
  match goal with
  | E : copy_text ?an ?t ?d0 = (_, _) |- _ =>
      apply edits_same; pose proof (kform_copy an t d0) as Hcopied; rewrite E in Hcopied; exact Hcopied
  end.

Lemma edits_export_key an id d : edits_known_key d (export_key an id d).
Proof. unfold export_key. repeat case_match; first [by apply edits_same | copied_form]. Qed.

Lemma edits_export_server_secret an d : edits_known_key d (export_server_secret an d).
Proof. unfold export_server_secret. repeat case_match; first [by apply edits_same | copied_form]. Qed.

Lemma edits_connect an id d : edits_known_key d (connect_profile an id d).1.
Proof.
  unfold connect_profile, show_window.
  repeat case_match; first [by apply edits_same | by eapply edits_listed_key].
Qed.

Lemma edits_menu an id d : edits_known_key d (handle_menu_event data_local_dir error_text an id d).1.
Proof.
  unfold handle_menu_event. repeat case_match; cbn [fst]; try same_form; try (by apply edits_either, kform_set_up_server).
  - apply edits_either, kform_enable.
  - unfold toggle_login_item. apply edits_same. case_match; [done|]. by rewrite kform_sync_launch.
Qed.

Lemma edits_import an path d : edits_known_key d (import_message data_local_dir error_text an path d).
Proof.
  apply edits_same. unfold import_message. destruct (import_profiles _ _ _ _) as [[incoming|e] m]; [|done].
  destruct (merge_imported _ _ _) as [[ps added] replaced].
  set (d1 := foldl _ _ replaced). assert (Hd1 : kform d1 = kform d) by (unfold d1; by rewrite kform_push_all).
  pose proof (kform_persist an d1) as Hp. rewrite Hd1 in Hp. by repeat case_match.
Qed.

Lemma edits_save_profile an d : edits_known_key d (save_profile_form data_local_dir error_text an d).
Proof.
  apply edits_same. unfold save_profile_form. destruct (profile_form _) as [form|]; [|done].
  destruct (ProfileForm_validate _ _ _ _) as [p|]; [|done].
  set (d0 := put_profile an p d). assert (Hd0 : kform d0 = kform d) by apply kform_put_profile.
  pose proof (kform_persist an d0) as Hp. rewrite Hd0 in Hp.
  etransitivity; [|exact Hp]. exact (kform_notice_unless _ (persist an d0)).
Qed.

Lemma update_edits_known_key an msg d : edits_known_key d (handle an msg d).1.
Proof.
  destruct msg; cbn [update no_task fst]; try same_form; try (by apply edits_none).
  all: try (brute; fail).
  all: try (by apply edits_edit_key_form).
  all: try (unfold tray_click, export_message, create_key_for_profile_form,
    delete_profile, delete_key, save_key_form, delete_forward, toggle_forward, commit_forwards,
    save_forward_form, delete_server, restart_message, save_server_form, save_client_form, remove_client,
    save_identity_form, notice_unless_told, push_forwards, resume_server, revoke, persist_store; brute; fail).
  - apply edits_same. unfold setup_tray. rewrite kform_refresh. by case_match.
  - apply edits_menu.
  - apply edits_same. unfold kform, on_app. cbn. by case_match.
  - apply edits_connect.
  - destruct path; [apply edits_import|by apply edits_same].
  - unfold create_key_for_profile_form. repeat case_match; try same_form.
    apply edits_same. by rewrite kform_edit_profile_form, kform_persist.
  - by left.
  - case_match; [by eapply edits_listed_key|by apply edits_same].
  - apply edits_export_key.
  - apply edits_save_profile.
  - unfold save_forward_form, commit_forwards. repeat case_match; try same_form;
      (apply edits_same; etransitivity; [exact (kform_push _ (persist an _))|by rewrite kform_persist]).
  - apply edits_either, kform_set_up_server.
  - apply edits_either, kform_enable.
  - case_match; [|by apply edits_same]. apply edits_same, kform_edit_client_form.
  - apply edits_export_server_secret.
Qed.

(** ** Runs *)

(** A condition on every message of a run, at the desk it finds. *)
Fixpoint all_steps (C : Answers -> Msg.Message -> Desk -> Prop) (d : Desk) (msgs : list (Answers * Msg.Message))
  : Prop :=
  match msgs with
  | [] => True
  | (an, msg) :: rest => C an msg d /\ all_steps C (handle an msg d).1 rest
  end.

Lemma messages_invariant (C : Answers -> Msg.Message -> Desk -> Prop) (I : Desk -> Prop) d msgs :
  (forall an msg d, C an msg d -> I d -> I (handle an msg d).1) ->
  all_steps C d msgs -> I d -> I (run_messages data_local_dir error_text windows d msgs).
Proof.
  intros Hstep. revert d. induction msgs as [|[an msg] msgs IH]; intros d; [done|].
  intros [Hc Hrest] Hd. apply IH; [done|]. by apply Hstep.
Qed.

Lemma all_steps_Forall (P : Answers * Msg.Message -> Prop) d msgs :
  Forall P msgs -> all_steps (fun an msg _ => P (an, msg)) d msgs.
Proof. intros Hall. revert d. induction Hall as [|[an msg] msgs Hm _ IH]; intros d; [done|]. by split. Qed.

Definition good_desk (d : Desk) : Prop := good_data (data d) /\ good_forms (app_forms d).
Definition sound_step (an : Answers) (d : Desk) : Prop := sound an (d_machine d) (data d).

Lemma update_good an msg d : sound_step an d -> good_desk d -> good_desk (handle an msg d).1.
Proof.
  intros Hs [Hg Hf]. destruct (update_stepped an msg d) as [He _ _]. split; [by eapply edit_good|].
  intros form id Hform Hid. destruct (update_edits_known_key an msg d) as [Hn|[Hn|(k & Hk & Hn)]];
    change (kform (handle an msg d).1) with (key_form (app_forms (handle an msg d).1)) in Hn;
    rewrite Hform in Hn; cbn in Hn; rewrite Hid in Hn; [done|..].
  - symmetry in Hn. apply bind_Some in Hn as (form' & ? & ?). by apply (Hf form').
  - injection Hn as ->. apply good_data_iff in Hg as ((Hv & _)%wf_keys_iff & _).
    rewrite Forall_forall in Hv. by destruct (Hv k Hk) as (? & ? & _).
Qed.

(** C17. Whatever the user does, in any order, the application's data stay storable: keys,
    profiles and authorized clients with valid, unique names and unique ids, servers and
    public keys, ports of 16 bits, no empty tokens, and no profile that refers to a key
    that is gone. Random ids and generated keys are assumed new, imported names UTF-8. *)
Theorem messages_keep_store (d : Desk) (msgs : list (Answers * Msg.Message)) :
  good_desk d -> all_steps (fun an _ d => sound_step an d) d msgs ->
  good_desk (run_messages data_local_dir error_text windows d msgs).
Proof.
  intros Hd Hs. apply (messages_invariant (fun an _ d => sound_step an d)); [|done..].
  intros an msg d'. apply update_good.
Qed.

(** ** A store that did not load *)

Definition leaves_file (msg : Msg.Message) : Prop :=
  msg <> Msg.StoreResetContinue /\ forall p, msg <> Msg.ExportPicked p.

Lemma held_back_step an msg d :
  leaves_file msg -> is_Some (store_reset (d_app d)) ->
  d_machine (handle an msg d).1 = d_machine d /\ is_Some (store_reset (d_app (handle an msg d).1)).
Proof.
  intros [Hc He] Hr. destruct (update_stepped an msg d) as [_ Hreset Hsaved].
  destruct Hreset as [Hreset|[? _]]; [|done]. rewrite Hreset. split; [|done]. destruct (Hsaved He) as [[_ ?]|(d0 & Hm & Hr0 & _ & Hm')]; [done|].
  rewrite Hreset in Hr0. rewrite Hm', <- Hm. unfold persist_store.
  destruct Hr as [r Hr]. rewrite <- Hr0, Hr. done.
Qed.

Lemma preserves_files_load f fs :
  preserves (fun m => files m = fs) (load_store data_local_dir f).
Proof.
  assert (Hkey : preserves (fun m => files m = fs) (safe_storage_key f)).
  { intros m r m' Hm. unfold safe_storage_key. repeat case_match; intros; simplify_eq; done. }
  unfold load_store. apply preserves_bind.
  { intros m r m' Hm. unfold the_backend. intros. by simplify_eq. }
  intros b. apply preserves_bind; [|intros st; apply preserves_ret].
  assert (Hsealed : forall mock, preserves (fun m => files m = fs) (load_sealed data_local_dir f mock)).
  { intros mock. unfold load_sealed. apply preserves_bind; [apply preserves_lift|]. intros path.
    apply preserves_bind; [apply preserves_read|]. intros doc. apply preserves_bind.
    - unfold unseal_store. case_match; [apply preserves_ret|]. case_match; [apply preserves_ret|].
      apply preserves_bind; [done|]. intros master. case_match; apply preserves_ret.
    - intros [st secrets]. apply preserves_ret. }
  destruct b; try done. apply preserves_bind; [|intros st; apply preserves_ret].
  unfold load_dev_file. apply preserves_bind; [apply preserves_read|]. intros st. apply preserves_ret.
Qed.

Lemma boot_login_held an d :
  is_Some (store_reset (d_app (boot_login_item data_local_dir error_text an d))) ->
  d_machine (boot_login_item data_local_dir error_text an d) = d_machine d.
Proof.
  unfold boot_login_item. destruct (dev_store _); [done|]. destruct (a_login_set_up _); [done|].
  case_bool_decide as Hres; [done|]. destruct (an_login_works an); [|done].
  destruct (persist_frame an (on_data (put_login_set_up true) (ask_login_item true d))) as [_ Hp].
  rewrite Hp. intros Hn. by destruct Hres.
Qed.

(** C18. A store that could not be read or unsealed is not lost: from the launch that
    found it so, whatever the user does short of confirming the warning (or exporting to a
    file), not one byte of the disk changes; quitting leaves it for a build or a keychain
    that can read it. *)
Theorem unread_store_untouched an args m d task msgs :
  boot data_local_dir error_text an args m = (d, task) ->
  is_Some (store_reset (d_app d)) -> Forall (fun x => leaves_file x.2) msgs ->
  files (d_machine (run_messages data_local_dir error_text windows d msgs)) = files m.
Proof.
  intros Hboot Hreset Hmsgs.
  apply (messages_invariant (fun _ msg _ => leaves_file msg)
           (fun d => files (d_machine d) = files m /\ is_Some (store_reset (d_app d)))).
  - intros an' msg d' Hmsg [Hf Hr]. destruct (held_back_step an' msg d' Hmsg Hr) as [-> ?]. done.
  - by apply (all_steps_Forall (fun x => leaves_file x.2)).
  - split; [|done]. unfold boot in Hboot.
    destruct (load_store _ _ m) as [r m1] eqn:El. destruct (loaded_or_default _ r) as [st reset] eqn:Es.
    assert (Hfiles : files m1 = files m) by (by eapply preserves_files_load; [|exact El]).
    set (d0 := mkDesk (App_new st reset) m1 [] [] []) in Hboot.
    set (d1 := boot_login_item data_local_dir error_text an d0) in Hboot.
    set (d2 := resume_server an (on_app (put_launch_at_login (an_login_enabled an)) d1)) in Hboot.
    assert (Hcore : core d = core d2).
    { destruct (_ && _); [by injection Hboot as <- _|]. by injection Hboot as <- _. }
    assert (Hcore2 : core d2 = core d1) by (unfold d2; by rewrite core_resume).
    rewrite Hcore2 in Hcore. apply core_inv in Hcore as (_ & Hm & Hr).
    rewrite Hr in Hreset. rewrite Hm. unfold d1. by rewrite boot_login_held.
Qed.

(** ** Restarts *)

Context `{!SafeBoxLaws} `{!JsonLaws (gmap bytes bytes) (fun _ => True)}.
Context `{!JsonLaws StoreDoc wf_store_doc} `{!JsonLaws DevDoc wf_dev_doc}.

(** A launch on what is on disk now gives the data the application shows. *)
Definition synced (d : Desk) : Prop :=
  restores data_local_dir (d_machine d) (app_keys d) (app_profiles d) (app_server d)
    (a_login_set_up (data d)).

(** The save this message asks for, if any, succeeds. *)
Definition save_works (an : Answers) (msg : Msg.Message) (d : Desk) : Prop :=
  let x := data (handle an msg d).1 in
  length (fresh_key (an_faults an)) = 32%nat /\ length (fresh_nonce (an_faults an)) = 12%nat
  /\ (save_store data_local_dir (an_faults an) (a_keys x) (a_profiles x) (a_server x) (a_login_set_up x)
        (d_machine d)).1 = Ok tt.

Definition in_service (d : Desk) : Prop :=
  good_desk d /\ store_reset (d_app d) = None /\ coherent (d_machine d) /\ synced d.

Lemma in_service_step an msg d :
  sound_step an d -> (forall p, msg <> Msg.ExportPicked p) -> save_works an msg d ->
  in_service d -> in_service (handle an msg d).1.
Proof.
  intros Hs He (Hlk & Hln & Hsave) (Hg & Hr & Hco & Hsy).
  pose proof (update_good an msg d Hs Hg) as Hg'. set (d' := (handle an msg d).1) in *.
  destruct (update_stepped an msg d) as [_ Hreset Hsaved]. fold d' in Hreset, Hsaved. specialize (Hsaved He).
  assert (Hr' : store_reset (d_app d') = None) by (destruct Hreset as [->|[_ ?]]; done).
  split; [done|]. split; [done|].
  destruct Hsaved as [[Hd Hm]|(d0 & Hm0 & Hr0 & Hd & Hm)].
  { unfold synced. by rewrite Hm, Hd. }
  unfold persist_store in Hm. rewrite <- Hr0, Hr' in Hm. unfold saved in Hm. rewrite <- Hd, Hm0 in Hm.
  destruct (save_store _ _ _ _ _ _ _) as [r m] eqn:Ew in Hm, Hsave. cbn in Hsave. subst r. cbn in Hm.
  unfold synced. rewrite Hm. split.
  - by eapply save_coherent.
  - eapply save_restores; first [done | apply Hg' | apply _].
Qed.

(** C16. Nothing entered is lost: after any messages, a launch of the application on what is
    then on disk and in the keychain loads exactly the keys, profiles, server and secrets it
    shows now (forwards switched off), provided it started so and the saves succeeded. An
    export, which writes to a file the user picks, is left out. *)
Theorem restart_restores (d : Desk) (msgs : list (Answers * Msg.Message)) (f : Faults) (m : Machine) :
  in_service d ->
  all_steps (fun an msg d => sound_step an d /\ (forall p, msg <> Msg.ExportPicked p) /\ save_works an msg d) d msgs ->
  let d' := run_messages data_local_dir error_text windows d msgs in
  files m = files (d_machine d') -> backend m = backend (d_machine d') -> keychain_kept (d_machine d') m ->
  read_fault f = None -> keychain_works f ->
  exists st m', load_store data_local_dir f m = (Ok st, m')
    /\ loaded (app_keys d') (app_profiles d') (app_server d') (a_login_set_up (data d')) st.
Proof.
  intros Hd Hs d'. assert (Hd' : in_service d') by (eapply messages_invariant; [|exact Hs|exact Hd];
    intros an msg d0 (? & ? & ?); by apply in_service_step).
  destruct Hd' as (_ & _ & _ & Hsy). apply Hsy.
Qed.

(** ** Two clicks *)

(** A guard that is up was up, or is put up by the message it belongs to. *)
Definition guards_from (msg : Msg.Message) (d d' : Desk) : Prop :=
  (forall id, confirm_delete (app_forms d') = Some id ->
     confirm_delete (app_forms d) = Some id \/ msg = Msg.DeleteProfile id)
  /\ (forall id, confirm_delete_key (app_forms d') = Some id ->
     confirm_delete_key (app_forms d) = Some id \/ msg = Msg.DeleteKey id).

Lemma guards_shown msg d d' : shown d' = shown d -> guards_from msg d d'.
Proof.
  intros Hs. pose proof (f_equal confirm_delete Hs) as H1'. pose proof (f_equal confirm_delete_key Hs) as H2'.
  split; intros id <-; left; [exact (eq_sym H1')|exact (eq_sym H2')].
Qed.

(** A guard as the desk now has it: untouched or lowered. *)
Ltac lower :=
  split; intros gid Hgid; first [left; exact Hgid | exfalso; cbn in Hgid; congruence].

Lemma guards_edit {F} msg (get : Forms -> option F) put f d :
  (forall x fs, confirm_delete (put x fs) = confirm_delete fs /\ confirm_delete_key (put x fs) = confirm_delete_key fs) ->
  guards_from msg d (edit_form get put f d).
Proof.
  intros Hput. unfold edit_form, on_forms, on_app, guards_from. cbn.
  destruct (get (app_forms d)) as [x|]; [|auto]. destruct (Hput (Some (f x)) (app_forms d)) as [-> ->]. auto.
Qed.

Ltac brute_guards := repeat case_match; lower.

Lemma guards_enable an msg b d : guards_from msg d (set_server_enabled data_local_dir error_text an b d).1.
Proof. unfold set_server_enabled, show_window, persist_store. brute_guards. Qed.

Lemma guards_set_up an msg d : guards_from msg d (set_up_server an d).1.
Proof. unfold set_up_server, show_window. brute_guards. Qed.

(** Lowering one guard and keeping the other. *)
Lemma guards_export_key an id d : guards_from (Msg.ExportKey id) d (export_key an id d).
Proof.
  unfold export_key, copy_text. repeat case_match; simplify_eq; lower.
Qed.

Lemma guards_export_secret an d : guards_from Msg.ExportServerSecret d (export_server_secret an d).
Proof.
  unfold export_server_secret, copy_text. repeat case_match; simplify_eq; lower.
Qed.

Lemma guards_delete_profile an id d :
  guards_from (Msg.DeleteProfile id) d (delete_profile data_local_dir error_text an id d).
Proof.
  unfold delete_profile, persist_store. repeat case_match; try lower.
  split; intros gid Hgid; [right; cbn in Hgid; congruence|left; exact Hgid].
Qed.

Lemma guards_delete_key an id d : guards_from (Msg.DeleteKey id) d (delete_key data_local_dir error_text an id d).
Proof.
  unfold delete_key, persist_store. repeat case_match; try lower.
  split; intros gid Hgid; [left; exact Hgid|right; cbn in Hgid; congruence].
Qed.

Lemma guards_save_profile an d : guards_from Msg.ProfileFormSave d (save_profile_form data_local_dir error_text an d).
Proof.
  unfold save_profile_form. destruct (profile_form _) as [form|]; [|lower].
  destruct (ProfileForm_validate _ _ _ _) as [p|]; [|lower]. cbv zeta.
  set (t := if session_running _ _ then _ else _). set (d0 := put_profile an p d).
  assert (Hd0 : shown (notice_unless_told t (persist an d0)) = shown d).
  { rewrite shown_notice_unless, shown_persist. apply shown_put_profile. }
  split; intros gid <-; left;
    [exact (eq_sym (f_equal confirm_delete Hd0))|exact (eq_sym (f_equal confirm_delete_key Hd0))].
Qed.

Lemma guards_menu an id d : guards_from (Msg.TrayMenu id) d (handle_menu_event data_local_dir error_text an id d).1.
Proof.
  unfold handle_menu_event, toggle_login_item, set_up_server, show_window. repeat case_match; try lower.
  - apply guards_enable.
  - apply guards_shown, shown_copy.
  - apply guards_shown. cbn [fst]. by rewrite shown_sync_launch.
Qed.

Lemma guards_import an path d :
  guards_from (Msg.ImportPicked (Some path)) d (import_message data_local_dir error_text an path d).
Proof.
  unfold import_message. destruct (import_profiles _ _ _ _) as [[incoming|e] m]; [|lower].
  destruct (merge_imported _ _ _) as [[ps added] replaced].
  set (d1 := foldl _ _ replaced). assert (Hd1 : shown d1 = shown d) by (unfold d1; by rewrite shown_push_all).
  pose proof (shown_persist an d1) as Hp. rewrite Hd1 in Hp.
  pose proof (f_equal confirm_delete Hp) as H1'. pose proof (f_equal confirm_delete_key Hp) as H2'.
  split; intros gid <-; left; symmetry; (etransitivity; [|eassumption]); by repeat case_match.
Qed.

Lemma update_guards an msg d : guards_from msg d (handle an msg d).1.
Proof.
  destruct msg; cbn [update no_task fst]; try lower.
  all: try (brute_guards; fail).
  all: try (by apply guards_edit).
  all: try (unfold tray_click, export_message, create_key_for_profile_form, connect_profile, show_window,
    save_key_form, delete_forward, toggle_forward, commit_forwards, set_server_enabled,
    save_forward_form, delete_server, restart_message, save_server_form, save_client_form, remove_client,
    save_identity_form, notice_unless_told, push_forwards, resume_server, revoke, persist_store; brute_guards; fail).
  - apply guards_shown, shown_refresh.
  - apply guards_shown. unfold setup_tray. rewrite shown_refresh. by case_match.
  - apply guards_menu.
  - apply guards_shown. unfold shown, on_app. cbn. by case_match.
  - apply guards_shown, shown_copy.
  - apply guards_delete_profile.
  - destruct path; [apply guards_import|lower].
  - unfold create_key_for_profile_form, edit_profile_form, edit_form, on_forms, on_app, guards_from, persist_store.
    repeat case_match; cbn; repeat case_match; auto.
  - apply guards_delete_key.
  - apply guards_export_key.
  - apply guards_save_profile.
  - unfold save_forward_form, commit_forwards, push_forwards, persist_store. brute_guards.
  - apply guards_set_up.
  - apply guards_enable.
  - case_match; [by apply guards_edit|lower].
  - apply guards_export_secret.
  - apply guards_shown, shown_copy.
Qed.

Lemma ids_with_forwards (ps : list Profile) (pos : nat) p gs :
  ps !! pos = Some p -> p_id <$> <[pos := with_p_forwards gs p]> ps = p_id <$> ps.
Proof. intros Hpos. rewrite list_fmap_insert. apply list_insert_id. by rewrite list_lookup_fmap, Hpos. Qed.

Lemma ids_same_docs ps ps' : Forall2 same_but_switches ps ps' -> p_id <$> ps' = p_id <$> ps.
Proof.
  induction 1 as [|p p' ps ps' [Hd _] _ IH]; [done|]. rewrite !fmap_cons, IH. f_equal.
  change (pd_id (profile_doc p') = pd_id (profile_doc p)). by rewrite Hd.
Qed.

Lemma edit_loses_profile an m fs msg x x' id :
  edit an m fs msg x x' -> id ∈ p_id <$> a_profiles x -> (id ∉ p_id <$> a_profiles x') ->
  msg = Msg.DeleteProfile id /\ confirm_delete fs = Some id.
Proof.
  intros He Hin Hout.
  destruct He as [| | ? pos p ? Hc Hpos Hid | ? ? ? ? ? ? _ _ Hpos _ | ? ? ? ? ? Hpos _ | ? ? ? ? ? ? ? ? Hpos _ _
    | ? st ? _ | | | | | | | | | |]; try done; cbn in Hout.
  - by apply (upsert_keeps_ids p_id p) in Hin.
  - destruct (decide (id0 = id)) as [->|Hne]; [done|]. destruct Hout.
    rewrite (delete_Permutation (a_profiles x) pos p Hpos), fmap_cons in Hin. set_solver.
  - by rewrite ids_with_forwards in Hout.
  - by rewrite ids_with_forwards in Hout.
  - by rewrite ids_with_forwards in Hout.
  - by rewrite (ids_same_docs _ _ (refresh_same (an_snaps an) (a_profiles x) st)) in Hout.
  - by destruct Hout; apply merge_keeps_ids.
Qed.

Lemma edit_loses_key an m fs msg x x' id :
  edit an m fs msg x x' -> id ∈ k_id <$> a_keys x -> (id ∉ k_id <$> a_keys x') ->
  msg = Msg.DeleteKey id /\ confirm_delete_key fs = Some id.
Proof.
  intros He Hin Hout. destruct He as [| | | | | | | | | | id0 x Hc _ | | | | | |]; try done; cbn in Hout.
  - rewrite fmap_app in Hout. set_solver.
  - by apply (upsert_keeps_ids k_id k) in Hin.
  - destruct (decide (id0 = id)) as [->|Hne]; [done|]. destruct Hout.
    apply list_elem_of_fmap in Hin as (k & -> & Hk). apply elem_of_ids, list_elem_of_filter. by split.
Qed.

(** [msg] occurs twice. *)
Definition twice (msg : Msg.Message) (msgs : list (Answers * Msg.Message)) : Prop :=
  exists l1 a1 l2 a2 l3, msgs = l1 ++ (a1, msg) :: l2 ++ (a2, msg) :: l3.

Definition once (msg : Msg.Message) (msgs : list (Answers * Msg.Message)) : Prop :=
  exists l1 a l2, msgs = l1 ++ (a, msg) :: l2.

(** What is lost only by an armed [msg], and is armed only by it, takes it twice. *)
Lemma two_clicks (P armed : Desk -> Prop) `{!forall d, Decision (P d)} `{!forall d, Decision (armed d)} msg d msgs :
  (forall an msg' d, armed (handle an msg' d).1 -> armed d \/ msg' = msg) ->
  (forall an msg' d, P d -> ~ P (handle an msg' d).1 -> msg' = msg /\ armed d) ->
  P d -> ~ P (run_messages data_local_dir error_text windows d msgs) ->
  once msg msgs /\ (~ armed d -> twice msg msgs).
Proof.
  intros Harm Hlose. revert d. induction msgs as [|[an msg'] msgs IH]; intros d HP Hlost; [done|].
  set (d1 := (handle an msg' d).1) in *. destruct (decide (P d1)) as [HP1|HP1].
  - destruct (IH d1 HP1 Hlost) as [(l1 & a & l2 & E) Htwice]. split.
    { exists ((an, msg') :: l1), a, l2. by rewrite E. }
    intros Hna. destruct (decide (armed d1)) as [Ha1|Hna1].
    + destruct (Harm an msg' d Ha1) as [?| ->]; [done|]. exists [], an, l1, a, l2. by rewrite E.
    + destruct (Htwice Hna1) as (k1 & a1 & k2 & a2 & k3 & E'). exists ((an, msg') :: k1), a1, k2, a2, k3.
      by rewrite E'.
  - destruct (Hlose an msg' d HP HP1) as [-> ?]. split; [|done]. by exists [], an, msgs.
Qed.

(** Nothing is deleted by a slip: a profile, or a key, that disappears over any run of
    messages took two clicks on its own delete button. *)
Theorem deletion_takes_two_clicks (d : Desk) (msgs : list (Answers * Msg.Message)) (id : bytes) :
  let d' := run_messages data_local_dir error_text windows d msgs in
  confirm_delete (app_forms d) <> Some id -> confirm_delete_key (app_forms d) <> Some id ->
  (id ∈ p_id <$> app_profiles d -> id ∉ p_id <$> app_profiles d' -> twice (Msg.DeleteProfile id) msgs)
  /\ (id ∈ k_id <$> app_keys d -> id ∉ k_id <$> app_keys d' -> twice (Msg.DeleteKey id) msgs).
Proof.
  intros d' Hp Hk. split; intros Hin Hout.
  - apply (two_clicks (fun d => id ∈ p_id <$> app_profiles d)
             (fun d => confirm_delete (app_forms d) = Some id) _ d msgs); try done.
    + intros an msg d0 Ha. destruct (update_guards an msg d0) as [Hg _]. by apply Hg.
    + intros an msg d0. eapply edit_loses_profile, (update_stepped an).
  - apply (two_clicks (fun d => id ∈ k_id <$> app_keys d)
             (fun d => confirm_delete_key (app_forms d) = Some id) _ d msgs); try done.
    + intros an msg d0 Ha. destruct (update_guards an msg d0) as [_ Hg]. by apply Hg.
    + intros an msg d0. eapply edit_loses_key, (update_stepped an).
Qed.

(** ** Revocation, down to the supervisor *)

Lemma sent_persist an d : d_sent (persist an d) = d_sent d.
Proof. unfold persist_store. case_match; [done|]. by destruct (saved _ _ _) as [[]]. Qed.

(** A configuration that lets the holder of [pk] in. *)
Definition admits (pk : bytes) (c : DesktopStore.ServerConfig) : Prop := pk ∈ ac_public <$> sv_clients c.

(** Whatever had happened before it, once the supervisor has handled the command every
    server session that has not ended is the one it holds and has its stop in the channel
    or is closing, and the configuration waiting to start, if any, does not admit the
    client. One course is excepted: the held session had ended and the supervisor had
    dropped its handle while an older configuration was waiting, which then stays. *)
Definition cuts_off (pk : bytes) (cmd : Command) : Prop :=
  forall evs spawned w', handle_command spawned (Some cmd) (run evs) = Some w' ->
  (forall n s, w_servers w' !! n = Some s -> sr_stage s <> SEnded -> w_server w' = Some n /\ halting s)
  /\ forall c, w_pending w' = Some c ->
       ~ admits pk c \/ (cmd <> StopServer /\ w_server (run evs) = None /\ w_pending (run evs) = Some c).

(** A supervisor that has no session, or has told it to stop, lets none go on. *)
Lemma all_halting w n s : server_inv w -> stop_inv w -> w_server w = None \/ w_stopping w = true ->
  w_servers w !! n = Some s -> sr_stage s <> SEnded -> w_server w = Some n /\ halting s.
Proof.
  intros Hsi Hst Hw Hn Hs. pose proof (si_alive _ Hsi _ _ (sview_lookup _ _ _ Hn) Hs) as Hheld.
  split; [done|]. destruct Hw as [?|Hw]; [congruence|].
  destruct (Hst Hw) as (n' & s' & Hn' & Hs' & Hh). assert (n' = n) as -> by congruence.
  assert (s' = s) as -> by congruence. by destruct Hh.
Qed.

Lemma command_halts spawned cmd evs w' : handle_command spawned (Some cmd) (run evs) = Some w' ->
  w_server w' = None \/ w_stopping w' = true ->
  forall n s, w_servers w' !! n = Some s -> sr_stage s <> SEnded -> w_server w' = Some n /\ halting s.
Proof.
  intros Hh Hw n s. pose proof (run_server_inv evs) as Hsi. pose proof (run_stop_inv evs) as Hst.
  apply all_halting; [by eapply handle_command_inv| |done].
  eapply handle_command_stop_inv; [exact Hsi| |exact Hh|done]. by apply stop_inv_none.
Qed.

Lemma stop_cuts_off pk : cuts_off pk StopServer.
Proof.
  intros evs spawned w' Hh. assert (Hw : w_pending w' = None /\ (w_server w' = None \/ w_stopping w' = true)).
  { cbn in Hh. apply bind_Some in Hh as (w1 & Hs & [= <-]). unfold on_stop_server in Hs. cbn in Hs.
    destruct (w_server (run evs)) as [n|] eqn:Hn.
    - apply bind_Some in Hs as (w2 & _ & [= <-]). cbn. auto.
    - injection Hs as <-. cbn. auto. }
  destruct Hw as [Hp Hw]. split; [by eapply command_halts|]. rewrite Hp. done.
Qed.

Lemma restart_cuts_off pk c : ~ admits pk c -> cuts_off pk (Supervisor.RestartServer c).
Proof.
  intros Hpk evs spawned w' Hh.
  assert (Hw : (w_server w' = None \/ w_stopping w' = true)
    /\ (w_pending w' = None \/ w_pending w' = Some c
        \/ (w_server (run evs) = None /\ w_pending w' = w_pending (run evs)))).
  { cbn in Hh. apply bind_Some in Hh as (w1 & Hs & [= <-]). unfold on_restart_server in Hs.
    destruct (w_server (run evs)) as [n|] eqn:Hn; [|injection Hs as <-; cbn; auto].
    destruct (w_stopping (run evs)) eqn:Hst.
    - destruct (w_pending (run evs)) as [c0|] eqn:Hp; injection Hs as <-; cbn; auto.
    - apply bind_Some in Hs as (w2 & _ & [= <-]). cbn. auto. }
  destruct Hw as [Hw Hp]. split; [by eapply command_halts|]. intros c' Hc'. rewrite Hc' in Hp.
  destruct Hp as [?|[[= ->]|[? <-]]]; [done|by left|by right].
Qed.

(** The second click on a client that is listed. *)
Lemma remove_client_second an d c s :
  confirm_remove_client (app_forms d) = Some (ac_public c) -> app_server d = Some s -> c ∈ sv_clients s ->
  let s' := with_clients (filter (fun c' => ac_public c' <> ac_public c) (sv_clients s)) s in
  exists d0, data d0 = put_server (Some s') (data d) /\ d_sent d0 = d_sent d
    /\ remove_client data_local_dir error_text an (ac_public c) d = revoke s' (persist an d0).
Proof.
  intros Hc Hs Hin s'. unfold remove_client. rewrite bool_decide_eq_true_2 by exact Hc. cbn [negb].
  change (app_server (on_forms (put_confirm_remove_client None)
    (on_forms (put_confirm_export_server_secret false) d))) with (app_server d).
  rewrite Hs. rewrite bool_decide_eq_false_2.
  2: { pose proof (length_filter_lt (fun c' => ac_public c' <> ac_public c) (sv_clients s) c Hin ltac:(tauto)). lia. }
  by exists (d |> on_forms (put_confirm_export_server_secret false) |> on_forms (put_confirm_remove_client None)
               |> set_server (Some s') |> set_notice None).
Qed.

(** C19. A revocation reaches the disk and the running server. The second click on a
    client's Remove takes its key, and nothing else, off the server's list; where the store
    was in step with the screen and the save succeeds, a launch on what is then on disk
    loads a list without the key. A server that is switched on is sent one command, and
    once the supervisor has handled it, over every interleaving before, each server
    session that has not ended has been told to stop and no configuration waiting to start
    admits the key, save for the one course in which the supervisor drops the restart (the
    old session ended, and its handle was dropped, with an older configuration waiting). A
    server that is switched off is sent nothing. *)
Theorem revocation_cuts_off an d pk s :
  confirm_remove_client (app_forms d) = Some pk -> app_server d = Some s ->
  pk ∈ ac_public <$> sv_clients s ->
  let d' := (handle an (Msg.RemoveClient pk) d).1 in
  let s' := with_clients (filter (fun c => ac_public c <> pk) (sv_clients s)) s in
  app_server d' = Some s' /\ ~ admits pk s'
  /\ (in_service d -> sound_step an d -> save_works an (Msg.RemoveClient pk) d ->
      forall f m, files m = files (d_machine d') -> backend m = backend (d_machine d') ->
        keychain_kept (d_machine d') m -> read_fault f = None -> keychain_works f ->
        exists st m', load_store data_local_dir f m = (Ok st, m') /\ server st = Some s')
  /\ if sv_enabled s then exists cmd, d_sent d' = d_sent d ++ [cmd] /\ cuts_off pk cmd
     else d_sent d' = d_sent d.
Proof.
  intros Hc Hs Hin d' s'. apply list_elem_of_fmap in Hin as (c & -> & Hin).
  destruct (remove_client_second an d c s Hc Hs Hin) as (d0 & Hd0 & Hsent & Heq).
  fold s' in Hd0, Heq.
  assert (Hout : ~ admits (ac_public c) s').
  { intros (c' & E & [Hne _]%list_elem_of_filter)%list_elem_of_fmap. congruence. }
  assert (Hd' : d' = revoke s' (persist an d0)) by exact Heq.
  assert (Hserver : app_server d' = Some s').
  { assert (Hdata : data d' = data d0); [|by rewrite Hdata, Hd0]. rewrite Hd'.
    etransitivity; [exact (f_equal (fst ∘ fst) (core_revoke s' (persist an d0)))|apply persist_frame]. }
  split_and!; [done|done| |].
  - intros Hserv Hsound Hsave f m Hf Hb Hk Hr Hw.
    destruct (in_service_step an (Msg.RemoveClient (ac_public c)) d Hsound ltac:(done) Hsave Hserv)
      as (_ & _ & _ & Hsy).
    destruct (Hsy f m Hf Hb Hk Hr Hw) as (st & m' & Hl & _ & _ & Hsv & _).
    exists st, m'. split; [done|]. rewrite Hsv. exact Hserver.
  - rewrite Hd'. unfold revoke. change (sv_enabled s') with (sv_enabled s).
    destruct (sv_enabled s); cbn [negb]; [|by rewrite sent_persist].
    exists (if server_ready s' then Supervisor.RestartServer s' else StopServer).
    split; [destruct (server_ready s'); cbn; by rewrite sent_persist, Hsent|].
    destruct (server_ready s'); [by apply restart_cuts_off|apply stop_cuts_off].
Qed.
End app.

(** ** Witnesses *)

Module RefDesk.
Import RefStore.
#[export] Instance value_json : Json Value := reference_json Value.
#[export] Instance key_pairs : KeyPairs := {| public_of_secret s := Ok (str "pub-" ++ s) |}.
#[export] Instance identities : Identities := {| endpoint_of_secret s := Ok (str "ep-" ++ s) |}.
#[export] Instance publics : PublicKeys :=
  {| public_token s := if bool_decide (trim s = s) then Ok s else Err (str "padded") |}.
#[export] Instance publics_laws : PublicKeyLaws.
Proof.
  split. intros s t. cbn -[trim]. case_bool_decide as Hs; [|done]. intros [= <-]. rewrite Hs. by rewrite bool_decide_eq_true_2.
Qed.

Definition ref_text (e : StoreError) : bytes := str "error".

(** Reads fail, writes succeed; fresh ids. *)
Definition ref_answers : Answers :=
  mkAnswers (mkStoreFaults true true true (repeat x2a 32) (repeat x07 12)
               (Some (mkIoError NotFound None (str "gone"))) no_faults)
    ref_ids (mkFresh (fun i => str "new" ++ repeat x61 i) (fun i j => repeat x62 j))
    (str "fresh") (str "sec9", str "pub9") (str "id9") ∅ ServerSnapshot_default ConnectionSnapshot_default
    1 true true false true 7 [] true true true.

Definition ref_desk_on (m : Machine) (fs : Forms) : Desk :=
  mkDesk (mkApp (mkData [ref_profile] [ref_key] (Some ref_server) true) fs None None SelServer None None None None
            ∅ ∅ 0 FilterAll [] false ∅ ServerSnapshot_default false)
    m [] [] [].

Abbreviation ref_desk := (ref_desk_on ref_saved).

(** A process that has no store at all. *)
Definition no_store : Machine := mkMachine ∅ None None None 0.

Abbreviation ref_run := (run_messages ref_dir ref_text true).

Lemma ref_good : good_desk (ref_desk Forms_closed).
Proof.
  split; [|by intros]. apply good_data_iff. pose proof ref_storable as [Hk Hp Hd Ht _]. split_and!.
  - exact Hk.
  - split; [exact Hp|]. rewrite Forall_forall in Hd, Ht. apply Forall_forall. intros p Hin. split; auto.
  - intros s [= <-]. split; [|done]. apply wf_clients_iff.
    split_and!; [repeat constructor; by vm_compute|apply NoDup_singleton..].
  - apply Forall_singleton. right. by eexists.
Qed.

(** With the reads failing an import never brings anything. *)
Lemma ref_sound m x :
  (str "fresh" ∉ p_id <$> a_profiles x) -> (str "fresh" ∉ k_id <$> a_keys x) ->
  (str "pub9" ∉ k_public <$> a_keys x) ->
  (forall i, str "new" ++ repeat x61 i ∉ p_id <$> a_profiles x) -> sound ref_answers m x.
Proof.
  intros Hp Hk Hpub Hnew. split; try done. split; [done|].
  intros i j E. apply (f_equal length) in E.
  change (length (str "new" ++ repeat x61 i) = length (str "new" ++ repeat x61 j)) in E. rewrite !length_app, !repeat_length in E. lia.
Qed.

Definition ref_data : Data := mkData [ref_profile] [ref_key] (Some ref_server) true.

Lemma ref_data_sound m : sound ref_answers m ref_data.
Proof.
  apply ref_sound; [apply (bool_decide_unpack _); vm_compute; exact I..|].
  intros i Hi%list_elem_of_singleton. apply (f_equal (take 1)) in Hi. by vm_compute in Hi.
Qed.

(** A key is generated and saved. *)
Definition ref_session : list (Answers * Msg.Message) :=
  [(ref_answers, Msg.AddKey); (ref_answers, Msg.KeyNameChanged (str "home"));
   (ref_answers, Msg.KeyGenerateSecret); (ref_answers, Msg.KeyFormSave)].

Lemma ref_session_sound :
  all_steps ref_dir ref_text true (fun an _ d => sound_step an d) (ref_desk Forms_closed) ref_session.
Proof. refine (conj _ (conj _ (conj _ (conj _ I)))); exact (ref_data_sound ref_saved). Qed.
End RefDesk.

Section witnesses.
Import RefStore RefDesk.

Lemma messages_keep_store_witness : good_desk (ref_run (ref_desk Forms_closed) ref_session).
Proof. apply messages_keep_store; [apply _|apply ref_good|apply ref_session_sound]. Defined.

Lemma deletion_takes_two_clicks_witness :
  let click := (ref_answers, Msg.DeleteProfile (str "p1")) in
  twice (Msg.DeleteProfile (str "p1")) [(ref_answers, Msg.AddKey); click; click].
Proof.
  apply (deletion_takes_two_clicks ref_dir ref_text true (ref_desk_on no_store Forms_closed) _ (str "p1"));
    [done|done|apply (bool_decide_unpack _); vm_compute; exact I..].
Defined.

(** The launch that finds a store of another version. *)
Definition ref_launch : Answers :=
  mkAnswers ref_faults ref_ids ref_ids [] ([], []) [] ∅ ServerSnapshot_default ConnectionSnapshot_default
    1 true true false true 7 [] true true true.

Definition ref_unread : Desk * Task := boot ref_dir ref_text ref_launch [] ref_old.

Lemma unread_store_untouched_witness :
  files (d_machine (ref_run ref_unread.1 [(ref_answers, Msg.AddKey); (ref_answers, Msg.NewKeyCreate);
                                         (ref_answers, Msg.StoreResetQuit)])) = files ref_old.
Proof.
  apply (unread_store_untouched ref_dir ref_text true ref_launch [] ref_old ref_unread.1 ref_unread.2).
  - apply surjective_pairing.
  - apply (bool_decide_unpack _). vm_compute. exact I.
  - repeat constructor; done.
Defined.

Lemma ref_in_service : in_service ref_dir (ref_desk Forms_closed).
Proof.
  split; [exact ref_good|]. split; [done|]. split.
  - by apply (save_coherent ref_dir ref_faults [ref_key] [ref_profile] (Some ref_server) true ref_machine),
      ref_save.
  - by apply (save_restores ref_dir ref_faults [ref_key] [ref_profile] (Some ref_server) true ref_machine),
      ref_save; [apply ref_good|..].
Qed.

(** A server whose only client is about to be removed. *)
Definition ref_confirming : Desk :=
  ref_desk (mkForms None None None None None None None None false None (Some (str "pub2")) false None).

Definition ref_revoked : Desk :=
  (update ref_dir ref_text true ref_answers (Msg.RemoveClient (str "pub2")) ref_confirming).1.

Lemma ref_revocation_saves :
  save_works ref_dir ref_text true ref_answers (Msg.RemoveClient (str "pub2")) ref_confirming.
Proof. split; [done|]. split; [done|]. reflexivity. Qed.

Lemma ref_confirming_in_service : in_service ref_dir ref_confirming.
Proof. destruct ref_in_service as (Hg & Hr & Hc & Hs). by split_and!. Qed.

Lemma revocation_cuts_off_witness :
  exists s' cmd st m', app_server ref_revoked = Some s' /\ ~ admits (str "pub2") s'
    /\ load_store ref_dir ref_faults (d_machine ref_revoked) = (Ok st, m') /\ server st = Some s'
    /\ d_sent ref_revoked = d_sent ref_confirming ++ [cmd] /\ cuts_off (str "pub2") cmd.
Proof.
  destruct (revocation_cuts_off ref_dir ref_text true ref_answers ref_confirming (str "pub2") ref_server)
    as (H1 & H2 & H3 & (cmd & H4 & H5)); [done|done|apply (bool_decide_unpack _); vm_compute; exact I|].
  destruct (H3 ref_confirming_in_service (ref_data_sound ref_saved) ref_revocation_saves
    ref_faults (d_machine ref_revoked)) as (st & m' & Hl & Hs); [done|done|by split; [|right]|done|done|].
  eexists _, cmd, st, m'. exact (conj H1 (conj H2 (conj Hl (conj Hs (conj H4 H5))))).
Defined.

Lemma ref_edit_saves : save_works ref_dir ref_text true ref_answers (Msg.SetServerEnabled false) (ref_desk Forms_closed).
Proof. split; [done|]. split; [done|]. reflexivity. Qed.

Definition ref_switched : Desk :=
  ref_run (ref_desk Forms_closed) [(ref_answers, Msg.SetServerEnabled false)].

Lemma restart_restores_witness :
  exists st m', load_store ref_dir ref_faults (d_machine ref_switched) = (Ok st, m')
    /\ loaded (app_keys ref_switched) (app_profiles ref_switched) (app_server ref_switched)
         (a_login_set_up (data ref_switched)) st.
Proof.
  apply (restart_restores ref_dir ref_text true (ref_desk Forms_closed)
           [(ref_answers, Msg.SetServerEnabled false)] ref_faults (d_machine ref_switched)).
  - exact ref_in_service.
  - refine (conj (conj (ref_data_sound ref_saved) (conj _ ref_edit_saves)) I). done.
  - done.
  - done.
  - by split; [|right].
  - done.
  - done.
Defined.
End witnesses.

(** ** Where the behaviour differs from what is said of it *)

Section findings.
Import RefStore RefDesk.

(** The badge says "tunneled" of a name when only a catch-all network is routed, which the
    core, matching names against domain rules, refuses. *)
Theorem badge_overstates :
  let routes := mkTunnelRoutes true [] [str "0.0.0.0/0"] [] [] [] in
  let f := mkPortForward (str "f1") [] 8080 (str "db.example") 5432 true in
  match RoutedSet_new [] [str "0.0.0.0/0"] with
  | Ok set => (allows set (Domain (str "db.example") 5432), forward_badge PConnected routes (Some set) f)
  | Err _ => (true, None)
  end = (false, Some true).
Proof. vm_compute. reflexivity. Qed.

(** Enabling a server that is not ready replaces the notice of a failed save. *)
Theorem save_failure_overwritten :
  let d := ref_desk_on no_store Forms_closed in
  let s := mkServer (str "ep") (str "identity") [] [] [] [] None false in
  let d' := (update ref_dir ref_text true ref_answers (Msg.SetServerEnabled true) (set_server (Some s) d)).1 in
  (save_store ref_dir (an_faults ref_answers) (app_keys d') (app_profiles d') (app_server d') true no_store).1
    = Err NoBackend
  /\ notice (app_forms d') = Some (start_blocker_text NoClients).
Proof. split; vm_compute; reflexivity. Qed.

Definition second_client : ClientForm := mkClientForm (str "tablet") (str "pub3").

(** A client authorized before the first snapshot of a starting server: the second start is
    dropped by the supervisor, the server runs without the client, and no restart is asked
    for. *)
Theorem dropped_start_not_noticed :
  let d := ref_desk_on no_store (put_client_form (Some second_client) Forms_closed) in
  let d1 := resume_server ref_answers d in
  let d2 := (update ref_dir ref_text true ref_answers Msg.ClientFormSave d1).1 in
  exists s1 s2, d_sent d2 = [Supervisor.StartServer s1; Supervisor.StartServer s2]
    /\ a_applied (d_app d2) = Some s2 /\ app_server d2 = Some s2 /\ length (sv_clients s2) = 2%nat
    /\ let w := run [SupTop (Ok tt); SupRecv (Some (Supervisor.StartServer s1)); SupPrune; SupHandle (Ok tt);
                     SupTop (Ok tt); SupRecv (Some (Supervisor.StartServer s2)); SupPrune; SupHandle (Ok tt)] in
       sr_config <$> (w_servers w !! 0%nat) = Some s1 /\ w_pending w = None /\ w_next w = 1%nat
       /\ server_needs_restart (put_server_snapshot (mkServerSnapshot SvRunning None [] None) (d_app d2)) = false.
Proof.
  do 2 eexists. split; [vm_compute; reflexivity|]. repeat split; vm_compute; reflexivity.
Qed.
End findings.
