(* ===== verification/DesktopView.v ===== *)
(** * The desktop window ([view.rs] of the desktop crate)

    The widget tree of the window as a function of the application, with every text,
    value, control and message of the source; sizes, spacing, fonts and muted text colours
    are left out. [None] is a panic: shortening an id slices a string, which panics inside
    a character. The time, the version, the id a validation draws and the text of a
    tunnel-set error are parameters. *)

From S2P Require Import Prelude RustStr Net AddrText Stream Signaling Socks5 RoutedSet DnsForward Dial Blocklist.
From S2P Require Import Registry Server Client Http LocalConn Accept Forward ForwardProofs PortForwards.
From S2P Require Import Config Ipc Session DesktopStore DesktopExport Supervisor.
From S2P Require Import Paths DesktopForms DesktopShell DesktopState DesktopApp.

#[local] Set Warnings "-register-all".

(** ** Widgets *)

Inductive Color : Type := AMBER | GRAY | GREEN | RED.

Inductive ButtonStyle : Type := Tinted | Ghost | GhostDanger | Primary | Outlined | SidebarRow (selected : bool).

Inductive BoxStyle : Type := NoStyle | Card | SidebarBox | Step | Banner (c : Color) | PillBox (c : Color) | DotBox (c : Color).

(** A pick list offers texts, each with what picking it sends. *)
Inductive Element : Type :=
| Text (s : bytes) (color : option Color)
| Space
| Button (style : ButtonStyle) (content : Element) (on_press : option Msg.Message)
| TextInput (placeholder value : bytes) (secure : bool) (on_input : bytes -> Msg.Message)
| Checkbox (label : option bytes) (on : bool) (on_toggle : bool -> Msg.Message)
| Toggler (label : option bytes) (on : bool) (on_toggle : option (bool -> Msg.Message))
| PickList (options : list (bytes * Msg.Message)) (selected placeholder : option bytes)
| Row (l : list Element)
| Column (l : list Element)
| Container (style : BoxStyle) (e : Element)
| Scrollable (e : Element)
| MouseArea (e : Element) (on_press : option Msg.Message)
| Opaque (e : Element)
| Stack (l : list Element).

(** What a user can do with a widget, and the messages it gives. *)
Inductive Control : Type :=
| Press (m : Msg.Message)
| Typing (f : bytes -> Msg.Message)
| Toggling (f : bool -> Msg.Message).

Definition emits (c : Control) (m : Msg.Message) : Prop :=
  match c with
  | Press m' => m = m'
  | Typing f => exists v, m = f v
  | Toggling f => exists b, m = f b
  end.

Definition pressed (o : option Msg.Message) : list Control :=
  match o with Some m => [Press m] | None => [] end.

Definition is_opaque (e : Element) : bool := match e with Opaque _ => true | _ => false end.

(** The controls within reach: a layer of a stack is covered by an opaque one above it. *)
Fixpoint controls (e : Element) : list Control :=
  match e with
  | Text _ _ | Space => []
  | Button _ c o => pressed o ++ controls c
  | TextInput _ _ _ f => [Typing f]
  | Checkbox _ _ f => [Toggling f]
  | Toggler _ _ o => match o with Some f => [Toggling f] | None => [] end
  | PickList options _ _ => (fun o => Press o.2) <$> options
  | Row l | Column l => flat_map controls l
  | Container _ e => controls e
  | Scrollable e => controls e
  | MouseArea e o => pressed o ++ controls e
  | Opaque e => controls e
  | Stack l =>
      (fix layers (l : list Element) : list Control :=
         match l with
         | [] => []
         | e :: l' => (if existsb is_opaque l' then [] else controls e) ++ layers l'
         end) l
  end.

(** What is on the screen: a secure input shows dots. *)
Fixpoint masked (e : Element) : Element :=
  match e with
  | TextInput p v true f => TextInput p [] true f
  | Button s c o => Button s (masked c) o
  | Row l => Row (map masked l)
  | Column l => Column (map masked l)
  | Container s e => Container s (masked e)
  | Scrollable e => Scrollable (masked e)
  | MouseArea e o => MouseArea (masked e) o
  | Opaque e => Opaque (masked e)
  | Stack l => Stack (map masked l)
  | _ => e
  end.

(** ** Shared bits *)

Definition label (s : bytes) : Element := Text s None.
Definition section_label (s : bytes) : Element := Text s None.
Definition mono (s : bytes) : Element := Text s None.
Definition tinted (s : bytes) (c : Color) : Element := Text s (Some c).
Definition pill (s : bytes) (c : Color) : Element := Container (PillBox c) (Text s (Some c)).
Definition dot (c : Color) : Element := Container (DotBox c) Space.

Definition btn (style : ButtonStyle) (s : bytes) (m : Msg.Message) : Element := Button style (label s) (Some m).
Definition btn_maybe (style : ButtonStyle) (s : bytes) (enabled : bool) (m : Msg.Message) : Element :=
  Button style (label s) (if enabled then Some m else None).

Definition when {A} (b : bool) (l : list A) : list A := if b then l else [].
Definition shown {A} (o : option A) (f : A -> list Element) : list Element :=
  match o with Some x => f x | None => [] end.

Definition copy_button (value : bytes) : Element := btn Ghost (str "Copy") (Msg.CopyText value).

Definition info_row (name value : bytes) (copy : option bytes) : Element :=
  Row ([label name; mono (if bool_decide (value = []) then str "—" else value)]
       ++ shown copy (fun c => [Space; copy_button c])).

Definition arrow_copy_row (left right : bytes) : Element :=
  Row [mono left; copy_button left; mono (str "→"); mono right; copy_button right].

Definition indented_label (s : bytes) : Element := Row [Space; label s].
Definition indented_item (value : bytes) : Element := Row [Space; mono (str "- " ++ value)].
Definition indented_note_item (value note : bytes) : Element :=
  Row [Space; mono (str "- " ++ value); label (str "— " ++ note)].

(** Every use passes no trailing badge. *)
Definition route_row (value : bytes) : Element := Row [mono value; Space; copy_button value].

Definition form_row (name : bytes) (e : Element) : Element := Row [label name; e].
Definition input (placeholder value : bytes) (f : bytes -> Msg.Message) : Element :=
  TextInput placeholder value false f.
Definition secure_input (placeholder value : bytes) (f : bytes -> Msg.Message) : Element :=
  TextInput placeholder value true f.

(** [&s[..keep]] and [&s[s.len() - keep..]] panic inside a character. *)
Definition truncate_middle (s : bytes) (max : nat) : option bytes :=
  if (length s <=? max)%nat then Some s
  else let keep := ((max - 1) / 2)%nat in
       if is_char_boundary s keep && is_char_boundary s (length s - keep)
       then Some (take keep s ++ str "…" ++ drop (length s - keep) s)
       else None.

Definition notice_line (o : option bytes) : list Element := shown o (fun n => [label n]).

Definition count (n : nat) : bytes := dec (Z.of_nat n).

(** [SocketAddr::from(([127, 0, 0, 1], p))]. *)
Definition loopback_addr (port : Z) : SocketAddr := SockV4 (127 * 2 ^ 24 + 1) port.

(** ** States as colours and words *)

Definition phase_color (p : Supervisor.Phase) : Color :=
  match p with
  | PIdle => GRAY
  | PConnecting | PReconnecting => AMBER
  | PConnected => GREEN
  | PFailed => RED
  end.

Definition phase_label (p : Supervisor.Phase) : bytes :=
  match p with
  | PIdle => str "disconnected"
  | PConnecting => str "connecting…"
  | PConnected => str "connected"
  | PReconnecting => str "reconnecting…"
  | PFailed => str "failed"
  end.

Definition server_phase_color (p : ServerPhase) : Color :=
  match p with
  | SvStopped => GRAY
  | SvStarting | SvStopping => AMBER
  | SvRunning => GREEN
  | SvFailed => RED
  end.

Definition server_phase_label (p : ServerPhase) : bytes :=
  match p with
  | SvStopped => str "stopped"
  | SvStarting => str "starting…"
  | SvRunning => str "running"
  | SvStopping => str "stopping…"
  | SvFailed => str "failed"
  end.

Definition status_for (snapshot : Snapshot) (f : PortForward) : option ForwardStatus :=
  snd <$> list_find (fun s => st_id s = pf_id f) (sn_forwards snapshot).

Definition forward_pill (f : PortForward) (status : option ForwardStatus) (phase : Supervisor.Phase) : bytes * Color :=
  if negb (pf_enabled f) then (str "stopped", GRAY)
  else match status with
       | Some s =>
           match st_state s with
           | Starting => (str "starting…", AMBER)
           | Listening => if 0 <? st_active s then (str "listening · " ++ dec (st_active s), GREEN)
                          else (str "listening", GREEN)
           | Failed _ => (str "failed", RED)
           end
       | None =>
           match phase with
           | PIdle | PFailed => (str "stopped", GRAY)
           | _ => (str "starting…", AMBER)
           end
       end.

Definition filter_text (f : LogFilter) : bytes :=
  match f with FilterAll => str "All" | FilterProfile name => name | FilterServer => str "Server" end.

(** ** Overlays *)

Definition modal (base content : Element) (dismiss : option Msg.Message) : Element :=
  Stack [base; Opaque (MouseArea (Opaque content) dismiss)].

Definition SECRETS : bytes :=
  str "The auth-key secrets, the server identity key and the relay auth tokens will all be empty and must be re-entered.".

Definition safe_storage : bytes := quoted (str "Flextunnel Safe Storage").

(** Title, why, how to keep it, what starting fresh does. *)
Definition reset_texts (reset : StoreReset) : bytes * bytes * bytes * bytes :=
  match reset with
  | ResetVersion version =>
      (str "Saved secrets can't be read",
       str "Your secrets were saved by "
         ++ (if version =? 0 then str "an earlier version of flextunnel" else str "format version " ++ dec version)
         ++ str ", which this version stores differently. " ++ SECRETS,
       str "the previous version of flextunnel can still read them, for example to export the keys first.",
       str "deletes them")
  | ResetUnsealable =>
      (str "Saved secrets can't be read",
       str "Your secrets are sealed in profiles.json under a master key kept in the system keychain (" ++ safe_storage
         ++ str "), and the key there no longer opens them: the entry was deleted or replaced. " ++ SECRETS,
       str "they open again once the original keychain entry is restored, for example from a backup.",
       str "deletes them")
  | ResetUnreadable why =>
      (str "Saved settings can't be read",
       str "flextunnel couldn't load its settings: " ++ why
         ++ str ". It is running with none: no connections, keys or server.",
       str "fix the cause (for example, allow flextunnel to read its " ++ safe_storage
         ++ str " keychain entry) and open flextunnel again.",
       str "replaces them with empty settings, deleting every connection, key and the server")
  end.

Definition store_reset_modal (reset : StoreReset) : Element :=
  let '(title, why, keep, lost) := reset_texts reset in
  Container Card (Column
    [label title; label why;
     tinted (str "Quit now to leave them on disk untouched — " ++ keep ++ str " Starting fresh " ++ lost
               ++ str " for good.") AMBER;
     Row [Space; btn Ghost (str "Quit") Msg.StoreResetQuit;
          btn Primary (str "Start fresh") Msg.StoreResetContinue]]).

Definition custom_relay_row (relay : CustomRelayStatus) : Element :=
  let '(color, status) :=
    match cr_working relay with
    | Some true => (GREEN, str "Reachable")
    | Some false => (RED, match cr_error relay with
                          | Some e => str "Unreachable — " ++ e
                          | None => str "Unreachable"
                          end)
    | None => (GRAY, str "Status unavailable")
    end in
  Column [Row [dot color; mono (cr_url relay)]; tinted status color].

Definition path_row (p : ConnPath) : Element :=
  Row ([dot (match cp_kind p with Direct => GREEN | RelayPath => AMBER | OtherPath => GRAY end); mono (cp_display p)]
       ++ when (cp_selected p) [pill (str "active") GREEN]).

Definition conn_path_view (snapshot : ConnectionSnapshot) : Element :=
  Container Card (Column
    ([Row [label (str "Connection path"); Space; btn Ghost (str "Close") Msg.DismissConnPath];
      label (str "Snapshot taken just now — how this profile reaches the server.")]
     ++ (if bool_decide (cs_paths snapshot = [])
         then [label (str "No path available — close this and try again in a moment.")]
         else path_row <$> cs_paths snapshot)
     ++ (if bool_decide (cs_relays snapshot = []) then []
         else label (str "Custom relays") :: (custom_relay_row <$> cs_relays snapshot)))).

Section view.
Context {KP : KeyPairs} {ID : Identities} {NA : IpNetworkApi} {PK : PublicKeys}.
Context (rule_text : RuleError -> bytes) (now : Z) (version fresh : bytes).

Abbreviation v_profiles a := (a_profiles (a_data a)).
Abbreviation v_keys a := (a_keys (a_data a)).
Abbreviation v_server a := (a_server (a_data a)).

(** [since.elapsed()], which is never negative. *)
Definition elapsed (since : Z) : bytes := format_duration (Z.max 0 (now - since)).

Definition error_message (e : FormError) : bytes :=
  match e with Told text => text | BadTunnelSet e => rule_text e end.

(** The validation message of a form, if any. *)
Definition complaint {A} (r : result FormError A) : list Element :=
  match r with Ok _ => [] | Err e => [tinted (error_message e) AMBER] end.

(** A profile or server form replaces the detail pane. *)
Definition form_open (a : App) : bool :=
  bool_decide (is_Some (profile_form (a_forms a))) || bool_decide (is_Some (server_form (a_forms a))).

(** ** The sidebar *)

Definition listening (snapshot : Snapshot) (f : PortForward) : bool :=
  pf_enabled f
  && existsb (fun s => bool_decide (st_id s = pf_id f) && bool_decide (st_state s = Listening)) (sn_forwards snapshot).

Definition sidebar_profile_row (a : App) (p : Profile) : Element :=
  let snapshot := snapshot_for a (p_id p) in
  let selected := bool_decide (a_selection a = SelProfile (p_id p)) && negb (form_open a) in
  let running := length (filter (fun f => listening snapshot f = true) (p_forwards p)) in
  let n := length (p_forwards p) in
  let counts := count n ++ str " forward" ++ (if bool_decide (n = 1%nat) then [] else str "s")
                ++ (if (0 <? running)%nat then str " · " ++ count running ++ str " running" else []) in
  Button (SidebarRow selected)
    (Column ([Row [dot (phase_color (sn_phase snapshot)); label (p_name p)];
              Row [Space; Text counts (if (0 <? running)%nat then Some GREEN else None)]]
             ++ ((fun f => Row [Space; dot (forward_pill f (status_for snapshot f) (sn_phase snapshot)).2;
                                label (display_name f)]) <$> p_forwards p)))
    (Some (Msg.Select (SelProfile (p_id p)))).

Definition server_row_status (a : App) (s : DesktopStore.ServerConfig) : bytes :=
  let snapshot := a_server_snapshot a in
  match ss_phase snapshot with
  | SvStopped => if negb (sv_enabled s) then str "disabled"
                 else if bool_decide (sv_clients s = []) then str "needs a client"
                 else server_phase_label SvStopped
  | SvRunning => match length (ss_clients snapshot) with
                 | O => str "running · no clients"
                 | n => str "running · " ++ count n ++ str " connected"
                 end
  | phase => server_phase_label phase
  end.

Definition sidebar_server_row (a : App) (s : DesktopStore.ServerConfig) : Element :=
  let phase := ss_phase (a_server_snapshot a) in
  let selected := bool_decide (a_selection a = SelServer) && negb (form_open a) in
  Button (SidebarRow selected)
    (Column [Row [dot (if sv_enabled s then server_phase_color phase else GRAY); label (str "This computer")];
             Row [Space; Text (server_row_status a s)
                           (match phase with SvRunning => Some GREEN | _ => None end)]])
    (Some (Msg.Select SelServer)).

Definition sidebar (a : App) : Element :=
  let welcome_selected :=
    bool_decide (is_Some (server_form (a_forms a)))
    || (bool_decide (a_selection a = SelServer) && negb (bool_decide (is_Some (profile_form (a_forms a))))) in
  let pane_row text sel :=
    btn (SidebarRow (bool_decide (a_selection a = sel) && negb (form_open a))) text (Msg.Select sel) in
  let list :=
    Column ([Row [section_label (str "CONNECTIONS"); Space; btn Tinted (str "+") Msg.AddProfile]]
            ++ (sidebar_profile_row a <$> v_profiles a)
            ++ when (bool_decide (v_profiles a = [])) [Container NoStyle (label (str "No connections yet."))]
            ++ [Space; section_label (str "SERVER");
                match v_server a with
                | Some s => sidebar_server_row a s
                | None => btn (SidebarRow welcome_selected) (str "Set up server…") Msg.SetUpServer
                end]) in
  let io_row := Row [btn_maybe Ghost (str "Export") (negb (bool_decide (v_profiles a = []))) Msg.ExportProfiles;
                     btn Ghost (str "Import") Msg.ImportProfiles] in
  let footer := Column ([pane_row (str "Keys") SelKeys; pane_row (str "Logs") SelLogs; io_row]
                        ++ notice_line (io_notice a) ++ [label (str "v" ++ version)]) in
  Container SidebarBox (Column [Scrollable list; footer]).

(** ** A connection *)

Definition empty_state : Element :=
  Container NoStyle (Column
    [label (str "Nothing selected");
     label (str "Use + next to Connections to reach a flextunnel server elsewhere, or Set up server… to let your other devices reach this computer. Use either one, or both.")]).

Definition ready_connect (ready : bool) (p : Profile) (style : ButtonStyle) : Element :=
  btn_maybe style (str "Connect") ready (Msg.Connect (p_id p)).

Definition connection_banner (p : Profile) (ready : bool) (snapshot : Snapshot) : list Element :=
  let banner color message show_connect :=
    [Container (Banner color)
       (Row ([dot color; label message] ++ when show_connect [Space; ready_connect ready p Tinted]))] in
  match sn_phase snapshot with
  | PConnected => []
  | PIdle => banner AMBER (str "Not connected — forwards are inactive until you connect.") true
  | PFailed => banner RED (str "Connection failed — forwards are inactive until you reconnect.") true
  | PConnecting => banner AMBER (str "Connecting — forwards start automatically.") false
  | PReconnecting => banner AMBER (str "Reconnecting — forwards resume automatically.") false
  end.

Definition save_cancel (save : bytes) (ok : bool) (on_save on_cancel : Msg.Message) (rest : list Element) : Element :=
  Row ([btn_maybe Primary save ok on_save; btn Outlined (str "Cancel") on_cancel] ++ rest).

Definition forward_form_view (a : App) (f : ForwardForm) : Element :=
  let validated := ForwardForm_validate f fresh (v_profiles a) in
  Container Card (Column
    ([label (if bool_decide (is_Some (fo_editing f)) then str "Edit forward" else str "Add forward");
      form_row (str "Label") (input (str "optional") (fo_label f) Msg.FormLabelChanged);
      form_row (str "Local port") (input [] (fo_local f) Msg.FormLocalPortChanged);
      form_row (str "Remote host") (input (str "host or IP — resolved server-side") (fo_host f) Msg.FormRemoteHostChanged);
      form_row (str "Remote port") (input [] (fo_remote f) Msg.FormRemotePortChanged);
      form_row (str "Enabled") (Checkbox None (fo_enabled f) Msg.FormEnabledToggled)]
     ++ complaint validated
     ++ [save_cancel (str "Save") (is_ok validated) Msg.FormSave Msg.FormCancel []])).

Definition forward_card (a : App) (p : Profile) (snapshot : Snapshot) (set : option RoutedSet) (f : PortForward)
  : Element :=
  let status := status_for snapshot f in
  let '(pill_text, pill_color) := forward_pill f status (sn_phase snapshot) in
  let badge := shown (forward_badge (sn_phase snapshot) (sn_routes snapshot) set f)
                 (fun tunneled => [if tunneled : bool then pill (str "server-direct") GREEN
                                   else pill (str "not routed") AMBER]) in
  let failure := match st_state <$> status with Some (Failed reason) => [tinted reason RED] | _ => [] end in
  let info :=
    Column ([Row ([label (display_name f); pill pill_text pill_color] ++ badge);
             arrow_copy_row (local_endpoint f) (remote_endpoint f)]
            ++ failure
            ++ shown (forward_errors a !! pf_id f) (fun reason => [tinted reason RED])
            ++ when (pf_enabled f)
                 (shown (status ≫= st_last_conn_error) (fun error => [tinted error AMBER]))) in
  let controls :=
    Row [btn Ghost (str "Edit") (Msg.EditForward (p_id p) (pf_id f));
         btn GhostDanger (str "Delete") (Msg.DeleteForward (p_id p) (pf_id f));
         Toggler None (pf_enabled f) (Some (Msg.ToggleForward (p_id p) (pf_id f)))] in
  Container Card (Row [info; controls]).

Definition bridge_section (b : BridgeSummary) : list Element :=
  [Space; mono (bs_name b ++ str ":");
   Row [Space; label (str "endpoint id:"); mono (bs_endpoint_id b); copy_button (bs_endpoint_id b)]]
  ++ (if bool_decide (bs_domains b = []) then []
      else indented_label (str "routed domains:") :: (indented_item <$> bs_domains b))
  ++ (if bool_decide (bs_cidrs b = []) then []
      else indented_label (str "routed CIDRs:") :: (indented_item <$> bs_cidrs b)).

Definition routes_section (snapshot : Snapshot) : Element :=
  let routes := sn_routes snapshot in
  let counted l head tail := [Space; label (head ++ count l ++ tail)] in
  Column
    ((if is_full_tunnel routes then [label (str "Everything through the tunnel")]
      else label (str "Split tunnel — " ++ count (length (Client.domains routes)) ++ str " domain(s), "
                    ++ count (length (tr_cidrs routes)) ++ str " CIDR(s) routed through the server:")
           :: (route_row <$> Client.domains routes) ++ (route_row <$> tr_cidrs routes))
     ++ (if bool_decide (tr_host_aliases routes = []) then []
         else counted (length (tr_host_aliases routes)) (str "Host aliases — ") (str " resolved server-side:")
              ++ ((fun x => arrow_copy_row x.1 x.2) <$> tr_host_aliases routes))
     ++ (if bool_decide (tr_dns_forwards routes = []) then []
         else counted (length (tr_dns_forwards routes)) (str "DNS forwards — ") (str " resolved via upstream server(s):")
              ++ ((fun x => arrow_copy_row (x.1 ++ str " (+ subdomains)") (join (str ", ") x.2))
                    <$> tr_dns_forwards routes))
     ++ (if bool_decide (tr_bridges routes = []) then []
         else counted (length (tr_bridges routes)) (str "Bridge routes — ") (str " forwarded via another server:")
              ++ flat_map bridge_section (tr_bridges routes))
     ++ [Space; label (str "Server status page — always tunneled:"); route_row STATUS_HOST;
         Space; label (str "Server loopback — always tunneled:"); route_row LOCALHOST_HOST]).

Definition not_ready_text (a : App) (p : Profile) : bytes :=
  match find_key (v_keys a) (p_key_id p) with
  | Some k => str "The secret of key " ++ quoted (k_name k) ++ str " is missing — re-enter it in the Keys pane."
  | None => str "No auth key picked — edit the profile to pick one."
  end.

(** The CONNECTION card. *)
Definition connection_info (a : App) (p : Profile) (snapshot : Snapshot) : option Element :=
  let proxy live port := addr_text <$> match live with Some x => Some x | None => loopback_addr <$> port end in
  node ← truncate_middle (p_server p) 22;
  key_row ← match find_key (v_keys a) (p_key_id p) with
            | Some k => short ← truncate_middle (k_public k) 14;
                        Some [info_row (str "Auth key") (k_name k ++ str " (" ++ short ++ str ")") (Some (k_public k))]
            | None => Some []
            end;
  Some (Column
    ([info_row (str "Server node id") node (if bool_decide (p_server p = []) then None else Some (p_server p))]
     ++ key_row
     ++ shown (proxy (sn_socks snapshot) (p_socks p))
          (fun x => [info_row (str "SOCKS5 proxy") x (Some (str "socks5://" ++ x))])
     ++ shown (proxy (sn_http snapshot) (p_http p))
          (fun x => [info_row (str "HTTP proxy") x (Some (str "http://" ++ x))]))).

Definition profile_hero (p : Profile) (ready : bool) (snapshot : Snapshot) : Element :=
  Row ([dot (phase_color (sn_phase snapshot)); label (p_name p);
        pill (phase_label (sn_phase snapshot)) (phase_color (sn_phase snapshot))]
       ++ shown (sn_since snapshot) (fun since => [label (str "for " ++ elapsed since)])
       ++ [Space;
           match sn_phase snapshot with
           | PIdle | PFailed => ready_connect ready p Primary
           | _ => btn Outlined (str "Disconnect") (Msg.Disconnect (p_id p))
           end]).

Definition profile_forwards (a : App) (p : Profile) (snapshot : Snapshot) : list Element :=
  let set := match routed_caches a !! p_id p with Some (Some (_, _, set)) => set | _ => None end in
  if bool_decide (p_forwards p = [])
  then [Container Card (label (str "No port forwards yet. Add one to expose a remote service on localhost."))]
  else (forward_card a p snapshot set <$> p_forwards p)
       ++ [label (str "Forwards listen on localhost only (127.0.0.1 and ::1) and open server-direct tunnel streams. The server rejects targets outside its tunnel set.")].

Definition profile_detail (a : App) (p : Profile) : option Element :=
  let snapshot := snapshot_for a (p_id p) in
  let ready := is_ready p (v_keys a) in
  let connected := bool_decide (sn_phase snapshot = PConnected) in
  let confirming := bool_decide (confirm_delete (a_forms a) = Some (p_id p)) in
  info ← connection_info a p snapshot;
  Some (Scrollable (Column
    ([profile_hero p ready snapshot]
     ++ notice_line (notice (a_forms a))
     ++ shown (sn_error snapshot) (fun e => [tinted e RED])
     ++ when (negb ready) [tinted (not_ready_text a p) AMBER]
     ++ [Row ([section_label (str "CONNECTION"); Space]
              ++ when connected [btn Ghost (str "Connection path") Msg.ShowConnPath]
              ++ [btn Ghost (str "Edit") (Msg.EditProfile (p_id p))]);
         Container Card info]
     ++ when connected [section_label (str "ROUTING"); Container Card (routes_section snapshot)]
     ++ connection_banner p ready snapshot
     ++ [Row [section_label (if bool_decide (p_forwards p = []) then str "PORT FORWARDS"
                             else str "PORT FORWARDS · " ++ count (length (p_forwards p)));
              Space; btn Tinted (str "+ Add") (Msg.AddForward (p_id p))]]
     ++ shown (forward_form (a_forms a)) (fun pf => when (bool_decide (pf.1 = p_id p)) [forward_form_view a pf.2])
     ++ profile_forwards a p snapshot
     ++ [Space;
         Row [btn GhostDanger (if confirming then str "Click again to delete this profile" else str "Delete profile…")
                (Msg.DeleteProfile (p_id p))]]))).

(** ** The profile form *)

Definition proxy_row (on : bool) (port : bytes) (toggled : bool -> Msg.Message) (changed : bytes -> Msg.Message)
  : Element :=
  Row ([Checkbox (Some (str "enable")) on toggled] ++ when on [label (str "port"); input [] port changed]).

Definition key_choice (f : KeyChoice -> Msg.Message) (k : AuthKey) : bytes * Msg.Message :=
  (k_name k, f (mkKeyChoice (k_id k) (k_name k))).

Definition public_key_row (public : bytes) : option Element :=
  short ← truncate_middle public 30;
  Some (form_row (str "Public key") (Row [label short; copy_button public])).

(** The picker, or the prompt for a new key. *)
Definition key_section (a : App) (f : ProfileForm) : option (list Element) :=
  match pfm_new_key f with
  | Some new_name =>
      let check := validate_key_name new_name (v_keys a) None in
      Some ([form_row (str "New key name")
               (Row [input (str "e.g. work laptop") new_name Msg.NewKeyNameChanged;
                     btn_maybe Primary (str "Create") (is_ok check) Msg.NewKeyCreate;
                     btn Outlined (str "Cancel") Msg.NewKeyCancel])]
            ++ when (negb (bool_decide (new_name = []))) (complaint check))
  | None =>
      let picked := k_name <$> find_key (v_keys a) (pfm_key_id f) in
      let picker :=
        form_row (str "Auth key")
          (Row [PickList (key_choice Msg.AuthKeyPicked <$> v_keys a) picked
                  (Some (if bool_decide (v_keys a = []) then str "no keys yet" else str "pick a key"));
                btn Outlined (str "New key…") Msg.NewKeyPrompt]) in
      match find_key (v_keys a) (pfm_key_id f) with
      | Some k => row ← public_key_row (k_public k); Some [picker; row]
      | None => Some [picker]
      end
  end.

Definition profile_form_view (a : App) (f : ProfileForm) : option Element :=
  let validated := ProfileForm_validate f fresh (v_profiles a) (v_keys a) in
  key_rows ← key_section a f;
  Some (Column
    [section_label (if bool_decide (is_Some (pfm_editing f)) then str "EDIT PROFILE" else str "NEW PROFILE");
     Container Card (Column
       ([form_row (str "Name") (input (str "e.g. prod") (pfm_name f) Msg.ProfileNameChanged);
         form_row (str "Server node id") (input [] (pfm_server f) Msg.ServerNodeIdChanged)]
        ++ key_rows
        ++ [form_row (str "SOCKS5 proxy")
              (proxy_row (pfm_socks_enabled f) (pfm_socks f) Msg.SocksEnabledToggled Msg.SocksPortChanged);
            form_row (str "HTTP proxy")
              (proxy_row (pfm_http_enabled f) (pfm_http f) Msg.HttpEnabledToggled Msg.HttpPortChanged);
            form_row (str "Relay URLs")
              (input (str "comma-separated, optional") (pfm_relay_urls f) Msg.RelayUrlsChanged);
            form_row (str "Relay auth token")
              (secure_input (str "optional, custom relays only") (pfm_token f) Msg.RelayAuthTokenChanged)]
        ++ complaint validated
        ++ [save_cancel (str "Save") (is_ok validated) Msg.ProfileFormSave Msg.ProfileFormCancel
              (notice_line (notice (a_forms a)))]));
     label (str "Auth keys are shared — any number of profiles can pick the same one (manage them in the Keys pane). The server must authorize the key's public half: on a flextunnel desktop server under Authorized clients, on a CLI server in its authorized-keys file.")]).

(** ** The server *)

Definition welcome_step (n title body : bytes) : Element :=
  Row [Container Step (label n); Column [label title; label body]].

Definition server_welcome : Element :=
  Scrollable (Container NoStyle (Column
    [label (str "Run a server on this computer");
     label (str "Let your other devices — a laptop, a phone — reach this computer, and the network it is on, from anywhere. Nothing to open on your router: devices connect directly when they can, through a relay when they can't.");
     Space; section_label (str "HOW IT WORKS");
     Container Card (Column
       [welcome_step (str "1") (str "An identity")
          (str "This computer gets a permanent endpoint id — the address clients enter when adding a connection. Its key is sealed in profiles.json under a master key kept in the system keychain.");
        welcome_step (str "2") (str "Authorized clients")
          (str "Only the devices you authorize can connect: each has an auth key (in the flextunnel app: Keys), whose public half you add here. The server starts with the first one.");
        welcome_step (str "3") (str "What clients reach")
          (str "This computer's localhost always. Optionally more — domains or networks reachable from here (the tunnel set), changeable any time.")]);
     Space; btn Primary (str "Set up server") Msg.BeginServerSetup])).

Definition client_form_view (a : App) (s : DesktopStore.ServerConfig) (f : ClientForm) : Element :=
  let validated := ClientForm_validate f (sv_clients s) in
  let own_keys := filter (fun k => k_public k ∉ ac_public <$> sv_clients s) (v_keys a) in
  Container Card (Column
    ([label (str "Authorize a client");
      form_row (str "Public key") (input (str "ed25519-pub:…") (cf_public f) Msg.ClientPublicKeyChanged);
      form_row (str "Name") (input (str "e.g. alice laptop") (cf_name f) Msg.ClientNameChanged)]
     ++ (if bool_decide (own_keys = []) then []
         else [form_row [] (PickList (key_choice Msg.ClientUseOwnKey <$> own_keys) None
                              (Some (str "or use one of my keys…")))])
     ++ [label (str "Only the public half of the client's auth key is needed — never its secret. The flextunnel app shows it under Keys; `flexaccess-keys show-auth-key` prints it as a whole entry, which can be pasted as is.")]
     ++ when (negb (bool_decide (cf_name f = []) && bool_decide (cf_public f = []))) (complaint validated)
     ++ [save_cancel (str "Authorize") (is_ok validated) Msg.ClientFormSave Msg.ClientFormCancel []])).

Definition endpoint_field (endpoint_id : bytes) : Element :=
  Row [TextInput [] endpoint_id false (fun _ => Msg.ReadOnlyEdited);
       btn Tinted (str "Copy") (Msg.CopyText endpoint_id)].

Definition segmented (left right : bytes * Msg.Message) (right_picked : bool) : Element :=
  let segment x picked := btn (if picked : bool then Tinted else Ghost) x.1 x.2 in
  Row [segment left (negb right_picked); segment right right_picked].

Definition identity_picker (c : IdentityChoice) (on_toggle : bool -> Msg.Message) (on_secret : bytes -> Msg.Message)
    (on_regenerate : Msg.Message) : Element :=
  Column
    ([form_row (str "Identity")
        (segmented (str "New identity", on_toggle false) (str "Import existing key", on_toggle true)
           (bool_decide (is_Some (ic_import c))))]
     ++ shown (ic_import c) (fun secret =>
          [form_row (str "Identity key") (secure_input (str "paste the key (base64)") secret on_secret)])
     ++ match IdentityChoice_resolve c with
        | Ok (_, endpoint_id) =>
            [Column [label (str "Endpoint id");
                     Row ([endpoint_field endpoint_id]
                          ++ when (negb (bool_decide (is_Some (ic_import c))))
                               [btn Outlined (str "Regenerate") on_regenerate])]]
        | Err e =>
            match ic_import c with
            | Some s => when (negb (bool_decide (trim s = []))) [tinted (error_message e) AMBER]
            | None => []
            end
        end).

Definition identity_form_view (s : DesktopStore.ServerConfig) (c : IdentityChoice) : Element :=
  let resolved := IdentityChoice_resolve c in
  Column
    ([label (match bool_decide (sv_secret s = []), ic_import c with
             | true, Some _ => str "Restore the identity key"
             | true, None => str "Start over with a new identity"
             | false, _ => str "Replace identity"
             end);
      identity_picker c Msg.IdentityImportToggled Msg.IdentitySecretChanged Msg.IdentityRegenerate]
     ++ match resolved with
        | Ok (_, endpoint_id) =>
            if bool_decide (endpoint_id = sv_endpoint_id s)
            then [tinted (str "Same endpoint id as now — clients need no change.") GREEN]
            else [Container (Banner AMBER) (label (str "This changes the endpoint id. Clients connect by endpoint id, so every client must be updated to the new one; until then they cannot reach this server."))]
        | Err _ => []
        end
     ++ [save_cancel (str "Save identity") (is_ok resolved) Msg.IdentityFormSave Msg.IdentityFormCancel []]).

Definition endpoint_card (a : App) (s : DesktopStore.ServerConfig) : Element :=
  Column
    ([endpoint_field (sv_endpoint_id s);
      label (str "Share this with your clients: they enter it as the server node id when adding a connection. It is public — the identity key behind it is sealed in profiles.json under a master key kept in the system keychain, and never shown.")]
     ++ match identity_form (a_forms a) with
        | Some identity => [Space; identity_form_view s identity]
        | None =>
            if bool_decide (sv_secret s = [])
            then [Container (Banner AMBER) (Column
                    [label (str "The identity key is missing from the keychain");
                     label (str "Import it, if you exported it, to keep this endpoint id. Otherwise generate a new identity: every client must then switch to the new endpoint id.");
                     Row [btn Tinted (str "Import key…") (Msg.ReplaceIdentity true);
                          btn Outlined (str "Generate new identity…") (Msg.ReplaceIdentity false)]])]
            else [Row [btn Outlined (str "Replace identity…") (Msg.ReplaceIdentity false);
                       btn Outlined (if confirm_export_server_secret (a_forms a)
                                     then str "Click again to copy the key" else str "Export key…")
                         Msg.ExportServerSecret]]
        end).

Definition authorized_client_row (a : App) (running : bool) (c : AuthorizedClient) : option Element :=
  let connected := bool_decide (ac_public c ∈ ss_clients (a_server_snapshot a)) in
  let confirming := bool_decide (confirm_remove_client (a_forms a) = Some (ac_public c)) in
  let mine := snd <$> list_find (fun k => k_public k = ac_public c) (v_keys a) in
  short ← truncate_middle (ac_public c) 40;
  Some (Row
    [Column [Row ([dot (if connected then GREEN else GRAY); label (ac_name c)]
                  ++ when running [if connected then pill (str "connected") GREEN else label (str "not connected")]
                  ++ shown mine (fun k => [label (str "my key " ++ quoted (k_name k))]));
             Row [Space; label short]];
     copy_button (ac_public c);
     btn GhostDanger (if confirming then str "Click again to remove" else str "Remove…")
       (Msg.RemoveClient (ac_public c))]).

Definition server_hero (a : App) (s : DesktopStore.ServerConfig) : Element :=
  let snapshot := a_server_snapshot a in
  let '(text, color) :=
    match ss_phase snapshot, sv_enabled s with
    | SvStopped, false => (str "disabled", GRAY)
    | phase, _ => (server_phase_label phase, server_phase_color phase)
    end in
  Row ([dot color; label (str "Server"); pill text color]
       ++ shown (ss_since snapshot) (fun since =>
            [label (str "for " ++ elapsed since ++ str " · " ++ clients_connected (length (ss_clients snapshot)))])
       ++ [Space;
           Toggler (Some (str "Enabled")) (sv_enabled s)
             (match ss_phase snapshot with SvStopping => None | _ => Some Msg.SetServerEnabled end)]).

(** What stands between the header and the endpoint id. *)
Definition server_notes (a : App) (s : DesktopStore.ServerConfig) : list Element :=
  let snapshot := a_server_snapshot a in
  notice_line (notice (a_forms a))
  ++ shown (ss_error snapshot) (fun e => [tinted e RED])
  ++ when (sv_enabled s && match ss_phase snapshot with SvFailed => true | _ => false end)
       [label (str "Switch it off and on again to retry.")]
  ++ shown (start_blocker s) (fun blocker =>
       when (negb (match ss_phase snapshot with SvRunning => true | _ => false end) && sv_enabled s)
         [Container (Banner AMBER) (Row [dot AMBER; label (start_blocker_text blocker)])])
  ++ when (server_needs_restart a)
       [Container (Banner AMBER) (Row [dot AMBER; label (str "Saved changes apply once the server restarts."); Space;
                                       btn Tinted (str "Restart now") Msg.RestartServer])].

Definition tunnel_card (s : DesktopStore.ServerConfig) : Element :=
  Column
    ((if bool_decide (sv_domains s = []) then []
      else indented_label (str "routed domains:") :: (indented_item <$> sv_domains s))
     ++ (if bool_decide (sv_cidrs s = []) then []
         else indented_label (str "routed CIDRs:") :: (indented_item <$> sv_cidrs s))
     ++ [indented_label (str "always routed:");
         indented_note_item STATUS_HOST (str "this server's status page");
         indented_note_item LOCALHOST_HOST (str "this machine's localhost, on any port");
         Space;
         info_row (str "Relays") (if bool_decide (sv_relay_urls s = []) then str "default"
                                  else join (str ", ") (sv_relay_urls s)) None]).

Definition clients_section (a : App) (s : DesktopStore.ServerConfig) : option (list Element) :=
  let running := match ss_phase (a_server_snapshot a) with SvRunning => true | _ => false end in
  if bool_decide (sv_clients s = [])
  then Some (when (negb (bool_decide (is_Some (client_form (a_forms a)))))
               [Container Card (label (str "No clients yet. Each device that will connect has an auth key (in the flextunnel app: Keys); authorize its public key here."))])
  else rows ← mapM (authorized_client_row a running) (sv_clients s);
       Some [Container Card (Column rows)].

Definition server_detail (a : App) (s : DesktopStore.ServerConfig) : option Element :=
  clients ← clients_section a s;
  Some (Scrollable (Column
    ([server_hero a s]
     ++ server_notes a s
     ++ [section_label (str "ENDPOINT ID"); Container Card (endpoint_card a s);
         Row [section_label (if bool_decide (sv_clients s = []) then str "AUTHORIZED CLIENTS"
                             else str "AUTHORIZED CLIENTS · " ++ count (length (sv_clients s)));
              Space; btn Tinted (str "+ Authorize client") Msg.AuthorizeClient]]
     ++ shown (client_form (a_forms a)) (fun f => [client_form_view a s f])
     ++ clients
     ++ [Row [section_label (str "TUNNEL SET & RELAYS"); Space; btn Ghost (str "Edit") Msg.EditServer];
         Container Card (tunnel_card s);
         label (str "The tunnel set is pushed to clients and enforced here.");
         Space;
         Row [btn GhostDanger (if confirm_delete_server (a_forms a)
                               then str "Click again to delete this server and its identity"
                               else str "Delete server…") Msg.DeleteServer]]))).

Definition server_setup_card (a : App) (c : IdentityChoice) : Element :=
  Column
    [identity_picker c Msg.ServerImportToggled Msg.ServerImportSecretChanged Msg.ServerRegenerateIdentity;
     label (if bool_decide (is_Some (ic_import c))
            then str "Moving a server here: paste the identity key exported from the other computer (or the secret line of a `flextunnel generate-iroh-key` file), so its clients keep their endpoint id. Then stop the old server."
            else str "A new identity for this computer. Its key is sealed in profiles.json under a master key kept in the system keychain.");
     save_cancel (str "Create server") (is_ok (IdentityChoice_resolve c)) Msg.ServerFormSave Msg.ServerFormCancel
       (notice_line (notice (a_forms a)))].

Definition server_settings_card (a : App) (f : ServerForm) : Element :=
  let validated := ServerForm_validate f (v_server a) in
  Column
    ([form_row (str "Routed domains")
        (input (str "optional, comma-separated, e.g. *.internal — * for all") (sf_domains f) Msg.ServerRoutedDomainsChanged);
      form_row (str "Routed CIDRs")
        (input (str "optional, comma-separated, e.g. 10.0.0.0/8 — 0.0.0.0/0, ::/0 for all") (sf_cidrs f)
           Msg.ServerRoutedCidrsChanged);
      form_row (str "Relay URLs") (input (str "comma-separated, optional") (sf_relays f) Msg.ServerRelayUrlsChanged);
      form_row (str "Relay auth token")
        (secure_input (str "optional, custom relays only") (sf_token f) Msg.ServerRelayAuthTokenChanged)]
     ++ complaint validated
     ++ [save_cancel (str "Save") (is_ok validated) Msg.ServerFormSave Msg.ServerFormCancel
           (notice_line (notice (a_forms a)))]).

Definition server_form_view (a : App) (f : ServerForm) : Element :=
  let '(title, card, note) :=
    match sf_identity f with
    | Some identity =>
        (str "SET UP SERVER", server_setup_card a identity,
         str "The identity is the server's permanent address: clients connect to its endpoint id. Next you authorize the clients; the tunnel set and relays can be changed any time.")
    | None =>
        (str "TUNNEL SET & RELAYS", server_settings_card a f,
         str "The tunnel set decides what else clients may reach through this server; both lists are optional, since flextunnel.internal (the status page) and localhost.flextunnel.internal (this machine's localhost) are always routed. Clients are authorized on the server pane.")
    end in
  Scrollable (Column [section_label title; Container Card card; label note]).

(** ** Keys and logs *)

Definition key_card (a : App) (k : AuthKey) : option Element :=
  let users := p_name <$> filter (fun p => p_key_id p = k_id k) (v_profiles a) in
  let confirming := bool_decide (confirm_delete_key (a_forms a) = Some (k_id k)) in
  let exporting := bool_decide (confirm_export_key (a_forms a) = Some (k_id k)) in
  let missing := bool_decide (k_secret k = []) in
  short ← truncate_middle (k_public k) 30;
  Some (Container Card (Column
    ([Row [label (k_name k); Space; btn Ghost (str "Edit") (Msg.EditKey (k_id k));
           btn_maybe Ghost (if exporting then str "Click again to copy secret" else str "Export…") (negb missing)
             (Msg.ExportKey (k_id k));
           btn GhostDanger (if confirming then str "Click again to delete" else str "Delete…") (Msg.DeleteKey (k_id k))];
      info_row (str "Public key") short (Some (k_public k))]
     ++ when missing [tinted (str "Secret missing from the keychain — edit this key to re-enter it.") AMBER]
     ++ [label (if bool_decide (users = []) then str "Not used by any profile."
                else str "Used by: " ++ join (str ", ") users)]))).

Definition key_form_view (a : App) (f : KeyForm) : option Element :=
  let validated := KeyForm_validate f fresh (v_keys a) in
  public ← match (match validated with Ok k => Some (k_public k) | Err _ => KeyForm_public_key f end) with
           | Some public => row ← public_key_row public; Some [row]
           | None => Some []
           end;
  Some (Container Card (Column
    ([label (if bool_decide (is_Some (kf_editing f)) then str "Edit key" else str "Add key");
      form_row (str "Name") (input (str "e.g. work laptop") (kf_name f) Msg.KeyNameChanged);
      form_row (str "Secret key")
        (Row [secure_input (str "ed25519-sec:…") (kf_secret f) Msg.KeySecretChanged;
              btn Outlined (str "Generate") Msg.KeyGenerateSecret])]
     ++ public
     ++ complaint validated
     ++ [save_cancel (str "Save") (is_ok validated) Msg.KeyFormSave Msg.KeyFormCancel []]))).

Definition keys_pane (a : App) : option Element :=
  let edited := key_form (a_forms a) ≫= kf_editing in
  form ← match key_form (a_forms a) with Some f => e ← key_form_view a f; Some [e] | None => Some [] end;
  cards ← mapM (key_card a) (filter (fun k => edited <> Some (k_id k)) (v_keys a));
  Some (Scrollable (Column
    ([Row [section_label (if bool_decide (v_keys a = []) then str "AUTH KEYS"
                          else str "AUTH KEYS · " ++ count (length (v_keys a)));
           Space; btn Tinted (str "+ Add key") Msg.AddKey]]
     ++ notice_line (notice (a_forms a))
     ++ form
     ++ when (bool_decide (v_keys a = []))
          [Container Card (label (str "No auth keys yet. Add one to authenticate profiles with — any number of profiles can share the same key."))]
     ++ cards
     ++ [label (str "These are this computer's client keys, for its connections. Secret halves live in the system keychain; names and public keys in a local file. Each server a key connects to must authorize its public half.")]))).

Definition log_filters (a : App) : list LogFilter :=
  [FilterAll] ++ when (bool_decide (is_Some (v_server a))) [FilterServer]
  ++ ((fun p => FilterProfile (p_name p)) <$> v_profiles a).

Definition logs_pane (a : App) : Element :=
  Column
    [Row [section_label (str "LOGS"); Space;
          PickList ((fun f => (filter_text f, Msg.LogFilterChanged f)) <$> log_filters a)
            (Some (filter_text (log_filter a))) None;
          btn Ghost (str "Open folder") Msg.OpenLogFolder; btn Ghost (str "Copy all") Msg.CopyLogs];
     Container Card (Scrollable (mono (log_text a)))].

(** ** The window *)

Definition detail_pane (a : App) : option Element :=
  content ←
    match profile_form (a_forms a), server_form (a_forms a) with
    | Some form, _ => profile_form_view a form
    | None, Some form => Some (server_form_view a form)
    | None, None =>
        match a_selection a with
        | SelEmpty => Some empty_state
        | SelKeys => keys_pane a
        | SelLogs => Some (logs_pane a)
        | SelProfile id => match find_profile (v_profiles a) id with
                           | Some p => profile_detail a p
                           | None => Some empty_state
                           end
        | SelServer => match v_server a with
                       | Some s => server_detail a s
                       | None => Some server_welcome
                       end
        end
    end;
  Some (Container NoStyle content).

Definition root (a : App) : option Element :=
  detail ← detail_pane a;
  let base := Row [sidebar a; detail] in
  Some (match store_reset a, conn_path_modal a with
        | Some reset, _ => modal base (store_reset_modal reset) None
        | None, Some snapshot => modal base (conn_path_view snapshot) (Some Msg.DismissConnPath)
        | None, None => base
        end).
End view.
