(* ===== verification/DesktopViewProofs.v ===== *)
(** * The desktop window: what it offers, what it shows

    Every control within reach sends a message that makes sense where the application is
    (and an offered Save saves); no secret reaches the screen; the window panics exactly
    where an id cannot be shortened. *)

From S2P Require Import Prelude RustStr Net AddrText Stream Signaling Socks5 RoutedSet DnsForward Dial Blocklist.
From S2P Require Import Registry Server Client Http LocalConn Accept Forward ForwardProofs PortForwards.
From S2P Require Import Config Ipc Session DesktopStore DesktopStoreProofs DesktopExport Supervisor.
From S2P Require Import Paths DesktopForms DesktopFormsProofs DesktopShell DesktopState DesktopApp DesktopAppProofs DesktopView.

(** ** Controls of a tree *)

Section offers.
Context (P : Msg.Message -> Prop).

Definition sound (c : Control) : Prop := forall m, emits c m -> P m.
Definition offers (e : Element) : Prop := Forall sound (controls e).

Lemma sound_press m : P m -> sound (Press m).
Proof. intros Hm m' ->. done. Qed.

Lemma offers_Text s c : offers (Text s c).
Proof. constructor. Qed.

Lemma offers_Space : offers Space.
Proof. constructor. Qed.

Lemma offers_Button style e o : (forall m, o = Some m -> P m) -> offers e -> offers (Button style e o).
Proof.
  intros Ho He. unfold offers. cbn. apply Forall_app_2; [|done].
  destruct o; [|constructor]. constructor; [|constructor]. apply sound_press. by apply Ho.
Qed.

Lemma offers_btn style s m : P m -> offers (btn style s m).
Proof. intros Hm. apply offers_Button; [by intros m0 [= <-]|apply offers_Text]. Qed.

Lemma offers_btn_maybe style s b m : (b = true -> P m) -> offers (btn_maybe style s b m).
Proof. intros Hm. apply offers_Button; [|apply offers_Text]. destruct b; [|done]. intros m0 [= <-]. auto. Qed.

Lemma offers_TextInput p v b f : (forall v, P (f v)) -> offers (TextInput p v b f).
Proof. intros Hf. constructor; [|constructor]. by intros m [? ->]. Qed.

Lemma offers_Checkbox l b f : (forall b, P (f b)) -> offers (Checkbox l b f).
Proof. intros Hf. constructor; [|constructor]. by intros m [? ->]. Qed.

Lemma offers_Toggler l b o : (forall f b, o = Some f -> P (f b)) -> offers (Toggler l b o).
Proof. intros Ho. destruct o as [f|]; constructor; [|constructor]. intros m [? ->]. by apply Ho. Qed.

Lemma offers_PickList l s p : Forall (fun o => P o.2) l -> offers (PickList l s p).
Proof. intros Hl. unfold offers. cbn. apply Forall_fmap. eapply Forall_impl; [exact Hl|]. intros o. apply sound_press. Qed.

Lemma offers_list l : Forall offers l -> Forall sound (flat_map controls l).
Proof. induction 1; cbn; [constructor|]. by apply Forall_app_2. Qed.

Lemma offers_Row l : Forall offers l -> offers (Row l).
Proof. apply offers_list. Qed.

Lemma offers_Column l : Forall offers l -> offers (Column l).
Proof. apply offers_list. Qed.

Lemma offers_Container s e : offers e -> offers (Container s e).
Proof. done. Qed.

Lemma offers_Scrollable e : offers e -> offers (Scrollable e).
Proof. done. Qed.

Lemma offers_pill s c : offers (pill s c).
Proof. constructor. Qed.

Lemma offers_dot c : offers (dot c).
Proof. constructor. Qed.

(** A modal hides its base: only its content and its backdrop are in reach. *)
Lemma offers_modal base content dismiss :
  offers content -> (forall m, dismiss = Some m -> P m) -> offers (modal base content dismiss).
Proof.
  intros Hc Hd. unfold offers, modal. cbn. rewrite app_nil_r. apply Forall_app_2; [|done].
  destruct dismiss; constructor; [|constructor]. apply sound_press. by apply Hd.
Qed.
End offers.

Lemma Forall_when {A} (Q : A -> Prop) b l : (b = true -> Forall Q l) -> Forall Q (when b l).
Proof. intros Hl. destruct b; [by apply Hl|constructor]. Qed.

Lemma Forall_shown {A} (Q : Element -> Prop) (o : option A) f :
  (forall x, o = Some x -> Forall Q (f x)) -> Forall Q (shown o f).
Proof. intros Hf. destruct o; [by apply Hf|constructor]. Qed.

Lemma Forall_unless {A} (Q : A -> Prop) (b : bool) l : Forall Q l -> Forall Q (if b then [] else l).
Proof. intros Hl. by destruct b. Qed.

Lemma Forall_list_fmap {A B} (Q : B -> Prop) (f : A -> B) l : (forall x, x ∈ l -> Q (f x)) -> Forall Q (f <$> l).
Proof. intros Hf. apply Forall_fmap, Forall_forall. done. Qed.

Lemma Forall_mapM {A B} (Q : B -> Prop) (f : A -> option B) l rows :
  mapM f l = Some rows -> (forall x y, x ∈ l -> f x = Some y -> Q y) -> Forall Q rows.
Proof.
  intros Hm Hf. apply mapM_Some_1 in Hm. induction Hm as [|x y l rows Hx _ IH]; constructor.
  - apply (Hf x); [by left|done].
  - apply IH. intros x' y' Hin. apply Hf. by right.
Qed.

Lemma filter_map {A B} (f : A -> B) (P : B -> Prop) (Q : A -> Prop)
    `{!forall x, Decision (P x), !forall x, Decision (Q x)} (l : list A) :
  (forall x, P (f x) <-> Q x) -> filter P (f <$> l) = f <$> filter Q l.
Proof.
  intros HPQ. induction l as [|x l IH]; [done|]. rewrite fmap_cons, !filter_cons.
  destruct (decide (P (f x))), (decide (Q x)); cbn; rewrite ?IH; firstorder.
Qed.

(** One step into a tree of widgets. *)
Ltac view_step :=
  match goal with
  | |- offers _ (Text _ _) => apply offers_Text
  | |- offers _ Space => apply offers_Space
  | |- offers _ (btn _ _ _) => apply offers_btn
  | |- offers _ (btn_maybe _ _ _ _) => apply offers_btn_maybe; intros ?
  | |- offers _ (Button _ _ _) => apply offers_Button; [intros ? [= <-]|]
  | |- offers _ (TextInput _ _ _ _) => apply offers_TextInput; intros ?
  | |- offers _ (Checkbox _ _ _) => apply offers_Checkbox; intros ?
  | |- offers _ (PickList _ _ _) => apply offers_PickList
  | |- offers _ (Row _) => apply offers_Row
  | |- offers _ (Column _) => apply offers_Column
  | |- offers _ (Container _ _) => apply offers_Container
  | |- offers _ (Scrollable _) => apply offers_Scrollable
  | |- offers _ (label _) => apply offers_Text
  | |- offers _ (section_label _) => apply offers_Text
  | |- offers _ (mono _) => apply offers_Text
  | |- offers _ (tinted _ _) => apply offers_Text
  | |- offers _ (dot _) => apply offers_dot
  | |- offers _ (pill _ _) => apply offers_pill
  | |- offers _ (if ?b then _ else _) => destruct b eqn:?
  | |- offers _ (form_row _ _) => unfold form_row
  | |- offers _ (input _ _ _) => unfold input
  | |- offers _ (indented_label _) => unfold indented_label
  | |- offers _ (indented_note_item _ _) => unfold indented_note_item
  | |- offers _ (secure_input _ _ _) => unfold secure_input
  | |- Forall _ [] => constructor
  | |- Forall _ (_ :: _) => constructor
  | |- Forall _ (_ ++ _) => apply Forall_app_2
  | |- Forall _ (when _ _) => apply Forall_when; intros ?
  | |- Forall _ (shown _ _) => apply Forall_shown; intros ? ?
  | |- Forall _ (_ <$> _) => apply Forall_list_fmap; intros ? ?
  | |- Forall _ (if _ then [] else _) => apply Forall_unless
  | |- Forall _ (if ?b then _ else _) => destruct b eqn:?
  end.

Ltac view := repeat view_step; try done.

Section bits.
Context (P : Msg.Message -> Prop).
Context (Hcopy : forall t, P (Msg.CopyText t)) (Hro : P Msg.ReadOnlyEdited).

Lemma offers_notice o : Forall (offers P) (notice_line o).
Proof using. unfold notice_line. view. Qed.

Lemma offers_copy v : offers P (copy_button v).
Proof using Hcopy. unfold copy_button. view. Qed.

Lemma offers_info n v c : offers P (info_row n v c).
Proof using Hcopy. unfold info_row. view. apply offers_copy. Qed.

Lemma offers_arrow l r : offers P (arrow_copy_row l r).
Proof using Hcopy. unfold arrow_copy_row. view; apply offers_copy. Qed.

Lemma offers_route v : offers P (route_row v).
Proof using Hcopy. unfold route_row. view. apply offers_copy. Qed.

Lemma offers_indented v : offers P (indented_item v).
Proof using. unfold indented_item. view. Qed.

Lemma offers_endpoint v : offers P (endpoint_field v).
Proof using Hcopy Hro. unfold endpoint_field. view. Qed.

Lemma offers_save s b m c rest : (b = true -> P m) -> P c -> Forall (offers P) rest -> offers P (save_cancel s b m c rest).
Proof using. intros. unfold save_cancel. view. auto. Qed.
End bits.

(** ** Where a message makes sense *)

Section sensible.
Context {KP : KeyPairs} {ID : Identities} {NA : IpNetworkApi} {PK : PublicKeys}.
Context (rule_text : RuleError -> bytes) (now : Z) (version fresh : bytes).

Abbreviation profiles_of a := (a_profiles (a_data a)).
Abbreviation keys_of a := (a_keys (a_data a)).
Abbreviation server_of a := (a_server (a_data a)).

Definition idle (p : Supervisor.Phase) : bool := match p with PIdle | PFailed => true | _ => false end.

(** The selected profile, with the id of its pane. *)
Definition selected_profile (a : App) (id : bytes) (p : Profile) : Prop :=
  a_selection a = SelProfile id /\ find_profile (profiles_of a) id = Some p.

(** The message acts on something that exists, in the state its handler works in. *)
Definition sensible_base (a : App) (m : Msg.Message) : Prop :=
  let F := a_forms a in
  match m with
  | Msg.Select (SelProfile id) => is_Some (find_profile (profiles_of a) id)
  | Msg.Select SelServer => is_Some (server_of a)
  | Msg.Select _ | Msg.CopyText _ | Msg.ReadOnlyEdited | Msg.AddProfile | Msg.ImportProfiles => True
  | Msg.ExportProfiles => profiles_of a <> []
  | Msg.OpenLogFolder | Msg.CopyLogs => a_selection a = SelLogs
  | Msg.LogFilterChanged f => f ∈ log_filters a
  | Msg.EditProfile id | Msg.DeleteProfile id | Msg.AddForward id => exists p, selected_profile a id p
  | Msg.Connect id =>
      exists p, selected_profile a id p /\ is_ready p (keys_of a) = true /\ idle (sn_phase (snapshot_for a id)) = true
  | Msg.Disconnect id => exists p, selected_profile a id p /\ idle (sn_phase (snapshot_for a id)) = false
  | Msg.ShowConnPath => exists id p, selected_profile a id p /\ sn_phase (snapshot_for a id) = PConnected
  | Msg.EditForward pid fid | Msg.DeleteForward pid fid | Msg.ToggleForward pid fid _ =>
      exists p f, selected_profile a pid p /\ f ∈ p_forwards p /\ pf_id f = fid
  | Msg.FormLabelChanged _ | Msg.FormLocalPortChanged _ | Msg.FormRemoteHostChanged _ | Msg.FormRemotePortChanged _
  | Msg.FormEnabledToggled _ | Msg.FormCancel =>
      exists id p f, selected_profile a id p /\ forward_form F = Some (id, f)
  | Msg.FormSave =>
      exists id p f, selected_profile a id p /\ forward_form F = Some (id, f)
        /\ is_ok (ForwardForm_validate f fresh (profiles_of a)) = true
  | Msg.ProfileNameChanged _ | Msg.ServerNodeIdChanged _ | Msg.SocksEnabledToggled _ | Msg.SocksPortChanged _
  | Msg.HttpEnabledToggled _ | Msg.HttpPortChanged _ | Msg.RelayUrlsChanged _ | Msg.RelayAuthTokenChanged _
  | Msg.ProfileFormCancel => is_Some (profile_form F)
  | Msg.AuthKeyPicked c => is_Some (profile_form F) /\ is_Some (find_key (keys_of a) (kc_id c))
  | Msg.NewKeyPrompt => exists f, profile_form F = Some f /\ pfm_new_key f = None
  | Msg.NewKeyNameChanged _ | Msg.NewKeyCancel => exists f name, profile_form F = Some f /\ pfm_new_key f = Some name
  | Msg.NewKeyCreate =>
      exists f name, profile_form F = Some f /\ pfm_new_key f = Some name
        /\ is_ok (validate_key_name name (keys_of a) None) = true
  | Msg.ProfileFormSave =>
      exists f, profile_form F = Some f /\ is_ok (ProfileForm_validate f fresh (profiles_of a) (keys_of a)) = true
  | Msg.AddKey => a_selection a = SelKeys
  | Msg.EditKey id | Msg.DeleteKey id => is_Some (find_key (keys_of a) id)
  | Msg.ExportKey id => exists k, k ∈ keys_of a /\ k_id k = id /\ k_secret k <> []
  | Msg.KeyNameChanged _ | Msg.KeySecretChanged _ | Msg.KeyGenerateSecret | Msg.KeyFormCancel => is_Some (key_form F)
  | Msg.KeyFormSave => exists f, key_form F = Some f /\ is_ok (KeyForm_validate f fresh (keys_of a)) = true
  | Msg.SetUpServer | Msg.BeginServerSetup => server_of a = None
  | Msg.EditServer | Msg.DeleteServer | Msg.AuthorizeClient => is_Some (server_of a)
  | Msg.SetServerEnabled _ => is_Some (server_of a) /\ ss_phase (a_server_snapshot a) <> SvStopping
  | Msg.RestartServer => server_needs_restart a = true
  | Msg.RemoveClient public => exists s, server_of a = Some s /\ public ∈ ac_public <$> sv_clients s
  | Msg.ClientNameChanged _ | Msg.ClientPublicKeyChanged _ | Msg.ClientFormCancel => is_Some (client_form F)
  | Msg.ClientUseOwnKey c =>
      is_Some (client_form F)
      /\ exists s k, server_of a = Some s /\ k ∈ keys_of a /\ k_id k = kc_id c /\ k_public k ∉ ac_public <$> sv_clients s
  | Msg.ClientFormSave =>
      exists s f, server_of a = Some s /\ client_form F = Some f /\ is_ok (ClientForm_validate f (sv_clients s)) = true
  | Msg.ExportServerSecret => exists s, server_of a = Some s /\ sv_secret s <> []
  | Msg.ReplaceIdentity import => exists s, server_of a = Some s /\ (import = true -> sv_secret s = [])
  | Msg.IdentityImportToggled _ | Msg.IdentitySecretChanged _ | Msg.IdentityFormCancel => is_Some (identity_form F)
  | Msg.IdentityRegenerate => exists c, identity_form F = Some c /\ ic_import c = None
  | Msg.IdentityFormSave =>
      exists s c, server_of a = Some s /\ identity_form F = Some c /\ is_ok (IdentityChoice_resolve c) = true
  | Msg.ServerImportToggled _ | Msg.ServerImportSecretChanged _ =>
      exists f, server_form F = Some f /\ is_Some (sf_identity f)
  | Msg.ServerRegenerateIdentity => exists f c, server_form F = Some f /\ sf_identity f = Some c /\ ic_import c = None
  | Msg.ServerRoutedDomainsChanged _ | Msg.ServerRoutedCidrsChanged _ | Msg.ServerRelayUrlsChanged _
  | Msg.ServerRelayAuthTokenChanged _ => exists f, server_form F = Some f /\ sf_identity f = None
  | Msg.ServerFormCancel => is_Some (server_form F)
  | Msg.ServerFormSave =>
      exists f, server_form F = Some f
        /\ match sf_identity f with
           | Some c => is_ok (IdentityChoice_resolve c) = true
           | None => is_ok (ServerForm_validate f (server_of a)) = true
           end
  | Msg.Tick | Msg.SetupTray | Msg.TrayMenu _ | Msg.TrayIcon _ | Msg.WindowOpened | Msg.WindowClosed _
  | Msg.ExportPicked _ | Msg.ImportPicked _ | Msg.DismissConnPath | Msg.StoreResetQuit | Msg.StoreResetContinue => False
  end.

(** With an overlay open nothing but the overlay can be used. *)
Definition sensible (a : App) (m : Msg.Message) : Prop :=
  match store_reset a, conn_path_modal a with
  | Some _, _ => m = Msg.StoreResetQuit \/ m = Msg.StoreResetContinue
  | None, Some _ => m = Msg.DismissConnPath
  | None, None => sensible_base a m
  end.

Lemma find_profile_in (ps : list Profile) p : p ∈ ps -> is_Some (find_profile ps (p_id p)).
Proof.
  intros Hp. unfold find_profile. destruct (list_find _ ps) as [[i q]|] eqn:E; [by eexists|].
  apply list_find_None in E. rewrite Forall_forall in E. by destruct (E p Hp).
Qed.

Lemma find_key_in ks k : k ∈ ks -> is_Some (find_key ks (k_id k)).
Proof.
  intros Hk. unfold find_key. destruct (list_find _ ks) as [[i q]|] eqn:E; [by eexists|].
  apply list_find_None in E. rewrite Forall_forall in E. by destruct (E k Hk).
Qed.

Lemma find_profile_id ps id p : find_profile ps id = Some p -> p_id p = id /\ p ∈ ps.
Proof.
  unfold find_profile. destruct (list_find _ ps) as [[i q]|] eqn:E; [|done]. intros [= <-].
  apply list_find_Some in E as (Hi & <- & _). split; [done|]. by eapply list_elem_of_lookup_2.
Qed.

Context (a : App).
Abbreviation good := (offers (sensible_base a)).

Lemma sidebar_good : good (sidebar version a).
Proof.
  unfold sidebar. view.
  - unfold sidebar_profile_row. view. by apply find_profile_in.
  - destruct (server_of a) eqn:E; [|by view; cbn].
    unfold sidebar_server_row. view. cbn. by rewrite E.
  - cbn. intros E. by rewrite E in *.
  - apply offers_notice.
Qed.

Lemma complaint_good {A} (r : result FormError A) : Forall good (complaint rule_text r).
Proof. unfold complaint. destruct r; view. Qed.

Lemma copy_good v : good (copy_button v).
Proof. by apply offers_copy. Qed.

Lemma info_good n v c : good (info_row n v c).
Proof. by apply offers_info. Qed.

(** *** A connection *)

Section profile.
Context (id : bytes) (p : Profile) (Hsel : selected_profile a id p).

Lemma selected_id : p_id p = id.
Proof using Hsel. destruct Hsel as [_ Hf]. by apply find_profile_id in Hf as [? _]. Qed.

Lemma connect_good style ready :
  (ready = true -> is_ready p (keys_of a) = true) -> idle (sn_phase (snapshot_for a id)) = true ->
  good (ready_connect ready p style).
Proof using Hsel.
  intros Hr Hi. unfold ready_connect. view. cbn. rewrite selected_id. exists p. split_and!; auto.
Qed.

Lemma banner_good : Forall good (connection_banner p (is_ready p (keys_of a)) (snapshot_for a id)).
Proof using Hsel.
  unfold connection_banner. destruct (sn_phase (snapshot_for a id)) eqn:E; view.
  all: apply connect_good; [done|by rewrite E].
Qed.

Lemma forward_form_good f :
  forward_form (a_forms a) = Some (id, f) -> good (forward_form_view rule_text fresh a f).
Proof using Hsel.
  intros Hf. unfold forward_form_view. view; try (cbn; by eauto).
  - apply complaint_good.
  - apply offers_save; [|cbn; by eauto|constructor]. cbn. by eauto 8.
Qed.

Lemma forward_card_good snapshot set f : f ∈ p_forwards p -> good (forward_card a p snapshot set f).
Proof using Hsel.
  intros Hf. assert (Hm : sensible_base a (Msg.EditForward (p_id p) (pf_id f))).
  { cbn. rewrite selected_id. by eauto. }
  unfold forward_card. destruct (forward_pill _ _ _). view.
  - by apply offers_arrow.
  - destruct (status_for snapshot f) as [s|]; cbn; [destruct (st_state s)|]; view.
  - apply offers_Toggler. intros ? ? [= <-]. done.
Qed.

Lemma routes_good snapshot : good (routes_section snapshot).
Proof using.
  unfold routes_section. view; try (by apply offers_route); try (by apply offers_arrow).
  induction (tr_bridges _) as [|b bs IH]; cbn; view. unfold bridge_section. view.
  all: first [by apply copy_good|by apply offers_indented].
Qed.

Lemma connection_info_good snapshot info : connection_info a p snapshot = Some info -> good info.
Proof using.
  unfold connection_info. destruct (truncate_middle (p_server p) 22) as [node|]; [|done]. cbn.
  destruct (match find_key _ _ with Some k => _ | None => _ end) as [key_row|] eqn:E; [|done]. cbn. intros [= <-].
  view; try apply info_good. destruct (find_key _ _) as [k|]; simplify_eq/=; view.
  destruct (truncate_middle _ _); simplify_eq/=. view. apply info_good.
Qed.

Lemma profile_detail_good e : profile_detail rule_text now fresh a p = Some e -> good e.
Proof using Hsel.
  unfold profile_detail. rewrite selected_id.
  intros (info & Hinfo & <-%(inj Some))%bind_Some.
  assert (Hp : exists p, selected_profile a id p) by by eexists.
  view.
  - unfold profile_hero. view. destruct (sn_phase (snapshot_for a id)) eqn:E.
    all: first [apply connect_good; [done|by rewrite E]|idtac].
    all: view; cbn; rewrite selected_id; exists p; by rewrite E.
  - apply offers_notice.
  - cbn. exists id, p. split; [done|]. by eapply bool_decide_eq_true_1.
  - by eapply connection_info_good.
  - apply routes_good.
  - apply banner_good.
  - destruct x as [id' f]. cbn in *. case_bool_decide; [|done]. subst id'. by apply forward_form_good.
  - unfold profile_forwards. view. by apply forward_card_good.
Qed.
End profile.

(** *** Forms *)

Lemma public_key_row_good public e : public_key_row public = Some e -> good e.
Proof.
  intros (short & _ & <-%(inj Some))%bind_Some. view. apply copy_good.
Qed.

Lemma key_choice_good f k : sensible_base a (f (mkKeyChoice (k_id k) (k_name k))) -> sensible_base a (key_choice f k).2.
Proof. done. Qed.

Lemma proxy_row_good on port toggled changed :
  (forall b, sensible_base a (toggled b)) -> (forall v, sensible_base a (changed v)) ->
  good (proxy_row on port toggled changed).
Proof. intros. unfold proxy_row. view; auto. Qed.

Lemma key_section_good f l :
  profile_form (a_forms a) = Some f -> key_section rule_text a f = Some l -> Forall good l.
Proof.
  intros Hf. unfold key_section. destruct (pfm_new_key f) as [new_name|] eqn:Hn.
  - intros <-%(inj Some). view; try (cbn; by eauto 6). apply complaint_good.
  - assert (Hpick : good (form_row (str "Auth key")
      (Row [PickList (key_choice Msg.AuthKeyPicked <$> keys_of a) (k_name <$> find_key (keys_of a) (pfm_key_id f))
              (Some (if bool_decide (keys_of a = []) then str "no keys yet" else str "pick a key"));
            btn Outlined (str "New key…") Msg.NewKeyPrompt]))).
    { view; [|cbn; by eauto]. apply key_choice_good. cbn. split; [by rewrite Hf|]. by apply find_key_in. }
    destruct (find_key (keys_of a) (pfm_key_id f)) as [k|].
    + intros (row & Hrow & <-%(inj Some))%bind_Some. repeat constructor; [done|]. by eapply public_key_row_good.
    + intros <-%(inj Some). by repeat constructor.
Qed.

Lemma profile_form_good f e :
  profile_form (a_forms a) = Some f -> profile_form_view rule_text fresh a f = Some e -> good e.
Proof.
  intros Hf (rows & Hrows & <-%(inj Some))%bind_Some.
  assert (Hopen : is_Some (profile_form (a_forms a))) by by rewrite Hf.
  view; try done.
  - by eapply key_section_good.
  - by apply proxy_row_good.
  - by apply proxy_row_good.
  - apply complaint_good.
  - apply offers_save; [cbn; by eauto|done|apply offers_notice].
Qed.

Lemma client_form_good s f :
  server_of a = Some s -> client_form (a_forms a) = Some f -> good (client_form_view rule_text a s f).
Proof.
  intros Hs Hf. assert (Hopen : is_Some (client_form (a_forms a))) by by rewrite Hf.
  unfold client_form_view. view; try done.
  - apply list_elem_of_filter in H as [Hno Hk]. apply key_choice_good. cbn. by eauto 8.
  - apply complaint_good.
  - apply offers_save; [cbn; by eauto 6|done|constructor].
Qed.

Lemma picker_good c on_toggle on_secret on_regenerate :
  (forall b, sensible_base a (on_toggle b)) -> (forall v, sensible_base a (on_secret v)) ->
  (ic_import c = None -> sensible_base a on_regenerate) ->
  good (identity_picker rule_text c on_toggle on_secret on_regenerate).
Proof.
  intros Ht Hs Hr. unfold identity_picker. view; auto.
  - unfold segmented. view; apply Ht.
  - destruct (IdentityChoice_resolve c) as [[? endpoint]|e].
    + view; [by apply offers_endpoint|]. apply Hr. destruct (ic_import c); [|done].
      by rewrite bool_decide_eq_true_2 in H by by eexists.
    + destruct (ic_import c); view.
Qed.

Lemma identity_form_good s c :
  server_of a = Some s -> identity_form (a_forms a) = Some c -> good (identity_form_view rule_text s c).
Proof.
  intros Hs Hc. assert (Hopen : is_Some (identity_form (a_forms a))) by by rewrite Hc.
  unfold identity_form_view. view.
  - apply picker_good; [done|done|]. cbn. by eauto.
  - destruct (IdentityChoice_resolve c) as [[? endpoint]|e]; view.
  - apply offers_save; [cbn; by eauto 6|done|constructor].
Qed.

Lemma server_form_good f : server_form (a_forms a) = Some f -> good (server_form_view rule_text a f).
Proof.
  intros Hf. assert (Hopen : is_Some (server_form (a_forms a))) by by rewrite Hf.
  unfold server_form_view. destruct (sf_identity f) as [c|] eqn:Hc; view.
  - unfold server_setup_card. view.
    + apply picker_good; cbn; by eauto 6.
    + apply offers_save; [|done|apply offers_notice]. cbn. intros Hok. exists f. by rewrite Hc.
  - unfold server_settings_card. view; try (cbn; by eauto).
    + apply complaint_good.
    + apply offers_save; [|done|apply offers_notice]. cbn. intros Hok. exists f. by rewrite Hc.
Qed.

(** *** The server's pane *)

Section server.
Context (s : DesktopStore.ServerConfig) (Hs : server_of a = Some s).

Lemma server_set : is_Some (server_of a).
Proof using Hs. by rewrite Hs. Qed.

Lemma endpoint_card_good : good (endpoint_card rule_text a s).
Proof using Hs.
  unfold endpoint_card. view.
  - by apply offers_endpoint.
  - destruct (identity_form (a_forms a)) as [c|] eqn:Hc; [view; by apply identity_form_good|].
    case_bool_decide; view; cbn; exists s; by split.
Qed.

Lemma clients_good l : clients_section a s = Some l -> Forall good l.
Proof using Hs.
  unfold clients_section. case_bool_decide; [intros <-%(inj Some); view|].
  intros (rows & Hrows & <-%(inj Some))%bind_Some. view. eapply Forall_mapM; [exact Hrows|].
  intros c row Hc (short & _ & <-%(inj Some))%bind_Some. view.
  - apply copy_good.
  - cbn. exists s. split; [done|]. by apply list_elem_of_fmap_2.
Qed.

Lemma server_hero_good : good (server_hero now a s).
Proof using Hs.
  pose proof server_set. unfold server_hero.
  destruct (match ss_phase (a_server_snapshot a) with SvStopped => _ | _ => _ end) as [text color].
  view. apply offers_Toggler. intros f b Hf.
  destruct (ss_phase (a_server_snapshot a)) eqn:E; simplify_eq; split; try done; by rewrite E.
Qed.

Lemma server_notes_good : Forall good (server_notes a s).
Proof using. unfold server_notes. view. apply offers_notice. Qed.

Lemma tunnel_good : good (tunnel_card s).
Proof using. unfold tunnel_card. view; try apply offers_indented. apply info_good. Qed.

Lemma server_detail_good e : server_detail rule_text now a s = Some e -> good e.
Proof using Hs.
  intros (clients & Hc & <-%(inj Some))%bind_Some. pose proof server_set. view; try done.
  - apply server_hero_good.
  - apply server_notes_good.
  - apply endpoint_card_good.
  - by apply client_form_good.
  - by apply clients_good.
  - apply tunnel_good.
Qed.
End server.

(** *** The other panes *)

Lemma key_form_good f e :
  key_form (a_forms a) = Some f -> key_form_view rule_text fresh a f = Some e -> good e.
Proof.
  intros Hf (rows & Hrows & <-%(inj Some))%bind_Some.
  assert (Hopen : is_Some (key_form (a_forms a))) by by rewrite Hf.
  view; try done.
  - destruct (match KeyForm_validate _ _ _ with Ok _ => _ | Err _ => _ end); simplify_eq; [|constructor].
    apply bind_Some in Hrows as (row & Hrow & <-%(inj Some)). view. by eapply public_key_row_good.
  - apply complaint_good.
  - apply offers_save; [cbn; by eauto|done|constructor].
Qed.

Lemma key_card_good k e : k ∈ keys_of a -> key_card a k = Some e -> good e.
Proof.
  intros Hk (short & _ & <-%(inj Some))%bind_Some. pose proof (find_key_in _ _ Hk). view; try done.
  - cbn. exists k. split_and!; [done|done|]. intros E. by rewrite bool_decide_eq_true_2 in *.
  - apply info_good.
Qed.

Lemma keys_pane_good e : a_selection a = SelKeys -> keys_pane rule_text fresh a = Some e -> good e.
Proof.
  intros Hsel (form & Hform & (cards & Hcards & <-%(inj Some))%bind_Some)%bind_Some. view; try done.
  - apply offers_notice.
  - destruct (key_form (a_forms a)) as [f|] eqn:Hf; simplify_eq; [|constructor].
    apply bind_Some in Hform as (e & He & <-%(inj Some)). view. by eapply key_form_good.
  - eapply Forall_mapM; [exact Hcards|]. intros k card [_ Hk]%list_elem_of_filter. by apply key_card_good.
Qed.

Lemma logs_pane_good : a_selection a = SelLogs -> good (logs_pane a).
Proof. intros Hsel. unfold logs_pane. view. Qed.

Lemma detail_pane_good e : detail_pane rule_text now fresh a = Some e -> good e.
Proof.
  intros (content & Hc & <-%(inj Some))%bind_Some. view.
  destruct (profile_form (a_forms a)) eqn:Hpf; [by eapply profile_form_good|].
  destruct (server_form (a_forms a)) eqn:Hsf; [apply (inj Some) in Hc as <-; by apply server_form_good|].
  destruct (a_selection a) as [|id| | |] eqn:Hsel.
  - apply (inj Some) in Hc as <-. unfold empty_state. view.
  - destruct (find_profile (profiles_of a) id) eqn:Hp; [by eapply profile_detail_good|].
    apply (inj Some) in Hc as <-. unfold empty_state. view.
  - destruct (server_of a) eqn:Hs; [by eapply server_detail_good|]. apply (inj Some) in Hc as <-.
    unfold server_welcome, welcome_step. view.
  - by eapply keys_pane_good.
  - apply (inj Some) in Hc as <-. by apply logs_pane_good.
Qed.

Lemma root_good e : root rule_text now version fresh a = Some e -> offers (sensible a) e.
Proof.
  intros (detail & Hd & <-%(inj Some))%bind_Some. unfold sensible.
  destruct (store_reset a) as [reset|]; [|destruct (conn_path_modal a) as [snapshot|]].
  - apply offers_modal; [|done]. unfold store_reset_modal. destruct (reset_texts reset) as [[[? ?] ?] ?].
    view; auto.
  - apply offers_modal; [|by intros ? [= <-]]. unfold conn_path_view. view.
    + unfold path_row. view.
    + unfold custom_relay_row. destruct (match cr_working _ with Some true => _ | _ => _ end). view.
  - view; [apply sidebar_good|by eapply detail_pane_good].
Qed.
End sensible.

(** ** What a form says *)

(** The optional token of a field. *)
Definition token_typed (text : bytes) : option bytes :=
  if bool_decide (trim text = []) then None else Some (trim text).

(** The port of a field that is switched on. *)
Definition port_typed (on : bool) (text : bytes) (o : option Z) : Prop :=
  if on then exists z what, parse_port text what = Ok z /\ o = Some z else o = None.

Section typed.
Context {PK : PublicKeys} {KP : KeyPairs} {ID : Identities} {NA : IpNetworkApi}.

Definition key_typed (new_id : bytes) (f : KeyForm) (k : AuthKey) : Prop :=
  k = mkAuthKey (default new_id (kf_editing f)) (normalize_name (kf_name f)) (k_public k) (trim (kf_secret f))
  /\ public_of_secret (trim (kf_secret f)) = Ok (k_public k).

(** A profile keeps the forwards it had. *)
Definition profile_typed (new_id : bytes) (ps : list Profile) (f : ProfileForm) (q : Profile) : Prop :=
  q = mkProfile (default new_id (pfm_editing f)) (normalize_name (pfm_name f)) (trim (pfm_server f)) (pfm_key_id f)
        (p_socks q) (p_http q) (split_list (pfm_relay_urls f)) (token_typed (pfm_token f))
        (default [] (p_forwards <$> (pfm_editing f ≫= find_profile ps)))
  /\ port_typed (pfm_socks_enabled f) (pfm_socks f) (p_socks q)
  /\ port_typed (pfm_http_enabled f) (pfm_http f) (p_http q).

Definition forward_typed (new_id : bytes) (f : ForwardForm) (w : PortForward) : Prop :=
  w = mkPortForward (default new_id (fo_editing f)) (pf_label w) (pf_local_port w) (pf_remote_host w)
        (pf_remote_port w) (fo_enabled f)
  /\ validate_label (fo_label f) = Ok (pf_label w) /\ validate_remote_host (fo_host f) = Ok (pf_remote_host w)
  /\ port_typed true (fo_local f) (Some (pf_local_port w))
  /\ port_typed true (fo_remote f) (Some (pf_remote_port w)).

Definition client_typed (f : ClientForm) (c : AuthorizedClient) : Prop :=
  ac_name c = normalize_name (cf_name f) /\ parse_client_public_key (cf_public f) = Ok (ac_public c).

Definition identity_typed (c : IdentityChoice) (secret endpoint : bytes) : Prop :=
  secret = trim (default (ic_generated c) (ic_import c)) /\ endpoint_of_secret secret = Ok endpoint.

(** A new server is switched on and has no clients; a settings form keeps the rest. *)
Definition server_typed (current : option DesktopStore.ServerConfig) (f : ServerForm)
    (s : DesktopStore.ServerConfig) : Prop :=
  sv_domains s = split_list (sf_domains f) /\ sv_cidrs s = split_list (sf_cidrs f)
  /\ sv_relay_urls s = split_list (sf_relays f) /\ sv_token s = token_typed (sf_token f)
  /\ match sf_identity f with
     | Some c => identity_typed c (sv_secret s) (sv_endpoint_id s) /\ sv_clients s = [] /\ sv_enabled s = true
     | None => exists old, current = Some old /\ sv_secret s = sv_secret old
                 /\ sv_endpoint_id s = sv_endpoint_id old /\ sv_clients s = sv_clients old
                 /\ sv_enabled s = sv_enabled old
     end.

Lemma form_token_typed text urls o : form_token text urls = Ok o -> o = token_typed text.
Proof. unfold form_token. cbv zeta. intros (u & _ & [= <-])%bind_ok. done. Qed.

Lemma key_name_typed name ks own n : validate_key_name name ks own = Ok n -> n = normalize_name name.
Proof.
  unfold validate_key_name. cbv zeta. intros (? & _ & Hv)%bind_ok. apply bind_ok in Hv as (? & _ & Hv).
  by apply bind_ok in Hv as (? & _ & [= <-]).
Qed.

Lemma KeyForm_typed f i ks k : KeyForm_validate f i ks = Ok k -> key_typed i f k.
Proof.
  unfold KeyForm_validate. cbv zeta. intros (name & Hn%key_name_typed & Hv)%bind_ok.
  apply bind_ok in Hv as (? & _ & Hv). apply bind_ok in Hv as (public & Hpub%map_err_ok & Hv).
  apply bind_ok in Hv as (? & _ & [= <-]). subst name. by split.
Qed.

Lemma ProfileForm_typed f i ps ks q : ProfileForm_validate f i ps ks = Ok q -> profile_typed i ps f q.
Proof.
  unfold ProfileForm_validate. cbv zeta. intros Hv. do 6 (apply bind_ok in Hv as (? & _ & Hv)).
  apply bind_ok in Hv as (socks & Hsocks & Hv). apply bind_ok in Hv as (http & Hhttp & Hv).
  apply bind_ok in Hv as (token & ->%form_token_typed & [= <-]). split; [done|]. cbn. split.
  - unfold port_typed. destruct (pfm_socks_enabled f); [|by injection Hsocks as <-].
    apply fmap_ok in Hsocks as (n & Hn & ->). apply bind_ok in Hn as (z & Hz%map_err_ok & Hn).
    destruct (port_owner _ _ _ _); [done|]. injection Hn as <-. by eexists _, _.
  - unfold port_typed. destruct (pfm_http_enabled f); [|by injection Hhttp as <-].
    apply fmap_ok in Hhttp as (n & Hn & ->). apply bind_ok in Hn as (z & Hz%map_err_ok & Hn).
    apply bind_ok in Hn as (? & _ & Hn). destruct (port_owner _ _ _ _); [done|]. injection Hn as <-.
    by eexists _, _.
Qed.

Lemma ForwardForm_typed f i ps w : ForwardForm_validate f i ps = Ok w -> forward_typed i f w.
Proof.
  unfold ForwardForm_validate. intros (label & Hl%map_err_ok & Hv)%bind_ok.
  apply bind_ok in Hv as (local & Hlo%map_err_ok & Hv). apply bind_ok in Hv as (host & Hh%map_err_ok & Hv).
  apply bind_ok in Hv as (remote & Hr%map_err_ok & Hv). apply bind_ok in Hv as (? & _ & [= <-]).
  split_and!; [done..| |]; by eexists _, _.
Qed.

Lemma ClientForm_typed f cs c : ClientForm_validate f cs = Ok c -> client_typed f c.
Proof.
  unfold ClientForm_validate. cbv zeta. intros Hv. do 4 (apply bind_ok in Hv as (? & _ & Hv)).
  apply bind_ok in Hv as (public & Hp%map_err_ok & Hv). by apply bind_ok in Hv as (? & _ & [= <-]).
Qed.

Lemma Identity_typed c secret endpoint :
  IdentityChoice_resolve c = Ok (secret, endpoint) -> identity_typed c secret endpoint.
Proof.
  unfold IdentityChoice_resolve. cbv zeta. intros (? & _ & Hv)%bind_ok.
  by apply bind_ok in Hv as (e & He%map_err_ok & [= <- <-]).
Qed.

Lemma ServerForm_typed f current s : ServerForm_validate f current = Ok s -> server_typed current f s.
Proof.
  unfold ServerForm_validate. intros ([[[secret endpoint] clients] enabled] & Hbase & Hv)%bind_ok.
  cbv zeta in Hv. apply bind_ok in Hv as (? & _ & Hv).
  apply bind_ok in Hv as (token & ->%form_token_typed & [= <-]). split_and!; [done..|]. cbn.
  unfold ServerForm_base in Hbase. destruct (sf_identity f) as [c|].
  - apply bind_ok in Hbase as ([s0 e0] & Hr%Identity_typed & [= <- <- <- <-]). done.
  - destruct current as [old|]; [|done]. injection Hbase as <- <- <- <-. by exists old.
Qed.
End typed.

(** [x] is in the list and the entries of other ids are as before. *)
Definition stored {A} (id : A -> bytes) (x : A) (l l' : list A) : Prop :=
  x ∈ l' /\ forall y, id y <> id x -> y ∈ l' <-> y ∈ l.

Lemma insert_stored {A} (id : A -> bytes) (x y : A) (l : list A) pos :
  l !! pos = Some y -> id y = id x -> stored id x l (<[pos := x]> l).
Proof.
  intros Hpos Hid. pose proof (lookup_lt_Some _ _ _ Hpos) as Hlt.
  rewrite (insert_take_drop l pos x) by done. split; [set_solver|]. intros z Hz.
  rewrite <- (take_drop_middle l pos y Hpos) at 3. rewrite !elem_of_app, !elem_of_cons.
  split; intros [?|[->|?]]; auto; by destruct Hz.
Qed.

Lemma upsert_stored {A} (id : A -> bytes) (x : A) (l : list A) : stored id x l (upsert id x l).
Proof.
  unfold upsert. destruct (list_find _ l) as [[pos y]|] eqn:E.
  - apply list_find_Some in E as (Hpos & Hid & _). by eapply insert_stored.
  - split; [set_solver|]. intros z Hz. rewrite elem_of_app, list_elem_of_singleton. naive_solver.
Qed.

(** ** What an offered message does *)

Lemma is_ok_bind_ext {E A B C} (r : result E A) (f : A -> result E B) (g : A -> result E C) :
  (forall x, is_ok (f x) = is_ok (g x)) -> is_ok (r ≫= f) = is_ok (r ≫= g).
Proof. intros Hfg. destruct r; [apply Hfg|done]. Qed.

Ltac same_checks := repeat (apply is_ok_bind_ext; intros ?); done.

Section effects.
Context `{SafeBox} `{Json (gmap bytes bytes)} (data_local_dir : option bytes).
Context `{Json StoreDoc} `{Json DevDoc} {PK : PublicKeys} `{Json Value}.
Context {KP : KeyPairs} {ID : Identities} {NA : IpNetworkApi}.
Context (error_text : StoreError -> bytes) (windows : bool).
Context (rule_text : RuleError -> bytes) (now : Z) (version fresh : bytes).

Abbreviation handle := (update data_local_dir error_text windows).
Abbreviation saving := (persist_store data_local_dir error_text).

(** The drawn id plays no part in a validation. *)
Lemma profile_check f i ps ks : is_ok (ProfileForm_validate f i ps ks) = is_ok (ProfileForm_validate f fresh ps ks).
Proof. unfold ProfileForm_validate. cbv zeta. same_checks. Qed.

Lemma key_check f i ks : is_ok (KeyForm_validate f i ks) = is_ok (KeyForm_validate f fresh ks).
Proof. unfold KeyForm_validate. cbv zeta. same_checks. Qed.

Lemma forward_check f i ps : is_ok (ForwardForm_validate f i ps) = is_ok (ForwardForm_validate f fresh ps).
Proof. unfold ForwardForm_validate. same_checks. Qed.

(** Saving changes no form but the notice, and no data. *)
Lemma saving_forms {A} (get : Forms -> A) an d :
  (forall t F, get (put_notice t F) = get F) -> get (app_forms (saving an d)) = get (app_forms d).
Proof.
  intros Hget. unfold persist_store. destruct (store_reset (d_app d)); [done|].
  destruct (saved _ _ _) as [[[]|e] m]; [done|]. cbn. apply Hget.
Qed.

Lemma notice_forms {A} (get : Forms -> A) t d :
  (forall t F, get (put_notice t F) = get F) -> get (app_forms (notice_unless_told t d)) = get (app_forms d).
Proof. intros Hget. unfold notice_unless_told. case_bool_decide; [apply Hget|done]. Qed.

Lemma resume_forms an d : app_forms (resume_server an d) = app_forms d.
Proof. unfold resume_server. destruct (app_server d); [|done]. by destruct (_ && _ && _). Qed.

Lemma save_keeps_data an d : data (saving an d) = data d.
Proof. apply persist_frame. Qed.

Lemma notice_data t d : data (notice_unless_told t d) = data d.
Proof. unfold notice_unless_told. by case_bool_decide. Qed.

Lemma resume_data an d : data (resume_server an d) = data d.
Proof. exact (f_equal (fst ∘ fst) (core_resume an d)). Qed.

(** A setup form as [ServerForm::add] makes it: its window offers no field but the
    identity. *)
Definition setup_fields (f : ServerForm) : Prop :=
  is_Some (sf_identity f) -> f = mkServerForm (sf_identity f) [] [] [] [].

Definition setup_plain (d : Desk) : Prop := forall f, server_form (app_forms d) = Some f -> setup_fields f.

(** What each Save stores, and what Connect sends. *)
Definition done_by (an : Answers) (d d' : Desk) (m : Msg.Message) : Prop :=
  let F := app_forms d in let F' := app_forms d' in
  match m with
  | Msg.KeyFormSave => exists f k, key_form F = Some f /\ key_typed (an_id an) f k
      /\ stored k_id k (app_keys d) (app_keys d') /\ key_form F' = None
  | Msg.ProfileFormSave => exists f q, profile_form F = Some f /\ profile_typed (an_id an) (app_profiles d) f q
      /\ stored p_id q (app_profiles d) (app_profiles d') /\ profile_form F' = None
  | Msg.FormSave => exists id f q w fs, forward_form F = Some (id, f) /\ find_profile (app_profiles d) id = Some q
      /\ forward_typed (an_id an) f w /\ stored pf_id w (p_forwards q) fs
      /\ stored p_id (with_p_forwards fs q) (app_profiles d) (app_profiles d') /\ forward_form F' = None
  | Msg.ClientFormSave => exists s f c, app_server d = Some s /\ client_form F = Some f /\ client_typed f c
      /\ app_server d' = Some (with_clients (sv_clients s ++ [c]) s) /\ client_form F' = None
  | Msg.IdentityFormSave => exists s c secret endpoint, app_server d = Some s /\ identity_form F = Some c
      /\ identity_typed c secret endpoint /\ app_server d' = Some (with_identity secret endpoint s)
      /\ identity_form F' = None
  | Msg.ServerFormSave => exists f s, server_form F = Some f /\ server_typed (app_server d) f s
      /\ app_server d' = Some s /\ server_form F' = None
  | Msg.NewKeyCreate => exists f name f', profile_form F = Some f /\ pfm_new_key f = Some name
      /\ app_keys d' = app_keys d ++ [mkAuthKey (an_id an) (normalize_name name) (an_key an).2 (an_key an).1]
      /\ profile_form F' = Some f' /\ pfm_key_id f' = an_id an /\ pfm_new_key f' = None
  | Msg.Connect id => exists q k, find_profile (app_profiles d) id = Some q
      /\ find_key (app_keys d) (p_key_id q) = Some k /\ k_secret k <> [] /\ p_server q <> []
      /\ d_sent d' = d_sent d ++ [Supervisor.Connect q (k_secret k)]
  | _ => True
  end.

Lemma server_save_done an d :
  setup_plain d -> sensible_base fresh (d_app d) Msg.ServerFormSave ->
  done_by an d (handle an Msg.ServerFormSave d).1 Msg.ServerFormSave.
Proof.
  intros Hsetup (f & Hf & Hok). specialize (Hsetup f Hf). cbn -[update].
  assert (Hv : is_ok (ServerForm_validate f (app_server d)) = true).
  { destruct (sf_identity f) as [c|] eqn:Hc; [|done].
    rewrite (Hsetup (mk_is_Some _ _ Hc)), Hc. unfold ServerForm_validate, ServerForm_base. cbn [sf_identity].
    destruct (IdentityChoice_resolve c) as [[? ?]|]; [|done]. reflexivity. }
  destruct (ServerForm_validate f (app_server d)) as [s|] eqn:Hs; [|done].
  exists f, s. split; [done|]. split; [by apply ServerForm_typed|].
  cbn. unfold save_server_form. rewrite Hf, Hs.
  match goal with |- context [if bool_decide (is_Some (notice (app_forms ?x))) then _ else _] => set (d1 := x) end.
  assert (Hd1 : server_form (app_forms d1) = None) by done.
  assert (Hs1 : app_server d1 = Some s) by exact (f_equal a_server (save_keeps_data an (set_notice None (set_server (Some s) d)))).
  clearbody d1. by repeat case_bool_decide.
Qed.

Lemma connect_done an d id :
  sensible_base fresh (d_app d) (Msg.Connect id) -> done_by an d (handle an (Msg.Connect id) d).1 (Msg.Connect id).
Proof.
  intros (p & [Hsel Hp] & Hr & _). unfold is_ready in Hr.
  apply andb_true_iff in Hr as [Hne Hk]. destruct (find_key _ _) as [k|] eqn:Hfind; [|done].
  rewrite negb_true_iff in Hne, Hk. exists p, k.
  cbn. unfold connect_profile. rewrite Hp, Hfind, Hne, Hk. apply bool_decide_eq_false in Hk, Hne. done.
Qed.

Lemma new_key_done an d :
  sensible_base fresh (d_app d) Msg.NewKeyCreate -> done_by an d (handle an Msg.NewKeyCreate d).1 Msg.NewKeyCreate.
Proof.
  intros (f & name & Hf & Hn & Hok). cbn. unfold create_key_for_profile_form. rewrite Hf. cbn. rewrite Hn.
  destruct (validate_key_name _ _ _) as [n|] eqn:Hv; [|done]. apply key_name_typed in Hv as ->.
  unfold edit_profile_form, edit_form. cbn. rewrite (saving_forms profile_form) by done. cbn. rewrite Hf.
  eexists f, name, _. split_and!; [done|done| |done|done|done].
  match goal with |- a_keys (data (saving an ?x)) = _ => by rewrite (save_keeps_data an x) end.
Qed.

Lemma key_save_done an d :
  sensible_base fresh (d_app d) Msg.KeyFormSave -> done_by an d (handle an Msg.KeyFormSave d).1 Msg.KeyFormSave.
Proof.
  intros (f & Hf & Hok). cbn. unfold save_key_form. rewrite Hf. rewrite <- (key_check f (an_id an)) in Hok.
  destruct (KeyForm_validate _ _ _) as [k|] eqn:Hv; [|done]. exists f, k.
  split; [done|]. split; [by eapply KeyForm_typed|]. split; [|done].
  match goal with |- stored _ _ _ (a_keys (data (on_forms _ (notice_unless_told ?t (saving an ?x))))) =>
    change (stored k_id k (app_keys d) (a_keys (data (notice_unless_told t (saving an x)))));
    rewrite notice_data, save_keeps_data end. apply upsert_stored.
Qed.

Lemma profile_save_done an d :
  sensible_base fresh (d_app d) Msg.ProfileFormSave ->
  done_by an d (handle an Msg.ProfileFormSave d).1 Msg.ProfileFormSave.
Proof.
  intros (f & Hf & Hok). cbn. unfold save_profile_form. rewrite Hf. rewrite <- (profile_check f (an_id an)) in Hok.
  destruct (ProfileForm_validate _ _ _ _) as [q|] eqn:Hv; [|done]. exists f, q.
  split; [done|]. split; [by eapply ProfileForm_typed|]. split; [|done]. cbv zeta.
  set (text := if session_running _ _ then _ else _).
  change (stored p_id q (app_profiles d) (a_profiles (data (notice_unless_told text (saving an (put_profile an q d)))))).
  rewrite notice_data, save_keeps_data. apply upsert_stored.
Qed.

Lemma forward_save_done an d :
  sensible_base fresh (d_app d) Msg.FormSave -> done_by an d (handle an Msg.FormSave d).1 Msg.FormSave.
Proof.
  intros (id & p & f & [_ Hp] & Hf & Hok). cbn. unfold save_forward_form. rewrite Hf.
  rewrite <- (forward_check f (an_id an)) in Hok. pose proof Hp as Hp'. unfold find_profile in Hp.
  destruct (ForwardForm_validate _ _ _) as [w|] eqn:Hv; [|done].
  destruct (list_find _ _) as [[pos q]|] eqn:Hfind; [|done]. injection Hp as ->.
  exists id, f, p, w, (upsert pf_id w (p_forwards p)).
  split_and!; [done|done|by eapply ForwardForm_typed|apply upsert_stored| |done]. cbv zeta.
  set (d0 := if pf_enabled w then _ else _). assert (Hd0 : app_profiles d0 = app_profiles d) by (unfold d0; by case_match).
  clearbody d0. apply list_find_Some in Hfind as (Hpos & _ & _).
  set (d1 := change_forwards pos p _ d0).
  assert (Hd1 : app_profiles d1 = <[pos := with_p_forwards (upsert pf_id w (p_forwards p)) p]> (app_profiles d))
    by (unfold d1, change_forwards; cbn; by rewrite Hd0).
  change (stored p_id (with_p_forwards (upsert pf_id w (p_forwards p)) p) (app_profiles d)
    (a_profiles (data (push_forwards id (saving an d1))))).
  rewrite (f_equal (fst ∘ fst) (core_push id (saving an d1)) : data _ = data _), save_keeps_data, Hd1.
  by eapply insert_stored.
Qed.

Lemma client_save_done an d :
  sensible_base fresh (d_app d) Msg.ClientFormSave ->
  done_by an d (handle an Msg.ClientFormSave d).1 Msg.ClientFormSave.
Proof.
  intros (s & f & Hs & Hf & Hok). cbn. unfold save_client_form. rewrite Hf, Hs.
  destruct (ClientForm_validate _ _) as [c|] eqn:Hv; [|done]. exists s, f, c.
  split_and!; [done|done|by eapply ClientForm_typed| |].
  - by rewrite resume_data, notice_data, save_keeps_data.
  - by rewrite resume_forms, (notice_forms client_form), (saving_forms client_form).
Qed.

Lemma identity_save_done an d :
  sensible_base fresh (d_app d) Msg.IdentityFormSave ->
  done_by an d (handle an Msg.IdentityFormSave d).1 Msg.IdentityFormSave.
Proof.
  intros (s & c & Hs & Hf & Hok). cbn. unfold save_identity_form. rewrite Hf, Hs.
  destruct (IdentityChoice_resolve c) as [[secret endpoint]|] eqn:Hv; [|done]. exists s, c, secret, endpoint.
  split_and!; [done|done|by apply Identity_typed| |].
  - by rewrite resume_data, notice_data, save_keeps_data.
  - by rewrite resume_forms, (notice_forms identity_form), (saving_forms identity_form).
Qed.

Lemma sensible_done an d m :
  setup_plain d -> sensible_base fresh (d_app d) m -> done_by an d (handle an m d).1 m.
Proof.
  intros Hsetup. destruct m; try done; auto using server_save_done, connect_done, new_key_done, key_save_done,
    profile_save_done, forward_save_done, client_save_done, identity_save_done.
Qed.

(** *** The setup form stays plain *)

(** A server form that is open was open, or is plain. *)
Definition plain_from (d d' : Desk) : Prop :=
  forall f, server_form (app_forms d') = Some f -> server_form (app_forms d) = Some f \/ setup_fields f.

Lemma plain_shown d d' : DesktopAppProofs.shown d' = DesktopAppProofs.shown d -> plain_from d d'.
Proof. intros Hs f Hf. left. rewrite <- Hf. exact (eq_sym (f_equal server_form Hs)). Qed.

Ltac same_form :=
  intros ? Hsf; first [left; exact Hsf | exfalso; cbn in Hsf; congruence
                      | right; cbn in Hsf; simplify_eq; unfold setup_fields; cbn; by (done || intros [])].

Ltac brute_plain := repeat case_match; same_form.

Lemma plain_edit {F} (get : Forms -> option F) put f d :
  (forall x fs, server_form (put x fs) = server_form fs) -> plain_from d (edit_form get put f d).
Proof.
  intros Hput g. unfold edit_form, on_forms, on_app. cbn. destruct (get (app_forms d)); [rewrite Hput|]; auto.
Qed.

(** The settings' fields are edited only where there is no identity to choose. *)
Definition edits_settings (m : Msg.Message) : Prop :=
  match m with
  | Msg.ServerRoutedDomainsChanged _ | Msg.ServerRoutedCidrsChanged _ | Msg.ServerRelayUrlsChanged _
  | Msg.ServerRelayAuthTokenChanged _ => True
  | _ => False
  end.

Lemma plain_settings g d :
  (forall f, sf_identity (g f) = sf_identity f) ->
  (exists f, server_form (app_forms d) = Some f /\ sf_identity f = None) ->
  plain_from d (edit_server_form g d).
Proof.
  intros Hg (f & Hf & Hi) f'. unfold edit_server_form, edit_form, on_forms, on_app. cbn. rewrite Hf. cbn.
  intros [= <-]. right. intros [? E]. congruence.
Qed.

Lemma plain_identity g d : setup_plain d -> plain_from d (edit_server_identity g d).
Proof.
  intros Hp f'. unfold edit_server_identity, edit_server_form, edit_form, on_forms, on_app. cbn.
  destruct (server_form (app_forms d)) as [f|] eqn:Hf; cbn; [|by rewrite Hf]. intros [= <-]. right.
  intros [c Hc]. cbn in Hc. destruct (sf_identity f) as [i|] eqn:Hi; [|done].
  rewrite (Hp f Hf (mk_is_Some _ _ Hi)), Hi. done.
Qed.

Lemma plain_import an path d : plain_from d (import_message data_local_dir error_text an path d).
Proof.
  unfold import_message. destruct (import_profiles _ _ _ _) as [[incoming|e] m]; [|same_form].
  destruct (merge_imported _ _ _) as [[ps added] replaced].
  set (d1 := foldl _ _ replaced).
  assert (Hd1 : DesktopAppProofs.shown d1 = DesktopAppProofs.shown d) by (unfold d1; by rewrite shown_push_all).
  pose proof (shown_persist data_local_dir error_text an d1) as Hp. rewrite Hd1 in Hp.
  pose proof (f_equal server_form Hp) as Hf. intros f <-. left. symmetry.
  etransitivity; [|exact Hf]. by repeat case_match.
Qed.

Lemma plain_save_profile an d : plain_from d (save_profile_form data_local_dir error_text an d).
Proof.
  unfold save_profile_form. destruct (profile_form _) as [form|]; [|same_form].
  destruct (ProfileForm_validate _ _ _ _) as [q|]; [|same_form]. cbv zeta.
  set (text := if session_running _ _ then _ else _). set (d0 := put_profile an q d).
  assert (Hd0 : DesktopAppProofs.shown (notice_unless_told text (saving an d0)) = DesktopAppProofs.shown d).
  { rewrite shown_notice_unless, shown_persist. apply shown_put_profile. }
  intros f <-. left. exact (eq_sym (f_equal server_form Hd0)).
Qed.

Lemma plain_menu an id d : plain_from d (handle_menu_event data_local_dir error_text an id d).1.
Proof.
  unfold handle_menu_event, toggle_login_item, set_up_server, show_window. repeat case_match; try same_form.
  - unfold set_server_enabled, show_window, persist_store. brute_plain.
  - apply plain_shown, shown_copy.
  - apply plain_shown. cbn [fst]. by rewrite shown_sync_launch.
Qed.

Lemma update_plain an m d :
  setup_plain d ->
  (edits_settings m -> exists f, server_form (app_forms d) = Some f /\ sf_identity f = None) ->
  setup_plain (handle an m d).1.
Proof.
  intros Hplain Hset. enough (Hfrom : plain_from d (handle an m d).1)
    by (intros f Hf; destruct (Hfrom f Hf); [by apply Hplain|done]).
  destruct m; cbn [update no_task fst]; try same_form.
  all: try (by apply plain_identity).
  all: try (by apply plain_settings; [|apply Hset]).
  all: try (by apply plain_edit).
  all: try (brute_plain; fail).
  all: try (unfold tray_click, export_message, create_key_for_profile_form, connect_profile, show_window,
    save_key_form, delete_forward, toggle_forward, commit_forwards, set_server_enabled,
    save_forward_form, delete_server, restart_message, save_server_form, save_client_form, remove_client,
    save_identity_form, notice_unless_told, push_forwards, resume_server, revoke, persist_store; brute_plain; fail).
  - apply plain_shown, shown_refresh.
  - apply plain_shown. unfold setup_tray. rewrite shown_refresh. by case_match.
  - apply plain_menu.
  - apply plain_shown. unfold DesktopAppProofs.shown, on_app. cbn. by case_match.
  - apply plain_shown, shown_copy.
  - unfold delete_profile, persist_store. brute_plain.
  - destruct path; [apply plain_import|same_form].
  - unfold create_key_for_profile_form, edit_profile_form, edit_form, on_forms, on_app, plain_from, persist_store.
    repeat case_match; cbn; repeat case_match; auto.
  - unfold delete_key, persist_store. brute_plain.
  - unfold export_key, copy_text. repeat case_match; simplify_eq; same_form.
  - apply plain_save_profile.
  - unfold save_forward_form, commit_forwards, push_forwards, persist_store. brute_plain.
  - unfold set_up_server, show_window. brute_plain.
  - unfold set_server_enabled, show_window, persist_store. brute_plain.
  - case_match; [by apply plain_edit|same_form].
  - unfold export_server_secret, copy_text. repeat case_match; simplify_eq; same_form.
  - apply plain_shown, shown_copy.
Qed.

Lemma boot_plain an args m : setup_plain (boot data_local_dir error_text an args m).1.
Proof.
  unfold boot. destruct (load_store _ _ m) as [r m1]. destruct (loaded_or_default _ r) as [st reset].
  set (d0 := mkDesk (App_new st reset) m1 [] [] []).
  assert (Hd0 : server_form (app_forms (boot_login_item data_local_dir error_text an d0)) = None).
  { unfold boot_login_item. repeat (case_match; try done). by rewrite (saving_forms server_form). }
  set (d1 := resume_server an _).
  assert (Hd1 : server_form (app_forms d1) = None) by (unfold d1; rewrite resume_forms; exact Hd0).
  clearbody d1. intros f Hf. exfalso. by case_match; rewrite ?Hd1 in Hf; cbn in Hf; congruence.
Qed.

(** C35. Whatever the state of the application, every control the window puts within reach
    sends a message that makes sense there: it names a profile, key, forward or client
    that exists, belongs to the open form, and its button is not one the handler would
    refuse; while a store that did not load waits for its answer, only the two buttons of
    the warning are in reach. An offered Save stores exactly what its form says (the key,
    profile, forward, client, identity or server, under the id being edited or a new one,
    the others as they were) and closes the form, and an offered Connect is sent to the
    supervisor with the profile's own key. A setup form whose fields other than the
    identity are as they were made, which the Save of a server needs, is what there is at
    launch ([boot_plain]), and every offered control leaves it so (and every other event:
    [update_plain]). *)
Theorem offered_controls_work an d e c m :
  setup_plain d ->
  root rule_text now version fresh (d_app d) = Some e -> c ∈ controls e -> emits c m ->
  sensible fresh (d_app d) m /\ done_by an d (handle an m d).1 m /\ setup_plain (handle an m d).1.
Proof.
  intros Hplain Hr Hc Hm. apply root_good in Hr. unfold offers in Hr. rewrite Forall_forall in Hr.
  pose proof (Hr c Hc m Hm) as Hs. split; [done|]. unfold sensible in Hs.
  destruct (store_reset (d_app d)); [destruct Hs as [-> | ->]; (split; [done|by apply update_plain])|].
  destruct (conn_path_modal (d_app d)); [subst m; split; [done|by apply update_plain]|].
  split; [by apply sensible_done|]. apply update_plain; [done|]. by destruct m.
Qed.
End effects.

(** ** Trees that look the same: they differ at most in what secure inputs hold *)

Definition looks (e e' : Element) : Prop := masked e = masked e'.
Definition look (l l' : list Element) : Prop := map masked l = map masked l'.

Lemma look_refl l : look l l.
Proof. done. Qed.

Lemma look_cons e e' l l' : looks e e' -> look l l' -> look (e :: l) (e' :: l').
Proof. unfold looks, look. cbn. by intros -> ->. Qed.

Lemma look_app l1 l1' l2 l2' : look l1 l1' -> look l2 l2' -> look (l1 ++ l2) (l1' ++ l2').
Proof. unfold look. rewrite !map_app. by intros -> ->. Qed.

Lemma looks_Row l l' : look l l' -> looks (Row l) (Row l').
Proof. unfold looks, look. cbn. by intros ->. Qed.

Lemma looks_Column l l' : look l l' -> looks (Column l) (Column l').
Proof. unfold looks, look. cbn. by intros ->. Qed.

Lemma looks_Container s e e' : looks e e' -> looks (Container s e) (Container s e').
Proof. unfold looks. cbn. by intros ->. Qed.

Lemma looks_Scrollable e e' : looks e e' -> looks (Scrollable e) (Scrollable e').
Proof. unfold looks. cbn. by intros ->. Qed.

Lemma looks_secure p v v' f : looks (secure_input p v f) (secure_input p v' f).
Proof. done. Qed.
(** One step into two trees that look the same. *)
Ltac look_step :=
  match goal with
  | |- looks ?e ?e => reflexivity
  | |- look ?l ?l => reflexivity
  | |- looks (Row _) (Row _) => apply looks_Row
  | |- looks (Column _) (Column _) => apply looks_Column
  | |- looks (Container _ _) (Container _ _) => apply looks_Container
  | |- looks (Scrollable _) (Scrollable _) => apply looks_Scrollable
  | |- looks (form_row _ _) (form_row _ _) => apply looks_Row
  | |- looks (secure_input _ _ _) (secure_input _ _ _) => apply looks_secure
  | |- look (_ :: _) (_ :: _) => apply look_cons
  | |- look (_ ++ _) (_ ++ _) => apply look_app
  end.

(** ** Secrets *)

Section secrecy.
Context {KP : KeyPairs} {ID : Identities} {NA : IpNetworkApi} {PK : PublicKeys}.
Context (rule_text : RuleError -> bytes) (now : Z) (version fresh : bytes).

(** Other secrets in the place of the ones there are: stored ones, told apart from each
    other and from none; relay tokens being typed; keys being typed, with the same public
    half. *)
Record Redaction : Type := mkRedaction { r_stored : bytes -> bytes; r_token : bytes -> bytes; r_key : bytes -> bytes }.

Record redacts (r : Redaction) : Prop := {
  stored_inj : Inj (=) (=) (r_stored r);
  stored_empty : forall s, r_stored r s = [] <-> s = [];
  token_empty : forall s, trim (r_token r s) = [] <-> trim s = [];
  key_empty : forall s, trim (r_key r s) = [] <-> trim s = [];
  key_public : forall s, public_of_secret (trim (r_key r s)) = public_of_secret (trim s);
  key_endpoint : forall s, endpoint_of_secret (trim (r_key r s)) = endpoint_of_secret (trim s);
}.

Context (r : Redaction) (Hr : redacts r).

Definition redact_key (k : AuthKey) : AuthKey :=
  mkAuthKey (k_id k) (k_name k) (k_public k) (r_stored r (k_secret k)).
Definition redact_profile (p : Profile) : Profile :=
  mkProfile (p_id p) (p_name p) (p_server p) (p_key_id p) (p_socks p) (p_http p) (p_relay_urls p)
    (r_stored r <$> p_token p) (p_forwards p).
Definition redact_server (s : DesktopStore.ServerConfig) : DesktopStore.ServerConfig :=
  mkServer (sv_endpoint_id s) (r_stored r (sv_secret s)) (sv_clients s) (sv_domains s) (sv_cidrs s) (sv_relay_urls s)
    (r_stored r <$> sv_token s) (sv_enabled s).
Definition redact_data (x : Data) : Data :=
  mkData (redact_profile <$> a_profiles x) (redact_key <$> a_keys x) (redact_server <$> a_server x) (a_login_set_up x).

Definition redact_profile_form (f : ProfileForm) : ProfileForm := pfm_set_token (r_token r (pfm_token f)) f.
Definition redact_key_form (f : KeyForm) : KeyForm := mkKeyForm (kf_editing f) (kf_name f) (r_key r (kf_secret f)).
Definition redact_identity (c : IdentityChoice) : IdentityChoice :=
  mkIdentity (r_key r (ic_generated c)) (r_key r <$> ic_import c).
Definition redact_server_form (f : ServerForm) : ServerForm :=
  mkServerForm (redact_identity <$> sf_identity f) (sf_domains f) (sf_cidrs f) (sf_relays f) (r_token r (sf_token f)).
Definition redact_forms (f : Forms) : Forms :=
  mkForms (redact_profile_form <$> profile_form f) (redact_key_form <$> key_form f)
    (redact_server_form <$> server_form f) (client_form f) (redact_identity <$> identity_form f) (forward_form f)
    (confirm_delete f) (confirm_delete_key f) (confirm_delete_server f) (confirm_export_key f)
    (confirm_remove_client f) (confirm_export_server_secret f) (notice f).

Definition redact (a : App) : App :=
  put_applied (redact_server <$> a_applied a) (put_forms (redact_forms (a_forms a)) (put_data (redact_data (a_data a)) a)).

Abbreviation rps := (fmap redact_profile).
Abbreviation rks := (fmap redact_key).

Lemma redact_find_key ks i : find_key (rks ks) i = redact_key <$> find_key ks i.
Proof. unfold find_key. rewrite list_find_fmap. by destruct (list_find _ ks) as [[? ?]|]. Qed.

Lemma redact_find_profile ps i : find_profile (rps ps) i = redact_profile <$> find_profile ps i.
Proof. unfold find_profile. rewrite list_find_fmap. by destruct (list_find _ ps) as [[? ?]|]. Qed.

Lemma redact_ready p ks : is_ready (redact_profile p) (rks ks) = is_ready p ks.
Proof using Hr.
  unfold is_ready. rewrite redact_find_key. cbn. destruct (find_key ks (p_key_id p)) as [k|]; [|done]. cbn.
  by rewrite (bool_decide_ext _ _ (stored_empty r Hr (k_secret k))).
Qed.

Lemma nil_fmap {A B} (f : A -> B) `{!EqDecision A, !EqDecision B} l : bool_decide (f <$> l = []) = bool_decide (l = []).
Proof. apply bool_decide_ext. by destruct l. Qed.

Lemma redact_port_owner ps port x y : port_owner (rps ps) port x y = port_owner ps port x y.
Proof. induction ps as [|p ps IH]; [done|]. cbn. by rewrite IH. Qed.

Lemma redact_other_names ps own : other_names (rps ps) own = other_names ps own.
Proof. unfold other_names. by rewrite (filter_map _ _ (fun p => Some (p_id p) <> own)), <- list_fmap_compose. Qed.

Lemma redact_blocker s : start_blocker (redact_server s) = start_blocker s.
Proof using Hr. unfold start_blocker. cbn. by rewrite (bool_decide_ext _ _ (stored_empty r Hr (sv_secret s))). Qed.

Lemma redact_server_inj s s' : redact_server s = redact_server s' -> s = s'.
Proof using Hr.
  pose proof (stored_inj r Hr). destruct s, s'. unfold redact_server. cbn. intros [= -> E -> -> -> -> E' ->].
  apply (inj (r_stored r)) in E as ->. by apply (inj (fmap (r_stored r))) in E' as ->.
Qed.

Lemma redact_needs_restart a : server_needs_restart (redact a) = server_needs_restart a.
Proof using Hr.
  unfold server_needs_restart. cbn. destruct (ss_phase _), (a_server (a_data a)) as [s|]; try done; cbn.
  all: do 2 f_equal; apply bool_decide_ext; destruct (a_applied a) as [s'|]; cbn; [|done].
  all: split; [intros E; f_equal; apply redact_server_inj; by apply (inj Some)|by intros [= ->]].
Qed.

(** *** Validations *)

Definition outcome {A} (x : result FormError A) : option FormError := match x with Ok _ => None | Err e => Some e end.

Lemma outcome_bind {A B C} (x : result FormError A) (f : A -> result FormError B) (g : A -> result FormError C) :
  (forall y, outcome (f y) = outcome (g y)) -> outcome (x ≫= f) = outcome (x ≫= g).
Proof. intros Hfg. destruct x; [apply Hfg|done]. Qed.

Lemma outcome_ok {A B} (x : result FormError A) (y : result FormError B) : outcome x = outcome y -> is_ok x = is_ok y.
Proof. by destruct x, y. Qed.

Lemma outcome_complaint {A B} (x : result FormError A) (y : result FormError B) :
  outcome x = outcome y -> complaint rule_text x = complaint rule_text y.
Proof. destruct x, y; try done. by intros [= ->]. Qed.

Lemma redact_form_port ps editing text what : form_port (rps ps) editing text what = form_port ps editing text what.
Proof. unfold form_port. destruct (map_err _ _) as [port|]; [|done]. cbn. by rewrite redact_port_owner. Qed.

Lemma redact_http_port ps editing socks text : form_http_port (rps ps) editing socks text = form_http_port ps editing socks text.
Proof.
  unfold form_http_port. destruct (map_err _ _) as [port|]; [|done]. cbn. by rewrite redact_port_owner.
Qed.

Lemma token_outcome text urls : outcome (form_token (r_token r text) urls) = outcome (form_token text urls).
Proof using Hr.
  unfold form_token. rewrite (bool_decide_ext _ _ (token_empty r Hr text)).
  destruct (bool_decide (trim text = [])); [done|]. by destruct (bool_decide (urls = [])).
Qed.

Lemma outcome_last {A B C} (x y : result FormError A) (f : A -> result FormError B) (g : A -> result FormError C) :
  outcome x = outcome y -> (forall z, outcome (f z) = None) -> (forall z, outcome (g z) = None) ->
  outcome (x ≫= f) = outcome (y ≫= g).
Proof. intros Hxy Hf Hg. destruct x, y; cbn in *; try done. by rewrite Hf, Hg. Qed.

Lemma profile_outcome f ps ks :
  outcome (ProfileForm_validate (redact_profile_form f) fresh (rps ps) (rks ks))
  = outcome (ProfileForm_validate f fresh ps ks).
Proof using Hr.
  unfold ProfileForm_validate. cbv zeta. cbn [pfm_editing pfm_name pfm_server pfm_key_id pfm_socks_enabled pfm_socks
    pfm_http_enabled pfm_http pfm_relay_urls pfm_token redact_profile_form pfm_set_token].
  rewrite redact_other_names, list_find_fmap, redact_find_key, (bool_decide_ext _ _ (fmap_is_Some _ _)), redact_form_port.
  do 4 (apply outcome_bind; intros ?).
  match goal with |- outcome (?x ≫= _) = outcome (?y ≫= _) => assert (x = y) as -> by (by destruct (list_find _ ps) as [[? ?]|]) end.
  do 3 (apply outcome_bind; intros ?). rewrite redact_http_port.
  apply outcome_bind; intros ?. by apply outcome_last; [apply token_outcome|..].
Qed.

Lemma redact_key_name name ks own : validate_key_name name (rks ks) own = validate_key_name name ks own.
Proof.
  unfold validate_key_name. cbv zeta.
  by rewrite (filter_map _ _ (fun k => Some (k_id k) <> own)), <- list_fmap_compose.
Qed.

Lemma key_outcome f ks :
  outcome (KeyForm_validate (redact_key_form f) fresh (rks ks)) = outcome (KeyForm_validate f fresh ks).
Proof using Hr.
  unfold KeyForm_validate. cbv zeta. cbn [kf_name kf_editing kf_secret redact_key_form].
  rewrite redact_key_name, (bool_decide_ext _ _ (key_empty r Hr (kf_secret f))), (key_public r Hr).
  do 3 (apply outcome_bind; intros ?). rewrite list_find_fmap.
  by apply outcome_last; [destruct (list_find _ ks) as [[? ?]|]|..].
Qed.

(** The public half the form shows. *)
Definition shown_public (f : KeyForm) (ks : list AuthKey) : option bytes :=
  match KeyForm_validate f fresh ks with Ok k => Some (k_public k) | Err _ => KeyForm_public_key f end.

Lemma shown_public_of f ks : shown_public f ks = KeyForm_public_key f.
Proof.
  unfold shown_public. destruct (KeyForm_validate f fresh ks) as [k|] eqn:E; [|done].
  unfold KeyForm_validate in E. cbv zeta in E. destruct (validate_key_name _ _ _); [|done]. cbn in E.
  destruct (check _ _); [|done]. cbn in E. unfold KeyForm_public_key.
  destruct (public_of_secret _) as [p|]; [|done]. cbn in E. destruct (list_find _ ks) as [[? ?]|]; [done|].
  by injection E as <-.
Qed.

Lemma forward_redacted f ps : ForwardForm_validate f fresh (rps ps) = ForwardForm_validate f fresh ps.
Proof.
  unfold ForwardForm_validate. destruct (map_err _ (validate_label _)); [|done]. cbn.
  destruct (map_err _ (parse_port (fo_local f) _)); [|done]. cbn. by rewrite redact_port_owner.
Qed.

Lemma identity_secret c : IdentityChoice_secret (redact_identity c) = trim (r_key r (default (ic_generated c) (ic_import c))).
Proof. by destruct c as [gen [s|]]. Qed.

(** The endpoint id and the errors of an identity choice, without its secret. *)
Lemma identity_resolve c :
  snd <$> IdentityChoice_resolve (redact_identity c) = snd <$> IdentityChoice_resolve c.
Proof using Hr.
  unfold IdentityChoice_resolve. rewrite identity_secret, (key_endpoint r Hr).
  rewrite (bool_decide_ext _ _ (key_empty r Hr _)). unfold IdentityChoice_secret.
  destruct (check _ _); [|done]. cbn. by destruct (endpoint_of_secret (trim (default _ _))).
Qed.

Lemma server_outcome f s :
  sf_identity f = None ->
  outcome (ServerForm_validate (redact_server_form f) (redact_server <$> s)) = outcome (ServerForm_validate f s).
Proof using Hr.
  intros Hf. unfold ServerForm_validate, ServerForm_base. cbn [sf_identity sf_domains sf_cidrs sf_relays sf_token redact_server_form].
  rewrite Hf. cbn [fmap option_fmap option_map]. destruct s as [s|]; [|done]. cbn -[split_list RoutedSet_new form_token].
  apply outcome_bind; intros ?. by apply outcome_last; [apply token_outcome|..].
Qed.

(** *** Panes without a secret field *)

Lemma redact_is_some {A B} (f : A -> B) (o : option A) : bool_decide (is_Some (f <$> o)) = bool_decide (is_Some o).
Proof. apply bool_decide_ext, fmap_is_Some. Qed.

Lemma redact_form_open a : form_open (redact a) = form_open a.
Proof. unfold form_open. cbn. by rewrite !redact_is_some. Qed.

Lemma redact_no_profiles ps : bool_decide (rps ps = []) = bool_decide (ps = []).
Proof. apply bool_decide_ext. by destruct ps. Qed.

Lemma redact_no_keys ks : bool_decide (rks ks = []) = bool_decide (ks = []).
Proof. apply bool_decide_ext. by destruct ks. Qed.

Lemma redact_row a p : sidebar_profile_row (redact a) (redact_profile p) = sidebar_profile_row a p.
Proof. unfold sidebar_profile_row. by rewrite redact_form_open. Qed.

Lemma redact_sidebar a : sidebar version (redact a) = sidebar version a.
Proof.
  unfold sidebar. rewrite redact_form_open.
  change (a_profiles (a_data (redact a))) with (rps (a_profiles (a_data a))).
  change (a_server (a_data (redact a))) with (redact_server <$> a_server (a_data a)).
  change (server_form (a_forms (redact a))) with (redact_server_form <$> server_form (a_forms a)).
  change (profile_form (a_forms (redact a))) with (redact_profile_form <$> profile_form (a_forms a)).
  rewrite !redact_is_some, redact_no_profiles, <- list_fmap_compose.
  rewrite (list_fmap_ext _ (sidebar_profile_row a) (a_profiles (a_data a))) by (intros; apply redact_row).
  destruct (a_server (a_data a)) as [s|]; [|done]. cbn [fmap option_fmap option_map].
  unfold sidebar_server_row. by rewrite redact_form_open.
Qed.

Lemma redact_info a p snapshot : connection_info (redact a) (redact_profile p) snapshot = connection_info a p snapshot.
Proof.
  unfold connection_info. change (a_keys (a_data (redact a))) with (rks (a_keys (a_data a))).
  change (p_key_id (redact_profile p)) with (p_key_id p). rewrite redact_find_key. by destruct (find_key _ (p_key_id p)).
Qed.

Lemma redact_forward_form a f : forward_form_view rule_text fresh (redact a) f = forward_form_view rule_text fresh a f.
Proof.
  unfold forward_form_view. change (a_profiles (a_data (redact a))) with (rps (a_profiles (a_data a))).
  by rewrite forward_redacted.
Qed.

Lemma redact_not_ready a p : not_ready_text (redact a) (redact_profile p) = not_ready_text a p.
Proof.
  unfold not_ready_text. change (a_keys (a_data (redact a))) with (rks (a_keys (a_data a))).
  change (p_key_id (redact_profile p)) with (p_key_id p). rewrite redact_find_key. by destruct (find_key _ (p_key_id p)).
Qed.

Lemma redact_detail a p :
  profile_detail rule_text now fresh (redact a) (redact_profile p) = profile_detail rule_text now fresh a p.
Proof using Hr.
  unfold profile_detail. change (a_keys (a_data (redact a))) with (rks (a_keys (a_data a))).
  rewrite redact_ready, redact_not_ready.
  change (snapshot_for (redact a) (p_id (redact_profile p))) with (snapshot_for a (p_id p)).
  rewrite redact_info. destruct (connection_info a p _); [|done].
  change (forward_form (a_forms (redact a))) with (forward_form (a_forms a)).
  destruct (forward_form (a_forms a)) as [[i f]|]; cbn [mbind option_bind shown]; [rewrite redact_forward_form|]; done.
Qed.

Lemma mapM_map {A B C} (f : B -> option C) (h : A -> option C) (g : A -> B) l :
  (forall x, f (g x) = h x) -> mapM f (g <$> l) = mapM h l.
Proof. intros Hf. induction l as [|x l IH]; [done|]. cbn. rewrite Hf. by rewrite <- IH. Qed.

Lemma redact_key_section a f :
  key_section rule_text (redact a) (redact_profile_form f) = key_section rule_text a f.
Proof.
  unfold key_section. change (a_keys (a_data (redact a))) with (rks (a_keys (a_data a))).
  change (pfm_new_key (redact_profile_form f)) with (pfm_new_key f).
  change (pfm_key_id (redact_profile_form f)) with (pfm_key_id f).
  destruct (pfm_new_key f); [by rewrite redact_key_name|].
  rewrite redact_find_key, redact_no_keys, <- list_fmap_compose. by destruct (find_key _ _).
Qed.

Lemma redact_client_row a running c : authorized_client_row (redact a) running c = authorized_client_row a running c.
Proof.
  unfold authorized_client_row. change (a_keys (a_data (redact a))) with (rks (a_keys (a_data a))).
  rewrite list_find_fmap.
  change ((fun k => k_public k = ac_public c) ∘ redact_key) with (fun k => k_public k = ac_public c).
  by destruct (list_find _ (a_keys (a_data a))) as [[? ?]|].
Qed.

Lemma redact_clients a s : clients_section (redact a) (redact_server s) = clients_section a s.
Proof.
  unfold clients_section. change (sv_clients (redact_server s)) with (sv_clients s).
  case_bool_decide; [done|]. change (ss_phase (a_server_snapshot (redact a))) with (ss_phase (a_server_snapshot a)).
  rewrite (mapM_ext (authorized_client_row (redact a) _) (authorized_client_row a
    (match ss_phase (a_server_snapshot a) with SvRunning => true | _ => false end))); [done|].
  intros c. apply redact_client_row.
Qed.

Lemma redact_client_form a s f : client_form_view rule_text (redact a) (redact_server s) f = client_form_view rule_text a s f.
Proof.
  unfold client_form_view. change (a_keys (a_data (redact a))) with (rks (a_keys (a_data a))).
  change (sv_clients (redact_server s)) with (sv_clients s).
  rewrite (filter_map redact_key _ (fun k => k_public k ∉ ac_public <$> sv_clients s)) by done.
  by rewrite redact_no_keys, <- list_fmap_compose.
Qed.

Lemma redact_notes a s : server_notes (redact a) (redact_server s) = server_notes a s.
Proof using Hr. unfold server_notes. by rewrite redact_needs_restart, redact_blocker. Qed.

Lemma redact_key_card a k : key_card (redact a) (redact_key k) = key_card a k.
Proof using Hr.
  unfold key_card. change (a_profiles (a_data (redact a))) with (rps (a_profiles (a_data a))).
  change (k_id (redact_key k)) with (k_id k).
  rewrite (filter_map redact_profile _ (fun p => p_key_id p = k_id k)) by done. rewrite <- list_fmap_compose.
  change (k_secret (redact_key k)) with (r_stored r (k_secret k)).
  by rewrite (bool_decide_ext _ _ (stored_empty r Hr (k_secret k))).
Qed.

Lemma redact_logs a : logs_pane (redact a) = logs_pane a.
Proof.
  unfold logs_pane, log_filters. change (a_profiles (a_data (redact a))) with (rps (a_profiles (a_data a))).
  change (a_server (a_data (redact a))) with (redact_server <$> a_server (a_data a)).
  by rewrite redact_is_some, <- list_fmap_compose.
Qed.

(** *** Panes with one, behind dots *)

Lemma redact_profile_form_view a f :
  option_Forall2 looks (profile_form_view rule_text fresh (redact a) (redact_profile_form f))
    (profile_form_view rule_text fresh a f).
Proof using Hr.
  unfold profile_form_view. rewrite redact_key_section. destruct (key_section rule_text a f) as [rows|]; [|constructor].
  change (a_profiles (a_data (redact a))) with (rps (a_profiles (a_data a))).
  change (a_keys (a_data (redact a))) with (rks (a_keys (a_data a))).
  pose proof (profile_outcome f (a_profiles (a_data a)) (a_keys (a_data a))) as E.
  rewrite (outcome_complaint _ _ E), (outcome_ok _ _ E).
  constructor. by repeat look_step.
Qed.

Lemma redact_picker c t u m :
  looks (identity_picker rule_text (redact_identity c) t u m) (identity_picker rule_text c t u m).
Proof using Hr.
  unfold identity_picker. pose proof (identity_resolve c) as E.
  change (ic_import (redact_identity c)) with (r_key r <$> ic_import c). rewrite redact_is_some.
  apply looks_Column, look_cons; [done|]. apply look_app; [by destruct (ic_import c)|].
  destruct (IdentityChoice_resolve (redact_identity c)) as [[? ?]|], (IdentityChoice_resolve c) as [[? ?]|]; simplify_eq/=; [done|].
  destruct (ic_import c) as [s|]; cbn [fmap option_fmap option_map]; [|done].
  by rewrite (bool_decide_ext _ _ (key_empty r Hr s)).
Qed.

Lemma identity_ok c : is_ok (IdentityChoice_resolve (redact_identity c)) = is_ok (IdentityChoice_resolve c).
Proof using Hr.
  pose proof (identity_resolve c). by destruct (IdentityChoice_resolve (redact_identity c)), (IdentityChoice_resolve c).
Qed.

Lemma redact_identity_form s c :
  looks (identity_form_view rule_text (redact_server s) (redact_identity c)) (identity_form_view rule_text s c).
Proof using Hr.
  unfold identity_form_view. rewrite identity_ok. pose proof (identity_resolve c) as E.
  change (sv_secret (redact_server s)) with (r_stored r (sv_secret s)).
  rewrite (bool_decide_ext _ _ (stored_empty r Hr (sv_secret s))).
  apply looks_Column, look_app; [apply look_cons|apply look_app; [|done]].
  - by destruct (ic_import c) eqn:Hi; unfold redact_identity; rewrite Hi.
  - apply look_cons; [apply redact_picker|done].
  - by destruct (IdentityChoice_resolve (redact_identity c)) as [[? ?]|], (IdentityChoice_resolve c) as [[? ?]|]; simplify_eq/=.
Qed.

Lemma redact_endpoint_card a s :
  looks (endpoint_card rule_text (redact a) (redact_server s)) (endpoint_card rule_text a s).
Proof using Hr.
  unfold endpoint_card. change (identity_form (a_forms (redact a))) with (redact_identity <$> identity_form (a_forms a)).
  apply looks_Column, look_app; [done|].
  destruct (identity_form (a_forms a)) as [c|]; cbn [fmap option_fmap option_map].
  - repeat look_step. apply redact_identity_form.
  - change (sv_secret (redact_server s)) with (r_stored r (sv_secret s)).
    by rewrite (bool_decide_ext _ _ (stored_empty r Hr (sv_secret s))).
Qed.

Lemma redact_server_detail a s :
  option_Forall2 looks (server_detail rule_text now (redact a) (redact_server s)) (server_detail rule_text now a s).
Proof using Hr.
  unfold server_detail. rewrite redact_clients. destruct (clients_section a s) as [l|]; [|constructor].
  cbn [mbind option_bind]. rewrite redact_notes.
  change (client_form (a_forms (redact a))) with (client_form (a_forms a)).
  constructor. apply looks_Scrollable, looks_Column. apply look_cons; [done|]. apply look_app; [done|].
  apply look_app; [repeat look_step; [apply redact_endpoint_card|done]|].
  apply look_app; [|done]. destruct (client_form (a_forms a)); cbn [shown]; [by rewrite redact_client_form|done].
Qed.

Lemma redact_server_form_view a f :
  looks (server_form_view rule_text (redact a) (redact_server_form f)) (server_form_view rule_text a f).
Proof using Hr.
  unfold server_form_view. change (sf_identity (redact_server_form f)) with (redact_identity <$> sf_identity f).
  destruct (sf_identity f) as [c|] eqn:Hc; cbn [fmap option_fmap option_map]; repeat look_step.
  - unfold server_setup_card. rewrite identity_ok.
    change (ic_import (redact_identity c)) with (r_key r <$> ic_import c). rewrite redact_is_some.
    repeat look_step; [apply redact_picker|done].
  - unfold server_settings_card. change (a_server (a_data (redact a))) with (redact_server <$> a_server (a_data a)).
    pose proof (server_outcome f (a_server (a_data a)) Hc) as E.
    rewrite (outcome_complaint _ _ E), (outcome_ok _ _ E). by repeat look_step.
Qed.

Lemma redact_key_form_view a f :
  option_Forall2 looks (key_form_view rule_text fresh (redact a) (redact_key_form f)) (key_form_view rule_text fresh a f).
Proof using Hr.
  unfold key_form_view. change (a_keys (a_data (redact a))) with (rks (a_keys (a_data a))).
  fold (shown_public (redact_key_form f) (rks (a_keys (a_data a)))). fold (shown_public f (a_keys (a_data a))).
  rewrite !shown_public_of.
  assert (KeyForm_public_key (redact_key_form f) = KeyForm_public_key f) as ->.
  { unfold KeyForm_public_key. change (kf_secret (redact_key_form f)) with (r_key r (kf_secret f)).
    by rewrite (key_public r Hr). }
  match goal with |- option_Forall2 _ (?x ≫= _) (?x ≫= _) => destruct x as [rows|]; [|constructor] end.
  pose proof (key_outcome f (a_keys (a_data a))) as E. rewrite (outcome_complaint _ _ E), (outcome_ok _ _ E).
  constructor. by repeat look_step.
Qed.

Lemma redact_keys_pane a :
  option_Forall2 looks (keys_pane rule_text fresh (redact a)) (keys_pane rule_text fresh a).
Proof using Hr.
  unfold keys_pane. change (a_keys (a_data (redact a))) with (rks (a_keys (a_data a))).
  change (key_form (a_forms (redact a))) with (redact_key_form <$> key_form (a_forms a)).
  assert ((redact_key_form <$> key_form (a_forms a)) ≫= kf_editing = key_form (a_forms a) ≫= kf_editing) as ->
    by (by destruct (key_form (a_forms a))).
  rewrite (filter_map redact_key _ (fun k => key_form (a_forms a) ≫= kf_editing <> Some (k_id k))) by done.
  rewrite (mapM_map _ (key_card a)) by apply redact_key_card.
  assert (Hform : option_Forall2 look
    (match redact_key_form <$> key_form (a_forms a) with
     | Some f => e ← key_form_view rule_text fresh (redact a) f; Some [e] | None => Some [] end)
    (match key_form (a_forms a) with
     | Some f => e ← key_form_view rule_text fresh a f; Some [e] | None => Some [] end)).
  { destruct (key_form (a_forms a)) as [f|]; [|by constructor]. cbn [fmap option_fmap option_map].
    destruct (redact_key_form_view a f); constructor. by apply look_cons. }
  destruct Hform as [l l' Hl|]; [|constructor]. cbn [mbind option_bind].
  destruct (mapM _ _) as [cards|]; [|constructor]. cbn [option_bind]. rewrite redact_no_keys, length_fmap.
  constructor. apply looks_Scrollable, looks_Column. apply look_cons; [done|]. apply look_app; [done|]. by apply look_app.
Qed.

Lemma redact_detail_pane a :
  option_Forall2 looks (detail_pane rule_text now fresh (redact a)) (detail_pane rule_text now fresh a).
Proof using Hr.
  unfold detail_pane.
  match goal with |- option_Forall2 _ (?x ≫= _) (?y ≫= _) => assert (Hxy : option_Forall2 looks x y) end.
  2: { destruct Hxy; constructor. by apply looks_Container. }
  change (profile_form (a_forms (redact a))) with (redact_profile_form <$> profile_form (a_forms a)).
  change (server_form (a_forms (redact a))) with (redact_server_form <$> server_form (a_forms a)).
  change (a_selection (redact a)) with (a_selection a).
  destruct (profile_form (a_forms a)) as [f|]; cbn [fmap option_fmap option_map]; [apply redact_profile_form_view|].
  destruct (server_form (a_forms a)) as [f|]; cbn [fmap option_fmap option_map]; [constructor; apply redact_server_form_view|].
  destruct (a_selection a) as [|id| | |].
  - by constructor.
  - change (a_profiles (a_data (redact a))) with (rps (a_profiles (a_data a))). rewrite redact_find_profile.
    destruct (find_profile _ id) as [p|]; cbn [fmap option_fmap option_map]; [|by constructor].
    rewrite redact_detail. destruct (profile_detail _ _ _ _ _); by constructor.
  - change (a_server (a_data (redact a))) with (redact_server <$> a_server (a_data a)).
    destruct (a_server (a_data a)) as [s|]; [apply redact_server_detail|by constructor].
  - apply redact_keys_pane.
  - rewrite redact_logs. by constructor.
Qed.

(** C30. No secret reaches the screen: with other stored secrets in their place (keys,
    the server's identity, relay tokens), other tokens being typed, and other keys being
    typed that have the same public half, the window is the same widget for widget, text
    for text and message for message (also what its Copy buttons would copy); only the
    masked fields hold something else. *)
Theorem secrets_never_shown a :
  masked <$> root rule_text now version fresh (redact a) = masked <$> root rule_text now version fresh a.
Proof using Hr.
  unfold root. rewrite redact_sidebar.
  destruct (redact_detail_pane a) as [e e' He|]; [|done]. cbn [mbind option_bind fmap option_fmap option_map].
  change (store_reset (redact a)) with (store_reset a). change (conn_path_modal (redact a)) with (conn_path_modal a).
  unfold looks in He. f_equal. destruct (store_reset a); [|destruct (conn_path_modal a)]; cbn [masked map modal]; by rewrite He.
Qed.
End secrecy.

(** ** Where the window panics *)

Section panics.
Context {KP : KeyPairs} {ID : Identities} {NA : IpNetworkApi} {PK : PublicKeys}.
Context (rule_text : RuleError -> bytes) (now : Z) (version fresh : bytes).

(** No character of more than one byte. *)
Definition plain (s : bytes) : Prop := Forall (fun b => utf8_cont b = false) s.

Lemma plain_boundary s n : plain s -> (n <= length s)%nat -> is_char_boundary s n = true.
Proof.
  intros Hs Hn. unfold is_char_boundary. apply orb_true_iff.
  destruct (decide (n = length s)) as [->|]; [left; by apply bool_decide_eq_true_2|]. right.
  destruct (lookup_lt_is_Some_2 s n) as [b Hb]; [lia|]. rewrite Hb.
  rewrite (Forall_lookup_1 _ _ _ _ Hs Hb). done.
Qed.

Lemma plain_truncates s max : plain s -> is_Some (truncate_middle s max).
Proof.
  intros Hs. unfold truncate_middle. destruct (Nat.leb_spec (length s) max) as [|Hlt]; [by eexists|].
  assert ((max - 1) / 2 <= max)%nat by (etrans; [apply Nat.Div0.div_le_upper_bound with (q := (max - 1)%nat); lia|lia]).
  rewrite !plain_boundary by (done || lia). by eexists.
Qed.

(** Every id and public key the window shortens. *)
Record plain_app (a : App) : Prop := {
  plain_servers : Forall (fun p => plain (p_server p)) (a_profiles (a_data a));
  plain_keys : Forall (fun k => plain (k_public k)) (a_keys (a_data a));
  plain_clients : forall s, a_server (a_data a) = Some s -> Forall (fun c => plain (ac_public c)) (sv_clients s);
  plain_public : forall s public, public_of_secret s = Ok public -> plain public;
}.

Lemma bind_total {A B} (x : option A) (f : A -> option B) :
  is_Some x -> (forall y, is_Some (f y)) -> is_Some (x ≫= f).
Proof. intros [y ->] Hf. apply Hf. Qed.

Lemma find_key_Forall (Q : AuthKey -> Prop) ks i k : Forall Q ks -> find_key ks i = Some k -> Q k.
Proof.
  unfold find_key. destruct (list_find _ ks) as [[j k']|] eqn:E; [|done]. intros HQ [= <-].
  apply list_find_Some in E as (Hj & _). by eapply Forall_lookup_1.
Qed.

Section drawn.
Context (a : App) (Ha : plain_app a).

Lemma public_row_drawn public : plain public -> is_Some (public_key_row public).
Proof. intros Hp. apply bind_total; [by apply plain_truncates|by eexists]. Qed.

Lemma profile_form_drawn f : is_Some (profile_form_view rule_text fresh a f).
Proof using Ha.
  apply bind_total; [|by eexists]. unfold key_section. destruct (pfm_new_key f); [by eexists|].
  destruct (find_key _ _) as [k|] eqn:Hk; [|by eexists]. apply bind_total; [|by eexists].
  apply public_row_drawn. exact (find_key_Forall _ _ _ _ (plain_keys a Ha) Hk).
Qed.

Lemma profile_detail_drawn p : p ∈ a_profiles (a_data a) -> is_Some (profile_detail rule_text now fresh a p).
Proof using Ha.
  intros Hp. pose proof (plain_servers a Ha) as Hs. rewrite Forall_forall in Hs. apply bind_total; [|by eexists].
  apply bind_total; [by apply plain_truncates, Hs|intros node]. apply bind_total; [|by eexists].
  destruct (find_key _ _) as [k|] eqn:Hk; [|by eexists]. apply bind_total; [|by eexists].
  apply plain_truncates. exact (find_key_Forall _ _ _ _ (plain_keys a Ha) Hk).
Qed.

Lemma server_detail_drawn s : a_server (a_data a) = Some s -> is_Some (server_detail rule_text now a s).
Proof using Ha.
  intros Hs. apply bind_total; [|by eexists]. unfold clients_section. case_bool_decide; [by eexists|].
  apply bind_total; [|by eexists]. apply mapM_is_Some_2. eapply Forall_impl; [exact (plain_clients a Ha s Hs)|].
  intros c Hc. apply bind_total; [by apply plain_truncates|by eexists].
Qed.

Lemma key_form_drawn f : is_Some (key_form_view rule_text fresh a f).
Proof using Ha.
  unfold key_form_view. apply bind_total; [|by eexists].
  fold (shown_public fresh f (a_keys (a_data a))). rewrite shown_public_of.
  unfold KeyForm_public_key. destruct (public_of_secret _) as [public|] eqn:E; [|by eexists].
  apply bind_total; [|by eexists]. apply public_row_drawn. by eapply (plain_public a Ha).
Qed.

Lemma keys_pane_drawn : is_Some (keys_pane rule_text fresh a).
Proof using Ha.
  apply bind_total.
  - destruct (key_form (a_forms a)); [|by eexists]. apply bind_total; [apply key_form_drawn|by eexists].
  - intros form. apply bind_total; [|by eexists]. apply mapM_is_Some_2, Forall_forall.
    intros k [_ Hk]%list_elem_of_filter. apply bind_total; [|by eexists]. apply plain_truncates.
    pose proof (plain_keys a Ha) as Hks. rewrite Forall_forall in Hks. by apply Hks.
Qed.

(** The window is drawn as long as ids and public keys are plain. *)
Theorem plain_window_drawn : is_Some (root rule_text now version fresh a).
Proof using Ha.
  apply bind_total; [|by eexists]. apply bind_total; [|by eexists].
  destruct (profile_form (a_forms a)); [apply profile_form_drawn|].
  destruct (server_form (a_forms a)); [by eexists|].
  destruct (a_selection a) as [|id| | |]; try by eexists.
  - destruct (find_profile _ id) as [p|] eqn:Hp; [|by eexists]. apply profile_detail_drawn.
    by apply find_profile_id in Hp as [_ ?].
  - destruct (a_server (a_data a)) as [s|] eqn:Hs; [by apply server_detail_drawn|by eexists].
  - apply keys_pane_drawn.
Qed.
End drawn.
End panics.

(** ** An id that crashes the window *)

Lemma upsert_found ps p : find_profile (upsert p_id p ps) (p_id p) = Some p.
Proof.
  unfold upsert, find_profile. destruct (list_find (fun q => p_id q = p_id p) ps) as [[pos q]|] eqn:E.
  - apply list_find_Some in E as (Hpos & Hq & Hfirst).
    assert (Hlt : (pos < length ps)%nat) by by eapply lookup_lt_Some.
    rewrite (proj2 (list_find_Some _ _ pos p)); [done|]. split_and!; [by apply list_lookup_insert_eq|done|].
    intros j y Hj Hlt'. rewrite list_lookup_insert_ne in Hj by lia. by apply (Hfirst j).
  - rewrite list_find_app_r by done. cbn. by rewrite decide_True.
Qed.

Section crash.
Context `{SafeBox} `{Json (gmap bytes bytes)} (data_local_dir : option bytes).
Context `{Json StoreDoc} `{Json DevDoc} {PK : PublicKeys} `{Json Value}.
Context {KP : KeyPairs} {ID : Identities} {NA : IpNetworkApi}.
Context (error_text : StoreError -> bytes) (windows : bool).
Context (rule_text : RuleError -> bytes) (now : Z) (version fresh : bytes).

Lemma saving_data an d :
  a_data (d_app (persist_store data_local_dir error_text an d)) = a_data (d_app d)
  /\ a_selection (d_app (persist_store data_local_dir error_text an d)) = a_selection (d_app d).
Proof.
  unfold persist_store. destruct (store_reset (d_app d)); [done|]. by destruct (saved _ _ _) as [[[]|e] m].
Qed.

(** The form takes any server node id. One that cannot be cut in the middle is saved, and
    the window that then shows the profile panics. *)
Theorem saved_id_crashes_window an d form p :
  profile_form (app_forms d) = Some form -> server_form (app_forms d) = None ->
  ProfileForm_validate form (an_id an) (app_profiles d) (app_keys d) = Ok p ->
  truncate_middle (p_server p) 22 = None ->
  root rule_text now version fresh (d_app (update data_local_dir error_text windows an Msg.ProfileFormSave d).1) = None.
Proof.
  intros Hf Hsf Hv Hcut. cbn [update no_task fst]. unfold save_profile_form. rewrite Hf, Hv.
  match goal with |- context [on_forms (put_profile_form None) (set_selection _ ?x)] => set (d1 := x) end.
  assert (Hd1 : app_profiles d1 = upsert p_id p (app_profiles d) /\ server_form (app_forms d1) = None).
  { unfold d1. rewrite (notice_forms server_form), (saving_forms data_local_dir error_text server_form) by done.
    assert (E : forall t x, a_data (d_app (notice_unless_told t x)) = a_data (d_app x)).
    { intros t x. unfold notice_unless_told. by case_bool_decide. }
    rewrite E, (proj1 (saving_data an _)). unfold put_profile. split; [done|].
    destruct (list_find _ _) as [[? ?]|]; [|done]. unfold follow_rename. by destruct (_ && _). }
  clearbody d1. destruct Hd1 as [Hps Hsf1].
  unfold root, detail_pane. cbn [on_forms on_app set_selection put_d_app d_app put_forms put_selection a_forms a_data
    a_selection put_profile_form profile_form server_form]. rewrite Hsf1, Hps, upsert_found.
  unfold profile_detail, connection_info. by rewrite Hcut.
Qed.

(** Such an id: its tenth byte is inside a character. *)
Example accented_id : truncate_middle (trim (str "ma-maisoné-chez-moi-en-ville")) 22 = None
  /\ truncate_middle (str "ma-maison-chez-moi-en-ville") 22 = Some (str "ma-maison-…i-en-ville").
Proof. vm_compute. done. Qed.
End crash.

(** ** Witnesses *)

Section witnesses.
Import RefStore RefDesk.

Definition ref_rules (e : RuleError) : bytes := str "invalid".

(** The key form is open with a key that can be saved. *)
Definition ref_keys_desk : Desk :=
  let d := ref_desk_on no_store
             (put_key_form (Some (mkKeyForm None (str "home") (str "sec9"))) Forms_closed) in
  put_d_app (put_selection SelKeys (d_app d)) d.

Lemma offered_controls_work_witness :
  let d' := (update ref_dir ref_text true ref_answers Msg.KeyFormSave ref_keys_desk).1 in
  sensible (str "x") (d_app ref_keys_desk) Msg.KeyFormSave
  /\ done_by ref_answers ref_keys_desk d' Msg.KeyFormSave /\ setup_plain d'.
Proof.
  destruct (root ref_rules 0 [] (str "x") (d_app ref_keys_desk)) as [e|] eqn:He; [|by vm_compute in He].
  apply (offered_controls_work ref_dir ref_text true ref_rules 0 [] (str "x") ref_answers ref_keys_desk e
           (Press Msg.KeyFormSave)); [done|exact He| |reflexivity].
  assert (Hin : Press Msg.KeyFormSave ∈ from_option controls [] (root ref_rules 0 [] (str "x") (d_app ref_keys_desk))).
  { vm_compute. repeat (first [apply list_elem_of_here|apply list_elem_of_further]). }
  rewrite He in Hin. exact Hin.
Defined.

(** Two secrets change places; the key crates of this instance see no difference. *)
Definition swap (x y s : bytes) : bytes := if bool_decide (s = x) then y else if bool_decide (s = y) then x else s.

Lemma swap_involutive x y s : swap x y (swap x y s) = s.
Proof. unfold swap. repeat case_bool_decide; congruence. Qed.

Lemma swap_trim x y s : trim x <> [] -> trim y <> [] -> trim (swap x y s) = [] <-> trim s = [].
Proof. intros Hx Hy. unfold swap. repeat case_bool_decide; subst; tauto. Qed.

Definition blind_keys : KeyPairs := {| public_of_secret _ := Ok (str "pub") |}.
Definition blind_identities : Identities := {| endpoint_of_secret _ := Ok (str "ep") |}.

Definition ref_redaction : Redaction :=
  mkRedaction (swap (str "sec1") (str "other")) (swap (str "token") (str "guess")) (swap (str "sec9") (str "sec8")).

Lemma ref_redacts : @redacts blind_keys blind_identities ref_redaction.
Proof.
  split; cbn; try done.
  - intros s s' E. rewrite <- (swap_involutive (str "sec1") (str "other") s), E. apply swap_involutive.
  - intros s. unfold swap. repeat case_bool_decide; by subst.
  - intros s. apply swap_trim; by vm_compute.
  - intros s. apply swap_trim; by vm_compute.
Qed.

Lemma secrets_never_shown_witness :
  let a := d_app ref_keys_desk in
  let view := @root blind_keys blind_identities _ _ ref_rules 0 [] (str "x") in
  a <> redact ref_redaction a /\ masked <$> view (redact ref_redaction a) = masked <$> view a.
Proof.
  split; [|by apply secrets_never_shown, ref_redacts].
  intros E. apply (f_equal (fun a => kf_secret <$> key_form (a_forms a))) in E. by vm_compute in E.
Defined.
End witnesses.
